(** * obsidian-tasks-mcp: task line parsing, serialization and filter queries

    A shallow embedding of [src/main.ts]: the [TaskParser] class
    ([parseTaskLine], [applyFilter], [queryTasks]) and the part of
    [TasksMcpPlugin] that reads and writes task lines ([getDailyNotePath],
    [buildTaskMarkdown], [addTaskToFile], [updateTaskInFile],
    [removeTaskFromFile], [parseTaskId], [getAllTasks] and the seven branches
    of [handleToolCall]).  The HTTP server, the JSON-RPC envelope and the
    settings tab are left out.

    Strings are sequences of Unicode code points.  The regular expressions
    of the source carry the [u] flag, or name only characters of the Basic
    Multilingual Plane and take a character outside it whole, so matching by
    code point agrees with the source on well-formed strings.  The marker
    glyphs are the character sequences [main.ts] writes ([Glyph]). *)

From Stdlib Require Import String Ascii.
From Stdlib Require Import List NArith ZArith Lia Bool DecimalPos Sorted.
Import ListNotations.

Local Open Scope N_scope.
Local Open Scope list_scope.

(* ================================================================== *)
(** ** JavaScript strings *)

Module JS.

Definition char := N.
Definition str := list char.

Definition ch (a : ascii) : char := N_of_ascii a.
Arguments ch a%_char.

(** A source literal made of ASCII characters. *)
Definition lit (s : string) : str := map N_of_ascii (list_ascii_of_string s).
Arguments lit s%_string.

Fixpoint eqb_str (a b : str) : bool :=
  match a, b with
  | [], [] => true
  | x :: a', y :: b' => (x =? y) && eqb_str a' b'
  | _, _ => false
  end.

(** [LineTerminator]: what [.] refuses without the [s] flag. *)
Definition isLineTerminator (c : char) : bool :=
  (c =? 0x0A) || (c =? 0x0D) || (c =? 0x2028) || (c =? 0x2029).

(** [\s], and what [trim] removes: WhiteSpace and LineTerminator. *)
Definition isWs (c : char) : bool :=
  ((0x09 <=? c) && (c <=? 0x0D)) || (c =? 0x20) || (c =? 0xA0) || (c =? 0x1680)
  || ((0x2000 <=? c) && (c <=? 0x200A)) || (c =? 0x2028) || (c =? 0x2029)
  || (c =? 0x202F) || (c =? 0x205F) || (c =? 0x3000) || (c =? 0xFEFF).

(** [\d] and [[0-9]]. *)
Definition isDigit (c : char) : bool := (0x30 <=? c) && (c <=? 0x39).

Definition isSpace (c : char) : bool := c =? 0x20.

(** Longest prefix whose characters satisfy [p], and what follows it. *)
Fixpoint span (p : char -> bool) (s : str) : str * str :=
  match s with
  | [] => ([], [])
  | c :: r => if p c then let (a, b) := span p r in (c :: a, b) else ([], s)
  end.

Definition takeWhile (p : char -> bool) (s : str) : str := fst (span p s).
Definition dropWhile (p : char -> bool) (s : str) : str := snd (span p s).

Definition trimStart (s : str) : str := dropWhile isWs s.
Definition trimEnd (s : str) : str := rev (dropWhile isWs (rev s)).
Definition trim (s : str) : str := trimEnd (trimStart s).

(** [s.startsWith(pat)] *)
Fixpoint startsWith (s pat : str) : bool :=
  match pat, s with
  | [], _ => true
  | p :: pat', c :: s' => (c =? p) && startsWith s' pat'
  | _ :: _, [] => false
  end.

(** [s.includes(pat)] *)
Fixpoint includes (s pat : str) : bool :=
  startsWith s pat ||
  match s with
  | [] => false
  | _ :: r => includes r pat
  end.

(** [s.substring(n)] *)
Definition substring (n : nat) (s : str) : str := skipn n s.

(** [s.split(sep)] for a non-empty separator: [cur] is the piece being read
    (reversed), [skip] counts the characters of a separator still to pass. *)
Fixpoint split_go (sep : str) (skip : nat) (cur : str) (s : str) : list str :=
  match s with
  | [] => [rev cur]
  | c :: r =>
      match skip with
      | S k => split_go sep k cur r
      | O => if startsWith s sep
             then rev cur :: split_go sep (length sep - 1) [] r
             else split_go sep 0 (c :: cur) r
      end
  end.

Definition split (s sep : str) : list str := split_go sep 0 [] s.

(** [parts.join(sep)] *)
Fixpoint join (sep : str) (parts : list str) : str :=
  match parts with
  | [] => []
  | [p] => p
  | p :: rest => p ++ sep ++ join sep rest
  end.

(** [s.replace(pat, '')] with a string pattern: the first occurrence goes. *)
Fixpoint removeFirst (pat : str) (s : str) : str :=
  if startsWith s pat then skipn (length pat) s
  else match s with
       | [] => []
       | c :: r => c :: removeFirst pat r
       end.

(** [s.lastIndexOf(c)] for a one-character needle; [None] is [-1]. *)
Fixpoint lastIndexOf (c : char) (s : str) : option nat :=
  match s with
  | [] => None
  | x :: r =>
      match lastIndexOf c r with
      | Some i => Some (S i)
      | None => if x =? c then Some O else None
      end
  end.

(** UTF-16 code units of a code point: [<] and [>] on strings compare these. *)
Definition utf16 (c : char) : list N :=
  if c <? 0x10000 then [c]
  else [0xD800 + (c - 0x10000) / 0x400; 0xDC00 + (c - 0x10000) mod 0x400].

Fixpoint lex_lt (a b : list N) : bool :=
  match a, b with
  | _, [] => false
  | [], _ :: _ => true
  | x :: a', y :: b' => (x <? y) || ((x =? y) && lex_lt a' b')
  end.

Definition str_lt (a b : str) : bool := lex_lt (flat_map utf16 a) (flat_map utf16 b).

(** Decimal digits of a number, as template literals print an integer. *)
Fixpoint digits_of_uint (d : Decimal.uint) : str :=
  match d with
  | Decimal.Nil => []
  | Decimal.D0 d' => ch "0" :: digits_of_uint d'
  | Decimal.D1 d' => ch "1" :: digits_of_uint d'
  | Decimal.D2 d' => ch "2" :: digits_of_uint d'
  | Decimal.D3 d' => ch "3" :: digits_of_uint d'
  | Decimal.D4 d' => ch "4" :: digits_of_uint d'
  | Decimal.D5 d' => ch "5" :: digits_of_uint d'
  | Decimal.D6 d' => ch "6" :: digits_of_uint d'
  | Decimal.D7 d' => ch "7" :: digits_of_uint d'
  | Decimal.D8 d' => ch "8" :: digits_of_uint d'
  | Decimal.D9 d' => ch "9" :: digits_of_uint d'
  end.

Definition numberToString (z : Z) : str :=
  match z with
  | Z0 => lit "0"
  | Zpos p => digits_of_uint (Pos.to_uint p)
  | Zneg p => ch "-" :: digits_of_uint (Pos.to_uint p)
  end.

(** Value of a digit in radix 10 or 16. *)
Definition digitValue (radix : N) (c : char) : option N :=
  if isDigit c then Some (c - 0x30)
  else if (radix =? 16) && (0x61 <=? c) && (c <=? 0x66) then Some (c - 0x61 + 10)
  else if (radix =? 16) && (0x41 <=? c) && (c <=? 0x46) then Some (c - 0x41 + 10)
  else None.

(** Reads the longest run of radix digits at the head of [s]; [acc] is the
    value so far and [seen] tells whether a digit was read. *)
Fixpoint readDigits (radix : N) (seen : bool) (acc : N) (s : str) : option N :=
  match s with
  | [] => if seen then Some acc else None
  | c :: r =>
      match digitValue radix c with
      | Some d => readDigits radix true (acc * radix + d) r
      | None => if seen then Some acc else None
      end
  end.

(** A sign at the head of [s]: whether it is [-], and what follows it. *)
Definition splitSign (s : str) : bool * str :=
  match s with
  | c :: r => if c =? ch "-" then (true, r)
              else if c =? ch "+" then (false, r) else (false, s)
  | [] => (false, s)
  end.

(** The radix [0x] or [0X] announces, and what follows the prefix. *)
Definition splitRadix (s : str) : N * str :=
  match s with
  | c0 :: c1 :: r =>
      if (c0 =? ch "0") && ((c1 =? ch "x") || (c1 =? ch "X")) then (16, r) else (10, s)
  | _ => (10, s)
  end.

(** [parseInt(s)] with no radix: leading white space is skipped, a sign is
    read, then a [0x]/[0X] prefix selects radix 16; the longest run of digits
    is the value and what follows it is ignored.  [None] is [NaN].  The
    result is the integer the digits denote.  The source's [number] is that
    integer as long as it is below 2^53 in magnitude, and the double nearest
    to it from there on: a property that names the value read carries the
    bound [Spec.safeInteger]; whether the result is [NaN] does not depend on
    it. *)
Definition parseInt (s : str) : option Z :=
  let (neg, s2) := splitSign (trimStart s) in
  let (radix, s3) := splitRadix s2 in
  match readDigits radix false 0 s3 with
  | Some n => Some (if neg then (- Z.of_N n)%Z else Z.of_N n)
  | None => None
  end.

End JS.

(* ================================================================== *)
(** ** Regular expression searches

    A regular expression is embedded by its matcher at one position: given
    whether the position is index 0 and the text from the position on, the
    length of the match there, following the source's backtracking order.
    The three ways the source applies an expression walk the text with it. *)

Module Regex.
Import JS.

Definition matcher := bool -> str -> option nat.

(** [s.match(re)] without [g], reduced to what the source reads from the
    match: [m] gives the capture at a position, the leftmost one wins. *)
Fixpoint search {A : Type} (m : str -> option A) (s : str) : option A :=
  match m s with
  | Some a => Some a
  | None => match s with
            | [] => None
            | _ :: r => search m r
            end
  end.

(** [s.match(re)] with [g]: all matches, left to right, none overlapping.
    [skip] counts the characters of the last match still to pass. *)
Fixpoint matchAll_go (m : matcher) (start : bool) (skip : nat) (s : str) : list str :=
  match s with
  | [] => []
  | _ :: r =>
      match skip with
      | S k => matchAll_go m false k r
      | O => match m start s with
             | Some len => firstn len s :: matchAll_go m false (len - 1) r
             | None => matchAll_go m false 0 r
             end
      end
  end.

Definition matchAll (m : matcher) (s : str) : list str := matchAll_go m true 0 s.

(** [s.replace(re, '')] with [g]: every match is removed. *)
Fixpoint removeAll_go (m : matcher) (start : bool) (skip : nat) (s : str) : str :=
  match s with
  | [] => []
  | c :: r =>
      match skip with
      | S k => removeAll_go m false k r
      | O => match m start s with
             | Some (S len) => removeAll_go m false len r
             | _ => c :: removeAll_go m false 0 r
             end
      end
  end.

Definition removeAll (m : matcher) (s : str) : str := removeAll_go m true 0 s.

(** [\d{4}-\d{2}-\d{2}] at the head of [s]. *)
Definition isoDate (s : str) : option str :=
  match s with
  | y1 :: y2 :: y3 :: y4 :: h1 :: m1 :: m2 :: h2 :: d1 :: d2 :: _ =>
      if isDigit y1 && isDigit y2 && isDigit y3 && isDigit y4 && (h1 =? ch "-")
         && isDigit m1 && isDigit m2 && (h2 =? ch "-") && isDigit d1 && isDigit d2
      then Some (firstn 10 s) else None
  | _ => None
  end.

(** [[G]\s?(\d{4}-\d{2}-\d{2})] where [[G]] is a class: one character of
    [glyphs] stands at the position.  The capture and the length of the
    match.  When [\s?] has taken a character and no date follows, giving it
    back leaves the date to start on that white space, which fails as
    well. *)
Definition glyphDate (glyphs : list char) (s : str) : option (str * nat) :=
  match s with
  | g :: r =>
      if existsb (N.eqb g) glyphs then
        match r with
        | w :: r' =>
            if isWs w then option_map (fun d => (d, 12%nat)) (isoDate r')
            else option_map (fun d => (d, 11%nat)) (isoDate r)
        | [] => None
        end
      else None
  | [] => None
  end.

(** [G\s?(\d{4}-\d{2}-\d{2})] where [G] is a sequence of characters: the
    whole of [glyph] stands at the position. *)
Definition markDate (glyph : str) (s : str) : option (str * nat) :=
  if startsWith s glyph then
    match skipn (length glyph) s with
    | w :: r' =>
        if isWs w then option_map (fun d => (d, (length glyph + 11)%nat)) (isoDate r')
        else option_map (fun d => (d, (length glyph + 10)%nat)) (isoDate (w :: r'))
    | [] => None
    end
  else None.

End Regex.

(* ================================================================== *)
(** ** The task record *)

Inductive Status := incomplete | complete | cancelled | in_progress.

Inductive Priority := highest | high | medium | low | lowest.

Module Glyph.
Import JS.
(** The marker glyphs, as [main.ts] writes them in the expressions of
    [TaskParser], in [priorityEmojis], in [buildTaskMarkdown] and in the
    [update_task] branch alike.  Each is a sequence of three, four or seven
    characters: the bytes of the emoji the README shows, in UTF-8, with each
    byte standing as the character Mac Roman gives it -- the calendar, bytes
    F0 9F 93 85, is the four characters U+F8FF U+00FC U+00EC U+00D6.  All of
    them are in the Basic Multilingual Plane. *)
Definition calendar : str := [0xF8FF; 0xFC; 0xEC; 0xD6].         (* due date *)
Definition spiralCalendar : str :=                               (* due date, second form *)
  [0xF8FF; 0xFC; 0xF3; 0xEC; 0xD4; 0x220F; 0xE8].
Definition hourglass : str := [0x201A; 0xE8; 0x2265].            (* scheduled date *)
Definition airplane : str := [0xF8FF; 0xFC; 0xF5; 0xB4].         (* start date *)
Definition plus : str := [0x201A; 0xFB; 0xEF].                   (* created date *)
Definition repeat : str := [0xF8FF; 0xFC; 0xEE; 0xC5].           (* recurrence *)
Definition doubleUp : str := [0x201A; 0xE8; 0xB4].               (* high; twice: highest *)
Definition up : str := [0xF8FF; 0xFC; 0xEE; 0xBA].               (* medium *)
Definition down : str := [0xF8FF; 0xFC; 0xEE; 0x3A9].            (* low *)
Definition doubleDown : str := [0x201A; 0xE8; 0xA8].             (* lowest *)
End Glyph.

Record Task := mkTask {
  id : JS.str;
  description : JS.str;
  status : Status;
  statusSymbol : JS.str;
  filePath : JS.str;
  lineNumber : Z;
  tags : list JS.str;
  dueDate : option JS.str;
  scheduledDate : option JS.str;
  createdDate : option JS.str;
  startDate : option JS.str;
  priority : option Priority;
  recurrence : option JS.str;
  originalMarkdown : JS.str
}.

(* ================================================================== *)
(** ** class TaskParser *)

Module TaskParser.
Import JS Regex.

(** [[-*+]|[0-9]+[.)]] at the head of [s]: the marker and what follows. *)
Definition listMarker (s : str) : option (str * str) :=
  match s with
  | c :: r =>
      if (c =? ch "-") || (c =? ch "*") || (c =? ch "+") then Some ([c], r)
      else
        match span isDigit s with
        | ((_ :: _) as ds, d :: r') =>
            if (d =? ch ".") || (d =? ch ")") then Some (ds ++ [d], r') else None
        | _ => None
        end
  | [] => None
  end.

(** [[\s\t>]] *)
Definition isIndent (c : char) : bool := isWs c || (c =? ch ">").

(** [taskRegex], with [u]: from the start of the line, group 1 is a run of
    [[\s\t>]], group 2 a list marker, then one or more spaces, the status
    character (group 3, any character [.] accepts) in brackets, any spaces,
    and group 4, the rest of the line as far as [.] goes.  Each greedy run
    is followed by a character outside its class, so no shorter run can
    match where the longest fails. *)
Definition taskRegex (line : str) : option (str * str * str * str) :=
  let (indent, s1) := span isIndent line in
  match listMarker s1 with
  | Some (marker, s2) =>
      match span isSpace s2 with
      | (_ :: _, o :: c :: e :: s3) =>
          if (o =? ch "[") && negb (isLineTerminator c) && (e =? ch "]")
          then Some (indent, marker, [c],
                     takeWhile (fun x => negb (isLineTerminator x)) (dropWhile isSpace s3))
          else None
      | _ => None
      end
  | None => None
  end.

(** The characters the negated class of [hashTagsRegex] refuses: the space,
    the double quote and the punctuation below. *)
Definition tagStop (c : char) : bool :=
  existsb (N.eqb c) (0x22 :: lit " !@#$%^&*(),.?:{}|<>").

(** [#] and one or more characters that [stop] lets through. *)
Definition tagBody (stop : char -> bool) (s : str) : option nat :=
  match s with
  | c :: r =>
      if c =? ch "#" then
        match length (takeWhile (fun x => negb (stop x)) r) with
        | O => None
        | S n => Some (S (S n))
        end
      else None
  | [] => None
  end.

(** [(^|\s)#X+] where [X] is what [stop] lets through. *)
Definition tagAt (stop : char -> bool) : matcher := fun start s =>
  match (if start then tagBody stop s else None) with
  | Some n => Some n
  | None =>
      match s with
      | w :: r => if isWs w then option_map S (tagBody stop r) else None
      | [] => None
      end
  end.

(** [hashTagsRegex]: [(^|\s)#] and one or more characters outside [tagStop],
    with [g]. *)
Definition hashTagsRegex : matcher := tagAt tagStop.

(** The class of [dueDateRegex] lists the characters of the two due-date
    glyphs between its brackets: a class takes each of them by itself, so
    any one of the eight characters stands for the glyph. *)
Definition dueGlyphs : list char := Glyph.calendar ++ Glyph.spiralCalendar.

(** [dueDateRegex], [scheduledDateRegex], [startDateRegex],
    [createdDateRegex]: group 1 at a position.  The last three have their
    glyph outside a class, as a sequence. *)
Definition dueDateRegex (s : str) : option str := option_map fst (glyphDate dueGlyphs s).
Definition scheduledDateRegex (s : str) : option str :=
  option_map fst (markDate Glyph.hourglass s).
Definition startDateRegex (s : str) : option str :=
  option_map fst (markDate Glyph.airplane s).
Definition createdDateRegex (s : str) : option str :=
  option_map fst (markDate Glyph.plus s).

(** [recurrenceRegex = /G\s?(.*?)(?=(\s|$))/u], group 1 at a position.  The
    lazy group grows until white space or the end follows; every character
    [.] refuses is white space, so it is the run of characters up to there. *)
Definition recurrenceRegex (s : str) : option str :=
  if startsWith s Glyph.repeat then
    let r := skipn (length Glyph.repeat) s in
    Some (takeWhile (fun x => negb (isWs x))
            (match r with
             | w :: r' => if isWs w then r' else r
             | [] => r
             end))
  else None.

(** The priority alternation: the doubled glyph is tried first. *)
Definition priorityRegex : matcher := fun _ s =>
  if startsWith s (Glyph.doubleUp ++ Glyph.doubleUp)
  then Some (length (Glyph.doubleUp ++ Glyph.doubleUp))
  else if startsWith s Glyph.doubleUp then Some (length Glyph.doubleUp)
  else if startsWith s Glyph.up then Some (length Glyph.up)
  else if startsWith s Glyph.down then Some (length Glyph.down)
  else if startsWith s Glyph.doubleDown then Some (length Glyph.doubleDown)
  else None.

Definition priorityOfGlyph (firstPriority : str) : option Priority :=
  if eqb_str firstPriority (Glyph.doubleUp ++ Glyph.doubleUp) then Some highest
  else if eqb_str firstPriority Glyph.doubleUp then Some high
  else if eqb_str firstPriority Glyph.up then Some medium
  else if eqb_str firstPriority Glyph.down then Some low
  else if eqb_str firstPriority Glyph.doubleDown then Some lowest
  else None.

Definition statusOfChar (statusChar : str) : Status :=
  if eqb_str statusChar (lit "x") || eqb_str statusChar (lit "X") then complete
  else if eqb_str statusChar (lit "-") then cancelled
  else if eqb_str statusChar (lit "/") then in_progress
  else incomplete.

Definition parseTaskLine (line filePath : str) (lineNumber : Z) : option Task :=
  match taskRegex line with
  | None => None
  | Some (_, _, statusChar, rest) =>
      let description := trim rest in
      let tags :=
        filter (fun tag => negb (length tag =? 0)%nat)
               (map trim (matchAll hashTagsRegex description)) in
      let priority :=
        match matchAll priorityRegex description with
        | firstPriority :: _ => priorityOfGlyph firstPriority
        | [] => None
        end in
      Some {| id := filePath ++ lit ":" ++ numberToString lineNumber;
              description := description;
              status := statusOfChar statusChar;
              statusSymbol := statusChar;
              filePath := filePath;
              lineNumber := lineNumber;
              tags := tags;
              dueDate := search dueDateRegex description;
              scheduledDate := search scheduledDateRegex description;
              startDate := search startDateRegex description;
              createdDate := search createdDateRegex description;
              priority := priority;
              recurrence := search recurrenceRegex description;
              originalMarkdown := line |}
  end.

End TaskParser.

(* ================================================================== *)
(** ** The filter evaluator *)

Module Filter.
Import JS Regex.

Definition priorityName (p : Priority) : str :=
  match p with
  | highest => lit "highest"
  | high => lit "high"
  | medium => lit "medium"
  | low => lit "low"
  | lowest => lit "lowest"
  end.

Definition status_eqb (a b : Status) : bool :=
  match a, b with
  | incomplete, incomplete | complete, complete
  | cancelled, cancelled | in_progress, in_progress => true
  | _, _ => false
  end.

Definition isSome {A : Type} (o : option A) : bool :=
  match o with Some _ => true | None => false end.

(** [field === value], [field !== undefined && field < value] and
    [... > value] on an optional date. *)
Definition dateIs (field : option str) (value : str) : bool :=
  match field with Some d => eqb_str d value | None => false end.
Definition dateBefore (field : option str) (value : str) : bool :=
  match field with Some d => str_lt d value | None => false end.
Definition dateAfter (field : option str) (value : str) : bool :=
  match field with Some d => str_lt value d | None => false end.

(** [\s+] at the head of [s]: what follows the run. *)
Definition ws1 (s : str) : option str :=
  match span isWs s with
  | (_ :: _, r) => Some r
  | _ => None
  end.

(** A literal at the head of [s]: what follows it. *)
Definition word (w : str) (s : str) : option str :=
  if startsWith s w then Some (skipn (length w) s) else None.

(** [(\d{4}-\d{2}-\d{2})$] *)
Definition dateEnd (s : str) : option str :=
  match isoDate s with
  | Some d => if (length s =? 10)%nat then Some d else None
  | None => None
  end.

Definition bind {A B : Type} (o : option A) (f : A -> option B) : option B :=
  match o with Some a => f a | None => None end.

(** [/^due\s+(?:on\s+)?(\d{4}-\d{2}-\d{2})$/], group 1. *)
Definition dueOnRegex (filter : str) : option str :=
  bind (word (lit "due") filter) (fun r0 =>
  bind (ws1 r0) (fun r1 =>
  match bind (word (lit "on") r1) (fun r2 => bind (ws1 r2) dateEnd) with
  | Some d => Some d
  | None => dateEnd r1
  end)).

(** [/^due\s+before\s+(\d{4}-\d{2}-\d{2})$/] and the same with [after]. *)
Definition dueRelRegex (rel : str) (filter : str) : option str :=
  bind (word (lit "due") filter) (fun r0 =>
  bind (ws1 r0) (fun r1 =>
  bind (word rel r1) (fun r2 =>
  bind (ws1 r2) dateEnd))).

(** [s.replace(/^#/, '')] *)
Definition dropHash (s : str) : str :=
  match s with
  | c :: r => if c =? ch "#" then r else s
  | [] => s
  end.

(** [s.replace(/^tag includes? /, '')] *)
Definition dropTagIncludes (s : str) : str :=
  match word (lit "tag includes ") s with
  | Some r => r
  | None => match word (lit "tag include ") s with
            | Some r => r
            | None => s
            end
  end.

(** [s.replace(/^tag (does not|do not) include /, '')] *)
Definition dropTagExcludes (s : str) : str :=
  match word (lit "tag does not include ") s with
  | Some r => r
  | None => match word (lit "tag do not include ") s with
            | Some r => r
            | None => s
            end
  end.

(** [parts.every(f)] and [parts.some(f)], stopping at the first answer that
    decides; [None] when an answer is missing. *)
Fixpoint every (f : str -> option bool) (parts : list str) : option bool :=
  match parts with
  | [] => Some true
  | p :: rest =>
      match f p with
      | Some true => every f rest
      | other => other
      end
  end.

Fixpoint some (f : str -> option bool) (parts : list str) : option bool :=
  match parts with
  | [] => Some false
  | p :: rest =>
      match f p with
      | Some false => some f rest
      | other => other
      end
  end.

Section Evaluator.

(** [toLowerCase] on the characters outside ASCII: the lower-case mapping of
    one code point.  (The few code points whose lower case is longer than
    one code point are outside this embedding.) *)
Variable lowerExt : char -> char.

(** What [getToday()] returns when the filter is evaluated. *)
Variable today : str.

Definition lowerChar (c : char) : char :=
  if (0x41 <=? c) && (c <=? 0x5A) then c + 0x20
  else if c <? 0x80 then c
  else lowerExt c.

Definition toLowerCase (s : str) : str := map lowerChar s.

(** [filter.toLowerCase().trim()], the first statement of [applyFilter]. *)
Definition normalized (filter : str) : str := trim (toLowerCase filter).

(** The predicates of [applyFilter] below its boolean combinations: [filter]
    is already in lower case and trimmed. *)
Definition leafFilter (task : Task) (filter : str) : bool :=
  (* Status filters *)
  if eqb_str filter (lit "done") then status_eqb (status task) complete
  else if eqb_str filter (lit "not done")
  then status_eqb (status task) incomplete || status_eqb (status task) in_progress
  else if eqb_str filter (lit "cancelled") then status_eqb (status task) cancelled
  else if eqb_str filter (lit "in progress") then status_eqb (status task) in_progress
  (* Due date filters *)
  else if eqb_str filter (lit "due today") then dateIs (dueDate task) today
  else if eqb_str filter (lit "due before today") || eqb_str filter (lit "overdue")
  then dateBefore (dueDate task) today
  else if eqb_str filter (lit "due after today") then dateAfter (dueDate task) today
  else if eqb_str filter (lit "no due date") then negb (isSome (dueDate task))
  else if eqb_str filter (lit "has due date") then isSome (dueDate task)
  else
  (* Due date with specific date *)
  match dueOnRegex filter with
  | Some d => dateIs (dueDate task) d
  | None =>
  match dueRelRegex (lit "before") filter with
  | Some d => dateBefore (dueDate task) d
  | None =>
  match dueRelRegex (lit "after") filter with
  | Some d => dateAfter (dueDate task) d
  | None =>
  (* Scheduled date filters *)
  if eqb_str filter (lit "scheduled today") then dateIs (scheduledDate task) today
  else if eqb_str filter (lit "scheduled before today")
  then dateBefore (scheduledDate task) today
  else if eqb_str filter (lit "no scheduled date") then negb (isSome (scheduledDate task))
  else if eqb_str filter (lit "has scheduled date") then isSome (scheduledDate task)
  (* Start date filters *)
  else if eqb_str filter (lit "starts today") then dateIs (startDate task) today
  else if eqb_str filter (lit "starts before today")
  then dateBefore (startDate task) today
  else if eqb_str filter (lit "no start date") then negb (isSome (startDate task))
  else if eqb_str filter (lit "has start date") then isSome (startDate task)
  (* Tag filters *)
  else if eqb_str filter (lit "no tags") then (length (tags task) =? 0)%nat
  else if eqb_str filter (lit "has tags") then negb (length (tags task) =? 0)%nat
  else if startsWith filter (lit "tag includes ") || startsWith filter (lit "tag include ")
  then
    let tagToFind := dropHash (trim (dropTagIncludes filter)) in
    existsb (fun tag => includes (toLowerCase (dropHash tag)) tagToFind) (tags task)
  else if startsWith filter (lit "tag does not include ")
          || startsWith filter (lit "tag do not include ")
  then
    let tagToExclude := dropHash (trim (dropTagExcludes filter)) in
    negb (existsb (fun tag => includes (toLowerCase (dropHash tag)) tagToExclude)
            (tags task))
  (* Path filters *)
  else if startsWith filter (lit "path includes ")
  then
    let pathToFind := trim (removeFirst (lit "path includes ") filter) in
    includes (toLowerCase (filePath task)) (toLowerCase pathToFind)
  else if startsWith filter (lit "path does not include ")
  then
    let pathToExclude := trim (removeFirst (lit "path does not include ") filter) in
    negb (includes (toLowerCase (filePath task)) (toLowerCase pathToExclude))
  (* Description filters *)
  else if startsWith filter (lit "description includes ")
  then
    let textToFind := trim (removeFirst (lit "description includes ") filter) in
    includes (toLowerCase (description task)) (toLowerCase textToFind)
  else if startsWith filter (lit "description does not include ")
  then
    let textToExclude := trim (removeFirst (lit "description does not include ") filter) in
    negb (includes (toLowerCase (description task)) (toLowerCase textToExclude))
  (* Priority filters *)
  else if startsWith filter (lit "priority is ")
  then
    let wanted := trim (removeFirst (lit "priority is ") filter) in
    if eqb_str wanted (lit "none") then negb (isSome (priority task))
    else match priority task with
         | Some p => eqb_str (priorityName p) wanted
         | None => false
         end
  (* Recurrence filter *)
  else if eqb_str filter (lit "is recurring") then isSome (recurrence task)
  else if eqb_str filter (lit "is not recurring") then negb (isSome (recurrence task))
  (* Default: check if description contains the filter text *)
  else includes (toLowerCase (description task)) filter
  end end end.

(** [applyFilter], with the depth of its recursion bounded by [fuel]. *)
Fixpoint applyFilter_go (fuel : nat) (task : Task) (filter : str) : option bool :=
  match fuel with
  | O => None
  | S fuel' =>
      let filter := normalized filter in
      (* Boolean combinations *)
      if includes filter (lit " and ")
      then every (fun part => applyFilter_go fuel' task (trim part))
                 (split filter (lit " and "))
      else if includes filter (lit " or ")
      then some (fun part => applyFilter_go fuel' task (trim part))
                (split filter (lit " or "))
      else if startsWith filter (lit "not ") && negb (eqb_str filter (lit "not done"))
      then option_map negb (applyFilter_go fuel' task (substring 4 filter))
      else Some (leafFilter task filter)
  end.

(** Every recursive call is on a strictly shorter string, so one more than
    the length of the filter bounds the depth. *)
Definition applyFilter (task : Task) (filter : str) : bool :=
  match applyFilter_go (S (length filter)) task filter with
  | Some b => b
  | None => false
  end.

(** The filters [queryTasks] keeps from the query text. *)
Definition queryFilters (queryText : str) : list str :=
  filter (fun line => negb (length line =? 0)%nat && negb (startsWith line (lit "#")))
         (map trim (split queryText [0x0A])).

(** The loop over the filters in [queryTasks]: the first one that fails
    answers for the task. *)
Fixpoint passesAll (task : Task) (filters : list str) : bool :=
  match filters with
  | [] => true
  | f :: rest => if negb (applyFilter task f) then false else passesAll task rest
  end.

Definition queryTasks (tasks : list Task) (queryText : str) : list Task :=
  let filters := queryFilters queryText in
  filter (fun task => passesAll task filters) tasks.

End Evaluator.

End Filter.

(* ================================================================== *)
(** ** class TasksMcpPlugin: serialization *)

Module Builder.
Import JS Regex.

(** The arguments of [buildTaskMarkdown]; [None] is an absent property. *)
Record BuildArgs := mkBuildArgs {
  arg_description : str;
  arg_dueDate : option str;
  arg_scheduledDate : option str;
  arg_startDate : option str;
  arg_priority : option str;
  arg_tags : option (list str);
  arg_recurrence : option str
}.

(** The [priorityEmojis] table, by its own keys.  A key the table inherits
    from [Object.prototype] ([constructor], [toString], ...) looks up a
    function or an object there, which this embedding does not hold: the
    properties that look a priority up name their keys
    ([Spec.knownPriority], [Spec.canonical]) or hold whatever is written. *)
Definition priorityEmojis (key : str) : option str :=
  if eqb_str key (lit "highest") then Some (Glyph.doubleUp ++ Glyph.doubleUp)
  else if eqb_str key (lit "high") then Some Glyph.doubleUp
  else if eqb_str key (lit "medium") then Some Glyph.up
  else if eqb_str key (lit "low") then Some Glyph.down
  else if eqb_str key (lit "lowest") then Some Glyph.doubleDown
  else None.

(** [if (value)] on an optional string: present and not empty. *)
Definition truthy (value : option str) : option str :=
  match value with
  | Some (_ :: _) => value
  | _ => None
  end.

Definition formatTag (tag : str) : str :=
  if startsWith tag (lit "#") then tag else ch "#" :: tag.

(** The statements that end both [buildTaskMarkdown] and the [update_task]
    branch: priority, recurrence, start, scheduled and due date, then tags. *)
Definition appendFields (task : str)
    (priority recurrence startDate scheduledDate dueDate : option str)
    (tags : option (list str)) : str :=
  let task :=
    match truthy priority with
    | Some p => match priorityEmojis p with
                | Some emoji => task ++ lit " " ++ emoji
                | None => task
                end
    | None => task
    end in
  let task :=
    match truthy recurrence with
    | Some r => task ++ lit " " ++ Glyph.repeat ++ lit " " ++ r
    | None => task
    end in
  let task :=
    match truthy startDate with
    | Some d => task ++ lit " " ++ Glyph.airplane ++ lit " " ++ d
    | None => task
    end in
  let task :=
    match truthy scheduledDate with
    | Some d => task ++ lit " " ++ Glyph.hourglass ++ lit " " ++ d
    | None => task
    end in
  let task :=
    match truthy dueDate with
    | Some d => task ++ lit " " ++ Glyph.calendar ++ lit " " ++ d
    | None => task
    end in
  match tags with
  | Some ((_ :: _) as ts) => task ++ lit " " ++ join (lit " ") (map formatTag ts)
  | _ => task
  end.

Definition buildTaskMarkdown (args : BuildArgs) : str :=
  appendFields (lit "- [ ] " ++ arg_description args)
    (arg_priority args) (arg_recurrence args) (arg_startDate args)
    (arg_scheduledDate args) (arg_dueDate args) (arg_tags args).

(** The arguments of [update_task] besides the address. *)
Record UpdateArgs := mkUpdateArgs {
  upd_description : option str;
  upd_dueDate : option str;
  upd_scheduledDate : option str;
  upd_startDate : option str;
  upd_priority : option str;
  upd_tags : option (list str);
  upd_recurrence : option str;
  upd_status : option str
}.

(** A date expression with [g] and no group: the length of the match.
    [dateStrip] has its glyphs in a class, [markStrip] its glyph as a
    sequence. *)
Definition dateStrip (glyphs : list char) : matcher := fun _ s =>
  option_map snd (glyphDate glyphs s).

Definition markStrip (glyph : str) : matcher := fun _ s =>
  option_map snd (markDate glyph s).

(** The recurrence glyph, [\s?] and the run [[^\s]*] after it. *)
Definition recurrenceStrip : matcher := fun _ s =>
  if startsWith s Glyph.repeat then
    match skipn (length Glyph.repeat) s with
    | w :: r' =>
        if isWs w
        then Some (length Glyph.repeat + 1
                   + length (takeWhile (fun x => negb (isWs x)) r'))%nat
        else Some (length Glyph.repeat
                   + length (takeWhile (fun x => negb (isWs x)) (w :: r')))%nat
    | [] => Some (length Glyph.repeat)
    end
  else None.

(** The chain of [replace] calls that removes the metadata of the current
    description before the line is rebuilt.  The first expression has the
    due-date glyphs in a class, as [dueDateRegex] has: it removes one
    character of the class, the white space and the date. *)
Definition stripMetadata (description : str) : str :=
  trim
    (removeAll (TaskParser.tagAt isWs)
    (removeAll TaskParser.priorityRegex
    (removeAll recurrenceStrip
    (removeAll (markStrip Glyph.plus)
    (removeAll (markStrip Glyph.airplane)
    (removeAll (markStrip Glyph.hourglass)
    (removeAll (dateStrip TaskParser.dueGlyphs) description))))))).

(** The [statusMap] table, by its own keys; a key it inherits from
    [Object.prototype] is outside this embedding, as for [priorityEmojis]
    ([Spec.knownStatus]). *)
Definition statusMap (key : str) : option str :=
  if eqb_str key (lit "incomplete") then Some (lit " ")
  else if eqb_str key (lit "complete") then Some (lit "x")
  else if eqb_str key (lit "cancelled") then Some (lit "-")
  else if eqb_str key (lit "in_progress") then Some (lit "/")
  else None.

(** [args.field !== undefined ? (args.field === '' ? undefined : args.field)
    : current] *)
Definition override (arg current : option str) : option str :=
  match arg with
  | Some [] => None
  | Some v => Some v
  | None => current
  end.

(** The indentation and marker expression: groups 1 and 2 of [taskRegex]. *)
Definition indentRegex (line : str) : option (str * str) :=
  let (indent, s1) := span TaskParser.isIndent line in
  match TaskParser.listMarker s1 with
  | Some (marker, _) => Some (indent, marker)
  | None => None
  end.

(** The line [update_task] writes for [currentLine], parsed as
    [currentTask], under the overrides [args]. *)
Definition rebuildTaskLine (args : UpdateArgs) (currentLine : str) (currentTask : Task)
  : str :=
  let newDescription :=
    match upd_description args with
    | Some d => d
    | None => stripMetadata (description currentTask)
    end in
  let statusChar :=
    match upd_status args with
    | Some s => match truthy (statusMap s) with
                | Some c => c
                | None => statusSymbol currentTask
                end
    | None => statusSymbol currentTask
    end in
  let dueDate := override (upd_dueDate args) (dueDate currentTask) in
  let scheduledDate := override (upd_scheduledDate args) (scheduledDate currentTask) in
  let startDate := override (upd_startDate args) (startDate currentTask) in
  let priority :=
    match upd_priority args with
    | Some p => if eqb_str p (lit "none") then None else Some p
    | None => option_map Filter.priorityName (priority currentTask)
    end in
  let tags :=
    match upd_tags args with
    | Some ts => ts
    | None => tags currentTask
    end in
  let recurrence := override (upd_recurrence args) (recurrence currentTask) in
  let (indent, marker) :=
    match indentRegex currentLine with
    | Some im => im
    | None => ([], lit "-")
    end in
  appendFields
    (indent ++ marker ++ lit " [" ++ statusChar ++ lit "] " ++ newDescription)
    priority recurrence startDate scheduledDate dueDate (Some tags).

End Builder.

(* ================================================================== *)
(** ** class TasksMcpPlugin: addresses and line-targeting operations *)

Module Plugin.
Import JS Regex.

(** What the vault holds: the content of the file at a path, [None] where
    [getAbstractFileByPath] finds no [TFile]. *)
Definition Vault := str -> option str.

(** [vault.modify(file, content)] *)
Definition modify (v : Vault) (path content : str) : Vault :=
  fun p => if eqb_str p path then Some content else v p.

(** The errors the operations raise, by their message. *)
Inductive Failure :=
| AddressRequired
    (* Either taskId or both filePath and lineNumber are required *)
| InvalidTaskIdFormat (id : str)
    (* Invalid task ID format: ... Expected format: filePath:lineNumber *)
| InvalidLineNumberInTaskId (id : str)
    (* Invalid line number in task ID: ... *)
| FileNotFound (filePath : str)
    (* File not found: ... *)
| InvalidLineNumber (lineNumber : Z) (fileLines : option nat)
    (* Invalid line number: N -- and, from the file operations,
       Invalid line number: N. File has L lines. *)
| NoTaskFound (filePath : str) (lineNumber : Z)
    (* No task found at path:line *).

Inductive Outcome (A : Type) :=
| Done (a : A)
| Rejected (f : Failure).
Arguments Done {A} a.
Arguments Rejected {A} f.

Definition parseTaskId (id : str) : Outcome (str * Z) :=
  match lastIndexOf (ch ":") id with
  | None => Rejected (InvalidTaskIdFormat id)
  | Some lastColon =>
      let filePath := firstn lastColon id in
      match parseInt (skipn (lastColon + 1) id) with
      | None => Rejected (InvalidLineNumberInTaskId id)
      | Some lineNumber => Done (filePath, lineNumber)
      end
  end.

(** [lines[i] = x] and [lines.splice(i, 1)] for an index inside the list. *)
Fixpoint setLine (i : nat) (x : str) (lines : list str) : list str :=
  match lines, i with
  | [], _ => []
  | _ :: rest, O => x :: rest
  | l :: rest, S i' => l :: setLine i' x rest
  end.

Fixpoint spliceLine (i : nat) (lines : list str) : list str :=
  match lines, i with
  | [], _ => []
  | _ :: rest, O => rest
  | l :: rest, S i' => l :: spliceLine i' rest
  end.

(** [lineNumber < 1 || lineNumber > lines.length] *)
Definition outOfRange (lineNumber : Z) (lines : list str) : bool :=
  ((lineNumber <? 1) || (lineNumber >? Z.of_nat (length lines)))%Z.

Definition lineAt (lineNumber : Z) (lines : list str) : str :=
  nth (Z.to_nat (lineNumber - 1)) lines [].

(** What an operation reports: the line before and after. *)
Record Change := mkChange {
  chg_filePath : str;
  chg_lineNumber : Z;
  oldTask : str;
  newTask : option str
}.

Definition updateTaskInFile (v : Vault) (filePath : str) (lineNumber : Z)
    (newTaskMarkdown : str) : Outcome Change * Vault :=
  match v filePath with
  | None => (Rejected (FileNotFound filePath), v)
  | Some content =>
      let lines := split content [0x0A] in
      if outOfRange lineNumber lines
      then (Rejected (InvalidLineNumber lineNumber (Some (length lines))), v)
      else
        let oldTask := lineAt lineNumber lines in
        let lines' := setLine (Z.to_nat (lineNumber - 1)) newTaskMarkdown lines in
        (Done (mkChange filePath lineNumber oldTask (Some newTaskMarkdown)),
         modify v filePath (join [0x0A] lines'))
  end.

Definition removeTaskFromFile (v : Vault) (filePath : str) (lineNumber : Z)
  : Outcome Change * Vault :=
  match v filePath with
  | None => (Rejected (FileNotFound filePath), v)
  | Some content =>
      let lines := split content [0x0A] in
      if outOfRange lineNumber lines
      then (Rejected (InvalidLineNumber lineNumber (Some (length lines))), v)
      else
        let removedTask := lineAt lineNumber lines in
        let lines' := spliceLine (Z.to_nat (lineNumber - 1)) lines in
        (Done (mkChange filePath lineNumber removedTask None),
         modify v filePath (join [0x0A] lines'))
  end.

(** The address properties of a tool call; [None] is an absent property. *)
Record Address := mkAddress {
  taskId : option str;
  addr_filePath : option str;
  addr_lineNumber : option Z
}.

(** The opening of the [toggle_task], [update_task] and [remove_task]
    branches: [args.taskId], else [args.filePath && args.lineNumber], each
    tested for truth, so the number 0 counts as missing. *)
Definition resolveAddress (args : Address) : Outcome (str * Z) :=
  match Builder.truthy (taskId args) with
  | Some id => parseTaskId id
  | None =>
      match Builder.truthy (addr_filePath args), addr_lineNumber args with
      | Some filePath, Some lineNumber =>
          if (lineNumber =? 0)%Z then Rejected AddressRequired
          else Done (filePath, lineNumber)
      | _, _ => Rejected AddressRequired
      end
  end.

(** [line.replace(/\[.\]/, r)]: without [u] the dot takes one UTF-16 code
    unit, so a bracketed character outside the Basic Multilingual Plane is
    passed over. *)
Fixpoint replaceStatusBox (r : str) (line : str) : str :=
  match line with
  | o :: ((c :: e :: rest) as tail) =>
      if (o =? ch "[") && negb (isLineTerminator c) && (c <? 0x10000) && (e =? ch "]")
      then r ++ rest
      else o :: replaceStatusBox r tail
  | _ => line
  end.

(** The Tasks plugin capability, when present: [executeToggleTaskDoneCommand]. *)
Definition TasksApi := option (str -> str -> str).

Definition toggle_task (tasksApi : TasksApi) (v : Vault) (args : Address)
  : Outcome Change * Vault :=
  match resolveAddress args with
  | Rejected f => (Rejected f, v)
  | Done (filePath, lineNumber) =>
      match v filePath with
      | None => (Rejected (FileNotFound filePath), v)
      | Some content =>
          let lines := split content [0x0A] in
          if outOfRange lineNumber lines
          then (Rejected (InvalidLineNumber lineNumber None), v)
          else
            let taskLine := lineAt lineNumber lines in
            match tasksApi with
            | Some executeToggleTaskDoneCommand =>
                let result := executeToggleTaskDoneCommand taskLine filePath in
                (Done (mkChange filePath lineNumber taskLine (Some result)),
                 modify v filePath
                   (join [0x0A] (setLine (Z.to_nat (lineNumber - 1)) result lines)))
            | None =>
                match TaskParser.parseTaskLine taskLine filePath lineNumber with
                | None => (Rejected (NoTaskFound filePath lineNumber), v)
                | Some task =>
                    let newStatusChar :=
                      if Filter.status_eqb (status task) complete
                      then lit " " else lit "x" in
                    let newTaskLine :=
                      replaceStatusBox (lit "[" ++ newStatusChar ++ lit "]") taskLine in
                    (Done (mkChange filePath lineNumber taskLine (Some newTaskLine)),
                     modify v filePath
                       (join [0x0A]
                          (setLine (Z.to_nat (lineNumber - 1)) newTaskLine lines)))
                end
            end
      end
  end.

Definition update_task (v : Vault) (args : Address) (fields : Builder.UpdateArgs)
  : Outcome Change * Vault :=
  match resolveAddress args with
  | Rejected f => (Rejected f, v)
  | Done (filePath, lineNumber) =>
      match v filePath with
      | None => (Rejected (FileNotFound filePath), v)
      | Some content =>
          let lines := split content [0x0A] in
          if outOfRange lineNumber lines
          then (Rejected (InvalidLineNumber lineNumber None), v)
          else
            let currentLine := lineAt lineNumber lines in
            match TaskParser.parseTaskLine currentLine filePath lineNumber with
            | None => (Rejected (NoTaskFound filePath lineNumber), v)
            | Some currentTask =>
                updateTaskInFile v filePath lineNumber
                  (Builder.rebuildTaskLine fields currentLine currentTask)
            end
      end
  end.

Definition remove_task (v : Vault) (args : Address) : Outcome Change * Vault :=
  match resolveAddress args with
  | Rejected f => (Rejected f, v)
  | Done (filePath, lineNumber) => removeTaskFromFile v filePath lineNumber
  end.

End Plugin.

(* ================================================================== *)
(** ** class TasksMcpPlugin: listing, querying and adding tasks *)

Module Tools.
Import JS Regex Plugin.

(** [s.endsWith(suffix)] *)
Definition endsWith (s suffix : str) : bool := startsWith (rev s) (rev suffix).

(** [s.replace(pat, replacement)] with a string pattern: the first occurrence
    is replaced.  (The replacements of the source are decimal numbers, which
    hold no dollar sign for [replace] to expand.) *)
Fixpoint replaceFirst (pat replacement : str) (s : str) : str :=
  if startsWith s pat then replacement ++ skipn (length pat) s
  else match s with
       | [] => []
       | c :: r => c :: replaceFirst pat replacement r
       end.

(** [s.padStart(2, '0')] *)
Definition padStart2 (s : str) : str := List.repeat (ch "0") (2 - length s) ++ s.

(** [getDailyNotePath]: [year], [monthIndex] and [day] are what
    [getFullYear], [getMonth] and [getDate] read from the clock;
    [folderOption] and [formatOption] are the settings of the Daily Notes
    plugin, [None] where it has none. *)
Definition getDailyNotePath (year monthIndex day : Z)
    (folderOption formatOption : option str) : str :=
  let month := padStart2 (numberToString (monthIndex + 1)) in
  let day := padStart2 (numberToString day) in
  let folder :=
    match Builder.truthy folderOption with
    | Some f => f
    | None => lit "Daily Notes"
    end in
  let format :=
    match Builder.truthy formatOption with
    | Some f => f
    | None => lit "YYYY-MM-DD"
    end in
  let filename :=
    replaceFirst (lit "DD") day
      (replaceFirst (lit "MM") month
         (replaceFirst (lit "YYYY") (numberToString year) format)) in
  let filename :=
    if negb (endsWith filename (lit ".md")) then filename ++ lit ".md" else filename in
  let folder :=
    if negb (length folder =? 0)%nat && negb (endsWith folder (lit "/"))
    then folder ++ lit "/" else folder in
  folder ++ filename.

(** The [forEach] of [getAllTasks] over the lines of one file, from the line
    of index [index] on. *)
Fixpoint tasksOfLines (path : str) (index : nat) (lines : list str) : list Task :=
  match lines with
  | [] => []
  | line :: rest =>
      match TaskParser.parseTaskLine line path (Z.of_nat index + 1) with
      | Some task => task :: tasksOfLines path (S index) rest
      | None => tasksOfLines path (S index) rest
      end
  end.

(** The body of the loop over the files in [getAllTasks]. *)
Definition tasksOfFile (path content : str) : list Task :=
  tasksOfLines path 0 (split content [0x0A]).

(** [getAllTasks]: [markdownFiles] is what [vault.getMarkdownFiles()] lists,
    by path. *)
Definition getAllTasks (v : Vault) (markdownFiles : list str) (filePath : option str)
  : list Task :=
  let files :=
    match Builder.truthy filePath with
    | Some p => match v p with
                | Some _ => [p]
                | None => []
                end
    | None => markdownFiles
    end in
  flat_map (fun p => match v p with
                     | Some content => tasksOfFile p content
                     | None => []
                     end) files.

Section Queries.

Variable lowerExt : char -> char.
Variable today : str.

Definition list_tasks (v : Vault) (markdownFiles : list str) (filePath : option str)
  : list Task :=
  getAllTasks v markdownFiles filePath.

Definition query_tasks (v : Vault) (markdownFiles : list str) (query : str)
    (filePath : option str) : list Task :=
  let allTasks := getAllTasks v markdownFiles filePath in
  Filter.queryTasks lowerExt today allTasks query.

Definition get_tasks_by_date (v : Vault) (markdownFiles : list str) (date : str)
    (includeOverdue : option bool) : list Task :=
  let includeOverdue :=
    match includeOverdue with
    | Some b => b
    | None => false
    end in
  let allTasks := getAllTasks v markdownFiles None in
  let query :=
    if includeOverdue
    then lit "has due date" ++ [0x0A] ++ lit "due before " ++ date ++ lit " or due "
         ++ date ++ [0x0A] ++ lit "not done"
    else lit "due " ++ date in
  Filter.queryTasks lowerExt today allTasks query.

End Queries.

(** What [getAbstractFileByPath] can find: the files, with their content, and
    the folders. *)
Record Store := mkStore {
  files : Vault;
  folders : str -> bool
}.

(** [vault.createFolder(path)] and [vault.create(path, content)], where they
    succeed. *)
Definition createFolder (s : Store) (path : str) : Store :=
  mkStore (files s) (fun p => eqb_str p path || folders s p).

Definition create (s : Store) (path content : str) : Store :=
  mkStore (modify (files s) path content) (folders s).

Inductive AddFailure :=
| DescriptionRequired       (* description is required *)
| NotAFile (filePath : str) (* ... is not a file *).

(** What [addTaskToFile] reports. *)
Record Added := mkAdded {
  added_filePath : str;
  added_task : str
}.

Inductive AddOutcome :=
| AddDone (a : Added)
| AddRejected (f : AddFailure).

Definition addTaskToFile (s : Store) (filePath taskMarkdown : str) : AddOutcome * Store :=
  match files s filePath with
  | None =>
      if folders s filePath then (AddRejected (NotAFile filePath), s)
      else
        (* Create file if it doesn't exist *)
        let folderPath :=
          match lastIndexOf (ch "/") filePath with
          | Some i => firstn i filePath
          | None => []
          end in
        let s :=
          if negb (length folderPath =? 0)%nat
             && negb (Filter.isSome (files s folderPath)) && negb (folders s folderPath)
          then createFolder s folderPath else s in
        (AddDone (mkAdded filePath taskMarkdown),
         create s filePath (taskMarkdown ++ [0x0A]))
  | Some content =>
      (* Append task to existing file *)
      let newContent :=
        if endsWith content [0x0A]
        then content ++ taskMarkdown ++ [0x0A]
        else content ++ [0x0A] ++ taskMarkdown ++ [0x0A] in
      (AddDone (mkAdded filePath taskMarkdown),
       mkStore (modify (files s) filePath newContent) (folders s))
  end.

(** The arguments of [add_task]; [None] is an absent property. *)
Record AddArgs := mkAddArgs {
  add_description : option str;
  add_filePath : option str;
  add_dueDate : option str;
  add_scheduledDate : option str;
  add_startDate : option str;
  add_priority : option str;
  add_tags : option (list str);
  add_recurrence : option str
}.

(** [add_task]: [dailyNotePath] is what [getDailyNotePath()] returns. *)
Definition add_task (dailyNotePath : str) (s : Store) (args : AddArgs)
  : AddOutcome * Store :=
  match Builder.truthy (add_description args) with
  | None => (AddRejected DescriptionRequired, s)
  | Some description =>
      let filePath :=
        match Builder.truthy (add_filePath args) with
        | Some p => p
        | None => dailyNotePath
        end in
      let taskMarkdown :=
        Builder.buildTaskMarkdown
          (Builder.mkBuildArgs description (add_dueDate args) (add_scheduledDate args)
             (add_startDate args) (add_priority args) (add_tags args)
             (add_recurrence args)) in
      addTaskToFile s filePath taskMarkdown
  end.

End Tools.

(* ================================================================== *)
(** ** Vocabulary of the properties *)

Module Spec.
Import JS.

(** *** Queries *)

(** [a] keeps some of the elements of [b], in the order [b] has them. *)
Inductive Subseq {A : Type} : list A -> list A -> Prop :=
| Subseq_nil : Subseq [] []
| Subseq_keep x a b : Subseq a b -> Subseq (x :: a) (x :: b)
| Subseq_drop x a b : Subseq a b -> Subseq a (x :: b).

(** The lines of a query text. *)
Definition queryLines (queryText : str) : list str := split queryText [0x0A].

(** A line that carries no predicate: blank, or a comment. *)
Definition ignoredLine (line : str) : bool :=
  (length (trim line) =? 0)%nat || startsWith (trim line) (lit "#").

(** *** Identifiers *)

(** The separator of task identifiers. *)
Definition separator : char := ch ":".

(** A positive integer in decimal notation: digits, not all of them zero. *)
Definition isPositiveInteger (segment : str) : bool :=
  negb (length segment =? 0)%nat && forallb isDigit segment
  && existsb (fun c => negb (c =? ch "0")) segment.

(** The number a run of decimal digits denotes. *)
Definition decimalValue (segment : str) : N :=
  fold_left (fun acc c => acc * 10 + (c - 0x30)) segment 0.

(** A digit of radix 16. *)
Definition isHexDigit (c : char) : bool :=
  isDigit c || ((0x61 <=? c) && (c <=? 0x66)) || ((0x41 <=? c) && (c <=? 0x46)).

(** The text after leading white space and one sign. *)
Definition afterSign (segment : str) : str :=
  match trimStart segment with
  | c :: r => if (c =? ch "-") || (c =? ch "+") then r else c :: r
  | [] => []
  end.

(** The segment starts with an integer: after white space and a sign comes a
    decimal digit or, behind [0x] or [0X], a digit of radix 16. *)
Definition startsWithInteger (segment : str) : bool :=
  match afterSign segment with
  | c0 :: c1 :: r =>
      if (c0 =? ch "0") && ((c1 =? ch "x") || (c1 =? ch "X"))
      then match r with
           | h :: _ => isHexDigit h
           | [] => false
           end
      else isDigit c0
  | [c0] => isDigit c0
  | [] => false
  end.

(** What may follow the digits of a line number in an identifier without
    changing the number read: nothing, or a text that does not start with a
    digit and, after the single digit 0, not with [x] or [X] either. *)
Definition plainTail (digits tail : str) : bool :=
  match tail with
  | c :: _ =>
      negb (isDigit c)
      && negb (eqb_str digits (lit "0") && ((c =? ch "x") || (c =? ch "X")))
  | [] => true
  end.

(** *** Metadata in a text *)

(** [\s?]: nothing, or one white space character. *)
Definition optionalWs (gap : str) : bool :=
  match gap with
  | [] => true
  | [w] => isWs w
  | _ => false
  end.

(** The glyphs that stand for a priority. *)
Definition priorityGlyph (p : Priority) : str :=
  match p with
  | highest => Glyph.doubleUp ++ Glyph.doubleUp
  | high => Glyph.doubleUp
  | medium => Glyph.up
  | low => Glyph.down
  | lowest => Glyph.doubleDown
  end.

(** A date field taken from the text behind a class of glyph characters:
    one character of the class, at most one white space character and the
    date occur in the text. *)
Definition dateOccurs (glyphs : list char) (text : str) (field : option str) : Prop :=
  match field with
  | Some d =>
      exists g gap,
        In g glyphs /\ optionalWs gap = true
        /\ includes text (g :: gap ++ d) = true
  | None => True
  end.

(** A field taken from the text behind a glyph: the glyph, at most one white
    space character and the value occur in the text. *)
Definition markOccurs (glyph : str) (text : str) (field : option str) : Prop :=
  match field with
  | Some v =>
      exists gap,
        optionalWs gap = true /\ includes text (glyph ++ gap ++ v) = true
  | None => True
  end.

Definition recurrenceOccurs (text : str) (field : option str) : Prop :=
  markOccurs Glyph.repeat text field.

Definition priorityOccurs (text : str) (field : option Priority) : Prop :=
  match field with
  | Some p => includes text (priorityGlyph p) = true
  | None => True
  end.

(** *** Canonical field sets *)

(** The marker glyphs, and the characters they are made of. *)
Definition glyphs : list str :=
  [Glyph.calendar; Glyph.spiralCalendar; Glyph.hourglass; Glyph.airplane;
   Glyph.plus; Glyph.repeat; Glyph.doubleUp; Glyph.up; Glyph.down;
   Glyph.doubleDown].

Definition isGlyph (c : char) : bool := existsb (N.eqb c) (concat glyphs).

Definition isHash (c : char) : bool := c =? ch "#".

(** A character of a word: not white space, not a character of a glyph,
    not [#]. *)
Definition wordChar (c : char) : bool :=
  negb (isWs c) && negb (isGlyph c) && negb (isHash c).

Definition isWord (s : str) : bool :=
  negb (length s =? 0)%nat && forallb wordChar s.

(** A character of a description: not a line break, not a character of a
    glyph, not [#]. *)
Definition textChar (c : char) : bool :=
  negb (isLineTerminator c) && negb (isGlyph c) && negb (isHash c).

Definition startsPlain (s : str) : bool :=
  match s with
  | c :: _ => negb (isWs c)
  | [] => false
  end.

(** A description that carries no metadata: not empty, no white space at
    either end, made of [textChar]. *)
Definition isText (s : str) : bool :=
  forallb textChar s && startsPlain s && startsPlain (rev s).

(** A date of four, two and two digits joined by hyphens, and nothing more. *)
Definition isDate (s : str) : bool :=
  match Regex.isoDate s with
  | Some d => eqb_str d s
  | None => false
  end.

(** A character of a tag: a word character that [hashTagsRegex] accepts. *)
Definition tagChar (c : char) : bool := wordChar c && negb (TaskParser.tagStop c).

(** A word of tag characters. *)
Definition isTagWord (b : str) : bool :=
  negb (length b =? 0)%nat && forallb tagChar b.

(** A tag argument: a word of [tagChar], with or without a leading [#]. *)
Definition isTagArg (t : str) : bool := isTagWord (Filter.dropHash t).

(** An optional argument: absent, empty, or as [p] wants it. *)
Definition whenGiven (p : str -> bool) (o : option str) : bool :=
  match Builder.truthy o with
  | Some s => p s
  | None => true
  end.

(** An update that supplies no field. *)
Definition noOverrides : Builder.UpdateArgs :=
  Builder.mkUpdateArgs None None None None None None None None.

(** Serializing a field set, reading the line back and writing it again with
    no override. *)
Definition reserialize (args : Builder.BuildArgs) (filePath : str) (lineNumber : Z)
  : option str :=
  let line := Builder.buildTaskMarkdown args in
  option_map (Builder.rebuildTaskLine noOverrides line)
    (TaskParser.parseTaskLine line filePath lineNumber).

(** The field sets that are written back as they were serialized. *)
Definition canonical (args : Builder.BuildArgs) : bool :=
  isText (Builder.arg_description args)
  && whenGiven (fun key => Filter.isSome (Builder.priorityEmojis key))
       (Builder.arg_priority args)
  && whenGiven isDate (Builder.arg_dueDate args)
  && whenGiven isDate (Builder.arg_scheduledDate args)
  && whenGiven isDate (Builder.arg_startDate args)
  && whenGiven isWord (Builder.arg_recurrence args)
  && match Builder.arg_tags args with
     | Some ts => forallb isTagArg ts
     | None => true
     end.

(** *** Matchers and the texts they walk *)

(** A matcher that can only succeed on one of the characters [G]. *)
Definition headedBy {A : Type} (G : char -> bool) (m : str -> option A) : Prop :=
  m [] = None /\ forall c r, G c = false -> m (c :: r) = None.

(** No character of [s] is in [G]. *)
Definition avoids (G : char -> bool) (s : str) : bool :=
  forallb (fun c => negb (G c)) s.

(** [m] finds nothing at any position of [a], whatever follows [a]. *)
Fixpoint silent {A : Type} (m : str -> option A) (a : str) : Prop :=
  match a with
  | [] => True
  | _ :: r => (forall s, m (a ++ s) = None) /\ silent m r
  end.

(** The same for a matcher with [g], wherever its position is. *)
Definition silentAt (m : Regex.matcher) (a : str) : Prop := forall b, silent (m b) a.

(** The characters no word and no description holds. *)
Definition isMark (c : char) : bool := isGlyph c || isHash c || isLineTerminator c.

(** A class of characters made of marks only. *)
Definition marksOnly (G : char -> bool) : Prop :=
  forall c, G c = true -> isMark c = true.

(** Empty, or ending in a character that is not white space. *)
Definition endsPlain (s : str) : Prop := s = [] \/ startsPlain (rev s) = true.

(** Empty, or starting with white space. *)
Definition startsBlank (s : str) : Prop :=
  match s with
  | x :: _ => isWs x = true
  | [] => True
  end.

(** *** The pieces of a serialized line *)

(** What [appendFields] adds to a line for a field, and what the removal of
    the metadata leaves of it: the space before it. *)
Definition fieldPiece (g : str) (value : option str) : str :=
  match Builder.truthy value with
  | Some v => lit " " ++ g ++ lit " " ++ v
  | None => []
  end.

Definition fieldBlank (value : option str) : str :=
  match Builder.truthy value with
  | Some _ => lit " "
  | None => []
  end.

Definition emojiOf (priority : option str) : option str :=
  match Builder.truthy priority with
  | Some key => Builder.priorityEmojis key
  | None => None
  end.

Definition priorityPiece (priority : option str) : str :=
  match emojiOf priority with
  | Some emoji => lit " " ++ emoji
  | None => []
  end.

Definition priorityBlank (priority : option str) : str :=
  match emojiOf priority with
  | Some _ => lit " "
  | None => []
  end.

(** What the removal of the metadata leaves of a serialized due date: the
    space before the glyph and the glyph but for its last character, the
    one the class of the expression takes with the date. *)
Definition dueBlank (dueDate : option str) : str :=
  match Builder.truthy dueDate with
  | Some _ => lit " " ++ removelast Glyph.calendar
  | None => []
  end.

(** What the removal of the metadata leaves behind the description of a
    serialized field set: nothing when no due date was written; with a due
    date, the space before every field and what [dueBlank] says. *)
Definition remnant (priority recurrence startDate scheduledDate dueDate : option str)
  : str :=
  match Builder.truthy dueDate with
  | Some _ =>
      priorityBlank priority ++ fieldBlank recurrence ++ fieldBlank startDate
      ++ fieldBlank scheduledDate ++ dueBlank dueDate
  | None => []
  end.

(** The field set with the description the removal of the metadata leaves
    of its line. *)
Definition stripped (args : Builder.BuildArgs) : Builder.BuildArgs :=
  Builder.mkBuildArgs
    (Builder.arg_description args
     ++ remnant (Builder.arg_priority args) (Builder.arg_recurrence args)
          (Builder.arg_startDate args) (Builder.arg_scheduledDate args)
          (Builder.arg_dueDate args))
    (Builder.arg_dueDate args) (Builder.arg_scheduledDate args)
    (Builder.arg_startDate args) (Builder.arg_priority args)
    (Builder.arg_tags args) (Builder.arg_recurrence args).

(** The priority a priority argument stands for. *)
Definition priorityOfArg (priority : option str) : option Priority :=
  match emojiOf priority with
  | Some emoji => TaskParser.priorityOfGlyph emoji
  | None => None
  end.

Definition tagsText (ts : list str) : str :=
  flat_map (fun t => lit " " ++ Builder.formatTag t) ts.

(** The text of the tags whose words are [bodies]. *)
Definition tagsOf (bodies : list str) : str :=
  flat_map (fun b => lit " #" ++ b) bodies.

(** *** Inputs to try the properties on *)

(** A choice for the parameters of the evaluator. *)
Definition asciiOnly : char -> char := fun c => c.
Definition someDay : str := lit "2025-04-15".

Definition taskOfLine (line : str) : list Task :=
  match TaskParser.parseTaskLine line (lit "notes.md") 1 with
  | Some task => [task]
  | None => []
  end.

(** A task of a given status, with no metadata. *)
Definition plainTask (st : Status) : Task :=
  {| id := lit "notes.md:1"; description := lit "A"; status := st;
     statusSymbol := lit " "; filePath := lit "notes.md"; lineNumber := 1;
     tags := []; dueDate := None; scheduledDate := None; createdDate := None;
     startDate := None; priority := None; recurrence := None;
     originalMarkdown := lit "- [ ] A" |}.

(** A vault that holds one file. *)
Definition oneFile (path content : str) : Plugin.Vault :=
  Plugin.modify (fun _ => None) path content.


(** *** Files *)

Definition newline : char := 0x0A.

(** A text that holds no line feed. *)
Definition oneLine (s : str) : bool := forallb (fun c => negb (c =? newline)) s.

(** The lines of a file, as every operation cuts them. *)
Definition linesOf (content : str) : list str := split content [newline].

(** A call that is refused leaves the vault as it was. *)
Definition refusedWithoutWriting (v : Plugin.Vault)
    (result : Plugin.Outcome Plugin.Change * Plugin.Vault) : Prop :=
  match fst result with
  | Plugin.Rejected _ => snd result = v
  | Plugin.Done _ => True
  end.

(** The address of a task by its identifier. *)
Definition byId (task : Task) : Plugin.Address :=
  Plugin.mkAddress (Some (id task)) None None.


(** A line that [taskRegex] recognizes. *)
Definition isTaskLine (line : str) : bool := Filter.isSome (TaskParser.taskRegex line).


(** *** Updates *)

(** The tags of a field set. *)
Definition tagsGiven (args : Builder.BuildArgs) : list str :=
  match Builder.arg_tags args with
  | Some ts => ts
  | None => []
  end.

(** The field set an update asks for: a field that is passed replaces the
    one of [args] -- the empty string and the priority [none] clear it -- and
    a field that is not passed stays. *)
Definition merged (args : Builder.BuildArgs) (fields : Builder.UpdateArgs)
  : Builder.BuildArgs :=
  Builder.mkBuildArgs
    (match Builder.upd_description fields with
     | Some d => d
     | None => Builder.arg_description args
     end)
    (Builder.override (Builder.upd_dueDate fields) (Builder.arg_dueDate args))
    (Builder.override (Builder.upd_scheduledDate fields) (Builder.arg_scheduledDate args))
    (Builder.override (Builder.upd_startDate fields) (Builder.arg_startDate args))
    (match Builder.upd_priority fields with
     | Some p => if eqb_str p (lit "none") then None else Some p
     | None => Builder.arg_priority args
     end)
    (match Builder.upd_tags fields with
     | Some ts => Some ts
     | None => Builder.arg_tags args
     end)
    (Builder.override (Builder.upd_recurrence fields) (Builder.arg_recurrence args)).


(** *** The shape of a task line *)

Definition isBullet (c : char) : bool := (c =? ch "-") || (c =? ch "*") || (c =? ch "+").

(** A list marker: a bullet, or digits and then a dot or a parenthesis. *)
Definition isListMarker (marker : str) : bool :=
  match span isDigit marker with
  | ([], [c]) => isBullet c
  | (_ :: _, [d]) => (d =? ch ".") || (d =? ch ")")
  | _ => false
  end.

Definition noBreak (s : str) : bool := forallb (fun x => negb (isLineTerminator x)) s.

(** A line in its parts: indentation, list marker, spaces, the status box
    around [c], spaces, the text and what comes from the first line break
    on. *)
Definition taskLine (indent marker spaces : str) (c : char) (gap text tail : str) : str :=
  indent ++ marker ++ spaces ++ [ch "["; c; ch "]"] ++ gap ++ text ++ tail.

Definition wellShaped (indent marker spaces : str) (c : char) (gap text tail : str)
  : bool :=
  forallb TaskParser.isIndent indent
  && isListMarker marker
  && negb (length spaces =? 0)%nat && forallb isSpace spaces
  && negb (isLineTerminator c)
  && forallb isSpace gap
  && noBreak text
  && match text with
     | x :: _ => negb (isSpace x)
     | [] => true
     end
  && match tail with
     | x :: _ => isLineTerminator x
     | [] => true
     end.

(** The status a status name of [update_task] stands for. *)
Definition statusNamed (name : str) : option Status :=
  if eqb_str name (lit "incomplete") then Some incomplete
  else if eqb_str name (lit "complete") then Some complete
  else if eqb_str name (lit "cancelled") then Some cancelled
  else if eqb_str name (lit "in_progress") then Some in_progress
  else None.

(** The status an update asks for, given the one the task has. *)
Definition statusAsked (fields : Builder.UpdateArgs) (current : Status) : Status :=
  match Builder.upd_status fields with
  | Some name => match statusNamed name with
                 | Some st => st
                 | None => current
                 end
  | None => current
  end.

(** A task whose status character is one UTF-16 code unit. *)
Definition plainStatusSymbol (task : Task) : bool :=
  forallb (fun c => c <? 0x10000) (statusSymbol task).

(** The status a manual toggle gives. *)
Definition toggled (st : Status) : Status :=
  match st with
  | complete => incomplete
  | _ => complete
  end.


(** *** Fields of a parsed task *)

(** An optional field that, where present, is as [p] wants it. *)
Definition whenSome (p : str -> bool) (o : option str) : bool :=
  match o with
  | Some s => p s
  | None => true
  end.

(** A text with no white space in it. *)
Definition noBlank (s : str) : bool := forallb (fun x => negb (isWs x)) s.

(** A tag as [parseTaskLine] returns it: [#] and then characters that
    [hashTagsRegex] lets through. *)
Definition isTag (tag : str) : bool :=
  match tag with
  | c :: body => (c =? ch "#") && forallb (fun x => negb (TaskParser.tagStop x)) body
  | [] => false
  end.


(** *** Adding a task *)

(** The lines of a file that stay in front of an added task: all of them,
    but for the empty one a final line feed leaves at the end. *)
Definition linesKept (content : str) : list str :=
  if Tools.endsWith content [newline] then removelast (linesOf content)
  else linesOf content.

(** The field set [add_task] serializes. *)
Definition fieldsOf (description : str) (args : Tools.AddArgs) : Builder.BuildArgs :=
  Builder.mkBuildArgs description (Tools.add_dueDate args) (Tools.add_scheduledDate args)
    (Tools.add_startDate args) (Tools.add_priority args) (Tools.add_tags args)
    (Tools.add_recurrence args).

(** The file [add_task] writes to. *)
Definition target (dailyNotePath : str) (args : Tools.AddArgs) : str :=
  match Builder.truthy (Tools.add_filePath args) with
  | Some p => p
  | None => dailyNotePath
  end.


(** A task whose status box holds a space or a lower-case [x]: the two
    characters a manual toggle writes. *)
Definition toggleWritten (task : Task) : bool :=
  eqb_str (statusSymbol task) (lit " ") || eqb_str (statusSymbol task) (lit "x").


(** *** Filters *)

(** A filter as [applyFilter] normalizes it: in lower case already, not
    empty, with no white space at either end. *)
Definition plainFilter (lowerExt : char -> char) (f : str) : bool :=
  eqb_str (Filter.toLowerCase lowerExt f) f && startsPlain f && startsPlain (rev f).

(** [sep] does not occur in [a], nor across the end of [a] when [sep]
    follows: [a] is what comes before the first [sep] of [a ++ sep ++ b]. *)
Definition firstPart (a sep : str) : bool := negb (includes (a ++ removelast sep) sep).


(** *** Values inside the embedding *)

(** An integer that a [number] holds exactly and prints in decimal. *)
Definition safeInteger (n : Z) : bool := (Z.abs n <? 2 ^ 53)%Z.

(** What [getFullYear], [getMonth] and [getDate] can return. *)
Definition calendarDate (year monthIndex day : Z) : bool :=
  ((-271821 <=? year) && (year <=? 275760)
   && (0 <=? monthIndex) && (monthIndex <=? 11)
   && (1 <=? day) && (day <=? 31))%Z.

(** A status argument of [update_task] that is absent or one of the four
    names of [statusMap], and a priority argument that is absent, empty,
    [none] or one of the five names of [priorityEmojis]: the keys the two
    tables are looked up with inside this embedding. *)
Definition knownStatus (fields : Builder.UpdateArgs) : bool :=
  whenSome (fun name => Filter.isSome (statusNamed name)) (Builder.upd_status fields).

Definition knownPriority (priority : option str) : bool :=
  whenSome (fun key => (length key =? 0)%nat || eqb_str key (lit "none")
                       || Filter.isSome (Builder.priorityEmojis key)) priority.

End Spec.

(* ================================================================== *)
(** * Properties *)

Import JS Regex.

(** ** Strings *)

Lemma eqb_str_eq (a b : str) : eqb_str a b = true <-> a = b.
Proof.
  revert b; induction a as [|x a IH]; intros [|y b]; simpl; split; intro H;
    try congruence; try reflexivity.
  - apply andb_true_iff in H as [Hx Hab]. apply N.eqb_eq in Hx.
    apply IH in Hab. congruence.
  - inversion H; subst. rewrite N.eqb_refl. simpl. now apply IH.
Qed.

Lemma eqb_str_refl (a : str) : eqb_str a a = true.
Proof. now apply eqb_str_eq. Qed.

Lemma span_app (p : char -> bool) (s : str) :
  fst (span p s) ++ snd (span p s) = s.
Proof.
  induction s as [|c r IH]; simpl; [reflexivity|].
  destruct (p c); simpl; [|reflexivity].
  destruct (span p r) as [a b]; simpl in *. now rewrite IH.
Qed.

Lemma span_length (p : char -> bool) (s : str) :
  (length (snd (span p s)) <= length s)%nat.
Proof.
  rewrite <- (span_app p s) at 2. rewrite length_app. lia.
Qed.

Lemma trim_length (s : str) : (length (trim s) <= length s)%nat.
Proof.
  unfold trim, trimEnd, trimStart, dropWhile.
  rewrite length_rev.
  pose proof (span_length isWs (rev (snd (span isWs s)))) as H1.
  pose proof (span_length isWs s) as H2.
  rewrite length_rev in H1. lia.
Qed.

Lemma isDigit_not_ws (c : char) : isDigit c = true -> isWs c = false.
Proof.
  unfold isDigit, isWs. intro H. apply andb_true_iff in H as [Hlo Hhi].
  apply N.leb_le in Hlo. apply N.leb_le in Hhi.
  repeat match goal with
         | |- context [?a =? ?b] => destruct (N.eqb_spec a b); [lia|]
         | |- context [?a <=? ?b] => destruct (N.leb_spec a b); [try lia|try lia]
         end; reflexivity.
Qed.

Lemma startsWith_length (s pat : str) :
  startsWith s pat = true -> (length pat <= length s)%nat.
Proof.
  revert s; induction pat as [|p pat IH]; intros [|c s]; simpl; intro H;
    try lia; try discriminate.
  apply andb_true_iff in H as [_ H]. apply IH in H. lia.
Qed.

Lemma startsWith_nil (s : str) : startsWith s [] = true.
Proof. now destruct s. Qed.

Lemma startsWith_app (a tail : str) : startsWith (a ++ tail) a = true.
Proof.
  induction a as [|c a IH]; simpl; [now destruct tail|]. now rewrite N.eqb_refl.
Qed.

Lemma startsWith_long (s t pat : str) :
  (length pat <= length s)%nat -> startsWith (s ++ t) pat = startsWith s pat.
Proof.
  revert s. induction pat as [|p pat IH]; intros s Hlen; [now rewrite !startsWith_nil|].
  destruct s as [|c s]; [cbn in Hlen; lia|].
  cbn [app startsWith]. rewrite IH; [reflexivity|]. cbn [length] in Hlen. lia.
Qed.

(** A text that starts with [pat] is [pat] and what comes after it. *)
Lemma startsWith_split (s pat : str) :
  startsWith s pat = true -> s = pat ++ skipn (length pat) s.
Proof.
  revert s. induction pat as [|p pat IH]; intros [|c s] H; simpl in *;
    try reflexivity; try discriminate.
  apply andb_true_iff in H as [Hc H]. apply N.eqb_eq in Hc. subst.
  f_equal. now apply IH.
Qed.

Lemma skipn_past {A : Type} (a b : list A) : skipn (length a) (a ++ b) = b.
Proof. induction a as [|x a IH]; [reflexivity|exact IH]. Qed.

(** Where [pat] does not occur in [a ++ removelast pat], no position of [a]
    starts with it, whatever follows. *)
Lemma startsWith_before (c : char) (a pat s : str) :
  pat <> [] ->
  startsWith (c :: a ++ removelast pat) pat = false ->
  startsWith (c :: a ++ pat ++ s) pat = false.
Proof.
  intros Hpat Hhere.
  rewrite (app_removelast_last 0 Hpat) at 1.
  rewrite <- app_assoc, app_assoc.
  change (c :: (a ++ removelast pat) ++ [last pat 0] ++ s)
    with ((c :: a ++ removelast pat) ++ [last pat 0] ++ s).
  rewrite startsWith_long; [exact Hhere|].
  cbn [length]. rewrite length_app.
  assert (length pat = S (length (removelast pat))).
  { rewrite (app_removelast_last 0 Hpat) at 1. rewrite length_app. cbn [length].
    now rewrite Nat.add_1_r. }
  lia.
Qed.

(** A piece of a split is never longer than what was read for it. *)
Lemma split_go_bound (sep : str) (s : str) : forall skip cur p,
  In p (split_go sep skip cur s) ->
  (length p <= length cur + (length s - skip))%nat.
Proof.
  induction s as [|c r IH]; intros skip cur p Hin; cbn [split_go] in Hin.
  - destruct Hin as [<-|[]]. rewrite length_rev. lia.
  - destruct skip as [|k].
    + destruct (startsWith (c :: r) sep) eqn:Hs.
      * destruct Hin as [<-|Hin].
        -- rewrite length_rev. simpl. lia.
        -- apply IH in Hin. simpl in *. lia.
      * apply IH in Hin. simpl in *. lia.
    + apply IH in Hin. simpl. lia.
Qed.

(** Once the separator occurs, every piece is shorter than the text by at
    least the separator. *)
Lemma split_go_shorter (sep : str) (s : str) : forall cur p,
  sep <> [] -> includes s sep = true ->
  In p (split_go sep 0 cur s) ->
  (length p + length sep <= length cur + length s)%nat.
Proof.
  induction s as [|c r IH]; intros cur p Hsep Hinc Hin.
  - simpl in Hinc. destruct sep; [congruence|discriminate].
  - cbn [split_go] in Hin. destruct (startsWith (c :: r) sep) eqn:Hs.
    + pose proof (startsWith_length _ _ Hs) as Hl.
      destruct Hin as [<-|Hin].
      * rewrite length_rev. lia.
      * apply split_go_bound in Hin. simpl in *. lia.
    + assert (Hr : includes r sep = true).
      { change (includes (c :: r) sep)
          with (startsWith (c :: r) sep || includes r sep) in Hinc.
        rewrite Hs in Hinc. exact Hinc. }
      specialize (IH (c :: cur) p Hsep Hr Hin). simpl in *. lia.
Qed.

Lemma split_shorter (s sep p : str) :
  sep <> [] -> includes s sep = true -> In p (split s sep) ->
  (length p < length s)%nat.
Proof.
  intros Hsep Hinc Hin.
  pose proof (split_go_shorter sep s [] p Hsep Hinc Hin) as H.
  destruct sep; [congruence|]. simpl in H. lia.
Qed.

(** ** The filter evaluator *)

Import Filter.

Lemma every_agree (f g : str -> option bool) (parts : list str) :
  (forall p, In p parts -> f p = g p) -> every f parts = every g parts.
Proof.
  induction parts as [|p rest IH]; intro H; simpl; [reflexivity|].
  rewrite <- (H p (or_introl eq_refl)).
  destruct (f p) as [[|]|]; try reflexivity.
  apply IH. intros q Hq. apply H. now right.
Qed.

Lemma some_agree (f g : str -> option bool) (parts : list str) :
  (forall p, In p parts -> f p = g p) -> some f parts = some g parts.
Proof.
  induction parts as [|p rest IH]; intro H; simpl; [reflexivity|].
  rewrite <- (H p (or_introl eq_refl)).
  destruct (f p) as [[|]|]; try reflexivity.
  apply IH. intros q Hq. apply H. now right.
Qed.

Lemma every_forallb (f : str -> option bool) (g : str -> bool) (parts : list str) :
  (forall p, In p parts -> f p = Some (g p)) -> every f parts = Some (forallb g parts).
Proof.
  induction parts as [|p rest IH]; intro H; simpl; [reflexivity|].
  rewrite (H p (or_introl eq_refl)).
  destruct (g p); simpl; [|reflexivity].
  apply IH. intros q Hq. apply H. now right.
Qed.

Lemma some_existsb (f : str -> option bool) (g : str -> bool) (parts : list str) :
  (forall p, In p parts -> f p = Some (g p)) -> some f parts = Some (existsb g parts).
Proof.
  induction parts as [|p rest IH]; intro H; simpl; [reflexivity|].
  rewrite (H p (or_introl eq_refl)).
  destruct (g p); simpl; [reflexivity|].
  apply IH. intros q Hq. apply H. now right.
Qed.

Section EvaluatorFacts.

Variable lowerExt : char -> char.
Variable today : str.

Local Abbreviation normalized := (normalized lowerExt).
Local Abbreviation applyFilter_go := (applyFilter_go lowerExt today).
Local Abbreviation applyFilter := (applyFilter lowerExt today).
Local Abbreviation leafFilter := (leafFilter lowerExt today).
Local Abbreviation queryTasks := (queryTasks lowerExt today).
Local Abbreviation passesAll := (passesAll lowerExt today).

Lemma normalized_length (filter : str) :
  (length (normalized filter) <= length filter)%nat.
Proof.
  unfold Filter.normalized, Filter.toLowerCase.
  pose proof (trim_length (map (lowerChar lowerExt) filter)) as H.
  now rewrite length_map in H.
Qed.

Lemma and_sep_nonempty : lit " and " <> [].
Proof. discriminate. Qed.

Lemma or_sep_nonempty : lit " or " <> [].
Proof. discriminate. Qed.

Lemma part_shorter (f sep p : str) :
  sep <> [] -> includes (normalized f) sep = true ->
  In p (split (normalized f) sep) -> (length (trim p) < length f)%nat.
Proof.
  intros Hsep Hinc Hin.
  pose proof (split_shorter _ _ _ Hsep Hinc Hin).
  pose proof (trim_length p). pose proof (normalized_length f). lia.
Qed.

Lemma negated_shorter (f : str) :
  startsWith (normalized f) (lit "not ") = true ->
  (length (substring 4 (normalized f)) < length f)%nat.
Proof.
  intro H. apply startsWith_length in H. simpl in H.
  unfold substring. rewrite length_skipn.
  pose proof (normalized_length f). lia.
Qed.

(** One step of [applyFilter_go], with the normalized filter named. *)
Lemma applyFilter_go_step (fuel : nat) (task : Task) (f : str) :
  applyFilter_go (S fuel) task f =
  if includes (normalized f) (lit " and ")
  then every (fun part => applyFilter_go fuel task (trim part))
             (split (normalized f) (lit " and "))
  else if includes (normalized f) (lit " or ")
  then some (fun part => applyFilter_go fuel task (trim part))
            (split (normalized f) (lit " or "))
  else if startsWith (normalized f) (lit "not ")
          && negb (eqb_str (normalized f) (lit "not done"))
  then option_map negb (applyFilter_go fuel task (substring 4 (normalized f)))
  else Some (leafFilter task (normalized f)).
Proof. reflexivity. Qed.

(** Fuel beyond the length of the filter changes nothing. *)
Lemma applyFilter_go_fuel (task : Task) : forall n m f,
  (length f < n)%nat -> (length f < m)%nat ->
  applyFilter_go n task f = applyFilter_go m task f.
Proof.
  induction n as [|n IH]; intros m f Hn Hm; [lia|].
  destruct m as [|m]; [lia|].
  rewrite !applyFilter_go_step.
  destruct (includes (normalized f) (lit " and ")) eqn:Hand.
  { apply every_agree. intros p Hp.
    pose proof (part_shorter f _ p and_sep_nonempty Hand Hp).
    apply IH; lia. }
  destruct (includes (normalized f) (lit " or ")) eqn:Hor.
  { apply some_agree. intros p Hp.
    pose proof (part_shorter f _ p or_sep_nonempty Hor Hp).
    apply IH; lia. }
  destruct (startsWith (normalized f) (lit "not ")) eqn:Hnot; cbn [andb]; [|reflexivity].
  destruct (negb (eqb_str (normalized f) (lit "not done"))); [|reflexivity].
  pose proof (negated_shorter f Hnot).
  f_equal. apply IH; lia.
Qed.

(** With that much fuel the evaluation always answers: [applyFilter] is the
    answer. *)
Lemma applyFilter_go_total (task : Task) : forall n f,
  (length f < n)%nat -> applyFilter_go n task f = Some (applyFilter task f).
Proof.
  induction n as [|n IH]; intros f Hn; [lia|].
  unfold Filter.applyFilter.
  rewrite (applyFilter_go_fuel task (S (length f)) (S n) f) by lia.
  rewrite applyFilter_go_step.
  destruct (includes (normalized f) (lit " and ")) eqn:Hand.
  { rewrite (every_forallb _ (fun part => applyFilter task (trim part))); [reflexivity|].
    intros p Hp. pose proof (part_shorter f _ p and_sep_nonempty Hand Hp).
    apply IH; lia. }
  destruct (includes (normalized f) (lit " or ")) eqn:Hor.
  { rewrite (some_existsb _ (fun part => applyFilter task (trim part))); [reflexivity|].
    intros p Hp. pose proof (part_shorter f _ p or_sep_nonempty Hor Hp).
    apply IH; lia. }
  destruct (startsWith (normalized f) (lit "not ")) eqn:Hnot; cbn [andb]; [|reflexivity].
  destruct (negb (eqb_str (normalized f) (lit "not done"))); [|reflexivity].
  pose proof (negated_shorter f Hnot).
  rewrite (IH (substring 4 (normalized f))) by lia. reflexivity.
Qed.

(** The equation of [applyFilter], as the source reads. *)
Lemma applyFilter_eq (task : Task) (f : str) :
  applyFilter task f =
  if includes (normalized f) (lit " and ")
  then forallb (fun part => applyFilter task (trim part))
               (split (normalized f) (lit " and "))
  else if includes (normalized f) (lit " or ")
  then existsb (fun part => applyFilter task (trim part))
               (split (normalized f) (lit " or "))
  else if startsWith (normalized f) (lit "not ")
          && negb (eqb_str (normalized f) (lit "not done"))
  then negb (applyFilter task (substring 4 (normalized f)))
  else leafFilter task (normalized f).
Proof.
  pose proof (applyFilter_go_total task (S (length f)) f (Nat.lt_succ_diag_r _)) as H.
  rewrite applyFilter_go_step in H.
  destruct (includes (normalized f) (lit " and ")) eqn:Hand.
  { rewrite (every_forallb _ (fun part => applyFilter task (trim part))) in H.
    - now inversion H.
    - intros p Hp. pose proof (part_shorter f _ p and_sep_nonempty Hand Hp).
      apply applyFilter_go_total; lia. }
  destruct (includes (normalized f) (lit " or ")) eqn:Hor.
  { rewrite (some_existsb _ (fun part => applyFilter task (trim part))) in H.
    - now inversion H.
    - intros p Hp. pose proof (part_shorter f _ p or_sep_nonempty Hor Hp).
      apply applyFilter_go_total; lia. }
  destruct (startsWith (normalized f) (lit "not ")) eqn:Hnot; cbn [andb] in *;
    [|now inversion H].
  destruct (negb (eqb_str (normalized f) (lit "not done"))); [|now inversion H].
  pose proof (negated_shorter f Hnot).
  rewrite (applyFilter_go_total task (length f) (substring 4 (normalized f))) in H by lia.
  now inversion H.
Qed.

End EvaluatorFacts.

(** Whatever the case and the surrounding white space of the filter text,
    the two status leaves answer by the status alone. *)
Lemma applyFilter_done lowerExt today task filter :
  normalized lowerExt filter = lit "done" ->
  applyFilter lowerExt today task filter = status_eqb (status task) complete.
Proof. intro H. rewrite applyFilter_eq, H. reflexivity. Qed.

Lemma applyFilter_not_done lowerExt today task filter :
  normalized lowerExt filter = lit "not done" ->
  applyFilter lowerExt today task filter =
  status_eqb (status task) incomplete || status_eqb (status task) in_progress.
Proof. intro H. rewrite applyFilter_eq, H. reflexivity. Qed.

(** C2.  The filter [done] holds exactly of the tasks whose status is
    complete, and [not done] exactly of those whose status is incomplete or
    in progress.  [not done] is a leaf of its own: it is not the negation of
    [done], which would also hold of a cancelled task. *)
Theorem done_and_not_done_filters : forall lowerExt today task,
  applyFilter lowerExt today task (lit "done") = status_eqb (status task) complete
  /\ applyFilter lowerExt today task (lit "not done")
     = status_eqb (status task) incomplete || status_eqb (status task) in_progress
  /\ applyFilter lowerExt today task (lit "not done")
     = negb (applyFilter lowerExt today task (lit "done"))
       && negb (status_eqb (status task) cancelled).
Proof.
  intros lowerExt today task.
  rewrite (applyFilter_done lowerExt today task (lit "done")) by reflexivity.
  rewrite (applyFilter_not_done lowerExt today task (lit "not done")) by reflexivity.
  repeat split. now destruct (status task).
Qed.

(** C4.  When the normalized filter contains both [ and ] and [ or ], it is
    split on [ and ] and is the conjunction of its pieces, each evaluated as
    a filter of its own after trimming: an [ or ] stays inside a piece, so
    [or] binds tighter than [and] here. *)
Theorem and_is_split_before_or : forall lowerExt today task filter,
  includes (normalized lowerExt filter) (lit " and ") = true ->
  includes (normalized lowerExt filter) (lit " or ") = true ->
  applyFilter lowerExt today task filter
  = forallb (fun part => applyFilter lowerExt today task (trim part))
            (split (normalized lowerExt filter) (lit " and ")).
Proof.
  intros lowerExt today task filter Hand _.
  rewrite applyFilter_eq, Hand. reflexivity.
Qed.

(** Without [ and ], an [ or ] is split before a leading [not ] is read:
    the negation then belongs to the first piece only. *)
Lemma or_is_split_before_not lowerExt today task filter :
  includes (normalized lowerExt filter) (lit " and ") = false ->
  includes (normalized lowerExt filter) (lit " or ") = true ->
  applyFilter lowerExt today task filter
  = existsb (fun part => applyFilter lowerExt today task (trim part))
            (split (normalized lowerExt filter) (lit " or ")).
Proof. intros Hand Hor. rewrite applyFilter_eq, Hand, Hor. reflexivity. Qed.

(** ** The task collection query *)

Lemma passesAll_forallb lowerExt today task filters :
  passesAll lowerExt today task filters
  = forallb (applyFilter lowerExt today task) filters.
Proof.
  induction filters as [|f rest IH]; simpl; [reflexivity|].
  destruct (applyFilter lowerExt today task f); simpl; [exact IH|reflexivity].
Qed.

Lemma filter_Subseq {A : Type} (p : A -> bool) (l : list A) :
  Spec.Subseq (filter p l) l.
Proof.
  induction l as [|x l IH]; simpl; [constructor|].
  destruct (p x); now constructor.
Qed.

(** The filters of a query are its lines, trimmed, less the ignored ones. *)
Lemma queryFilters_spec (queryText : str) :
  queryFilters queryText
  = map trim (filter (fun line => negb (Spec.ignoredLine line))
                     (Spec.queryLines queryText)).
Proof.
  unfold queryFilters, Spec.queryLines.
  induction (split queryText [10]) as [|line rest IH]; simpl; [reflexivity|].
  unfold Spec.ignoredLine at 1. rewrite negb_orb.
  destruct (negb (length (trim line) =? 0)%nat && negb (startsWith (trim line) (lit "#")));
    simpl; now rewrite IH.
Qed.

(** C3.  The query keeps exactly the tasks of which every retained predicate
    line holds -- the lines of the query text, trimmed, that are neither
    blank nor comments -- and keeps them in the order of the input. *)
Theorem queryTasks_filters_in_order : forall lowerExt today tasks queryText,
  let retained :=
    map trim (filter (fun line => negb (Spec.ignoredLine line))
                     (Spec.queryLines queryText)) in
  queryTasks lowerExt today tasks queryText
  = filter (fun task => forallb (applyFilter lowerExt today task) retained) tasks
  /\ Spec.Subseq (queryTasks lowerExt today tasks queryText) tasks
  /\ forall task,
       In task (queryTasks lowerExt today tasks queryText) <->
       In task tasks /\
       Forall (fun line => applyFilter lowerExt today task line = true) retained.
Proof.
  intros lowerExt today tasks queryText retained.
  assert (Heq : queryTasks lowerExt today tasks queryText
                = filter (fun task => forallb (applyFilter lowerExt today task) retained)
                         tasks).
  { unfold queryTasks. rewrite queryFilters_spec. fold retained.
    apply filter_ext. intro task. apply passesAll_forallb. }
  split; [exact Heq|]. split.
  - unfold queryTasks. apply filter_Subseq.
  - intro task. rewrite Heq, filter_In, forallb_forall, Forall_forall. reflexivity.
Qed.

(** C10.  A query whose lines are all blank or comments keeps every task. *)
Theorem queryTasks_no_predicate_is_identity : forall lowerExt today tasks queryText,
  (forall line, In line (Spec.queryLines queryText) -> Spec.ignoredLine line = true) ->
  queryTasks lowerExt today tasks queryText = tasks.
Proof.
  intros lowerExt today tasks queryText Hall.
  unfold queryTasks. rewrite queryFilters_spec.
  assert (Hnone : filter (fun line => negb (Spec.ignoredLine line))
                         (Spec.queryLines queryText) = []).
  { induction (Spec.queryLines queryText) as [|line rest IH]; simpl; [reflexivity|].
    rewrite (Hall line (or_introl eq_refl)). simpl.
    apply IH. intros l Hl. apply Hall. now right. }
  rewrite Hnone. simpl.
  induction tasks as [|t rest IH]; simpl; [reflexivity|]. now rewrite IH.
Qed.

(** ** The identifier codec *)

Import Plugin.

Lemma lastIndexOf_None (c : char) (s : str) :
  lastIndexOf c s = None <-> ~ In c s.
Proof.
  induction s as [|x r IH]; simpl.
  - tauto.
  - destruct (lastIndexOf c r) as [i|].
    + split; [discriminate|]. intro H. exfalso.
      assert (Hr : ~ In c r) by tauto. apply IH in Hr. discriminate.
    + destruct (N.eqb_spec x c) as [->|Hne].
      * split; [discriminate|]. intro H. exfalso. apply H. now left.
      * split; [|reflexivity]. intros _ [Hx|Hr]; [congruence|].
        now apply (proj1 IH eq_refl).
Qed.

Lemma lastIndexOf_last (c : char) (a b : str) :
  ~ In c b -> lastIndexOf c (a ++ c :: b) = Some (length a).
Proof.
  intro Hb. induction a as [|x a IH]; simpl.
  - apply lastIndexOf_None in Hb. rewrite Hb, N.eqb_refl. reflexivity.
  - now rewrite IH.
Qed.

Lemma lastIndexOf_Some (c : char) (s : str) (i : nat) :
  lastIndexOf c s = Some i ->
  s = firstn i s ++ c :: skipn (S i) s /\ ~ In c (skipn (S i) s).
Proof.
  revert i; induction s as [|x r IH]; intros i H; simpl in H; [discriminate|].
  destruct (lastIndexOf c r) as [j|] eqn:Hr.
  - inversion H; subst. destruct (IH j eq_refl) as [Heq Hnot].
    split; [|exact Hnot]. simpl. f_equal. exact Heq.
  - destruct (N.eqb_spec x c) as [->|Hne]; [|discriminate].
    inversion H; subst. simpl. split; [reflexivity|].
    now apply lastIndexOf_None.
Qed.

Lemma parseTaskId_split (path segment : str) :
  ~ In Spec.separator segment ->
  parseTaskId (path ++ Spec.separator :: segment) =
  match parseInt segment with
  | Some lineNumber => Done (path, lineNumber)
  | None => Rejected (InvalidLineNumberInTaskId (path ++ Spec.separator :: segment))
  end.
Proof.
  intro H. unfold parseTaskId.
  change (ch ":") with Spec.separator.
  rewrite (lastIndexOf_last _ path segment H).
  rewrite firstn_app, Nat.sub_diag, firstn_all. simpl firstn. rewrite app_nil_r.
  replace (length path + 1)%nat with (length path + 1 + 0)%nat by lia.
  rewrite <- Nat.add_assoc.
  rewrite skipn_app, skipn_all2 by lia.
  replace (length path + (1 + 0) - length path)%nat with 1%nat by lia.
  simpl. destruct (parseInt segment); reflexivity.
Qed.

(** On decimal digits [readDigits] computes the number they denote. *)
Lemma readDigits_decimal (segment : str) : forall seen acc,
  forallb isDigit segment = true ->
  readDigits 10 seen acc segment
  = if seen || negb (length segment =? 0)%nat
    then Some (fold_left (fun a c => a * 10 + (c - 0x30)) segment acc)
    else None.
Proof.
  induction segment as [|c r IH]; intros seen acc H; simpl.
  - now destruct seen.
  - simpl in H. apply andb_true_iff in H as [Hc Hr].
    unfold digitValue. rewrite Hc. rewrite IH by exact Hr. simpl.
    now rewrite orb_true_r.
Qed.

Lemma decimalValue_pos (segment : str) : forall acc,
  forallb isDigit segment = true ->
  existsb (fun c => negb (c =? ch "0")) segment = true \/ 0 < acc ->
  0 < fold_left (fun a c => a * 10 + (c - 0x30)) segment acc.
Proof.
  induction segment as [|c r IH]; intros acc Hd H; simpl.
  - destruct H as [H|H]; [discriminate|exact H].
  - simpl in Hd. apply andb_true_iff in Hd as [Hc Hr].
    apply IH; [exact Hr|].
    simpl in H. destruct H as [H|H].
    + apply orb_true_iff in H as [H|H]; [|now left].
      right. apply negb_true_iff in H. apply N.eqb_neq in H.
      unfold isDigit in Hc. apply andb_true_iff in Hc as [Hlo Hhi].
      apply N.leb_le in Hlo. change (ch "0") with 48 in H. lia.
    + right. lia.
Qed.

Lemma parseInt_positive (segment : str) :
  Spec.isPositiveInteger segment = true ->
  parseInt segment = Some (Z.of_N (Spec.decimalValue segment))
  /\ (0 < Z.of_N (Spec.decimalValue segment))%Z.
Proof.
  unfold Spec.isPositiveInteger. intro H.
  apply andb_true_iff in H as [H Hnz]. apply andb_true_iff in H as [Hne Hd].
  split.
  - destruct segment as [|c r]; [discriminate|].
    assert (Hc : isDigit c = true) by (simpl in Hd; now apply andb_true_iff in Hd).
    pose proof (isDigit_not_ws c Hc) as Hws.
    unfold isDigit in Hc. apply andb_true_iff in Hc as [Hlo Hhi].
    apply N.leb_le in Hlo. apply N.leb_le in Hhi.
    assert (Hsign : splitSign (trimStart (c :: r)) = (false, c :: r)).
    { unfold trimStart, dropWhile. cbn [span]. rewrite Hws. cbn [snd splitSign].
      assert ((c =? ch "-") = false) as ->
        by (apply N.eqb_neq; change (ch "-") with 45; lia).
      assert ((c =? ch "+") = false) as ->
        by (apply N.eqb_neq; change (ch "+") with 43; lia).
      reflexivity. }
    assert (Hradix : splitRadix (c :: r) = (10, c :: r)).
    { destruct r as [|c1 r']; [reflexivity|].
      assert (Hc1 : isDigit c1 = true).
      { simpl in Hd. apply andb_true_iff in Hd as [_ Hd].
        now apply andb_true_iff in Hd. }
      unfold isDigit in Hc1. apply andb_true_iff in Hc1 as [_ Hhi1].
      apply N.leb_le in Hhi1. cbn [splitRadix].
      assert ((c1 =? ch "x") = false) as ->
        by (apply N.eqb_neq; change (ch "x") with 120; lia).
      assert ((c1 =? ch "X") = false) as ->
        by (apply N.eqb_neq; change (ch "X") with 88; lia).
      now rewrite andb_false_r. }
    unfold parseInt. rewrite Hsign, Hradix.
    rewrite readDigits_decimal by exact Hd. reflexivity.
  - change 0%Z with (Z.of_N 0). apply N2Z.inj_lt.
    apply decimalValue_pos; [exact Hd|now left].
Qed.

Lemma readDigits_seen (radix : N) (s : str) : forall acc,
  readDigits radix true acc s <> None.
Proof.
  induction s as [|c r IH]; intro acc; simpl; [discriminate|].
  destruct (digitValue radix c); [apply IH|discriminate].
Qed.

Lemma readDigits_None (radix : N) (s : str) :
  readDigits radix false 0 s = None <->
  match s with
  | c :: _ => digitValue radix c = None
  | [] => True
  end.
Proof.
  destruct s as [|c r]; simpl; [tauto|].
  destruct (digitValue radix c) as [d|]; split; intro H;
    try reflexivity; try discriminate.
  now apply readDigits_seen in H.
Qed.

Lemma digitValue_decimal (c : char) : digitValue 10 c = None <-> isDigit c = false.
Proof.
  unfold digitValue. destruct (isDigit c); simpl; split; intro H;
    try discriminate; reflexivity.
Qed.

Lemma digitValue_hex (c : char) : digitValue 16 c = None <-> Spec.isHexDigit c = false.
Proof.
  unfold digitValue, Spec.isHexDigit. destruct (isDigit c); simpl.
  - split; discriminate.
  - destruct ((0x61 <=? c) && (c <=? 0x66)); simpl; [split; discriminate|].
    destruct ((0x41 <=? c) && (c <=? 0x46)); simpl; split; intro H;
      try discriminate; reflexivity.
Qed.

Lemma afterSign_splitSign (segment : str) :
  Spec.afterSign segment = snd (splitSign (trimStart segment)).
Proof.
  unfold Spec.afterSign, splitSign. destruct (trimStart segment) as [|c r];
    [reflexivity|].
  destruct (c =? ch "-"); [reflexivity|]. now destruct (c =? ch "+").
Qed.

Lemma splitRadix_NaN (s2 : str) :
  readDigits (fst (splitRadix s2)) false 0 (snd (splitRadix s2)) = None <->
  match s2 with
  | c0 :: c1 :: r =>
      if (c0 =? ch "0") && ((c1 =? ch "x") || (c1 =? ch "X"))
      then match r with
           | h :: _ => Spec.isHexDigit h
           | [] => false
           end
      else isDigit c0
  | [c0] => isDigit c0
  | [] => false
  end = false.
Proof.
  rewrite readDigits_None. unfold splitRadix.
  destruct s2 as [|c0 [|c1 r]]; cbn [fst snd].
  - tauto.
  - apply digitValue_decimal.
  - destruct ((c0 =? ch "0") && ((c1 =? ch "x") || (c1 =? ch "X"))); cbn [fst snd].
    + destruct r as [|h r1]; [tauto|]. apply digitValue_hex.
    + apply digitValue_decimal.
Qed.

(** [parseInt] answers [NaN] exactly on the segments that do not start with
    an integer. *)
Lemma parseInt_NaN (segment : str) :
  parseInt segment = None <-> Spec.startsWithInteger segment = false.
Proof.
  unfold Spec.startsWithInteger. rewrite afterSign_splitSign.
  rewrite <- splitRadix_NaN. unfold parseInt.
  destruct (splitSign (trimStart segment)) as [neg s2]. cbn [snd].
  destruct (splitRadix s2) as [radix s3]. cbn [fst snd].
  destruct (readDigits radix false 0 s3); split; intro H;
    try discriminate; reflexivity.
Qed.

(** C5, as the claim states it, fails: the identifier below is accepted, with
    line number 0, though its trailing segment is not a positive integer;
    so is one that ends in a negative number. *)
Lemma parseTaskId_accepts_zero :
  parseTaskId (lit "notes.md:0") = Done (lit "notes.md", 0%Z)
  /\ Spec.isPositiveInteger (lit "0") = false
  /\ parseTaskId (lit "notes.md:-3") = Done (lit "notes.md", (-3)%Z)
  /\ Spec.isPositiveInteger (lit "-3") = false.
Proof. repeat split; reflexivity. Qed.

(** C5, amended.  [parseTaskId] splits the identifier at its last separator
    and reads the trailing segment with [parseInt].  It fails exactly when
    the identifier has no separator or the trailing segment does not start
    with an integer; otherwise it returns the text before the separator and
    a line number, which need not be positive.  A line number below 2^53 in
    magnitude is the integer [parseInt] reads in the segment, and where the
    segment is a positive integer it is that integer. *)
Theorem parseTaskId_last_separator : forall id,
  match parseTaskId id with
  | Rejected _ =>
      ~ In Spec.separator id
      \/ exists path segment,
           id = path ++ Spec.separator :: segment
           /\ ~ In Spec.separator segment
           /\ Spec.startsWithInteger segment = false
  | Done (path, lineNumber) =>
      exists segment,
        id = path ++ Spec.separator :: segment
        /\ ~ In Spec.separator segment
        /\ Spec.startsWithInteger segment = true
        /\ (Spec.safeInteger lineNumber = true ->
            parseInt segment = Some lineNumber
            /\ (Spec.isPositiveInteger segment = true ->
                lineNumber = Z.of_N (Spec.decimalValue segment)
                /\ (0 < lineNumber)%Z))
  end.
Proof.
  intro id. destruct (lastIndexOf Spec.separator id) as [i|] eqn:Hlast.
  - destruct (lastIndexOf_Some _ _ _ Hlast) as [Heq Hnot].
    set (path := firstn i id) in *. set (segment := skipn (S i) id) in *.
    clearbody path segment. clear Hlast. subst id.
    rewrite (parseTaskId_split path segment Hnot).
    destruct (parseInt segment) as [n|] eqn:Hint.
    + exists segment. split; [reflexivity|]. split; [exact Hnot|]. split.
      * destruct (Spec.startsWithInteger segment) eqn:E; [reflexivity|].
        apply parseInt_NaN in E. congruence.
      * intros _. split; [exact Hint|]. intro H.
        destruct (parseInt_positive segment H) as [Hv Hpos].
        split; congruence.
    + right. exists path, segment. repeat split; try assumption.
      now apply parseInt_NaN.
  - unfold parseTaskId. change (ch ":") with Spec.separator. rewrite Hlast.
    left. now apply lastIndexOf_None.
Qed.

(** ** Line numbers *)

Lemma outOfRange_boundary (lineNumber : Z) (lines : list str) :
  lineNumber = 0%Z \/ lineNumber = (Z.of_nat (length lines) + 1)%Z ->
  outOfRange lineNumber lines = true.
Proof.
  unfold outOfRange. intros [-> | ->].
  - reflexivity.
  - apply orb_true_iff. right. apply Z.gtb_lt. lia.
Qed.

(** The two file operations refuse a line number outside the file and leave
    the vault as it was. *)
Lemma file_operations_reject_out_of_range v filePath content lineNumber newTaskMarkdown :
  v filePath = Some content ->
  outOfRange lineNumber (split content [0x0A]) = true ->
  updateTaskInFile v filePath lineNumber newTaskMarkdown
  = (Rejected (InvalidLineNumber lineNumber (Some (length (split content [0x0A])))), v)
  /\ removeTaskFromFile v filePath lineNumber
     = (Rejected (InvalidLineNumber lineNumber (Some (length (split content [0x0A])))), v).
Proof.
  intros Hfile Hout. unfold updateTaskInFile, removeTaskFromFile.
  rewrite Hfile, Hout. split; reflexivity.
Qed.

(** So do the three tool branches, once the address has been resolved. *)
Lemma tools_reject_out_of_range tasksApi v args fields filePath content lineNumber :
  resolveAddress args = Done (filePath, lineNumber) ->
  v filePath = Some content ->
  outOfRange lineNumber (split content [0x0A]) = true ->
  toggle_task tasksApi v args = (Rejected (InvalidLineNumber lineNumber None), v)
  /\ update_task v args fields = (Rejected (InvalidLineNumber lineNumber None), v)
  /\ remove_task v args
     = (Rejected (InvalidLineNumber lineNumber (Some (length (split content [0x0A])))), v).
Proof.
  intros Haddr Hfile Hout. unfold toggle_task, update_task, remove_task.
  rewrite Haddr, Hfile, Hout. repeat split; try reflexivity.
  apply (file_operations_reject_out_of_range v filePath content lineNumber []);
    assumption.
Qed.

(** A task identifier that ends in 0 resolves to line 0, which the range
    test then refuses. *)
Lemma line_zero_by_identifier :
  let v := Spec.oneFile (lit "notes.md") (lit "- [x] Done task") in
  let args := mkAddress (Some (lit "notes.md:0")) None None in
  toggle_task None v args = (Rejected (InvalidLineNumber 0 None), v)
  /\ update_task v args Spec.noOverrides = (Rejected (InvalidLineNumber 0 None), v)
  /\ remove_task v args = (Rejected (InvalidLineNumber 0 (Some 1%nat)), v).
Proof. repeat split; reflexivity. Qed.

(** C8.  The line number 0 given as a number, next to a path, does not
    reach the range test: the address test takes 0 for a missing property,
    and the three tool branches answer that an address is required, whatever
    the vault holds.  Nothing is written.  So it is for the file of one line
    below, where line 0 is outside the lines of the file. *)
Theorem line_zero_by_number_is_address_error :
  (forall tasksApi v filePath fields,
     let args := mkAddress None (Some filePath) (Some 0%Z) in
     toggle_task tasksApi v args = (Rejected AddressRequired, v)
     /\ update_task v args fields = (Rejected AddressRequired, v)
     /\ remove_task v args = (Rejected AddressRequired, v))
  /\ (let v := Spec.oneFile (lit "notes.md") (lit "- [x] Done task") in
      let args := mkAddress None (Some (lit "notes.md")) (Some 0%Z) in
      outOfRange 0 (split (lit "- [x] Done task") [0x0A]) = true
      /\ toggle_task None v args = (Rejected AddressRequired, v)).
Proof.
  split.
  - intros tasksApi v filePath fields args.
    unfold toggle_task, update_task, remove_task, resolveAddress.
    subst args. cbn [taskId addr_filePath addr_lineNumber Builder.truthy].
    destruct filePath as [|c r]; repeat split; reflexivity.
  - repeat split; reflexivity.
Qed.

(** ** The line parser *)

Import TaskParser.

(** A recognized line: the record is built from the four groups. *)
Lemma parseTaskLine_Some line filePath lineNumber task :
  parseTaskLine line filePath lineNumber = Some task ->
  exists indent marker statusChar rest,
    taskRegex line = Some (indent, marker, statusChar, rest)
    /\ description task = trim rest
    /\ statusSymbol task = statusChar
    /\ status task = statusOfChar statusChar
    /\ tags task
       = filter (fun tag => negb (length tag =? 0)%nat)
                (map trim (matchAll hashTagsRegex (description task)))
    /\ dueDate task = search dueDateRegex (description task)
    /\ scheduledDate task = search scheduledDateRegex (description task)
    /\ startDate task = search startDateRegex (description task)
    /\ createdDate task = search createdDateRegex (description task)
    /\ recurrence task = search recurrenceRegex (description task)
    /\ priority task
       = match matchAll priorityRegex (description task) with
         | firstPriority :: _ => priorityOfGlyph firstPriority
         | [] => None
         end.
Proof.
  unfold parseTaskLine. intro H.
  destruct (taskRegex line) as [[[[indent marker] statusChar] rest]|]; [|discriminate].
  inversion H; subst; clear H. cbn [description statusSymbol status tags dueDate
    scheduledDate startDate createdDate recurrence priority].
  exists indent, marker, statusChar, rest. repeat split; reflexivity.
Qed.

Lemma search_here {A : Type} (m : str -> option A) (s : str) (a : A) :
  m s = Some a -> search m s = Some a.
Proof. intro H. destruct s; simpl; now rewrite H. Qed.

Lemma search_next {A : Type} (m : str -> option A) (c : char) (r : str) :
  m (c :: r) = None -> search m (c :: r) = search m r.
Proof. intro H. simpl. now rewrite H. Qed.

Lemma takeWhile_stop (p : char -> bool) (a : str) (w : char) (more : str) :
  forallb p a = true -> p w = false -> takeWhile p (a ++ w :: more) = a.
Proof.
  intros Ha Hw. unfold takeWhile. induction a as [|c r IH]; simpl.
  - now rewrite Hw.
  - simpl in Ha. apply andb_true_iff in Ha as [Hc Hr]. rewrite Hc.
    specialize (IH Hr). destruct (span p (r ++ w :: more)); simpl in *. now rewrite IH.
Qed.

Lemma takeWhile_all (p : char -> bool) (a : str) :
  forallb p a = true -> takeWhile p a = a.
Proof.
  intros Ha. unfold takeWhile. induction a as [|c r IH]; simpl; [reflexivity|].
  simpl in Ha. apply andb_true_iff in Ha as [Hc Hr]. rewrite Hc.
  specialize (IH Hr). destruct (span p r); simpl in *. now rewrite IH.
Qed.

(** A matcher that needs [g] at its position looks past a text in which [g]
    does not occur, up to the first [g]. *)
Lemma search_first {A : Type} (m : str -> option A) (g a rest : str) :
  g <> [] ->
  (forall s, startsWith s g = false -> m s = None) ->
  Spec.firstPart a g = true ->
  search m (a ++ g ++ rest) = search m (g ++ rest).
Proof.
  intros Hg Hm Hfirst. unfold Spec.firstPart in Hfirst. apply negb_true_iff in Hfirst.
  induction a as [|c a IH]; [reflexivity|].
  cbn [app includes] in Hfirst. apply orb_false_iff in Hfirst as [Hhere Hlater].
  cbn [app]. rewrite search_next; [now apply IH|].
  apply Hm. now apply startsWith_before.
Qed.

Lemma recurrenceRegex_none (s : str) :
  startsWith s Glyph.repeat = false -> recurrenceRegex s = None.
Proof. intro H. unfold recurrenceRegex. now rewrite H. Qed.

(** C6.  When the first recurrence glyph of the content is followed, after
    at most one white space character, by a phrase of several words, the
    recurrence field is the first word of the phrase: the text up to the
    white space that ends it. *)
Theorem recurrence_is_first_word :
  forall line filePath lineNumber task before gap word w more,
    parseTaskLine line filePath lineNumber = Some task ->
    description task = before ++ Glyph.repeat ++ gap ++ word ++ w :: more ->
    Spec.firstPart before Glyph.repeat = true ->
    Spec.optionalWs gap = true ->
    word <> [] ->
    forallb (fun c => negb (isWs c)) word = true ->
    isWs w = true ->
    recurrence task = Some word.
Proof.
  intros line filePath lineNumber task before gap word w more
    Hparse Hdesc Hbefore Hgap Hword Hnows Hw.
  destruct (parseTaskLine_Some _ _ _ _ Hparse)
    as (indent & marker & statusChar & rest & _ & _ & _ & _ & _ & _ & _ & _ & _ & Hrec & _).
  rewrite Hrec, Hdesc.
  rewrite (search_first recurrenceRegex Glyph.repeat before _)
    by (discriminate || exact recurrenceRegex_none || exact Hbefore).
  apply search_here. unfold recurrenceRegex.
  rewrite startsWith_app, skipn_past. f_equal.
  assert (Hstop : negb (isWs w) = false) by now rewrite Hw.
  destruct gap as [|s [|s' gap']]; simpl in Hgap; try discriminate.
  - destruct word as [|c word']; [congruence|].
    simpl in Hnows. apply andb_true_iff in Hnows as [Hc Hrest].
    simpl app. cbv beta iota.
    rewrite (proj1 (negb_true_iff _) Hc).
    apply (takeWhile_stop _ (c :: word') w more); [|exact Hstop].
    simpl. rewrite Hc. exact Hrest.
  - simpl app. cbv beta iota. rewrite Hgap.
    apply (takeWhile_stop _ word w more); assumption.
Qed.

(** The expression gives the glyph one optional white space character only:
    behind two, the recurrence is the empty text between them. *)
Lemma recurrence_after_two_spaces :
  option_map recurrence
    (parseTaskLine (lit "- [ ] Pay rent " ++ Glyph.repeat ++ lit "  every 2 weeks")
       (lit "notes.md") 1)
  = Some (Some []).
Proof. reflexivity. Qed.

(** A date that [isoDate] returns whole is ten characters that start with a
    digit, and is found again at the head of any longer text. *)
Lemma isoDate_whole (date : str) :
  isoDate date = Some date ->
  length date = 10%nat
  /\ (exists c r, date = c :: r /\ isDigit c = true)
  /\ forall tail, isoDate (date ++ tail) = Some date.
Proof.
  intro H.
  do 10 (destruct date as [|? date]; [discriminate|]).
  unfold isoDate in H. cbn [firstn] in H.
  match type of H with
  | (if ?cond then _ else _) = _ => destruct cond eqn:Hcond; [|discriminate]
  end.
  inversion H as [Hnil]. rewrite <- Hnil in *. clear H Hnil.
  split; [reflexivity|]. split.
  - eexists _, _. split; [reflexivity|].
    do 9 (apply andb_true_iff in Hcond as [Hcond _]). exact Hcond.
  - intro tail. unfold isoDate. cbn [app firstn]. now rewrite Hcond.
Qed.

Lemma isoDate_not_digit (c : char) (s : str) :
  isDigit c = false -> isoDate (c :: s) = None.
Proof.
  intro H. unfold isoDate.
  do 9 (destruct s as [|? s]; [reflexivity|]).
  now rewrite H.
Qed.

(** The date expression at a character of its class: the date is the
    capture. *)
Lemma glyphDate_here (glyphs : list char) (g : char) (gap date tail : str) :
  existsb (N.eqb g) glyphs = true ->
  Spec.optionalWs gap = true ->
  isoDate date = Some date ->
  glyphDate glyphs (g :: gap ++ date ++ tail)
  = Some (date, (11 + length gap)%nat).
Proof.
  intros Hg Hgap Hdate.
  destruct (isoDate_whole date Hdate) as (_ & (c & r & Hc & Hdigit) & Hiso).
  unfold glyphDate. rewrite Hg.
  destruct gap as [|s [|s' gap']]; simpl in Hgap; try discriminate.
  - subst date. cbn [app length]. cbv beta iota.
    rewrite (isDigit_not_ws c Hdigit).
    change (c :: r ++ tail) with ((c :: r) ++ tail). now rewrite Hiso.
  - cbn [app length]. cbv beta iota. rewrite Hgap. now rewrite Hiso.
Qed.

(** The date expression finds nothing at a character that is outside its
    class, nor at one that is followed by neither white space nor a
    digit. *)
Lemma glyphDate_out (glyphs : list char) (c : char) (s : str) :
  existsb (N.eqb c) glyphs = false -> glyphDate glyphs (c :: s) = None.
Proof. intro H. unfold glyphDate. now rewrite H. Qed.

Lemma glyphDate_next (glyphs : list char) (c n : char) (s : str) :
  isWs n = false -> isDigit n = false -> glyphDate glyphs (c :: n :: s) = None.
Proof.
  intros Hw Hd. unfold glyphDate. destruct (existsb (N.eqb c) glyphs); [|reflexivity].
  rewrite Hw. now rewrite isoDate_not_digit.
Qed.

(** The date expression at its glyph, a sequence: the date is the capture. *)
Lemma markDate_here (glyph gap date tail : str) :
  Spec.optionalWs gap = true ->
  isoDate date = Some date ->
  markDate glyph (glyph ++ gap ++ date ++ tail)
  = Some (date, (length glyph + (10 + length gap))%nat).
Proof.
  intros Hgap Hdate.
  destruct (isoDate_whole date Hdate) as (_ & (c & r & Hc & Hdigit) & Hiso).
  unfold markDate. rewrite startsWith_app, skipn_past.
  destruct gap as [|s [|s' gap']]; simpl in Hgap; try discriminate.
  - subst date. cbn [app length]. cbv beta iota.
    rewrite (isDigit_not_ws c Hdigit).
    change (c :: r ++ tail) with ((c :: r) ++ tail). rewrite Hiso.
    cbn [option_map]. repeat f_equal; lia.
  - cbn [app length]. cbv beta iota. rewrite Hgap, Hiso.
    cbn [option_map]. repeat f_equal; lia.
Qed.

Lemma markDate_none (glyph s : str) :
  startsWith s glyph = false -> markDate glyph s = None.
Proof. intro H. unfold markDate. now rewrite H. Qed.


Lemma dueDateRegex_next (c n : char) (s : str) :
  isWs n = false -> isDigit n = false -> dueDateRegex (c :: n :: s) = None.
Proof. intros Hw Hd. unfold dueDateRegex. now rewrite glyphDate_next. Qed.






(** Behind two white space characters the date is not read. *)
Lemma dueDate_after_two_spaces :
  option_map dueDate
    (parseTaskLine (lit "- [ ] A " ++ Glyph.calendar ++ lit "  2025-04-01")
       (lit "notes.md") 1)
  = Some None.
Proof. reflexivity. Qed.

(** The glyphs stand in a class, so one character of a glyph does for the
    whole of it: the last letter of the first word below is read as a due
    date glyph. *)
Lemma dueDate_behind_one_character :
  option_map dueDate
    (parseTaskLine (lit "- [ ] Men" ++ [0xFC] ++ lit " 2025-04-01") (lit "notes.md") 1)
  = Some (Some (lit "2025-04-01")).
Proof. reflexivity. Qed.

(** ** What the description keeps *)

Lemma includes_here (s a : str) : startsWith s a = true -> includes s a = true.
Proof. intro H. destruct s; cbn [includes]; now rewrite H. Qed.

Lemma includes_app (before a tail : str) : includes (before ++ a ++ tail) a = true.
Proof.
  induction before as [|c r IH].
  - simpl app. apply includes_here. apply startsWith_app.
  - cbn [app includes]. now rewrite IH, orb_true_r.
Qed.

Lemma includes_inside (s before x tail a : str) :
  s = before ++ x ++ tail -> includes x a = true -> includes s a = true.
Proof.
  intros -> H.
  assert (Hx : exists b t, x = b ++ a ++ t).
  { clear before tail. induction x as [|c r IH].
    - simpl in H. rewrite orb_false_r in H.
      destruct a; [|discriminate]. now exists [], [].
    - change (includes (c :: r) a) with (startsWith (c :: r) a || includes r a) in H.
      apply orb_true_iff in H as [H|H].
      + exists [], (skipn (length a) (c :: r)). simpl app.
        clear IH. revert H. generalize (c :: r). clear.
        induction a as [|p a IH]; intros [|y l] H; simpl in *;
          try reflexivity; try discriminate.
        apply andb_true_iff in H as [Hy H]. apply N.eqb_eq in Hy. subst.
        f_equal. now apply IH.
      + destruct (IH H) as (b & t & ->). now exists (c :: b), t. }
  destruct Hx as (b & t & ->).
  replace (before ++ (b ++ a ++ t) ++ tail) with ((before ++ b) ++ a ++ (t ++ tail))
    by (repeat rewrite <- app_assoc; reflexivity).
  apply includes_app.
Qed.

Lemma trim_inside (s : str) : exists before tail, s = before ++ trim s ++ tail.
Proof.
  unfold trim, trimEnd, trimStart, dropWhile.
  exists (fst (span isWs s)).
  exists (rev (fst (span isWs (rev (snd (span isWs s)))))).
  rewrite <- rev_app_distr, span_app, rev_involutive. now rewrite span_app.
Qed.

Lemma matchAll_go_inside (m : matcher) (s : str) : forall start skip x,
  In x (matchAll_go m start skip s) -> exists before tail, s = before ++ x ++ tail.
Proof.
  induction s as [|c r IH]; intros start skip x Hin; simpl in Hin; [contradiction|].
  destruct skip as [|k].
  - destruct (m start (c :: r)) as [len|].
    + destruct Hin as [<-|Hin].
      * exists [], (skipn len (c :: r)). simpl app. now rewrite firstn_skipn.
      * destruct (IH _ _ _ Hin) as (b & t & ->). now exists (c :: b), t.
    + destruct (IH _ _ _ Hin) as (b & t & ->). now exists (c :: b), t.
  - destruct (IH _ _ _ Hin) as (b & t & ->). now exists (c :: b), t.
Qed.

Lemma search_found {A : Type} (m : str -> option A) (s : str) (a : A) :
  search m s = Some a -> exists before s', s = before ++ s' /\ m s' = Some a.
Proof.
  induction s as [|c r IH]; simpl.
  - destruct (m []) eqn:E; [|discriminate]. intro H. inversion H; subst.
    now exists [], [].
  - destruct (m (c :: r)) eqn:E.
    + intro H. inversion H; subst. now exists [], (c :: r).
    + intro H. destruct (IH H) as (b & s' & -> & Hm). now exists (c :: b), s'.
Qed.

Lemma isoDate_firstn (s d : str) : isoDate s = Some d -> d = firstn 10 s.
Proof.
  unfold isoDate. do 10 (destruct s as [|? s]; [discriminate|]).
  match goal with |- (if ?c then _ else _) = _ -> _ => destruct c end;
    [|discriminate]. now inversion 1.
Qed.

Lemma inside_includes (s before x tail : str) :
  s = before ++ x ++ tail -> includes s x = true.
Proof. intros ->. apply includes_app. Qed.

Lemma date_field_occurs (glyphs : list char) (text : str) :
  Spec.dateOccurs glyphs text
    (search (fun s => option_map fst (glyphDate glyphs s)) text).
Proof.
  unfold Spec.dateOccurs.
  destruct (search _ text) as [d|] eqn:Hs; [|exact I].
  destruct (search_found _ _ _ Hs) as (before & s' & -> & Hm).
  unfold glyphDate in Hm.
  destruct s' as [|g r]; [discriminate|].
  destruct (existsb (N.eqb g) glyphs) eqn:Hg; [|discriminate].
  assert (Hin : In g glyphs).
  { apply existsb_exists in Hg as (x & Hx & Hgx). apply N.eqb_eq in Hgx. now subst. }
  destruct r as [|w r']; [discriminate|].
  destruct (isWs w) eqn:Hw.
  - destruct (isoDate r') as [d'|] eqn:Hd; [|discriminate].
    inversion Hm; subst. exists g, [w]. repeat split; [exact Hin|exact Hw|].
    rewrite (isoDate_firstn _ _ Hd).
    rewrite <- (firstn_skipn 10 r') at 1.
    change (before ++ g :: w :: firstn 10 r' ++ skipn 10 r')
      with (before ++ (g :: [w] ++ firstn 10 r') ++ skipn 10 r').
    apply includes_app.
  - destruct (isoDate (w :: r')) as [d'|] eqn:Hd; [|discriminate].
    inversion Hm; subst. exists g, []. repeat split; [exact Hin|].
    rewrite (isoDate_firstn _ _ Hd).
    rewrite <- (firstn_skipn 10 (w :: r')) at 1.
    change (before ++ g :: firstn 10 (w :: r') ++ skipn 10 (w :: r'))
      with (before ++ (g :: [] ++ firstn 10 (w :: r')) ++ skipn 10 (w :: r')).
    apply includes_app.
Qed.

Lemma tags_occur (text : str) :
  Forall (fun tag => includes text tag = true)
    (filter (fun tag => negb (length tag =? 0)%nat)
            (map trim (matchAll hashTagsRegex text))).
Proof.
  apply Forall_forall. intros tag Hin.
  apply filter_In in Hin as [Hin _].
  apply in_map_iff in Hin as (x & <- & Hx).
  destruct (matchAll_go_inside _ _ _ _ _ Hx) as (b & t & Htext).
  destruct (trim_inside x) as (b' & t' & Hxeq).
  apply (includes_inside text b x t (trim x) Htext).
  apply (inside_includes x b' (trim x) t' Hxeq).
Qed.

Lemma date_inside (s d : str) :
  isoDate s = Some d -> exists tail, s = d ++ tail.
Proof.
  intro H. exists (skipn 10 s). rewrite (isoDate_firstn _ _ H).
  symmetry. apply firstn_skipn.
Qed.

Lemma mark_field_occurs (glyph text : str) :
  Spec.markOccurs glyph text
    (search (fun s => option_map fst (markDate glyph s)) text).
Proof.
  unfold Spec.markOccurs.
  destruct (search _ text) as [d|] eqn:Hs; [|exact I].
  destruct (search_found _ _ _ Hs) as (before & s' & -> & Hm).
  unfold markDate in Hm.
  destruct (startsWith s' glyph) eqn:Hg; [|discriminate].
  apply startsWith_split in Hg.
  destruct (skipn (length glyph) s') as [|w r'] eqn:Hr; [discriminate|].
  destruct (isWs w) eqn:Hw.
  - destruct (isoDate r') as [d'|] eqn:Hd; [|discriminate].
    inversion Hm; subst d'. destruct (date_inside _ _ Hd) as (tail & ->).
    exists [w]. split; [exact Hw|].
    apply (inside_includes _ before _ tail). rewrite Hg.
    now rewrite <- !app_assoc.
  - destruct (isoDate (w :: r')) as [d'|] eqn:Hd; [|discriminate].
    inversion Hm; subst d'. destruct (date_inside _ _ Hd) as (tail & Heq).
    exists []. split; [reflexivity|].
    apply (inside_includes _ before _ tail). rewrite Hg, Heq.
    now rewrite <- !app_assoc.
Qed.

Lemma recurrence_occurs (text : str) :
  Spec.recurrenceOccurs text (search recurrenceRegex text).
Proof.
  unfold Spec.recurrenceOccurs, Spec.markOccurs.
  destruct (search recurrenceRegex text) as [r|] eqn:Hs; [|exact I].
  destruct (search_found _ _ _ Hs) as (before & s' & -> & Hm). clear Hs.
  unfold recurrenceRegex in Hm.
  destruct (startsWith s' Glyph.repeat) eqn:Hg; [|discriminate].
  apply startsWith_split in Hg. cbv zeta in Hm.
  set (tl := skipn (length Glyph.repeat) s') in *. clearbody tl. subst s'.
  set (p := fun x : char => negb (isWs x)) in *.
  destruct tl as [|w rest'].
  - inversion Hm; subst r. exists []. split; [reflexivity|].
    apply (inside_includes _ before _ []). now rewrite !app_nil_r.
  - destruct (isWs w) eqn:Hw; inversion Hm; subst r.
    + exists [w]. split; [exact Hw|].
      apply (inside_includes _ before _ (dropWhile p rest')).
      rewrite <- !app_assoc. cbn [app]. do 3 f_equal. symmetry. apply span_app.
    + exists []. split; [reflexivity|].
      apply (inside_includes _ before _ (dropWhile p (w :: rest'))).
      rewrite <- !app_assoc. cbn [app]. do 2 f_equal.
      symmetry. apply (span_app p (w :: rest')).
Qed.

Lemma priorityOfGlyph_glyph (first : str) (p : Priority) :
  priorityOfGlyph first = Some p -> first = Spec.priorityGlyph p.
Proof.
  unfold priorityOfGlyph.
  repeat match goal with
         | |- context [eqb_str first ?g] =>
             let E := fresh "E" in
             destruct (eqb_str first g) eqn:E;
             [apply eqb_str_eq in E; intro H; inversion H; subst; reflexivity|]
         end.
  discriminate.
Qed.

Lemma priority_occurs (text : str) :
  Spec.priorityOccurs text
    match matchAll priorityRegex text with
    | firstPriority :: _ => priorityOfGlyph firstPriority
    | [] => None
    end.
Proof.
  unfold Spec.priorityOccurs.
  destruct (matchAll priorityRegex text) as [|first others] eqn:Hm; [exact I|].
  destruct (priorityOfGlyph first) as [p|] eqn:Hp; [|exact I].
  apply priorityOfGlyph_glyph in Hp. subst first.
  assert (Hin : In (Spec.priorityGlyph p) (matchAll priorityRegex text))
    by (rewrite Hm; now left).
  destruct (matchAll_go_inside _ _ _ _ _ Hin) as (b & t & Htext).
  exact (inside_includes _ _ _ _ Htext).
Qed.

(** C1, as the claim states it, fails: the description of the line below
    still holds the tag and the due date that were taken from it. *)
Lemma description_not_stripped :
  exists task,
    parseTaskLine (lit "- [ ] A " ++ Glyph.calendar ++ lit " 2025-04-01 #work")
      (lit "notes.md") 1 = Some task
    /\ tags task = [lit "#work"]
    /\ dueDate task = Some (lit "2025-04-01")
    /\ description task = lit "A " ++ Glyph.calendar ++ lit " 2025-04-01 #work"
    /\ includes (description task) (lit "#work") = true
    /\ includes (description task) (Glyph.calendar ++ lit " 2025-04-01") = true.
Proof. eexists. split; [reflexivity|]. repeat split; reflexivity. Qed.

(** C1, amended.  For every line recognized as a task, the description is
    the content after the status box with the white space around it
    removed, and nothing else: every tag taken from it, every date with its
    glyph (for the due date, with the character of its class the date was
    read behind), the recurrence with its glyph and the priority glyph still
    occur in the description. *)
Theorem description_keeps_metadata : forall line filePath lineNumber task,
  parseTaskLine line filePath lineNumber = Some task ->
  (exists indent marker statusChar rest,
     taskRegex line = Some (indent, marker, statusChar, rest)
     /\ description task = trim rest)
  /\ Forall (fun tag => includes (description task) tag = true) (tags task)
  /\ Spec.dateOccurs dueGlyphs (description task) (dueDate task)
  /\ Spec.markOccurs Glyph.hourglass (description task) (scheduledDate task)
  /\ Spec.markOccurs Glyph.airplane (description task) (startDate task)
  /\ Spec.markOccurs Glyph.plus (description task) (createdDate task)
  /\ Spec.recurrenceOccurs (description task) (recurrence task)
  /\ Spec.priorityOccurs (description task) (priority task).
Proof.
  intros line filePath lineNumber task Hparse.
  destruct (parseTaskLine_Some _ _ _ _ Hparse)
    as (indent & marker & statusChar & rest & Hre & Hdesc & _ & _ & Htags & Hdue
        & Hsched & Hstart & Hcreated & Hrec & Hprio).
  split; [now exists indent, marker, statusChar, rest|].
  rewrite Htags, Hdue, Hsched, Hstart, Hcreated, Hrec, Hprio.
  repeat split.
  - apply tags_occur.
  - apply date_field_occurs.
  - apply mark_field_occurs.
  - apply mark_field_occurs.
  - apply mark_field_occurs.
  - apply recurrence_occurs.
  - apply priority_occurs.
Qed.

(** ** The properties at work *)

(** [description_keeps_metadata] on the line of the query example. *)
Lemma description_keeps_metadata_witness :
  exists task,
    parseTaskLine
      (lit "- [ ] A " ++ Glyph.calendar ++ lit " 2025-04-01 " ++ Glyph.hourglass
       ++ lit " 2025-03-28 #work")
      (lit "notes.md") 1 = Some task
    /\ Forall (fun tag => includes (description task) tag = true) (tags task)
    /\ Spec.dateOccurs dueGlyphs (description task) (dueDate task)
    /\ Spec.markOccurs Glyph.hourglass (description task) (scheduledDate task).
Proof.
  eexists. split; [reflexivity|].
  pose proof (description_keeps_metadata
                (lit "- [ ] A " ++ Glyph.calendar ++ lit " 2025-04-01 " ++ Glyph.hourglass
                 ++ lit " 2025-03-28 #work")
                (lit "notes.md") 1 _ eq_refl) as H.
  split; [exact (proj1 (proj2 H))|].
  split; [exact (proj1 (proj2 (proj2 H)))|exact (proj1 (proj2 (proj2 (proj2 H))))].
Defined.

(** [and_is_split_before_or] on a complete task: the filter is read as
    [(done or cancelled) and (not done)] and fails, where [and] binding
    tighter than [or] would let it hold. *)
Lemma and_is_split_before_or_witness :
  let filter := lit "done or cancelled and not done" in
  let task := Spec.plainTask complete in
  includes (normalized Spec.asciiOnly filter) (lit " and ") = true
  /\ includes (normalized Spec.asciiOnly filter) (lit " or ") = true
  /\ applyFilter Spec.asciiOnly Spec.someDay task filter = false
  /\ applyFilter Spec.asciiOnly Spec.someDay task (lit "done")
     || (applyFilter Spec.asciiOnly Spec.someDay task (lit "cancelled")
         && applyFilter Spec.asciiOnly Spec.someDay task (lit "not done")) = true.
Proof.
  intros filter task. split; [reflexivity|]. split; [reflexivity|]. split.
  - rewrite (and_is_split_before_or Spec.asciiOnly Spec.someDay task filter
               eq_refl eq_refl).
    reflexivity.
  - reflexivity.
Defined.

(** [recurrence_is_first_word] on a line that repeats every 2 weeks. *)
Lemma recurrence_is_first_word_witness :
  exists task,
    parseTaskLine (lit "- [ ] Pay rent " ++ Glyph.repeat ++ lit " every 2 weeks")
      (lit "notes.md") 1 = Some task
    /\ recurrence task = Some (lit "every").
Proof.
  eexists. split; [reflexivity|].
  apply (recurrence_is_first_word
           (lit "- [ ] Pay rent " ++ Glyph.repeat ++ lit " every 2 weeks")
           (lit "notes.md") 1 _
           (lit "Pay rent ") (lit " ") (lit "every") (ch " ") (lit "2 weeks"));
    try reflexivity.
  discriminate.
Defined.


(** [queryTasks_no_predicate_is_identity] on a query of a comment and a
    blank line. *)
Lemma queryTasks_no_predicate_is_identity_witness :
  let tasks := Spec.taskOfLine (lit "- [ ] A") ++ Spec.taskOfLine (lit "- [x] B") in
  let queryText := lit "# nothing to ask" ++ [0x0A] ++ lit "   " in
  forallb Spec.ignoredLine (Spec.queryLines queryText) = true
  /\ queryTasks Spec.asciiOnly Spec.someDay tasks queryText = tasks.
Proof.
  intros tasks queryText. split; [reflexivity|].
  apply queryTasks_no_predicate_is_identity.
  intros line Hin.
  assert (Hall : forallb Spec.ignoredLine (Spec.queryLines queryText) = true)
    by reflexivity.
  rewrite forallb_forall in Hall. now apply Hall.
Defined.

(** ** Serializing, parsing and serializing again *)

Import Builder.

(** C9, as the claim states it, fails: a tag inside the description is
    moved to the end of the line when the line is written again, and white
    space before the description is lost. *)
Lemma reserialize_moves_inline_tag :
  let args := mkBuildArgs (lit "Review #work notes") None None None None None None in
  let args' := mkBuildArgs (lit " A") None None None None None None in
  buildTaskMarkdown args = lit "- [ ] Review #work notes"
  /\ Spec.reserialize args (lit "notes.md") 1 = Some (lit "- [ ] Review notes #work")
  /\ Spec.reserialize args (lit "notes.md") 1 <> Some (buildTaskMarkdown args)
  /\ buildTaskMarkdown args' = lit "- [ ]  A"
  /\ Spec.reserialize args' (lit "notes.md") 1 = Some (lit "- [ ] A").
Proof.
  repeat split; try reflexivity.
  intro H. vm_compute in H. discriminate H.
Qed.

(** *** Walks over a text that holds no match *)

Lemma silent_app {A : Type} (m : str -> option A) (a b : str) :
  Spec.silent m a -> Spec.silent m b -> Spec.silent m (a ++ b).
Proof.
  intros Ha Hb. induction a as [|c a IH]; [exact Hb|].
  destruct Ha as [Hc Ha]. split.
  - intro s. pose proof (Hc (b ++ s)) as H. cbn [app] in H |- *.
    now rewrite <- app_assoc.
  - now apply IH.
Qed.

Lemma silent_avoids {A : Type} (G : char -> bool) (m : str -> option A) (a : str) :
  Spec.headedBy G m -> Spec.avoids G a = true -> Spec.silent m a.
Proof.
  intros [_ Hm]. induction a as [|c a IH]; intro H; [exact I|].
  simpl in H. apply andb_true_iff in H as [Hc Ha]. apply negb_true_iff in Hc.
  split; [|now apply IH]. intro s. cbn [app]. now apply Hm.
Qed.

Lemma search_silent {A : Type} (m : str -> option A) (a s : str) :
  Spec.silent m a -> search m (a ++ s) = search m s.
Proof.
  induction a as [|c a IH]; intro H; [reflexivity|].
  destruct H as [Hc Ha]. cbn [app].
  rewrite search_next by apply (Hc s). now apply IH.
Qed.

Lemma search_nothing {A : Type} (m : str -> option A) (a : str) :
  m [] = None -> Spec.silent m a -> search m a = None.
Proof.
  intros Hnil H. rewrite <- (app_nil_r a). rewrite search_silent by exact H.
  simpl. now rewrite Hnil.
Qed.

Section Silent.

Variable m : matcher.
Hypothesis Hflag : forall b s, m b s = m false s.

Lemma removeAll_go_flag (b : bool) (s : str) :
  removeAll_go m b 0 s = removeAll_go m false 0 s.
Proof.
  destruct s as [|c r]; cbn [removeAll_go]; [reflexivity|]. now rewrite (Hflag b).
Qed.

Lemma removeAll_silent (a : str) : forall b s,
  Spec.silentAt m a ->
  removeAll_go m b 0 (a ++ s) = a ++ removeAll_go m false 0 s.
Proof.
  induction a as [|c r IH]; intros b s Ha.
  - apply removeAll_go_flag.
  - pose proof (proj1 (Ha b) s) as Hc. cbn [app] in Hc.
    cbn [app removeAll_go]. rewrite Hc. f_equal. apply IH.
    intro b'. exact (proj2 (Ha b')).
Qed.

Lemma removeAll_nothing (b : bool) (s : str) :
  Spec.silentAt m s -> removeAll_go m b 0 s = s.
Proof.
  intro H. rewrite <- (app_nil_r s) at 1. rewrite removeAll_silent by exact H.
  cbn [removeAll_go]. apply app_nil_r.
Qed.

Lemma removeAll_pass (y s : str) :
  removeAll_go m false (length y) (y ++ s) = removeAll_go m false 0 s.
Proof. induction y as [|c r IH]; [reflexivity|exact IH]. Qed.

Lemma removeAll_miss (c : char) (s : str) :
  m false (c :: s) = None ->
  removeAll_go m false 0 (c :: s) = c :: removeAll_go m false 0 s.
Proof. intro H. cbn [removeAll_go]. now rewrite H. Qed.

Lemma removeAll_hit (g s : str) :
  g <> [] -> m false (g ++ s) = Some (length g) ->
  removeAll_go m false 0 (g ++ s) = removeAll_go m false 0 s.
Proof.
  intros Hg H. destruct g as [|c y]; [congruence|].
  cbn [app removeAll_go]. cbn [app length] in H. rewrite H. apply removeAll_pass.
Qed.

Lemma matchAll_go_flag (b : bool) (s : str) :
  matchAll_go m b 0 s = matchAll_go m false 0 s.
Proof.
  destruct s as [|c r]; cbn [matchAll_go]; [reflexivity|]. now rewrite (Hflag b).
Qed.

Lemma matchAll_silent (a : str) : forall b s,
  Spec.silentAt m a ->
  matchAll_go m b 0 (a ++ s) = matchAll_go m false 0 s.
Proof.
  induction a as [|c r IH]; intros b s Ha.
  - apply matchAll_go_flag.
  - pose proof (proj1 (Ha b) s) as Hc. cbn [app] in Hc.
    cbn [app matchAll_go]. rewrite Hc. apply IH.
    intro b'. exact (proj2 (Ha b')).
Qed.

Lemma matchAll_nothing (b : bool) (s : str) :
  Spec.silentAt m s -> matchAll_go m b 0 s = [].
Proof.
  intro H. rewrite <- (app_nil_r s). rewrite matchAll_silent by exact H. reflexivity.
Qed.

End Silent.

Lemma matchAll_pass (m : matcher) (y s : str) :
  matchAll_go m false (length y) (y ++ s) = matchAll_go m false 0 s.
Proof. induction y as [|c r IH]; [reflexivity|exact IH]. Qed.

Lemma matchAll_hit (m : matcher) (g s : str) :
  g <> [] -> m false (g ++ s) = Some (length g) ->
  matchAll_go m false 0 (g ++ s) = g :: matchAll_go m false 0 s.
Proof.
  intros Hg H. destruct g as [|c y]; [congruence|].
  cbn [app matchAll_go]. cbn [app length] in H. rewrite H. f_equal.
  - cbn [firstn]. f_equal. rewrite firstn_app, Nat.sub_diag, firstn_all.
    cbn [firstn]. apply app_nil_r.
  - cbn [Nat.sub]. rewrite Nat.sub_0_r. apply matchAll_pass.
Qed.

(** *** Classes of marks *)

Lemma avoids_app (G : char -> bool) (a b : str) :
  Spec.avoids G (a ++ b) = Spec.avoids G a && Spec.avoids G b.
Proof. apply forallb_app. Qed.

Lemma wordChar_not_mark (c : char) : Spec.wordChar c = true -> Spec.isMark c = false.
Proof.
  unfold Spec.wordChar, Spec.isMark. intro H.
  apply andb_true_iff in H as [H Hhash]. apply andb_true_iff in H as [Hws Hglyph].
  apply negb_true_iff in Hhash, Hws, Hglyph. rewrite Hglyph, Hhash. simpl.
  unfold isLineTerminator. unfold isWs in Hws.
  repeat (apply orb_false_iff in Hws as [Hws ?]).
  destruct (N.eqb_spec c 0x0A) as [->|_]; [discriminate|].
  destruct (N.eqb_spec c 0x0D) as [->|_]; [discriminate|].
  simpl. apply orb_false_iff. split; assumption.
Qed.

Lemma textChar_not_mark (c : char) : Spec.textChar c = true -> Spec.isMark c = false.
Proof.
  unfold Spec.textChar, Spec.isMark. intro H.
  apply andb_true_iff in H as [H Hhash]. apply andb_true_iff in H as [Hlt Hglyph].
  apply negb_true_iff in Hhash, Hlt, Hglyph. now rewrite Hglyph, Hhash, Hlt.
Qed.

Lemma avoids_by (p G : char -> bool) (s : str) :
  (forall c, p c = true -> G c = false) ->
  forallb p s = true -> Spec.avoids G s = true.
Proof.
  intros Hp H. unfold Spec.avoids. apply forallb_forall. intros c Hc.
  rewrite forallb_forall in H. now rewrite (Hp c (H c Hc)).
Qed.

Lemma marksOnly_not (G : char -> bool) (c : char) :
  Spec.marksOnly G -> Spec.isMark c = false -> G c = false.
Proof.
  intros HG Hc. destruct (G c) eqn:E; [|reflexivity].
  apply HG in E. congruence.
Qed.

Lemma avoids_words (G : char -> bool) (s : str) :
  Spec.marksOnly G -> forallb Spec.wordChar s = true -> Spec.avoids G s = true.
Proof.
  intros HG. apply avoids_by. intros c Hc.
  apply (marksOnly_not G c HG). now apply wordChar_not_mark.
Qed.

Lemma avoids_text (G : char -> bool) (s : str) :
  Spec.marksOnly G -> forallb Spec.textChar s = true -> Spec.avoids G s = true.
Proof.
  intros HG. apply avoids_by. intros c Hc.
  apply (marksOnly_not G c HG). now apply textChar_not_mark.
Qed.

Lemma marksOnly_glyph : Spec.marksOnly Spec.isGlyph.
Proof. intros c Hc. unfold Spec.isMark. now rewrite Hc. Qed.

Lemma marksOnly_hash : Spec.marksOnly Spec.isHash.
Proof.
  intros c Hc. unfold Spec.isMark. rewrite Hc. now rewrite orb_true_r.
Qed.

Lemma marksOnly_break : Spec.marksOnly isLineTerminator.
Proof.
  intros c Hc. unfold Spec.isMark. rewrite Hc. now rewrite orb_true_r.
Qed.

(** *** The matchers start on a character of a glyph *)

(** A character that is in no glyph is not the first character of one, and
    is outside a class of glyph characters. *)
Lemma glyph_head (c x : char) (g : str) :
  Spec.isGlyph c = false -> In (x :: g) Spec.glyphs -> (c =? x) = false.
Proof.
  intros H Hin. destruct (N.eqb_spec c x) as [->|]; [|reflexivity].
  assert (Hx : Spec.isGlyph x = true).
  { unfold Spec.isGlyph. apply existsb_exists. exists x. split; [|apply N.eqb_refl].
    apply in_concat. exists (x :: g). split; [exact Hin|now left]. }
  congruence.
Qed.

Lemma startsWith_out (c : char) (r g : str) :
  Spec.isGlyph c = false -> In g Spec.glyphs -> g <> [] ->
  startsWith (c :: r) g = false.
Proof.
  intros H Hin Hne. destruct g as [|x g']; [congruence|].
  cbn [startsWith]. now rewrite (glyph_head c x g' H Hin).
Qed.

Lemma class_out (glyphs : list char) (c : char) :
  forallb Spec.isGlyph glyphs = true -> Spec.isGlyph c = false ->
  existsb (N.eqb c) glyphs = false.
Proof.
  intros Hall H. destruct (existsb (N.eqb c) glyphs) eqn:E; [|reflexivity].
  apply existsb_exists in E as (x & Hin & Hx). apply N.eqb_eq in Hx. subst x.
  rewrite forallb_forall in Hall. rewrite (Hall c Hin) in H. discriminate.
Qed.

Ltac glyph_out H :=
  apply startsWith_out;
  [ exact H
  | solve [cbn [Spec.glyphs In]; repeat first [left; reflexivity | right]]
  | discriminate ].

Lemma dueDateRegex_headed : Spec.headedBy Spec.isGlyph dueDateRegex.
Proof.
  split; [reflexivity|]. intros c r H. unfold dueDateRegex.
  rewrite glyphDate_out; [reflexivity|]. now apply class_out.
Qed.

Lemma dateStrip_headed (b : bool) : Spec.headedBy Spec.isGlyph (dateStrip dueGlyphs b).
Proof.
  split; [reflexivity|]. intros c r H. unfold dateStrip.
  rewrite glyphDate_out; [reflexivity|]. now apply class_out.
Qed.

Lemma scheduledDateRegex_headed : Spec.headedBy Spec.isGlyph scheduledDateRegex.
Proof.
  split; [reflexivity|]. intros c r H. unfold scheduledDateRegex.
  rewrite markDate_none; [reflexivity|]. glyph_out H.
Qed.

Lemma startDateRegex_headed : Spec.headedBy Spec.isGlyph startDateRegex.
Proof.
  split; [reflexivity|]. intros c r H. unfold startDateRegex.
  rewrite markDate_none; [reflexivity|]. glyph_out H.
Qed.

Lemma createdDateRegex_headed : Spec.headedBy Spec.isGlyph createdDateRegex.
Proof.
  split; [reflexivity|]. intros c r H. unfold createdDateRegex.
  rewrite markDate_none; [reflexivity|]. glyph_out H.
Qed.

Lemma markStrip_headed (g : str) (b : bool) :
  In g Spec.glyphs -> g <> [] -> Spec.headedBy Spec.isGlyph (markStrip g b).
Proof.
  intros Hin Hne. split.
  - unfold markStrip, markDate. destruct g; [congruence|reflexivity].
  - intros c r H. unfold markStrip. rewrite markDate_none; [reflexivity|].
    now apply startsWith_out.
Qed.

Lemma recurrenceRegex_headed : Spec.headedBy Spec.isGlyph recurrenceRegex.
Proof.
  split; [reflexivity|]. intros c r H. apply recurrenceRegex_none. glyph_out H.
Qed.

Lemma recurrenceStrip_none (b : bool) (s : str) :
  startsWith s Glyph.repeat = false -> recurrenceStrip b s = None.
Proof. intro H. unfold recurrenceStrip. now rewrite H. Qed.

Lemma recurrenceStrip_headed (b : bool) :
  Spec.headedBy Spec.isGlyph (recurrenceStrip b).
Proof.
  split; [reflexivity|]. intros c r H. apply recurrenceStrip_none. glyph_out H.
Qed.

Lemma priorityRegex_none (b : bool) (s : str) :
  startsWith s (Glyph.doubleUp ++ Glyph.doubleUp) = false ->
  startsWith s Glyph.doubleUp = false ->
  startsWith s Glyph.up = false ->
  startsWith s Glyph.down = false ->
  startsWith s Glyph.doubleDown = false ->
  priorityRegex b s = None.
Proof. intros H1 H2 H3 H4 H5. unfold priorityRegex. now rewrite H1, H2, H3, H4, H5. Qed.

Lemma priorityRegex_headed (b : bool) : Spec.headedBy Spec.isGlyph (priorityRegex b).
Proof.
  split; [reflexivity|]. intros c r H. apply priorityRegex_none; try glyph_out H.
  cbn [Glyph.doubleUp app startsWith].
  rewrite (glyph_head c _ (tl Glyph.doubleUp) H); [reflexivity|].
  cbn [Spec.glyphs In]. repeat first [left; reflexivity | right].
Qed.

(** Solves [headedBy isGlyph m] for the matchers of the source. *)
Ltac headed :=
  first [ exact dueDateRegex_headed
        | exact scheduledDateRegex_headed
        | exact startDateRegex_headed
        | exact createdDateRegex_headed
        | exact recurrenceRegex_headed
        | apply dateStrip_headed
        | apply recurrenceStrip_headed
        | apply priorityRegex_headed
        | apply markStrip_headed;
          [cbn [Spec.glyphs In]; repeat first [left; reflexivity | right] | discriminate] ].

(** Solves [m (a ++ s) = None] where the characters of [a] decide it: the
    first is outside the class or the glyph does not start there, or the
    second is neither white space nor a digit. *)
Ltac mute :=
  cbn [app];
  unfold dueDateRegex, scheduledDateRegex, startDateRegex, createdDateRegex,
    dateStrip, markStrip;
  first [ apply recurrenceRegex_none; reflexivity
        | apply recurrenceStrip_none; reflexivity
        | apply priorityRegex_none; reflexivity
        | rewrite glyphDate_out by reflexivity; reflexivity
        | rewrite glyphDate_next by reflexivity; reflexivity
        | rewrite markDate_none by reflexivity; reflexivity ].

(** Solves [silent m a] for a text [a] that is written out. *)
Ltac hush :=
  match goal with
  | |- Spec.silent ?m ?a =>
      let a' := eval vm_compute in a in change (Spec.silent m a')
  end;
  cbn [Spec.silent];
  repeat (split; [intro; mute|]);
  exact I.

(** *** The pieces of a serialized line *)

Lemma appendFields_pieces (task : str) priority recurrence startDate scheduledDate
    dueDate (tags : option (list str)) :
  appendFields task priority recurrence startDate scheduledDate dueDate tags
  = task ++ Spec.priorityPiece priority
         ++ Spec.fieldPiece Glyph.repeat recurrence
         ++ Spec.fieldPiece Glyph.airplane startDate
         ++ Spec.fieldPiece Glyph.hourglass scheduledDate
         ++ Spec.fieldPiece Glyph.calendar dueDate
         ++ Spec.tagsText (match tags with Some ts => ts | None => [] end).
Proof.
  unfold appendFields, Spec.priorityPiece, Spec.emojiOf, Spec.fieldPiece.
  assert (Htags : forall base : str,
            match tags with
            | Some ((_ :: _) as ts) => base ++ lit " " ++ join (lit " ") (map formatTag ts)
            | _ => base
            end
            = base ++ Spec.tagsText (match tags with Some ts => ts | None => [] end)).
  { intro base. destruct tags as [[|t ts]|]; try (now rewrite app_nil_r).
    f_equal. revert t. induction ts as [|t' ts IH]; intro t.
    - cbn. now rewrite app_nil_r.
    - change (join (lit " ") (map formatTag (t :: t' :: ts)))
        with (formatTag t ++ lit " " ++ join (lit " ") (map formatTag (t' :: ts))).
      change (Spec.tagsText (t :: t' :: ts))
        with ((lit " " ++ formatTag t) ++ Spec.tagsText (t' :: ts)).
      rewrite <- IH. now rewrite <- !app_assoc. }
  rewrite Htags.
  destruct (truthy priority) as [key|];
    [destruct (priorityEmojis key)|];
    destruct (truthy recurrence); destruct (truthy startDate);
    destruct (truthy scheduledDate); destruct (truthy dueDate);
    rewrite <- ?app_assoc; rewrite ?app_nil_r; reflexivity.
Qed.

Lemma priorityPiece_cases (priority : option str) :
  (Spec.emojiOf priority = None)
  \/ exists p, Spec.emojiOf priority = Some (Spec.priorityGlyph p)
               /\ priorityEmojis (Filter.priorityName p) = Some (Spec.priorityGlyph p).
Proof.
  unfold Spec.emojiOf. destruct (truthy priority) as [key|]; [|now left].
  unfold priorityEmojis.
  destruct (eqb_str key (lit "highest")); [right; now exists highest|].
  destruct (eqb_str key (lit "high")); [right; now exists high|].
  destruct (eqb_str key (lit "medium")); [right; now exists medium|].
  destruct (eqb_str key (lit "low")); [right; now exists low|].
  destruct (eqb_str key (lit "lowest")); [right; now exists lowest|].
  now left.
Qed.

Lemma avoids_space (G : char -> bool) : Spec.marksOnly G -> Spec.avoids G (lit " ") = true.
Proof.
  intro HG. unfold Spec.avoids. cbn.
  now rewrite (marksOnly_not G 32 HG eq_refl).
Qed.

Lemma whenGiven_words (p : str -> bool) (value : option str) :
  (forall s, p s = true -> forallb Spec.wordChar s = true) ->
  Spec.whenGiven p value = true ->
  Spec.whenGiven (forallb Spec.wordChar) value = true.
Proof.
  unfold Spec.whenGiven. intros Hp H.
  destruct (truthy value); [now apply Hp|reflexivity].
Qed.

(** A class of marks that holds no character of the glyph of a piece finds
    nothing in the piece. *)
Lemma avoids_fieldPiece (G : char -> bool) (g : str) (value : option str) :
  Spec.marksOnly G -> Spec.avoids G g = true ->
  Spec.whenGiven (forallb Spec.wordChar) value = true ->
  Spec.avoids G (Spec.fieldPiece g value) = true.
Proof.
  intros HG Hg Hv. unfold Spec.fieldPiece, Spec.whenGiven in *.
  destruct (truthy value) as [v|]; [|reflexivity].
  now rewrite !avoids_app, (avoids_space G HG), (avoids_words G v HG Hv), Hg.
Qed.

Lemma avoids_fieldBlank (G : char -> bool) (value : option str) :
  Spec.marksOnly G -> Spec.avoids G (Spec.fieldBlank value) = true.
Proof.
  intro HG. unfold Spec.fieldBlank.
  destruct (truthy value); [now apply avoids_space|reflexivity].
Qed.

Lemma avoids_priorityPiece (G : char -> bool) (priority : option str) :
  Spec.marksOnly G ->
  (forall p, Spec.avoids G (Spec.priorityGlyph p) = true) ->
  Spec.avoids G (Spec.priorityPiece priority) = true.
Proof.
  intros HG Hp. unfold Spec.priorityPiece.
  destruct (priorityPiece_cases priority) as [->|(p & -> & _)]; [reflexivity|].
  now rewrite avoids_app, (avoids_space G HG), Hp.
Qed.

Lemma avoids_priorityBlank (G : char -> bool) (priority : option str) :
  Spec.marksOnly G -> Spec.avoids G (Spec.priorityBlank priority) = true.
Proof.
  intro HG. unfold Spec.priorityBlank.
  destruct (Spec.emojiOf priority); [now apply avoids_space|reflexivity].
Qed.

Lemma avoids_dueBlank (G : char -> bool) (dueDate : option str) :
  Spec.avoids G (lit " " ++ removelast Glyph.calendar) = true ->
  Spec.avoids G (Spec.dueBlank dueDate) = true.
Proof. intro H. unfold Spec.dueBlank. now destruct (truthy dueDate). Qed.

(** The same for a matcher that is silent on the glyph of the piece. *)
Lemma silent_text {A : Type} (m : str -> option A) (s : str) :
  Spec.headedBy Spec.isGlyph m -> forallb Spec.textChar s = true -> Spec.silent m s.
Proof.
  intros Hm Hs. apply (silent_avoids Spec.isGlyph m s Hm).
  apply avoids_text; [exact marksOnly_glyph|exact Hs].
Qed.

Lemma silent_words {A : Type} (m : str -> option A) (s : str) :
  Spec.headedBy Spec.isGlyph m -> forallb Spec.wordChar s = true -> Spec.silent m s.
Proof.
  intros Hm Hs. apply (silent_avoids Spec.isGlyph m s Hm).
  apply avoids_words; [exact marksOnly_glyph|exact Hs].
Qed.

Lemma silent_space {A : Type} (m : str -> option A) :
  Spec.headedBy Spec.isGlyph m -> Spec.silent m (lit " ").
Proof.
  intro Hm. apply (silent_avoids Spec.isGlyph m _ Hm).
  apply avoids_space. exact marksOnly_glyph.
Qed.

Lemma silent_fieldPiece {A : Type} (m : str -> option A) (g : str) (value : option str) :
  Spec.headedBy Spec.isGlyph m ->
  Spec.silent m (lit " " ++ g ++ lit " ") ->
  Spec.whenGiven (forallb Spec.wordChar) value = true ->
  Spec.silent m (Spec.fieldPiece g value).
Proof.
  intros Hm Hg Hv. unfold Spec.fieldPiece, Spec.whenGiven in *.
  destruct (truthy value) as [v|]; [|exact I].
  replace (lit " " ++ g ++ lit " " ++ v) with ((lit " " ++ g ++ lit " ") ++ v)
    by (now rewrite <- !app_assoc).
  apply silent_app; [exact Hg|now apply silent_words].
Qed.

Lemma silent_fieldBlank {A : Type} (m : str -> option A) (value : option str) :
  Spec.headedBy Spec.isGlyph m -> Spec.silent m (Spec.fieldBlank value).
Proof.
  intro Hm. unfold Spec.fieldBlank.
  destruct (truthy value); [now apply silent_space|exact I].
Qed.

Lemma silent_priorityPiece {A : Type} (m : str -> option A) (priority : option str) :
  (forall p, Spec.silent m (lit " " ++ Spec.priorityGlyph p)) ->
  Spec.silent m (Spec.priorityPiece priority).
Proof.
  intro Hp. unfold Spec.priorityPiece.
  destruct (priorityPiece_cases priority) as [->|(p & -> & _)]; [exact I|apply Hp].
Qed.

Lemma silent_priorityBlank {A : Type} (m : str -> option A) (priority : option str) :
  Spec.headedBy Spec.isGlyph m -> Spec.silent m (Spec.priorityBlank priority).
Proof.
  intro Hm. unfold Spec.priorityBlank.
  destruct (Spec.emojiOf priority); [now apply silent_space|exact I].
Qed.

Lemma silent_dueBlank {A : Type} (m : str -> option A) (dueDate : option str) :
  Spec.silent m (lit " " ++ removelast Glyph.calendar) ->
  Spec.silent m (Spec.dueBlank dueDate).
Proof. intro H. unfold Spec.dueBlank. destruct (truthy dueDate); [exact H|exact I]. Qed.

(** *** Tags *)

Lemma formatTag_arg (t : str) :
  Spec.isTagArg t = true ->
  formatTag t = ch "#" :: Filter.dropHash t /\ Spec.isTagWord (Filter.dropHash t) = true.
Proof.
  unfold Spec.isTagArg, Spec.isTagWord. intro H. split; [|exact H].
  destruct t as [|c r]; [discriminate|].
  unfold formatTag, Filter.dropHash in *. cbn [startsWith lit map list_ascii_of_string].
  change (N_of_ascii "#") with (ch "#").
  destruct (N.eqb_spec c (ch "#")) as [->|Hne].
  - now rewrite startsWith_nil.
  - reflexivity.
Qed.

Lemma tags_as_words (ts : list str) :
  forallb Spec.isTagArg ts = true ->
  Spec.tagsText ts = Spec.tagsOf (map Filter.dropHash ts)
  /\ map formatTag ts = map (cons (ch "#")) (map Filter.dropHash ts)
  /\ forallb Spec.isTagWord (map Filter.dropHash ts) = true.
Proof.
  induction ts as [|t ts IH]; intro H; [now repeat split|].
  simpl in H. apply andb_true_iff in H as [Ht Hts].
  destruct (IH Hts) as (IH1 & IH2 & IH3).
  destruct (formatTag_arg t Ht) as [Hf Hw].
  repeat split.
  - cbn [Spec.tagsText Spec.tagsOf flat_map map]. rewrite Hf.
    fold (Spec.tagsText ts). fold (Spec.tagsOf (map Filter.dropHash ts)).
    now rewrite IH1.
  - cbn [map]. now rewrite Hf, IH2.
  - cbn [map forallb]. now rewrite Hw, IH3.
Qed.

Lemma tagWord_facts (b : str) :
  Spec.isTagWord b = true ->
  b <> [] /\ forallb Spec.wordChar b = true
  /\ forallb (fun x => negb (tagStop x)) b = true
  /\ forallb (fun x => negb (isWs x)) b = true.
Proof.
  unfold Spec.isTagWord. intro H. apply andb_true_iff in H as [Hne Hall].
  split; [destruct b; [discriminate|discriminate]|].
  rewrite forallb_forall in Hall.
  repeat split; apply forallb_forall; intros c Hc; specialize (Hall c Hc);
    unfold Spec.tagChar in Hall; apply andb_true_iff in Hall as [Hw Hs];
    try assumption.
  unfold Spec.wordChar in Hw. apply andb_true_iff in Hw as [Hw _].
  now apply andb_true_iff in Hw as [Hw _].
Qed.

Lemma tagsOf_cons (b : str) (bs : list str) :
  Spec.tagsOf (b :: bs) = ch " " :: ch "#" :: b ++ Spec.tagsOf bs.
Proof. reflexivity. Qed.

(** The run of a tag stops where the next tag starts. *)
Lemma takeWhile_tag (p : char -> bool) (b : str) (bs : list str) :
  forallb p b = true -> p (ch " ") = false ->
  takeWhile p (b ++ Spec.tagsOf bs) = b.
Proof.
  intros Hb Hsp. destruct bs as [|b' bs'].
  - cbn [Spec.tagsOf flat_map]. rewrite app_nil_r. now apply takeWhile_all.
  - rewrite tagsOf_cons. now apply takeWhile_stop.
Qed.

Lemma tagAt_here (stop : char -> bool) (b : str) (bs : list str) :
  b <> [] -> forallb (fun x => negb (stop x)) b = true -> stop (ch " ") = true ->
  tagAt stop false (ch " " :: ch "#" :: b ++ Spec.tagsOf bs)
  = Some (S (S (length b))).
Proof.
  intros Hne Hb Hsp. unfold tagAt, tagBody.
  change (isWs (ch " ")) with true. cbv beta iota. rewrite N.eqb_refl.
  rewrite (takeWhile_tag _ b bs Hb) by now rewrite Hsp.
  destruct b; [congruence|reflexivity].
Qed.

Lemma avoids_tagsOf (G : char -> bool) (bs : list str) :
  Spec.marksOnly G -> G (ch "#") = false ->
  forallb Spec.isTagWord bs = true ->
  Spec.avoids G (Spec.tagsOf bs) = true.
Proof.
  intros HG Hhash. induction bs as [|b bs IH]; intro H; [reflexivity|].
  simpl in H. apply andb_true_iff in H as [Hb Hbs].
  destruct (tagWord_facts b Hb) as (_ & Hw & _).
  rewrite tagsOf_cons. unfold Spec.avoids. cbn [forallb].
  rewrite (marksOnly_not G (ch " ") HG eq_refl), Hhash. cbn [negb andb].
  fold (Spec.avoids G (b ++ Spec.tagsOf bs)).
  now rewrite avoids_app, (avoids_words G b HG Hw), (IH Hbs).
Qed.

Lemma matchAll_tagsOf (bs : list str) :
  forallb Spec.isTagWord bs = true ->
  matchAll_go hashTagsRegex false 0 (Spec.tagsOf bs)
  = map (fun b => ch " " :: ch "#" :: b) bs.
Proof.
  induction bs as [|b bs IH]; intro H; [reflexivity|].
  simpl in H. apply andb_true_iff in H as [Hb Hbs].
  destruct (tagWord_facts b Hb) as (Hne & _ & Hstop & _).
  rewrite tagsOf_cons.
  change (ch " " :: ch "#" :: b ++ Spec.tagsOf bs)
    with ((ch " " :: ch "#" :: b) ++ Spec.tagsOf bs).
  rewrite matchAll_hit.
  - cbn [map]. now rewrite (IH Hbs).
  - discriminate.
  - cbn [app length]. now apply tagAt_here.
Qed.

Lemma removeAll_tagsOf (bs : list str) :
  forallb Spec.isTagWord bs = true ->
  removeAll_go (tagAt isWs) false 0 (Spec.tagsOf bs) = [].
Proof.
  induction bs as [|b bs IH]; intro H; [reflexivity|].
  simpl in H. apply andb_true_iff in H as [Hb Hbs].
  destruct (tagWord_facts b Hb) as (Hne & _ & _ & Hws).
  rewrite tagsOf_cons.
  change (ch " " :: ch "#" :: b ++ Spec.tagsOf bs)
    with (ch " " :: (ch "#" :: b) ++ Spec.tagsOf bs).
  cbn [removeAll_go].
  change (ch " " :: (ch "#" :: b) ++ Spec.tagsOf bs)
    with (ch " " :: ch "#" :: b ++ Spec.tagsOf bs).
  rewrite (tagAt_here isWs b bs Hne Hws eq_refl).
  change (S (length b)) with (length (ch "#" :: b)).
  rewrite removeAll_pass. now apply IH.
Qed.

(** A tag expression finds nothing where no [#] is, up to a text that does
    not start with one. *)
Lemma tagAt_no_hash (stop : char -> bool) (b : bool) (c : char) (s : str) :
  Spec.isHash c = false ->
  match s with x :: _ => Spec.isHash x = false | [] => True end ->
  tagAt stop b (c :: s) = None.
Proof.
  intros Hc Hs. unfold tagAt, tagBody. unfold Spec.isHash in *. rewrite Hc.
  destruct b; destruct (isWs c); try reflexivity;
    destruct s as [|x r]; try reflexivity; now rewrite Hs.
Qed.

Lemma head_app_no_hash (a s : str) :
  Spec.avoids Spec.isHash a = true ->
  match s with x :: _ => Spec.isHash x = false | [] => True end ->
  match a ++ s with x :: _ => Spec.isHash x = false | [] => True end.
Proof.
  intros Ha Hs. destruct a as [|c r]; [exact Hs|].
  simpl in Ha. apply andb_true_iff in Ha as [Hc _]. now apply negb_true_iff in Hc.
Qed.

Lemma removeAll_tag_skip (stop : char -> bool) (a : str) : forall b s,
  Spec.avoids Spec.isHash a = true ->
  match s with x :: _ => Spec.isHash x = false | [] => True end ->
  a <> [] ->
  removeAll_go (tagAt stop) b 0 (a ++ s) = a ++ removeAll_go (tagAt stop) false 0 s.
Proof.
  induction a as [|c r IH]; intros b s Ha Hs Hne; [congruence|].
  simpl in Ha. apply andb_true_iff in Ha as [Hc Hr]. apply negb_true_iff in Hc.
  cbn [app removeAll_go].
  rewrite (tagAt_no_hash stop b c (r ++ s) Hc (head_app_no_hash r s Hr Hs)).
  f_equal. destruct r as [|c' r'].
  - reflexivity.
  - apply IH; [exact Hr|exact Hs|discriminate].
Qed.

Lemma matchAll_tag_skip (stop : char -> bool) (a : str) : forall b s,
  Spec.avoids Spec.isHash a = true ->
  match s with x :: _ => Spec.isHash x = false | [] => True end ->
  a <> [] ->
  matchAll_go (tagAt stop) b 0 (a ++ s) = matchAll_go (tagAt stop) false 0 s.
Proof.
  induction a as [|c r IH]; intros b s Ha Hs Hne; [congruence|].
  simpl in Ha. apply andb_true_iff in Ha as [Hc Hr]. apply negb_true_iff in Hc.
  cbn [app matchAll_go].
  rewrite (tagAt_no_hash stop b c (r ++ s) Hc (head_app_no_hash r s Hr Hs)).
  destruct r as [|c' r'].
  - reflexivity.
  - apply IH; [exact Hr|exact Hs|discriminate].
Qed.

Lemma tagsOf_head (bs : list str) :
  match Spec.tagsOf bs with x :: _ => Spec.isHash x = false | [] => True end.
Proof. destruct bs; [exact I|reflexivity]. Qed.

(** *** One field of a serialized line, read and removed *)

Lemma truthy_Some (value : option str) (v : str) :
  truthy value = Some v -> value = Some v /\ v <> [].
Proof.
  destruct value as [[|c r]|]; simpl; intro H; try discriminate.
  inversion H; subst. split; [reflexivity|discriminate].
Qed.

Lemma isDate_iso (d : str) : Spec.isDate d = true -> isoDate d = Some d.
Proof.
  unfold Spec.isDate. destruct (isoDate d) as [d'|]; [|discriminate].
  intro H. apply eqb_str_eq in H. now subst.
Qed.

(** A date behind its glyph, a sequence, is read where the expression is
    silent on what comes before and after the piece. *)
Lemma search_mark (g a b : str) (value : option str) :
  g <> [] ->
  Spec.headedBy Spec.isGlyph (fun s => option_map fst (markDate g s)) ->
  Spec.silent (fun s => option_map fst (markDate g s)) a ->
  Spec.silent (fun s => option_map fst (markDate g s)) b ->
  Spec.whenGiven Spec.isDate value = true ->
  search (fun s => option_map fst (markDate g s)) (a ++ Spec.fieldPiece g value ++ b)
  = truthy value.
Proof.
  intros Hg Hm Ha Hb Hv. unfold Spec.fieldPiece, Spec.whenGiven in *.
  destruct (truthy value) as [d|].
  - rewrite (search_silent _ a _ Ha). rewrite <- !app_assoc.
    rewrite (search_silent _ (lit " ") _ (silent_space _ Hm)).
    apply search_here.
    now rewrite (markDate_here g (lit " ") d b eq_refl (isDate_iso d Hv)).
  - cbn [app]. rewrite (search_silent _ a _ Ha).
    apply search_nothing; [|exact Hb]. exact (proj1 Hm).
Qed.

(** The due date is read behind the last character of its glyph. *)
Lemma search_due (a b : str) (value : option str) :
  Spec.silent dueDateRegex a ->
  Spec.silent dueDateRegex b ->
  Spec.whenGiven Spec.isDate value = true ->
  search dueDateRegex (a ++ Spec.fieldPiece Glyph.calendar value ++ b) = truthy value.
Proof.
  intros Ha Hb Hv. unfold Spec.fieldPiece, Spec.whenGiven in *.
  destruct (truthy value) as [d|].
  - rewrite (search_silent _ a _ Ha). rewrite <- !app_assoc.
    rewrite (search_silent _ (lit " ") _ (silent_space _ dueDateRegex_headed)).
    cbn [Glyph.calendar app].
    repeat (rewrite search_next by (apply dueDateRegex_next; reflexivity)).
    apply search_here. unfold dueDateRegex.
    now rewrite (glyphDate_here dueGlyphs 0xD6 (lit " ") d b eq_refl eq_refl
                   (isDate_iso d Hv)).
  - cbn [app]. rewrite (search_silent _ a _ Ha).
    now apply search_nothing.
Qed.

Lemma takeWhile_before_blank (r b : str) :
  forallb Spec.wordChar r = true -> Spec.startsBlank b ->
  takeWhile (fun x => negb (isWs x)) (r ++ b) = r.
Proof.
  intros Hr Hb.
  assert (Hnows : forallb (fun x => negb (isWs x)) r = true).
  { apply forallb_forall. intros c Hc. rewrite forallb_forall in Hr.
    specialize (Hr c Hc). unfold Spec.wordChar in Hr.
    apply andb_true_iff in Hr as [Hr _]. now apply andb_true_iff in Hr as [Hr _]. }
  destruct b as [|x b'].
  - rewrite app_nil_r. now apply takeWhile_all.
  - simpl in Hb. apply takeWhile_stop; [exact Hnows|now rewrite Hb].
Qed.

Lemma search_recurrence (a b : str) (value : option str) :
  Spec.silent recurrenceRegex a ->
  Spec.silent recurrenceRegex b ->
  Spec.startsBlank b ->
  Spec.whenGiven (forallb Spec.wordChar) value = true ->
  search recurrenceRegex (a ++ Spec.fieldPiece Glyph.repeat value ++ b) = truthy value.
Proof.
  intros Ha Hb Hblank Hv. unfold Spec.fieldPiece, Spec.whenGiven in *.
  destruct (truthy value) as [r|].
  - rewrite (search_silent _ a _ Ha). rewrite <- !app_assoc.
    rewrite (search_silent _ (lit " ") _ (silent_space _ recurrenceRegex_headed)).
    apply search_here. unfold recurrenceRegex.
    rewrite startsWith_app, skipn_past.
    cbn [lit app map list_ascii_of_string]. change (isWs (N_of_ascii " ")) with true.
    cbv beta iota zeta. now rewrite takeWhile_before_blank.
  - cbn [app]. rewrite (search_silent _ a _ Ha).
    now apply search_nothing.
Qed.

(** The priority expression at a priority glyph takes the glyph, where what
    follows does not make a longer one of it. *)
Lemma priorityRegex_glyph (p : Priority) (b : str) :
  Spec.silentAt priorityRegex b ->
  priorityRegex false (Spec.priorityGlyph p ++ b)
  = Some (length (Spec.priorityGlyph p)).
Proof.
  intro Hb.
  assert (Hhead : startsWith b Glyph.doubleUp = false).
  { destruct b as [|c b']; [reflexivity|].
    pose proof (proj1 (Hb false) []) as H. rewrite app_nil_r in H.
    unfold priorityRegex in H.
    destruct (startsWith (c :: b') Glyph.doubleUp); [|reflexivity].
    destruct (startsWith (c :: b') (Glyph.doubleUp ++ Glyph.doubleUp)); discriminate. }
  assert (Hlong : startsWith (Glyph.doubleUp ++ b) (Glyph.doubleUp ++ Glyph.doubleUp)
                  = false).
  { cbn [Glyph.doubleUp app startsWith]. rewrite !N.eqb_refl. exact Hhead. }
  destruct p; unfold priorityRegex; cbn [Spec.priorityGlyph];
    rewrite ?Hlong, ?startsWith_app; reflexivity.
Qed.

Lemma priorityGlyph_nonempty (p : Priority) : Spec.priorityGlyph p <> [].
Proof. destruct p; discriminate. Qed.

Lemma first_priority (a b : str) (priority : option str) :
  Spec.silentAt priorityRegex a ->
  Spec.silentAt priorityRegex b ->
  match matchAll priorityRegex (a ++ Spec.priorityPiece priority ++ b) with
  | firstPriority :: _ => priorityOfGlyph firstPriority
  | [] => None
  end = Spec.priorityOfArg priority.
Proof.
  intros Ha Hb. unfold matchAll, Spec.priorityPiece, Spec.priorityOfArg.
  destruct (priorityPiece_cases priority) as [->|(p & -> & _)].
  - cbn [app]. rewrite (matchAll_silent priorityRegex (fun _ _ => eq_refl) a _ _ Ha).
    now rewrite (matchAll_nothing priorityRegex (fun _ _ => eq_refl) _ _ Hb).
  - rewrite (matchAll_silent priorityRegex (fun _ _ => eq_refl) a _ _ Ha). rewrite <- app_assoc.
    rewrite (matchAll_silent priorityRegex (fun _ _ => eq_refl) (lit " "))
      by (intro f; apply silent_space; apply priorityRegex_headed).
    now rewrite (matchAll_hit _ _ b (priorityGlyph_nonempty p)
                   (priorityRegex_glyph p b Hb)).
Qed.

Lemma priority_again (priority : option str) :
  Spec.priorityPiece (option_map Filter.priorityName (Spec.priorityOfArg priority))
  = Spec.priorityPiece priority.
Proof.
  unfold Spec.priorityPiece, Spec.priorityOfArg.
  destruct (priorityPiece_cases priority) as [->|(p & -> & Hp)]; [reflexivity|].
  destruct p; reflexivity.
Qed.

(** The removal of a date behind its glyph, a sequence, leaves the space
    that stood before the glyph. *)
Lemma strip_mark (g a b : str) (value : option str) :
  In g Spec.glyphs -> g <> [] ->
  Spec.silentAt (markStrip g) a ->
  Spec.silentAt (markStrip g) b ->
  Spec.whenGiven Spec.isDate value = true ->
  removeAll (markStrip g) (a ++ Spec.fieldPiece g value ++ b)
  = a ++ Spec.fieldBlank value ++ b.
Proof.
  intros Hin Hg Ha Hb Hv.
  unfold removeAll, Spec.fieldPiece, Spec.fieldBlank, Spec.whenGiven in *.
  destruct (truthy value) as [d|].
  - rewrite (removeAll_silent (markStrip g) (fun _ _ => eq_refl) a _ _ Ha). rewrite <- !app_assoc.
    rewrite (removeAll_silent (markStrip g) (fun _ _ => eq_refl) (lit " "))
      by (intro f; apply silent_space; now apply markStrip_headed).
    replace (g ++ lit " " ++ d ++ b) with ((g ++ lit " " ++ d) ++ b)
      by (now rewrite <- !app_assoc).
    rewrite (removeAll_hit (markStrip g) (g ++ lit " " ++ d) b).
    + now rewrite (removeAll_nothing (markStrip g) (fun _ _ => eq_refl) _ _ Hb).
    + destruct g; [congruence|discriminate].
    + unfold markStrip. rewrite <- !app_assoc.
      rewrite (markDate_here g (lit " ") d b eq_refl (isDate_iso d Hv)).
      destruct (isoDate_whole d (isDate_iso d Hv)) as (Hlen & _).
      cbn [option_map snd]. rewrite !length_app, Hlen. reflexivity.
  - cbn [app]. rewrite (removeAll_silent (markStrip g) (fun _ _ => eq_refl) a _ _ Ha).
    now rewrite (removeAll_nothing (markStrip g) (fun _ _ => eq_refl) _ _ Hb).
Qed.

(** The removal of the due date takes the last character of the glyph with
    the date, and leaves the space and the characters before it. *)
Lemma strip_due (a b : str) (value : option str) :
  Spec.silentAt (dateStrip dueGlyphs) a ->
  Spec.silentAt (dateStrip dueGlyphs) b ->
  Spec.whenGiven Spec.isDate value = true ->
  removeAll (dateStrip dueGlyphs) (a ++ Spec.fieldPiece Glyph.calendar value ++ b)
  = a ++ Spec.dueBlank value ++ b.
Proof.
  intros Ha Hb Hv.
  unfold removeAll, Spec.fieldPiece, Spec.dueBlank, Spec.whenGiven in *.
  destruct (truthy value) as [d|].
  - rewrite (removeAll_silent (dateStrip dueGlyphs) (fun _ _ => eq_refl) a _ _ Ha). rewrite <- !app_assoc.
    f_equal.
    cbn [Glyph.calendar removelast lit map list_ascii_of_string app].
    rewrite removeAll_miss
      by (unfold dateStrip; rewrite glyphDate_out by reflexivity; reflexivity).
    do 3 (rewrite removeAll_miss
            by (unfold dateStrip; rewrite glyphDate_next by reflexivity; reflexivity)).
    do 4 f_equal.
    change (0xD6 :: N_of_ascii " " :: d ++ b)
      with ((@cons char 0xD6 (lit " " ++ d)) ++ b).
    rewrite (removeAll_hit (dateStrip dueGlyphs)).
    + now rewrite (removeAll_nothing (dateStrip dueGlyphs) (fun _ _ => eq_refl) _ _ Hb).
    + discriminate.
    + unfold dateStrip. cbn [app]. rewrite <- app_assoc.
      rewrite (glyphDate_here dueGlyphs 0xD6 (lit " ") d b eq_refl eq_refl
                 (isDate_iso d Hv)).
      destruct (isoDate_whole d (isDate_iso d Hv)) as (Hlen & _).
      cbn [option_map snd length]. rewrite length_app, Hlen. reflexivity.
  - cbn [app]. rewrite (removeAll_silent (dateStrip dueGlyphs) (fun _ _ => eq_refl) a _ _ Ha).
    now rewrite (removeAll_nothing (dateStrip dueGlyphs) (fun _ _ => eq_refl) _ _ Hb).
Qed.

Lemma strip_recurrence (a b : str) (value : option str) :
  Spec.silentAt recurrenceStrip a ->
  Spec.silentAt recurrenceStrip b ->
  Spec.startsBlank b ->
  Spec.whenGiven (forallb Spec.wordChar) value = true ->
  removeAll recurrenceStrip (a ++ Spec.fieldPiece Glyph.repeat value ++ b)
  = a ++ Spec.fieldBlank value ++ b.
Proof.
  intros Ha Hb Hblank Hv.
  unfold removeAll, Spec.fieldPiece, Spec.fieldBlank, Spec.whenGiven in *.
  destruct (truthy value) as [r|].
  - rewrite (removeAll_silent recurrenceStrip (fun _ _ => eq_refl) a _ _ Ha). rewrite <- !app_assoc.
    rewrite (removeAll_silent recurrenceStrip (fun _ _ => eq_refl) (lit " "))
      by (intro f; apply silent_space; apply recurrenceStrip_headed).
    replace (Glyph.repeat ++ lit " " ++ r ++ b)
      with ((Glyph.repeat ++ lit " " ++ r) ++ b)
      by (now rewrite <- !app_assoc).
    rewrite (removeAll_hit recurrenceStrip (Glyph.repeat ++ lit " " ++ r) b).
    + now rewrite (removeAll_nothing recurrenceStrip (fun _ _ => eq_refl) _ _ Hb).
    + discriminate.
    + unfold recurrenceStrip. rewrite <- !app_assoc.
      rewrite startsWith_app, skipn_past.
      cbn [lit app map list_ascii_of_string]. change (isWs (N_of_ascii " ")) with true.
      cbv beta iota. rewrite takeWhile_before_blank by assumption.
      rewrite length_app. cbn [length]. f_equal; lia.
  - cbn [app]. rewrite (removeAll_silent recurrenceStrip (fun _ _ => eq_refl) a _ _ Ha).
    now rewrite (removeAll_nothing recurrenceStrip (fun _ _ => eq_refl) _ _ Hb).
Qed.

Lemma strip_priority (a b : str) (priority : option str) :
  Spec.silentAt priorityRegex a ->
  Spec.silentAt priorityRegex b ->
  removeAll priorityRegex (a ++ Spec.priorityPiece priority ++ b)
  = a ++ Spec.priorityBlank priority ++ b.
Proof.
  intros Ha Hb. unfold removeAll, Spec.priorityPiece, Spec.priorityBlank.
  destruct (priorityPiece_cases priority) as [->|(p & -> & _)].
  - cbn [app]. rewrite (removeAll_silent priorityRegex (fun _ _ => eq_refl) a _ _ Ha).
    now rewrite (removeAll_nothing priorityRegex (fun _ _ => eq_refl) _ _ Hb).
  - rewrite (removeAll_silent priorityRegex (fun _ _ => eq_refl) a _ _ Ha). rewrite <- !app_assoc.
    rewrite (removeAll_silent priorityRegex (fun _ _ => eq_refl) (lit " "))
      by (intro f; apply silent_space; apply priorityRegex_headed).
    rewrite (removeAll_hit _ _ b (priorityGlyph_nonempty p)
               (priorityRegex_glyph p b Hb)).
    now rewrite (removeAll_nothing priorityRegex (fun _ _ => eq_refl) _ _ Hb).
Qed.

Lemma strip_tags (a : str) (bs : list str) :
  Spec.avoids Spec.isHash a = true -> a <> [] ->
  forallb Spec.isTagWord bs = true ->
  removeAll (tagAt isWs) (a ++ Spec.tagsOf bs) = a.
Proof.
  intros Ha Hne Hbs. unfold removeAll.
  rewrite (removeAll_tag_skip isWs a true _ Ha (tagsOf_head bs) Hne).
  rewrite (removeAll_tagsOf bs Hbs). apply app_nil_r.
Qed.

Lemma read_tags (a : str) (bs : list str) :
  Spec.avoids Spec.isHash a = true -> a <> [] ->
  forallb Spec.isTagWord bs = true ->
  filter (fun tag => negb (length tag =? 0)%nat)
         (map trim (matchAll hashTagsRegex (a ++ Spec.tagsOf bs)))
  = map (cons (ch "#")) bs.
Proof.
  intros Ha Hne Hbs. unfold matchAll, hashTagsRegex.
  rewrite (matchAll_tag_skip tagStop a true _ Ha (tagsOf_head bs) Hne).
  fold hashTagsRegex. rewrite (matchAll_tagsOf bs Hbs).
  induction bs as [|b bs IH]; [reflexivity|].
  simpl in Hbs. apply andb_true_iff in Hbs as [Hb Hbs].
  destruct (tagWord_facts b Hb) as (Hbne & _ & _ & Hnows).
  cbn [map].
  assert (Htrim : trim (ch " " :: ch "#" :: b) = ch "#" :: b).
  { unfold trim, trimStart, trimEnd, dropWhile. cbn [span].
    change (isWs (ch " ")) with true. change (isWs (ch "#")) with false.
    cbn [snd]. destruct (span isWs (ch "#" :: b)) eqn:E. cbn [snd].
    destruct (rev (ch "#" :: b)) as [|x l] eqn:Hrev.
    - apply (f_equal (@length char)) in Hrev. rewrite length_rev in Hrev. discriminate.
    - assert (Hx : isWs x = false).
      { assert (Hin : In x (ch "#" :: b)) by (apply in_rev; rewrite Hrev; now left).
        destruct Hin as [<-|Hin]; [reflexivity|].
        rewrite forallb_forall in Hnows. apply negb_true_iff. now apply Hnows. }
      cbn [span]. rewrite Hx. cbn [snd]. rewrite <- Hrev. apply rev_involutive. }
  rewrite Htrim. cbn [filter length Nat.eqb negb]. f_equal. apply IH. exact Hbs.
Qed.

(** *** White space at the ends *)

Lemma dropWhile_all_app (p : char -> bool) (a b : str) :
  forallb p a = true -> dropWhile p (a ++ b) = dropWhile p b.
Proof.
  unfold dropWhile. induction a as [|c r IH]; intro H; [reflexivity|].
  simpl in H. apply andb_true_iff in H as [Hc Hr].
  cbn [app span]. rewrite Hc. specialize (IH Hr).
  destruct (span p (r ++ b)). exact IH.
Qed.

Lemma dropWhile_plain (s : str) : Spec.startsPlain s = true -> dropWhile isWs s = s.
Proof.
  destruct s as [|c r]; [discriminate|]. simpl. intro H.
  apply negb_true_iff in H. unfold dropWhile. cbn [span]. now rewrite H.
Qed.

Lemma startsPlain_app (a b : str) :
  Spec.startsPlain a = true -> Spec.startsPlain (a ++ b) = true.
Proof. now destruct a. Qed.

(** A text with plain ends, followed by white space, is trimmed to itself. *)
Lemma trim_blanks (d sp : str) :
  Spec.startsPlain d = true -> Spec.startsPlain (rev d) = true ->
  forallb isWs sp = true -> trim (d ++ sp) = d.
Proof.
  intros Hd Hrev Hsp. unfold trim, trimStart, trimEnd.
  rewrite (dropWhile_plain (d ++ sp)) by now apply startsPlain_app.
  rewrite rev_app_distr.
  rewrite dropWhile_all_app by (rewrite forallb_forall in *; intros c Hc;
                               apply Hsp; now apply in_rev).
  rewrite (dropWhile_plain (rev d) Hrev). apply rev_involutive.
Qed.

Lemma trim_plain (s : str) :
  Spec.startsPlain s = true -> Spec.startsPlain (rev s) = true -> trim s = s.
Proof.
  intros H1 H2. rewrite <- (app_nil_r s) at 1. now apply trim_blanks.
Qed.

Lemma endsPlain_rev_app (a b : str) :
  Spec.startsPlain (rev a) = true -> Spec.endsPlain b ->
  Spec.startsPlain (rev (a ++ b)) = true.
Proof.
  intros Ha [->|Hb]; [now rewrite app_nil_r|].
  rewrite rev_app_distr. now apply startsPlain_app.
Qed.

Lemma endsPlain_app (a b : str) :
  Spec.endsPlain a -> Spec.endsPlain b -> Spec.endsPlain (a ++ b).
Proof.
  intros [->|Ha] Hb; [exact Hb|]. right. now apply endsPlain_rev_app.
Qed.

Lemma endsPlain_words (x v : str) :
  v <> [] -> forallb Spec.wordChar v = true -> Spec.endsPlain (x ++ v).
Proof.
  intros Hne Hv. right. rewrite rev_app_distr. apply startsPlain_app.
  destruct (rev v) as [|c l] eqn:Hrev.
  - apply (f_equal (@length char)) in Hrev. rewrite length_rev in Hrev.
    destruct v; [congruence|discriminate].
  - assert (Hin : In c v) by (apply in_rev; rewrite Hrev; now left).
    rewrite forallb_forall in Hv. specialize (Hv c Hin).
    unfold Spec.wordChar in Hv. apply andb_true_iff in Hv as [Hv _].
    now apply andb_true_iff in Hv as [Hv _].
Qed.

Lemma endsPlain_fieldPiece (g : str) (value : option str) :
  Spec.whenGiven (forallb Spec.wordChar) value = true ->
  Spec.endsPlain (Spec.fieldPiece g value).
Proof.
  unfold Spec.whenGiven, Spec.fieldPiece. intro H.
  destruct (truthy value) as [v|] eqn:E; [|now left].
  destruct (truthy_Some _ _ E) as [_ Hne].
  replace (lit " " ++ g ++ lit " " ++ v) with ((lit " " ++ g ++ lit " ") ++ v)
    by (rewrite <- !app_assoc; reflexivity).
  now apply endsPlain_words.
Qed.

Lemma endsPlain_priorityPiece (priority : option str) :
  Spec.endsPlain (Spec.priorityPiece priority).
Proof.
  unfold Spec.priorityPiece.
  destruct (priorityPiece_cases priority) as [->|(p & -> & _)]; [now left|].
  right. now destruct p.
Qed.

Lemma endsPlain_tagsOf (bs : list str) :
  forallb Spec.isTagWord bs = true -> Spec.endsPlain (Spec.tagsOf bs).
Proof.
  induction bs as [|b bs IH]; intro H; [now left|].
  simpl in H. apply andb_true_iff in H as [Hb Hbs].
  destruct (tagWord_facts b Hb) as (Hne & Hw & _).
  change (Spec.tagsOf (b :: bs)) with ((lit " #" ++ b) ++ Spec.tagsOf bs).
  apply endsPlain_app; [now apply endsPlain_words|now apply IH].
Qed.

Lemma blanks_fieldBlank (value : option str) : forallb isWs (Spec.fieldBlank value) = true.
Proof. unfold Spec.fieldBlank. now destruct (truthy value). Qed.

Lemma blanks_priorityBlank (priority : option str) :
  forallb isWs (Spec.priorityBlank priority) = true.
Proof. unfold Spec.priorityBlank. now destruct (Spec.emojiOf priority). Qed.

Lemma startsBlank_fieldPiece (g : str) (value : option str) (b : str) :
  Spec.startsBlank b -> Spec.startsBlank (Spec.fieldPiece g value ++ b).
Proof. unfold Spec.fieldPiece. now destruct (truthy value). Qed.

Lemma startsBlank_fieldBlank (value : option str) (b : str) :
  Spec.startsBlank b -> Spec.startsBlank (Spec.fieldBlank value ++ b).
Proof. unfold Spec.fieldBlank. now destruct (truthy value). Qed.

Lemma startsBlank_dueBlank (value : option str) (b : str) :
  Spec.startsBlank b -> Spec.startsBlank (Spec.dueBlank value ++ b).
Proof. unfold Spec.dueBlank. now destruct (truthy value). Qed.

Lemma startsBlank_tagsOf (bs : list str) : Spec.startsBlank (Spec.tagsOf bs).
Proof. now destruct bs. Qed.

(** *** The serialized line, as [taskRegex] reads it *)

Lemma taskRegex_serialized (content : str) :
  Spec.startsPlain content = true ->
  Spec.avoids isLineTerminator content = true ->
  taskRegex (lit "- [ ] " ++ content) = Some ([], lit "-", lit " ", content).
Proof.
  intros Hstart Hbreak. unfold taskRegex.
  change (span isIndent (lit "- [ ] " ++ content))
    with (@nil char, lit "- [ ] " ++ content).
  cbv beta iota.
  change (listMarker (lit "- [ ] " ++ content))
    with (Some (lit "-", lit " [ ] " ++ content)).
  cbv beta iota.
  change (span isSpace (lit " [ ] " ++ content))
    with (lit " ", lit "[ ] " ++ content).
  cbv beta iota.
  change (lit "[ ] " ++ content) with (ch "[" :: ch " " :: ch "]" :: ch " " :: content).
  cbv beta iota.
  change ((ch "[" =? ch "[") && negb (isLineTerminator (ch " ")) && (ch "]" =? ch "]"))
    with true.
  cbv beta iota.
  assert (Hdrop : dropWhile isSpace (ch " " :: content) = content).
  { unfold dropWhile. cbn [span]. change (isSpace (ch " ")) with true.
    destruct content as [|c r]; [discriminate|].
    simpl in Hstart. apply negb_true_iff in Hstart. cbn [span].
    assert (Hc : isSpace c = false).
    { unfold isSpace. destruct (N.eqb_spec c 32) as [->|]; [discriminate|reflexivity]. }
    now rewrite Hc. }
  rewrite Hdrop. rewrite takeWhile_all by exact Hbreak. reflexivity.
Qed.

(** *** Words *)

Lemma ascii_word (c : char) : 33 <= c <= 126 -> c <> 35 -> Spec.wordChar c = true.
Proof.
  intros Hc Hne.
  unfold Spec.wordChar, isWs, Spec.isGlyph, Spec.isHash, Spec.glyphs.
  unfold Glyph.calendar, Glyph.spiralCalendar, Glyph.hourglass,
    Glyph.airplane, Glyph.plus, Glyph.repeat, Glyph.doubleUp, Glyph.up, Glyph.down,
    Glyph.doubleDown.
  cbn [concat app existsb].
  change (ch "#") with 35.
  repeat match goal with
         | |- context [?a =? ?b] => destruct (N.eqb_spec a b); [lia|]
         | |- context [?a <=? ?b] => destruct (N.leb_spec a b); [try lia|try lia]
         end; reflexivity.
Qed.

Lemma digit_word (c : char) : isDigit c = true -> Spec.wordChar c = true.
Proof.
  unfold isDigit. intro H. apply andb_true_iff in H as [Hlo Hhi].
  apply N.leb_le in Hlo. apply N.leb_le in Hhi. apply ascii_word; lia.
Qed.

Lemma hyphen_word (c : char) : (c =? ch "-") = true -> Spec.wordChar c = true.
Proof. intro H. apply N.eqb_eq in H. now subst. Qed.

Lemma isDate_words (d : str) : Spec.isDate d = true -> forallb Spec.wordChar d = true.
Proof.
  intro H. apply isDate_iso in H. unfold isoDate in H.
  do 10 (destruct d as [|? d]; [discriminate|]).
  match type of H with
  | (if ?cond then _ else _) = _ => destruct cond eqn:Hcond; [|discriminate]
  end.
  cbn [firstn] in H. inversion H as [Hnil]. clear H Hnil.
  do 9 (apply andb_true_iff in Hcond as [Hcond ?]).
  cbn [forallb].
  repeat match goal with
         | E : isDigit ?x = true |- _ => rewrite (digit_word x E); clear E
         | E : (?x =? ch "-") = true |- _ => rewrite (hyphen_word x E); clear E
         end.
  reflexivity.
Qed.

Lemma isWord_words (s : str) : Spec.isWord s = true -> forallb Spec.wordChar s = true.
Proof. unfold Spec.isWord. intro H. now apply andb_true_iff in H as [_ H]. Qed.

Ltac marks :=
  first [ apply marksOnly_glyph
        | apply marksOnly_hash
        | apply marksOnly_break ].

(** Solves [avoids G s = true], where [G] is [#] or the line breaks, for a
    text [s] built of a description, pieces and blanks, from the hypotheses
    on them. *)
Ltac avoid :=
  rewrite ?avoids_app;
  repeat (apply andb_true_intro; split);
  first [ apply avoids_text; [marks | assumption]
        | apply avoids_priorityPiece; [marks | intros []; reflexivity]
        | apply avoids_priorityBlank; marks
        | apply avoids_fieldPiece; [marks | reflexivity | assumption]
        | apply avoids_fieldBlank; marks
        | apply avoids_dueBlank; reflexivity
        | apply avoids_tagsOf; [marks | reflexivity | assumption]
        | apply avoids_space; marks ].

(** Solves [silent m s] for a matcher [m] of the source and a text [s] built
    of a description, pieces of other fields than the one [m] reads, and
    blanks. *)
Ltac quiet :=
  repeat apply silent_app;
  first [ apply silent_text; [headed | assumption]
        | apply silent_priorityPiece; intros []; hush
        | apply silent_priorityBlank; headed
        | apply silent_fieldPiece; [headed | hush | assumption]
        | apply silent_fieldBlank; headed
        | apply silent_dueBlank; hush
        | apply silent_avoids with (G := Spec.isGlyph);
          [headed | apply avoids_tagsOf; [marks | reflexivity | assumption]] ].

(** *** A canonical line, read and written again *)

Section Roundtrip.

Variable desc : str.
Variables priority0 recurrence0 start0 scheduled0 due0 : option str.
Variable bs : list str.

Hypothesis Htext : forallb Spec.textChar desc = true.
Hypothesis Hhead : Spec.startsPlain desc = true.
Hypothesis Hlast : Spec.startsPlain (rev desc) = true.
Hypothesis Hrec : Spec.whenGiven (forallb Spec.wordChar) recurrence0 = true.
Hypothesis Hstart : Spec.whenGiven Spec.isDate start0 = true.
Hypothesis Hsched : Spec.whenGiven Spec.isDate scheduled0 = true.
Hypothesis Hdue : Spec.whenGiven Spec.isDate due0 = true.
Hypothesis Hbs : forallb Spec.isTagWord bs = true.

Local Abbreviation pieceP := (Spec.priorityPiece priority0).
Local Abbreviation pieceR := (Spec.fieldPiece Glyph.repeat recurrence0).
Local Abbreviation pieceS := (Spec.fieldPiece Glyph.airplane start0).
Local Abbreviation pieceC := (Spec.fieldPiece Glyph.hourglass scheduled0).
Local Abbreviation pieceD := (Spec.fieldPiece Glyph.calendar due0).
Local Abbreviation pieceT := (Spec.tagsOf bs).
Local Abbreviation blankP := (Spec.priorityBlank priority0).
Local Abbreviation blankR := (Spec.fieldBlank recurrence0).
Local Abbreviation blankS := (Spec.fieldBlank start0).
Local Abbreviation blankC := (Spec.fieldBlank scheduled0).
Local Abbreviation blankD := (Spec.dueBlank due0).
Local Abbreviation content :=
  (desc ++ pieceP ++ pieceR ++ pieceS ++ pieceC ++ pieceD ++ pieceT).

Lemma words_start : Spec.whenGiven (forallb Spec.wordChar) start0 = true.
Proof. exact (whenGiven_words _ _ isDate_words Hstart). Qed.

Lemma words_scheduled : Spec.whenGiven (forallb Spec.wordChar) scheduled0 = true.
Proof. exact (whenGiven_words _ _ isDate_words Hsched). Qed.

Lemma words_due : Spec.whenGiven (forallb Spec.wordChar) due0 = true.
Proof. exact (whenGiven_words _ _ isDate_words Hdue). Qed.

Lemma desc_nonempty : desc <> [].
Proof. destruct desc; [discriminate|discriminate]. Qed.

Lemma content_description : trim content = content.
Proof.
  pose proof words_start. pose proof words_scheduled. pose proof words_due.
  apply trim_plain.
  - now apply startsPlain_app.
  - apply endsPlain_rev_app; [exact Hlast|].
    repeat apply endsPlain_app;
      first [ apply endsPlain_priorityPiece
            | now apply endsPlain_fieldPiece
            | now apply endsPlain_tagsOf ].
Qed.

Lemma content_taskRegex :
  taskRegex (lit "- [ ] " ++ content) = Some ([], lit "-", lit " ", content).
Proof.
  pose proof words_start. pose proof words_scheduled. pose proof words_due.
  apply taskRegex_serialized.
  - now apply startsPlain_app.
  - avoid.
Qed.

Lemma content_dueDate : search dueDateRegex content = truthy due0.
Proof.
  pose proof words_start. pose proof words_scheduled. pose proof words_due.
  replace content with ((desc ++ pieceP ++ pieceR ++ pieceS ++ pieceC) ++ pieceD ++ pieceT)
    by (rewrite <- !app_assoc; reflexivity).
  apply search_due; [quiet|quiet|exact Hdue].
Qed.

Lemma content_scheduledDate : search scheduledDateRegex content = truthy scheduled0.
Proof.
  pose proof words_start. pose proof words_scheduled. pose proof words_due.
  replace content with ((desc ++ pieceP ++ pieceR ++ pieceS) ++ pieceC ++ pieceD ++ pieceT)
    by (rewrite <- !app_assoc; reflexivity).
  apply (search_mark Glyph.hourglass);
    [discriminate|exact scheduledDateRegex_headed|
     change (Spec.silent scheduledDateRegex (desc ++ pieceP ++ pieceR ++ pieceS)); quiet|
     change (Spec.silent scheduledDateRegex (pieceD ++ pieceT)); quiet|exact Hsched].
Qed.

Lemma content_startDate : search startDateRegex content = truthy start0.
Proof.
  pose proof words_start. pose proof words_scheduled. pose proof words_due.
  replace content with ((desc ++ pieceP ++ pieceR) ++ pieceS ++ pieceC ++ pieceD ++ pieceT)
    by (rewrite <- !app_assoc; reflexivity).
  apply (search_mark Glyph.airplane);
    [discriminate|exact startDateRegex_headed|
     change (Spec.silent startDateRegex (desc ++ pieceP ++ pieceR)); quiet|
     change (Spec.silent startDateRegex (pieceC ++ pieceD ++ pieceT)); quiet|exact Hstart].
Qed.

Lemma content_createdDate : search createdDateRegex content = None.
Proof.
  pose proof words_start. pose proof words_scheduled. pose proof words_due.
  apply search_nothing; [reflexivity|]. quiet.
Qed.

Lemma content_recurrence : search recurrenceRegex content = truthy recurrence0.
Proof.
  pose proof words_start. pose proof words_scheduled. pose proof words_due.
  replace content with ((desc ++ pieceP) ++ pieceR ++ pieceS ++ pieceC ++ pieceD ++ pieceT)
    by (rewrite <- !app_assoc; reflexivity).
  apply search_recurrence; try assumption.
  - quiet.
  - quiet.
  - repeat apply startsBlank_fieldPiece. apply startsBlank_tagsOf.
Qed.

Lemma content_priority :
  match matchAll priorityRegex content with
  | firstPriority :: _ => priorityOfGlyph firstPriority
  | [] => None
  end = Spec.priorityOfArg priority0.
Proof.
  pose proof words_start. pose proof words_scheduled. pose proof words_due.
  apply first_priority; intro f; quiet.
Qed.

Lemma content_tags :
  filter (fun tag => negb (length tag =? 0)%nat)
         (map trim (matchAll hashTagsRegex content))
  = map (cons (ch "#")) bs.
Proof.
  pose proof words_start. pose proof words_scheduled. pose proof words_due.
  replace content with ((desc ++ pieceP ++ pieceR ++ pieceS ++ pieceC ++ pieceD) ++ pieceT)
    by (rewrite <- !app_assoc; reflexivity).
  apply read_tags; try assumption.
  - avoid.
  - pose proof desc_nonempty. destruct desc; [congruence|discriminate].
Qed.

(** What the chain of removals leaves of the content, before it is
    trimmed: the description, a space for every field that was written, and
    of the due date the glyph but for its last character. *)
Lemma content_removed :
  removeAll (tagAt isWs)
    (removeAll priorityRegex
    (removeAll recurrenceStrip
    (removeAll (markStrip Glyph.plus)
    (removeAll (markStrip Glyph.airplane)
    (removeAll (markStrip Glyph.hourglass)
    (removeAll (dateStrip dueGlyphs) content))))))
  = desc ++ blankP ++ blankR ++ blankS ++ blankC ++ blankD.
Proof.
  pose proof words_start. pose proof words_scheduled. pose proof words_due.
  (* due *)
  replace content with ((desc ++ pieceP ++ pieceR ++ pieceS ++ pieceC) ++ pieceD ++ pieceT)
    by (rewrite <- !app_assoc; reflexivity).
  rewrite strip_due; [|intro f; quiet|intro f; quiet|exact Hdue].
  (* scheduled *)
  replace ((desc ++ pieceP ++ pieceR ++ pieceS ++ pieceC) ++ blankD ++ pieceT)
    with ((desc ++ pieceP ++ pieceR ++ pieceS) ++ pieceC ++ blankD ++ pieceT)
    by (rewrite <- !app_assoc; reflexivity).
  rewrite (strip_mark Glyph.hourglass);
    [|cbn [Spec.glyphs In]; tauto|discriminate|intro f; quiet|intro f; quiet|exact Hsched].
  (* start *)
  replace ((desc ++ pieceP ++ pieceR ++ pieceS) ++ blankC ++ blankD ++ pieceT)
    with ((desc ++ pieceP ++ pieceR) ++ pieceS ++ blankC ++ blankD ++ pieceT)
    by (rewrite <- !app_assoc; reflexivity).
  rewrite (strip_mark Glyph.airplane);
    [|cbn [Spec.glyphs In]; tauto|discriminate|intro f; quiet|intro f; quiet|exact Hstart].
  (* created *)
  unfold removeAll at 4.
  rewrite (removeAll_nothing (markStrip Glyph.plus) (fun _ _ => eq_refl))
    by (intro f; quiet).
  (* recurrence *)
  replace ((desc ++ pieceP ++ pieceR) ++ blankS ++ blankC ++ blankD ++ pieceT)
    with ((desc ++ pieceP) ++ pieceR ++ blankS ++ blankC ++ blankD ++ pieceT)
    by (rewrite <- !app_assoc; reflexivity).
  rewrite strip_recurrence;
    [|intro f; quiet|intro f; quiet
     |repeat apply startsBlank_fieldBlank; apply startsBlank_dueBlank;
      apply startsBlank_tagsOf
     |exact Hrec].
  (* priority *)
  replace ((desc ++ pieceP) ++ blankR ++ blankS ++ blankC ++ blankD ++ pieceT)
    with (desc ++ pieceP ++ blankR ++ blankS ++ blankC ++ blankD ++ pieceT)
    by (rewrite <- !app_assoc; reflexivity).
  rewrite strip_priority; [|intro f; quiet|intro f; quiet].
  (* tags *)
  replace (desc ++ blankP ++ blankR ++ blankS ++ blankC ++ blankD ++ pieceT)
    with ((desc ++ blankP ++ blankR ++ blankS ++ blankC ++ blankD) ++ pieceT)
    by (rewrite <- !app_assoc; reflexivity).
  rewrite strip_tags; try assumption; try avoid;
    [|pose proof desc_nonempty; destruct desc; [congruence|discriminate]].
  reflexivity.
Qed.

Lemma content_stripped :
  stripMetadata content
  = desc ++ Spec.remnant priority0 recurrence0 start0 scheduled0 due0.
Proof.
  unfold stripMetadata. rewrite content_removed.
  unfold Spec.remnant, Spec.dueBlank. destruct (truthy due0) as [d|].
  - apply trim_plain; [now apply startsPlain_app|].
    rewrite !app_assoc. cbn [Glyph.calendar removelast].
    rewrite rev_app_distr. reflexivity.
  - rewrite !app_nil_r.
    apply trim_blanks; try assumption.
    rewrite !forallb_app, blanks_priorityBlank, !blanks_fieldBlank. reflexivity.
Qed.

End Roundtrip.

Lemma truthy_again (value : option str) : truthy (truthy value) = truthy value.
Proof. now destruct value as [[|c r]|]. Qed.

Lemma fieldPiece_again (g : str) (value : option str) :
  Spec.fieldPiece g (truthy value) = Spec.fieldPiece g value.
Proof. unfold Spec.fieldPiece. now rewrite truthy_again. Qed.

Lemma tagsText_again (bs : list str) :
  Spec.tagsText (map (cons (ch "#")) bs) = Spec.tagsOf bs.
Proof.
  induction bs as [|b bs IH]; [reflexivity|].
  cbn [map Spec.tagsText Spec.tagsOf flat_map].
  fold (Spec.tagsText (map (cons (ch "#")) bs)). fold (Spec.tagsOf bs).
  rewrite IH. f_equal. unfold formatTag.
  cbn [startsWith lit map list_ascii_of_string]. change (N_of_ascii "#") with (ch "#").
  rewrite N.eqb_refl. now rewrite startsWith_nil.
Qed.

Lemma whenGiven_isWord (value : option str) :
  Spec.whenGiven Spec.isWord value = true ->
  Spec.whenGiven (forallb Spec.wordChar) value = true.
Proof. apply whenGiven_words. exact isWord_words. Qed.

(** The line of a canonical field set, read and written again with no
    override, is the line of the field set with the description the removal
    of the metadata leaves. *)
Lemma reserialize_stripped : forall args filePath lineNumber,
  Spec.canonical args = true ->
  Spec.reserialize args filePath lineNumber
  = Some (buildTaskMarkdown (Spec.stripped args)).
Proof.
  intros [desc due sched start prio tagArgs rec] filePath lineNumber Hcan.
  unfold Spec.canonical in Hcan.
  cbn [arg_description arg_dueDate arg_scheduledDate arg_startDate arg_priority
       arg_tags arg_recurrence] in Hcan.
  apply andb_true_iff in Hcan as [Hcan Htags].
  apply andb_true_iff in Hcan as [Hcan Hrec].
  apply andb_true_iff in Hcan as [Hcan Hstart].
  apply andb_true_iff in Hcan as [Hcan Hsched].
  apply andb_true_iff in Hcan as [Hcan Hdue].
  apply andb_true_iff in Hcan as [Hdesc _].
  unfold Spec.isText in Hdesc.
  apply andb_true_iff in Hdesc as [Hdesc Hlast].
  apply andb_true_iff in Hdesc as [Htext Hhead].
  apply whenGiven_isWord in Hrec.
  set (ts := match tagArgs with Some ts => ts | None => [] end).
  assert (Hts : forallb Spec.isTagArg ts = true) by (subst ts; now destruct tagArgs).
  destruct (tags_as_words ts Hts) as (Htext_tags & _ & Hbs).
  set (bs := map Filter.dropHash ts) in *.
  assert (Hline : buildTaskMarkdown (mkBuildArgs desc due sched start prio tagArgs rec)
                  = lit "- [ ] " ++ desc ++ Spec.priorityPiece prio
                      ++ Spec.fieldPiece Glyph.repeat rec
                      ++ Spec.fieldPiece Glyph.airplane start
                      ++ Spec.fieldPiece Glyph.hourglass sched
                      ++ Spec.fieldPiece Glyph.calendar due
                      ++ Spec.tagsOf bs).
  { unfold buildTaskMarkdown.
    cbn [arg_description arg_dueDate arg_scheduledDate arg_startDate arg_priority
         arg_tags arg_recurrence].
    rewrite appendFields_pieces. fold ts. rewrite Htext_tags.
    now rewrite <- app_assoc. }
  unfold Spec.reserialize. rewrite Hline. unfold parseTaskLine.
  rewrite content_taskRegex by assumption.
  rewrite content_description by assumption.
  cbn [option_map]. f_equal.
  unfold rebuildTaskLine.
  cbn [Spec.noOverrides upd_description upd_dueDate upd_scheduledDate upd_startDate
       upd_priority upd_tags upd_recurrence upd_status
       description statusSymbol dueDate scheduledDate startDate createdDate
       priority tags recurrence override].
  rewrite content_stripped by assumption.
  rewrite content_dueDate by assumption.
  rewrite content_scheduledDate by assumption.
  rewrite content_startDate by assumption.
  rewrite content_recurrence by assumption.
  rewrite content_priority by assumption.
  rewrite content_tags by assumption.
  match goal with
  | |- context [indentRegex ?l] => change (indentRegex l) with (Some (@nil char, lit "-"))
  end.
  cbv beta iota.
  unfold buildTaskMarkdown, Spec.stripped.
  cbn [arg_description arg_dueDate arg_scheduledDate arg_startDate arg_priority
       arg_tags arg_recurrence].
  rewrite !appendFields_pieces.
  rewrite priority_again, !fieldPiece_again, tagsText_again.
  fold ts. rewrite Htext_tags.
  rewrite <- !app_assoc. reflexivity.
Qed.

Lemma stripped_without_due (args : BuildArgs) :
  truthy (arg_dueDate args) = None -> Spec.stripped args = args.
Proof.
  intro H. destruct args as [desc due sched start prio tagArgs rec].
  unfold Spec.stripped, Spec.remnant.
  cbn [arg_description arg_dueDate arg_scheduledDate arg_startDate arg_priority
       arg_tags arg_recurrence] in *.
  now rewrite H, app_nil_r.
Qed.

(** C9, amended.  A field set is canonical when its description is not
    empty, has no white space at either end and holds no line break, no
    character of a glyph and no [#]; its priority, where given, is one of
    the five names; its dates, where given, are four, two and two digits
    joined by hyphens; its recurrence, where given, is one word; and its
    tags are words of tag characters, with or without the leading [#].  The
    line serialized from a canonical field set that gives no due date,
    parsed and written again with no override, is the same line. *)
Theorem reserialize_canonical : forall args filePath lineNumber,
  Spec.canonical args = true ->
  truthy (arg_dueDate args) = None ->
  Spec.reserialize args filePath lineNumber = Some (buildTaskMarkdown args).
Proof.
  intros args filePath lineNumber Hcan Hdue.
  rewrite (reserialize_stripped args filePath lineNumber Hcan).
  now rewrite (stripped_without_due args Hdue).
Qed.

(** [reserialize_canonical] on a field set with every kind of metadata but
    the due date. *)
Lemma reserialize_canonical_witness :
  let args :=
    mkBuildArgs (lit "Water the plants") None
      (Some (lit "2025-04-25")) (Some (lit "2025-04-20")) (Some (lit "highest"))
      (Some [lit "home"; lit "#garden"]) (Some (lit "weekly")) in
  Spec.canonical args = true
  /\ truthy (arg_dueDate args) = None
  /\ Spec.reserialize args (lit "notes.md") 1 = Some (buildTaskMarkdown args).
Proof.
  intro args. split; [reflexivity|]. split; [reflexivity|].
  apply reserialize_canonical; reflexivity.
Defined.

(** With a due date the line is not written back as it was.  The expression
    that removes the due date has the glyphs in a class: it takes the last
    character of the glyph with the date, and the characters before it stay
    in the description, in front of the due date that is written again. *)
Lemma reserialize_keeps_due_glyph :
  let args :=
    mkBuildArgs (lit "Buy milk") (Some (lit "2025-05-01")) None None None None None in
  Spec.canonical args = true
  /\ buildTaskMarkdown args = lit "- [ ] Buy milk " ++ Glyph.calendar ++ lit " 2025-05-01"
  /\ Spec.reserialize args (lit "notes.md") 1
     = Some (lit "- [ ] Buy milk " ++ removelast Glyph.calendar ++ lit " "
             ++ Glyph.calendar ++ lit " 2025-05-01").
Proof. repeat split; reflexivity. Qed.

(* ================================================================== *)
(** * Further properties *)

(** ** Lines of a file *)

Import Tools.

Lemma split_go_cur (c : char) (s : str) : forall cur,
  split_go [c] 0 cur s
  = match split_go [c] 0 [] s with
    | h :: t => (rev cur ++ h) :: t
    | [] => [rev cur]
    end.
Proof.
  induction s as [|x s IH]; intro cur.
  - cbn [split_go rev]. now rewrite app_nil_r.
  - cbn [split_go startsWith length Nat.sub]. rewrite startsWith_nil.
    destruct (x =? c); cbn [andb].
    + cbn [rev app]. now rewrite app_nil_r.
    + rewrite (IH (x :: cur)), (IH [x]).
      destruct (split_go [c] 0 [] s) as [|h t]; cbn [rev app].
      * reflexivity.
      * now rewrite <- app_assoc.
Qed.

Lemma split_nil (c : char) : split [] [c] = [[]].
Proof. reflexivity. Qed.

Lemma split_cons (c x : char) (s : str) :
  split (x :: s) [c]
  = if x =? c then [] :: split s [c]
    else match split s [c] with
         | h :: t => (x :: h) :: t
         | [] => [[x]]
         end.
Proof.
  unfold split. cbn [split_go startsWith length Nat.sub]. rewrite startsWith_nil.
  destruct (x =? c); cbn [andb]; [reflexivity|].
  rewrite split_go_cur. reflexivity.
Qed.

Lemma split_nonempty (c : char) (s : str) : split s [c] <> [].
Proof.
  destruct s as [|x s]; [discriminate|].
  rewrite split_cons. destruct (x =? c); [discriminate|].
  destruct (split s [c]); discriminate.
Qed.

Lemma split_plain (c : char) (a : str) : ~ In c a -> split a [c] = [a].
Proof.
  induction a as [|x a IH]; intro Hin; [reflexivity|].
  rewrite split_cons.
  destruct (N.eqb_spec x c) as [->|_]; [exfalso; apply Hin; now left|].
  rewrite IH; [reflexivity|]. intro H. apply Hin. now right.
Qed.

Lemma split_app_plain (c : char) (a b : str) :
  ~ In c a -> split (a ++ c :: b) [c] = a :: split b [c].
Proof.
  induction a as [|x a IH]; intro Hin.
  - cbn [app]. rewrite split_cons, N.eqb_refl. reflexivity.
  - cbn [app]. rewrite split_cons.
    destruct (N.eqb_spec x c) as [->|_]; [exfalso; apply Hin; now left|].
    rewrite IH; [reflexivity|]. intro H. apply Hin. now right.
Qed.

Lemma split_app_sep (c : char) (a b : str) :
  split (a ++ c :: b) [c] = split a [c] ++ split b [c].
Proof.
  induction a as [|x a IH].
  - cbn [app]. rewrite split_cons, N.eqb_refl. reflexivity.
  - cbn [app]. rewrite !split_cons. destruct (x =? c).
    + now rewrite IH.
    + rewrite IH. pose proof (split_nonempty c a).
      destruct (split a [c]) as [|h t]; [congruence|]. reflexivity.
Qed.

Lemma join_cons (sep p : str) (rest : list str) :
  rest <> [] -> join sep (p :: rest) = p ++ sep ++ join sep rest.
Proof. destruct rest; [congruence|reflexivity]. Qed.

Lemma join_split (c : char) (s : str) : join [c] (split s [c]) = s.
Proof.
  induction s as [|x s IH]; [reflexivity|].
  rewrite split_cons. destruct (N.eqb_spec x c) as [->|_].
  - rewrite join_cons by apply split_nonempty. now rewrite IH.
  - pose proof (split_nonempty c s).
    destruct (split s [c]) as [|h t] eqn:E; [congruence|].
    destruct t as [|h' t].
    + cbn [join] in *. now rewrite IH.
    + rewrite join_cons by discriminate. rewrite join_cons in IH by discriminate.
      rewrite <- IH. reflexivity.
Qed.

Lemma split_join (c : char) (lines : list str) :
  lines <> [] -> Forall (fun l => ~ In c l) lines ->
  split (join [c] lines) [c] = lines.
Proof.
  induction lines as [|l lines IH]; [congruence|]. intros _ Hall.
  inversion Hall as [|? ? Hl Hrest]; subst.
  destruct lines as [|l' lines].
  - cbn [join]. now apply split_plain.
  - rewrite join_cons by discriminate. cbn [app].
    rewrite split_app_plain by assumption.
    rewrite IH; [reflexivity|discriminate|assumption].
Qed.

Lemma split_no_sep (c : char) (s : str) : Forall (fun l => ~ In c l) (split s [c]).
Proof.
  induction s as [|x s IH]; [repeat constructor; intros []|].
  rewrite split_cons. destruct (N.eqb_spec x c) as [->|Hne].
  - constructor; [intros []|exact IH].
  - destruct (split s [c]) as [|h t]; [repeat constructor; intros [H|[]]; congruence|].
    inversion IH as [|? ? Hh Ht]; subst. constructor; [|exact Ht].
    intros [H|H]; [congruence|contradiction].
Qed.

Lemma setLine_length (i : nat) (x : str) (lines : list str) :
  length (setLine i x lines) = length lines.
Proof.
  revert i. induction lines as [|l lines IH]; intros [|i]; cbn [setLine length];
    try reflexivity. now rewrite IH.
Qed.

Lemma setLine_nth (i : nat) (x : str) (lines : list str) (k : nat) :
  (i < length lines)%nat ->
  nth k (setLine i x lines) [] = if (k =? i)%nat then x else nth k lines [].
Proof.
  revert i k. induction lines as [|l lines IH]; intros i k Hi; [cbn in Hi; lia|].
  destruct i as [|i]; destruct k as [|k]; cbn [setLine nth Nat.eqb]; try reflexivity.
  apply IH. cbn [length] in Hi. lia.
Qed.

Lemma setLine_Forall (P : str -> Prop) (i : nat) (x : str) (lines : list str) :
  P x -> Forall P lines -> Forall P (setLine i x lines).
Proof.
  intros Hx. revert i.
  induction lines as [|l lines IH]; intros i Hall; [destruct i; constructor|].
  inversion Hall; subst. destruct i; cbn [setLine]; constructor; auto.
Qed.

Lemma spliceLine_length (i : nat) (lines : list str) :
  (i < length lines)%nat -> S (length (spliceLine i lines)) = length lines.
Proof.
  revert i. induction lines as [|l lines IH]; intros i Hi; [cbn in Hi; lia|].
  destruct i as [|i]; cbn [spliceLine length]; [reflexivity|].
  rewrite IH; [reflexivity|]. cbn [length] in Hi. lia.
Qed.

Lemma spliceLine_nth (i : nat) (lines : list str) (k : nat) :
  (i < length lines)%nat ->
  nth k (spliceLine i lines) [] = nth (if (k <? i)%nat then k else S k) lines [].
Proof.
  revert i k. induction lines as [|l lines IH]; intros i k Hi; [cbn in Hi; lia|].
  destruct i as [|i]; cbn [spliceLine]; [reflexivity|].
  destruct k as [|k]; [reflexivity|].
  cbn [nth]. rewrite IH by (cbn [length] in Hi; lia).
  change (S k <? S i)%nat with (k <? i)%nat. now destruct (k <? i)%nat.
Qed.

Lemma spliceLine_Forall (P : str -> Prop) (i : nat) (lines : list str) :
  Forall P lines -> Forall P (spliceLine i lines).
Proof.
  revert i. induction lines as [|l lines IH]; intros i Hall; [destruct i; constructor|].
  inversion Hall; subst. destruct i; cbn [spliceLine]; [assumption|].
  constructor; auto.
Qed.

Lemma inRange (lineNumber : Z) (lines : list str) :
  outOfRange lineNumber lines = false ->
  (1 <= lineNumber <= Z.of_nat (length lines))%Z
  /\ (Z.to_nat (lineNumber - 1) < length lines)%nat.
Proof. unfold outOfRange. lia. Qed.

Lemma modify_same (v : Vault) (path content : str) :
  modify v path content path = Some content.
Proof. unfold modify. now rewrite eqb_str_refl. Qed.

Lemma modify_other (v : Vault) (path content p : str) :
  p <> path -> modify v path content p = v p.
Proof.
  intro Hne. unfold modify. destruct (eqb_str p path) eqn:E; [|reflexivity].
  apply eqb_str_eq in E. congruence.
Qed.

Lemma oneLine_In (s : str) : Spec.oneLine s = true <-> ~ In Spec.newline s.
Proof.
  unfold Spec.oneLine. rewrite forallb_forall. split.
  - intros H Hin. apply H in Hin. now rewrite N.eqb_refl in Hin.
  - intros H c Hc. destruct (N.eqb_spec c Spec.newline) as [->|]; [contradiction|reflexivity].
Qed.

(** X1.  [updateTaskInFile] on a line of the file, with a text that holds no
    line feed: the call reports the line as it was, the file keeps its number
    of lines, the addressed line now reads as the new text and every other
    line reads as before; the vault changes at this path only. *)
Theorem update_rewrites_one_line :
  forall v filePath content lineNumber newTaskMarkdown,
    v filePath = Some content ->
    outOfRange lineNumber (Spec.linesOf content) = false ->
    Spec.oneLine newTaskMarkdown = true ->
    exists content',
      updateTaskInFile v filePath lineNumber newTaskMarkdown
      = (Done (mkChange filePath lineNumber (lineAt lineNumber (Spec.linesOf content))
                 (Some newTaskMarkdown)),
         modify v filePath content')
      /\ length (Spec.linesOf content') = length (Spec.linesOf content)
      /\ forall k, (1 <= k <= Z.of_nat (length (Spec.linesOf content)))%Z ->
           lineAt k (Spec.linesOf content')
           = if (k =? lineNumber)%Z then newTaskMarkdown
             else lineAt k (Spec.linesOf content).
Proof.
  intros v filePath content lineNumber new Hfile Hrange Hnew.
  unfold updateTaskInFile. rewrite Hfile.
  change (split content [0x0A]) with (Spec.linesOf content). rewrite Hrange.
  eexists. split; [reflexivity|].
  destruct (inRange _ _ Hrange) as [Hz Hn].
  set (lines := Spec.linesOf content) in *.
  set (i := Z.to_nat (lineNumber - 1)) in *.
  assert (Hlines : Spec.linesOf (join [0x0A] (setLine i new lines)) = setLine i new lines).
  { apply split_join.
    - intro H. apply (f_equal (@length str)) in H. rewrite setLine_length in H.
      cbn [length] in H. lia.
    - apply setLine_Forall; [now apply oneLine_In|apply split_no_sep]. }
  rewrite Hlines, setLine_length. split; [reflexivity|].
  intros k Hk. unfold lineAt. rewrite setLine_nth by assumption.
  subst i. destruct (Z.eqb_spec k lineNumber) as [->|Hne].
  - now rewrite Nat.eqb_refl.
  - destruct (Nat.eqb_spec (Z.to_nat (k - 1)) (Z.to_nat (lineNumber - 1))); [lia|reflexivity].
Qed.

Lemma update_rewrites_one_line_witness :
  let v := Spec.oneFile (lit "notes.md") (lit "# Today" ++ [0x0A] ++ lit "- [ ] A") in
  let content := lit "# Today" ++ [0x0A] ++ lit "- [ ] A" in
  (v (lit "notes.md") = Some content
   /\ outOfRange 2 (Spec.linesOf content) = false
   /\ Spec.oneLine (lit "- [x] A") = true)
  /\ exists content',
       updateTaskInFile v (lit "notes.md") 2 (lit "- [x] A")
       = (Done (mkChange (lit "notes.md") 2 (lineAt 2 (Spec.linesOf content))
                  (Some (lit "- [x] A"))),
          modify v (lit "notes.md") content')
       /\ length (Spec.linesOf content') = length (Spec.linesOf content)
       /\ forall k, (1 <= k <= Z.of_nat (length (Spec.linesOf content)))%Z ->
            lineAt k (Spec.linesOf content')
            = if (k =? 2)%Z then lit "- [x] A" else lineAt k (Spec.linesOf content).
Proof.
  intros v content. split; [repeat split; reflexivity|].
  apply update_rewrites_one_line; reflexivity.
Defined.

(** X2.  [removeTaskFromFile] on a line of the file: the call reports the
    line it removes; a file of one line is left empty; a longer file loses one
    line, the lines before the removed one keep their numbers and the lines
    after it move up by one; the vault changes at this path only. *)
Theorem remove_deletes_one_line :
  forall v filePath content lineNumber,
    v filePath = Some content ->
    outOfRange lineNumber (Spec.linesOf content) = false ->
    exists content',
      removeTaskFromFile v filePath lineNumber
      = (Done (mkChange filePath lineNumber (lineAt lineNumber (Spec.linesOf content))
                 None),
         modify v filePath content')
      /\ (length (Spec.linesOf content) = 1%nat -> content' = [])
      /\ ((1 < length (Spec.linesOf content))%nat ->
          S (length (Spec.linesOf content')) = length (Spec.linesOf content)
          /\ forall k, (1 <= k < Z.of_nat (length (Spec.linesOf content)))%Z ->
               lineAt k (Spec.linesOf content')
               = lineAt (if (k <? lineNumber)%Z then k else k + 1)
                   (Spec.linesOf content)).
Proof.
  intros v filePath content lineNumber Hfile Hrange.
  unfold removeTaskFromFile. rewrite Hfile.
  change (split content [0x0A]) with (Spec.linesOf content). rewrite Hrange.
  eexists. split; [reflexivity|].
  destruct (inRange _ _ Hrange) as [Hz Hn].
  set (lines := Spec.linesOf content) in *.
  set (i := Z.to_nat (lineNumber - 1)) in *.
  pose proof (spliceLine_length i lines Hn) as Hlen.
  split.
  - intro Hone. rewrite Hone in Hlen.
    destruct (spliceLine i lines); [reflexivity|discriminate].
  - intro Hmany.
    assert (Hlines : Spec.linesOf (join [0x0A] (spliceLine i lines)) = spliceLine i lines).
    { apply split_join.
      - intro H. rewrite H in Hlen. cbn [length] in Hlen. lia.
      - apply spliceLine_Forall, split_no_sep. }
    rewrite Hlines. split; [exact Hlen|].
    intros k Hk. unfold lineAt. rewrite spliceLine_nth by assumption.
    subst i. f_equal.
    destruct (Z.ltb_spec k lineNumber);
      destruct (Nat.ltb_spec (Z.to_nat (k - 1)) (Z.to_nat (lineNumber - 1))); lia.
Qed.

Lemma remove_deletes_one_line_witness :
  let content := lit "- [ ] A" ++ [0x0A] ++ lit "- [ ] B" ++ [0x0A] ++ lit "- [ ] C" in
  let v := Spec.oneFile (lit "notes.md") content in
  (v (lit "notes.md") = Some content
   /\ outOfRange 2 (Spec.linesOf content) = false)
  /\ exists content',
       removeTaskFromFile v (lit "notes.md") 2
       = (Done (mkChange (lit "notes.md") 2 (lineAt 2 (Spec.linesOf content)) None),
          modify v (lit "notes.md") content')
       /\ (length (Spec.linesOf content) = 1%nat -> content' = [])
       /\ ((1 < length (Spec.linesOf content))%nat ->
           S (length (Spec.linesOf content')) = length (Spec.linesOf content)
           /\ forall k, (1 <= k < Z.of_nat (length (Spec.linesOf content)))%Z ->
                lineAt k (Spec.linesOf content')
                = lineAt (if (k <? 2)%Z then k else k + 1) (Spec.linesOf content)).
Proof.
  intros content v. split; [split; reflexivity|].
  apply remove_deletes_one_line; reflexivity.
Defined.

(** ** The tools and the vault *)

Lemma updateTaskInFile_frame v filePath lineNumber newTaskMarkdown :
  Spec.refusedWithoutWriting v (updateTaskInFile v filePath lineNumber newTaskMarkdown)
  /\ forall p, eqb_str p filePath = false ->
       snd (updateTaskInFile v filePath lineNumber newTaskMarkdown) p = v p.
Proof.
  unfold updateTaskInFile, Spec.refusedWithoutWriting.
  destruct (v filePath) as [content|]; [|now split].
  destruct (outOfRange lineNumber (split content [0x0A])); [now split|].
  cbn [fst snd]. split; [exact I|]. intros p Hp. unfold modify. now rewrite Hp.
Qed.

Lemma removeTaskFromFile_frame v filePath lineNumber :
  Spec.refusedWithoutWriting v (removeTaskFromFile v filePath lineNumber)
  /\ forall p, eqb_str p filePath = false ->
       snd (removeTaskFromFile v filePath lineNumber) p = v p.
Proof.
  unfold removeTaskFromFile, Spec.refusedWithoutWriting.
  destruct (v filePath) as [content|]; [|now split].
  destruct (outOfRange lineNumber (split content [0x0A])); [now split|].
  cbn [fst snd]. split; [exact I|]. intros p Hp. unfold modify. now rewrite Hp.
Qed.

Lemma toggle_task_frame tasksApi v args :
  Spec.refusedWithoutWriting v (toggle_task tasksApi v args)
  /\ forall filePath lineNumber p,
       resolveAddress args = Done (filePath, lineNumber) ->
       eqb_str p filePath = false ->
       snd (toggle_task tasksApi v args) p = v p.
Proof.
  unfold toggle_task, Spec.refusedWithoutWriting.
  destruct (resolveAddress args) as [[path n]|f]; [|split; [reflexivity|discriminate]].
  assert (Hmod : forall c p filePath lineNumber,
            Done (path, n) = Done (filePath, lineNumber) ->
            eqb_str p filePath = false -> modify v path c p = v p).
  { intros c p filePath lineNumber [= <- <-] Hp. unfold modify. now rewrite Hp. }
  destruct (v path) as [content|]; [|now split].
  destruct (outOfRange n (split content [0x0A])); [now split|].
  destruct tasksApi as [api|]; [cbn [fst snd]; split; [exact I|]; intros; eapply Hmod; eauto|].
  destruct (parseTaskLine _ path n) as [task|]; [|now split].
  cbn [fst snd]. split; [exact I|]. intros; eapply Hmod; eauto.
Qed.

Lemma update_task_frame v args fields :
  Spec.refusedWithoutWriting v (update_task v args fields)
  /\ forall filePath lineNumber p,
       resolveAddress args = Done (filePath, lineNumber) ->
       eqb_str p filePath = false ->
       snd (update_task v args fields) p = v p.
Proof.
  unfold update_task.
  destruct (resolveAddress args) as [[path n]|f]; [|split; [reflexivity|discriminate]].
  destruct (v path) as [content|] eqn:Hfile; [|now split].
  destruct (outOfRange n (split content [0x0A])); [now split|].
  destruct (parseTaskLine _ path n) as [task|]; [|now split].
  match goal with
  | |- context [updateTaskInFile v path n ?l] =>
      destruct (updateTaskInFile_frame v path n l) as [H1 H2]
  end.
  split; [exact H1|]. intros filePath lineNumber p [= <- <-]. apply H2.
Qed.

Lemma remove_task_frame v args :
  Spec.refusedWithoutWriting v (remove_task v args)
  /\ forall filePath lineNumber p,
       resolveAddress args = Done (filePath, lineNumber) ->
       eqb_str p filePath = false ->
       snd (remove_task v args) p = v p.
Proof.
  unfold remove_task.
  destruct (resolveAddress args) as [[path n]|f]; [|split; [reflexivity|discriminate]].
  destruct (removeTaskFromFile_frame v path n) as [H1 H2].
  split; [exact H1|]. intros filePath lineNumber p [= <- <-]. apply H2.
Qed.

(** X3.  A call of [toggle_task], [update_task] or [remove_task] that is
    refused, whatever the reason, leaves every file of the vault as it was:
    each check comes before the one write. *)
Theorem refused_calls_write_nothing : forall tasksApi v args fields,
  Spec.refusedWithoutWriting v (toggle_task tasksApi v args)
  /\ Spec.refusedWithoutWriting v (update_task v args fields)
  /\ Spec.refusedWithoutWriting v (remove_task v args).
Proof.
  intros. repeat split.
  - apply toggle_task_frame.
  - apply update_task_frame.
  - apply remove_task_frame.
Qed.

(** X4.  [toggle_task], [update_task] and [remove_task] write to no file but
    the one their address names: at every other path the vault holds after
    the call what it held before. *)
Theorem tools_write_one_file :
  forall tasksApi v args fields filePath lineNumber p,
    resolveAddress args = Done (filePath, lineNumber) ->
    eqb_str p filePath = false ->
    snd (toggle_task tasksApi v args) p = v p
    /\ snd (update_task v args fields) p = v p
    /\ snd (remove_task v args) p = v p.
Proof.
  intros tasksApi v args fields filePath lineNumber p Haddr Hp. repeat split.
  - exact (proj2 (toggle_task_frame tasksApi v args) _ _ _ Haddr Hp).
  - exact (proj2 (update_task_frame v args fields) _ _ _ Haddr Hp).
  - exact (proj2 (remove_task_frame v args) _ _ _ Haddr Hp).
Qed.

Lemma tools_write_one_file_witness :
  let v := Plugin.modify (Spec.oneFile (lit "a.md") (lit "- [ ] A")) (lit "b.md")
             (lit "- [ ] B") in
  let args := mkAddress (Some (lit "a.md:1")) None None in
  (resolveAddress args = Done (lit "a.md", 1%Z)
   /\ eqb_str (lit "b.md") (lit "a.md") = false)
  /\ snd (toggle_task None v args) (lit "b.md") = v (lit "b.md")
  /\ snd (update_task v args Spec.noOverrides) (lit "b.md") = v (lit "b.md")
  /\ snd (remove_task v args) (lit "b.md") = v (lit "b.md").
Proof.
  intros v args. split; [split; reflexivity|].
  apply (tools_write_one_file None v args Spec.noOverrides (lit "a.md") 1%Z (lit "b.md"));
    reflexivity.
Defined.

(** ** Identifiers of tasks *)

Lemma digits_of_uint_digits (d : Decimal.uint) :
  forallb isDigit (digits_of_uint d) = true.
Proof. induction d; cbn [digits_of_uint forallb]; [reflexivity|..]; now rewrite IHd. Qed.

Lemma digits_of_uint_acc (d : Decimal.uint) : forall acc,
  fold_left (fun a c => a * 10 + (c - 0x30)) (digits_of_uint d) (Npos acc)
  = Npos (Pos.of_uint_acc d acc).
Proof.
  induction d; intro acc; cbn [digits_of_uint fold_left Pos.of_uint_acc];
    [reflexivity|..];
    match goal with
    | |- fold_left _ _ (?x * 10 + ?dv) = Npos (Pos.of_uint_acc _ ?q) =>
        let v := eval vm_compute in dv in
        change dv with v; replace (x * 10 + v) with (Npos q) by lia
    end; apply IHd.
Qed.

Lemma digits_of_uint_value (d : Decimal.uint) :
  fold_left (fun a c => a * 10 + (c - 0x30)) (digits_of_uint d) 0 = Pos.of_uint d.
Proof.
  induction d; cbn [digits_of_uint fold_left Pos.of_uint]; [reflexivity|exact IHd|..];
    match goal with
    | |- fold_left _ _ ?a = Npos (Pos.of_uint_acc _ ?q) =>
        change a with (Npos q)
    end; apply digits_of_uint_acc.
Qed.

Lemma to_uint_value (p : positive) :
  forallb isDigit (digits_of_uint (Pos.to_uint p)) = true
  /\ digits_of_uint (Pos.to_uint p) <> []
  /\ fold_left (fun a c => a * 10 + (c - 0x30)) (digits_of_uint (Pos.to_uint p)) 0
     = Npos p.
Proof.
  split; [apply digits_of_uint_digits|].
  assert (H : fold_left (fun a c => a * 10 + (c - 0x30))
                (digits_of_uint (Pos.to_uint p)) 0 = Npos p).
  { rewrite digits_of_uint_value. apply Unsigned.of_to. }
  split; [|exact H]. intro E. rewrite E in H. discriminate.
Qed.

Lemma isDigit_range (c : char) : isDigit c = true <-> 0x30 <= c <= 0x39.
Proof. unfold isDigit. rewrite andb_true_iff, !N.leb_le. reflexivity. Qed.

Lemma parseInt_digits (ds : str) :
  forallb isDigit ds = true -> ds <> [] ->
  parseInt ds = Some (Z.of_N (fold_left (fun a c => a * 10 + (c - 0x30)) ds 0))
  /\ parseInt (ch "-" :: ds)
     = Some (Z.opp (Z.of_N (fold_left (fun a c => a * 10 + (c - 0x30)) ds 0))).
Proof.
  intros Hds Hne. destruct ds as [|c0 ds]; [congruence|].
  pose proof Hds as Hall. cbn [forallb] in Hds. apply andb_true_iff in Hds as [H0 Hrest].
  assert (Hsign : splitSign (c0 :: ds) = (false, c0 :: ds)).
  { apply isDigit_range in H0. unfold splitSign.
    change (ch "-") with 45. change (ch "+") with 43.
    destruct (N.eqb_spec c0 45); [lia|]. destruct (N.eqb_spec c0 43); [lia|]. reflexivity. }
  assert (Hradix : splitRadix (c0 :: ds) = (10, c0 :: ds)).
  { unfold splitRadix. destruct ds as [|c1 ds]; [reflexivity|].
    cbn [forallb] in Hrest. apply andb_true_iff in Hrest as [H1 _].
    apply isDigit_range in H1.
    change (ch "x") with 120. change (ch "X") with 88.
    destruct (N.eqb_spec c1 120); [lia|]. destruct (N.eqb_spec c1 88); [lia|].
    now rewrite andb_false_r. }
  assert (Hread : readDigits 10 false 0 (c0 :: ds)
                  = Some (fold_left (fun a c => a * 10 + (c - 0x30)) (c0 :: ds) 0)).
  { rewrite readDigits_decimal by assumption. reflexivity. }
  split.
  - unfold parseInt, trimStart, dropWhile. cbn [span].
    rewrite (isDigit_not_ws _ H0). cbn [snd]. rewrite Hsign, Hradix, Hread. reflexivity.
  - unfold parseInt, trimStart, dropWhile. cbn [span].
    change (isWs (ch "-")) with false. cbn [snd splitSign].
    rewrite N.eqb_refl, Hradix, Hread. reflexivity.
Qed.

Lemma parseInt_numberToString (z : Z) : parseInt (numberToString z) = Some z.
Proof.
  destruct z as [|p|p]; [reflexivity|..];
    destruct (to_uint_value p) as (Hd & Hne & Hv);
    destruct (parseInt_digits _ Hd Hne) as [Hpos Hneg]; cbn [numberToString].
  - rewrite Hpos, Hv. reflexivity.
  - rewrite Hneg, Hv. reflexivity.
Qed.

Lemma numberToString_no_separator (z : Z) : ~ In Spec.separator (numberToString z).
Proof.
  assert (Hd : forall d, ~ In Spec.separator (digits_of_uint d)).
  { intros d Hin. pose proof (digits_of_uint_digits d) as H.
    rewrite forallb_forall in H. apply H in Hin. discriminate. }
  destruct z as [|p|p]; cbn [numberToString].
  - intros [H|[]]. discriminate.
  - apply Hd.
  - intros [H|H]; [discriminate|]. exact (Hd _ H).
Qed.

Lemma parseTaskId_of_id (path : str) (n : Z) :
  parseTaskId (path ++ lit ":" ++ numberToString n) = Done (path, n).
Proof.
  change (path ++ lit ":" ++ numberToString n)
    with (path ++ Spec.separator :: numberToString n).
  rewrite parseTaskId_split by apply numberToString_no_separator.
  now rewrite parseInt_numberToString.
Qed.

Lemma parseTaskLine_id line path n task :
  parseTaskLine line path n = Some task ->
  id task = path ++ lit ":" ++ numberToString n
  /\ filePath task = path /\ lineNumber task = n /\ originalMarkdown task = line.
Proof.
  unfold parseTaskLine. destruct (taskRegex line) as [[[[? ?] ?] ?]|]; [|discriminate].
  intros [= <-]. repeat split.
Qed.

(** X5.  The identifier of a parsed task leads back to the task:
    [parseTaskId] reads from it the path and the line number the task was
    parsed with, whatever the path holds -- colons included -- and for every
    line number that a [number] holds exactly, negative ones and 0
    included. *)
Theorem task_id_round_trip : forall line path n task,
  Spec.safeInteger n = true ->
  parseTaskLine line path n = Some task ->
  parseTaskId (id task) = Done (path, n)
  /\ parseTaskId (id task) = Done (filePath task, lineNumber task).
Proof.
  intros line path n task _ Hparse.
  destruct (parseTaskLine_id _ _ _ _ Hparse) as (Hid & Hpath & Hn & _).
  rewrite Hid, Hpath, Hn. split; apply parseTaskId_of_id.
Qed.

Lemma task_id_round_trip_witness :
  exists task,
    (Spec.safeInteger 12 = true
     /\ parseTaskLine (lit "- [ ] A") (lit "C:/vault/notes.md") 12 = Some task)
    /\ parseTaskId (id task) = Done (lit "C:/vault/notes.md", 12%Z)
    /\ parseTaskId (id task) = Done (filePath task, lineNumber task).
Proof.
  eexists. split; [split; reflexivity|].
  apply (task_id_round_trip (lit "- [ ] A") (lit "C:/vault/notes.md") 12); reflexivity.
Defined.

(** ** Listing the tasks of the vault *)

Lemma parseTaskLine_isTaskLine line path n :
  isSome (parseTaskLine line path n) = Spec.isTaskLine line.
Proof.
  unfold parseTaskLine, Spec.isTaskLine.
  now destruct (taskRegex line) as [[[[? ?] ?] ?]|].
Qed.

Lemma tasksOfLines_In path lines : forall index task,
  In task (tasksOfLines path index lines) <->
  exists k, (k < length lines)%nat
            /\ parseTaskLine (nth k lines []) path (Z.of_nat (index + k) + 1) = Some task.
Proof.
  induction lines as [|l lines IH]; intros index task.
  - cbn [tasksOfLines In length]. split; [intros []|intros (k & Hk & _); lia].
  - cbn [tasksOfLines].
    assert (Hrest : In task (tasksOfLines path (S index) lines) <->
                    exists k, (0 < k < length (l :: lines))%nat
                      /\ parseTaskLine (nth k (l :: lines) []) path
                           (Z.of_nat (index + k) + 1) = Some task).
    { rewrite IH. split.
      - intros (k & Hk & Hp). exists (S k). cbn [length nth].
        replace (index + S k)%nat with (S index + k)%nat by lia. split; [lia|exact Hp].
      - intros ([|k] & Hk & Hp); [lia|]. exists k. cbn [length nth] in *.
        replace (S index + k)%nat with (index + S k)%nat by lia. split; [lia|exact Hp]. }
    destruct (parseTaskLine l path (Z.of_nat index + 1)) as [t|] eqn:E.
    + cbn [In]. rewrite Hrest. split.
      * intros [<-|(k & Hk & Hp)].
        -- exists 0%nat. cbn [length nth]. rewrite Nat.add_0_r. split; [lia|exact E].
        -- exists k. split; [lia|exact Hp].
      * intros ([|k] & Hk & Hp).
        -- left. cbn [nth] in Hp. rewrite Nat.add_0_r in Hp. congruence.
        -- right. exists (S k). split; [lia|exact Hp].
    + rewrite Hrest. split.
      * intros (k & Hk & Hp). exists k. split; [lia|exact Hp].
      * intros ([|k] & Hk & Hp).
        -- cbn [nth] in Hp. rewrite Nat.add_0_r in Hp. congruence.
        -- exists (S k). split; [lia|exact Hp].
Qed.

Lemma getAllTasks_In v markdownFiles filePath task :
  In task (getAllTasks v markdownFiles filePath) ->
  exists path content,
    v path = Some content /\ In task (tasksOfFile path content).
Proof.
  unfold getAllTasks. intro Hin. apply in_flat_map in Hin as (p & _ & Hin).
  destruct (v p) as [content|] eqn:E; [|destruct Hin]. now exists p, content.
Qed.

Lemma id_truthy path n : exists c r, path ++ lit ":" ++ numberToString n = c :: r.
Proof. destruct path as [|c r]; cbn; eauto. Qed.

Lemma listed_task_facts v markdownFiles path task :
  In task (getAllTasks v markdownFiles path) ->
  exists content,
    v (filePath task) = Some content
    /\ outOfRange (lineNumber task) (Spec.linesOf content) = false
    /\ lineAt (lineNumber task) (Spec.linesOf content) = originalMarkdown task
    /\ parseTaskLine (originalMarkdown task) (filePath task) (lineNumber task) = Some task
    /\ resolveAddress (Spec.byId task) = Done (filePath task, lineNumber task).
Proof.
  intro Hin. apply getAllTasks_In in Hin as (p & content & Hfile & Hin).
  apply tasksOfLines_In in Hin as (k & Hk & Hparse).
  destruct (parseTaskLine_id _ _ _ _ Hparse) as (Hid & Hpath & Hn & Hline).
  exists content. rewrite Hpath, Hn, Hline.
  change (split content [0x0A]) with (Spec.linesOf content) in *.
  cbn [Nat.add] in *. repeat split.
  - exact Hfile.
  - unfold outOfRange. lia.
  - unfold lineAt. f_equal. lia.
  - exact Hparse.
  - unfold resolveAddress, Spec.byId. cbn [taskId]. rewrite Hid.
    destruct (id_truthy p (Z.of_nat k + 1)) as (c & r & E). rewrite E. cbn [truthy].
    rewrite <- E. apply parseTaskId_of_id.
Qed.

(** X6.  Every task that [getAllTasks] lists can be found again: its file
    is in the vault, its line number is a line of that file, that line is the
    task's original text and parses to the very task, and its identifier,
    passed as [taskId], resolves to that file and line. *)
Theorem listed_tasks_are_addressable : forall v markdownFiles path task,
  In task (getAllTasks v markdownFiles path) ->
  exists content,
    v (filePath task) = Some content
    /\ outOfRange (lineNumber task) (Spec.linesOf content) = false
    /\ lineAt (lineNumber task) (Spec.linesOf content) = originalMarkdown task
    /\ parseTaskLine (originalMarkdown task) (filePath task) (lineNumber task) = Some task
    /\ resolveAddress (Spec.byId task) = Done (filePath task, lineNumber task).
Proof. exact listed_task_facts. Qed.

Lemma listed_tasks_are_addressable_witness :
  let v := Spec.oneFile (lit "notes.md") (lit "- [ ] A") in
  let task := Spec.plainTask incomplete in
  In task (getAllTasks v [lit "notes.md"] None)
  /\ exists content,
       v (filePath task) = Some content
       /\ outOfRange (lineNumber task) (Spec.linesOf content) = false
       /\ lineAt (lineNumber task) (Spec.linesOf content) = originalMarkdown task
       /\ parseTaskLine (originalMarkdown task) (filePath task) (lineNumber task)
          = Some task
       /\ resolveAddress (Spec.byId task) = Done (filePath task, lineNumber task).
Proof.
  intros v task.
  assert (Hin : In task (getAllTasks v [lit "notes.md"] None)) by (left; reflexivity).
  split; [exact Hin|].
  exact (listed_tasks_are_addressable v [lit "notes.md"] None task Hin).
Defined.

(** X7.  A task that [getAllTasks] lists can be acted on through its
    identifier, with no Tasks plugin at hand: [toggle_task], [update_task]
    and [remove_task] called with it as [taskId] are not refused, and each
    reports as the old line the text the task was read from. *)
Theorem listed_task_accepts_every_tool : forall v markdownFiles path task fields,
  In task (getAllTasks v markdownFiles path) ->
  (exists newLine v',
     toggle_task None v (Spec.byId task)
     = (Done (mkChange (filePath task) (lineNumber task) (originalMarkdown task)
                (Some newLine)), v'))
  /\ (exists newLine v',
        update_task v (Spec.byId task) fields
        = (Done (mkChange (filePath task) (lineNumber task) (originalMarkdown task)
                   (Some newLine)), v'))
  /\ (exists v',
        remove_task v (Spec.byId task)
        = (Done (mkChange (filePath task) (lineNumber task) (originalMarkdown task)
                   None), v')).
Proof.
  intros v markdownFiles path task fields Hin.
  destruct (listed_task_facts _ _ _ _ Hin) as (content & Hfile & Hrange & Hline & Hparse & Haddr).
  split; [|split].
  - do 2 eexists.
    unfold toggle_task. rewrite Haddr. cbv beta iota. rewrite Hfile. cbv beta iota zeta.
    change (split content [0x0A]) with (Spec.linesOf content).
    rewrite Hrange, Hline, Hparse. reflexivity.
  - do 2 eexists.
    unfold update_task. rewrite Haddr. cbv beta iota. rewrite Hfile. cbv beta iota zeta.
    change (split content [0x0A]) with (Spec.linesOf content).
    rewrite Hrange, Hline, Hparse.
    unfold updateTaskInFile. rewrite Hfile. cbv beta iota zeta.
    change (split content [0x0A]) with (Spec.linesOf content).
    rewrite Hrange, Hline. reflexivity.
  - eexists.
    unfold remove_task. rewrite Haddr. cbv beta iota. unfold removeTaskFromFile.
    rewrite Hfile. cbv beta iota zeta.
    change (split content [0x0A]) with (Spec.linesOf content).
    rewrite Hrange, Hline. reflexivity.
Qed.

Lemma listed_task_accepts_every_tool_witness :
  let v := Spec.oneFile (lit "notes.md") (lit "- [ ] A") in
  let task := Spec.plainTask incomplete in
  In task (getAllTasks v [lit "notes.md"] None)
  /\ (exists newLine v',
        toggle_task None v (Spec.byId task)
        = (Done (mkChange (filePath task) (lineNumber task) (originalMarkdown task)
                   (Some newLine)), v'))
  /\ (exists newLine v',
        update_task v (Spec.byId task) Spec.noOverrides
        = (Done (mkChange (filePath task) (lineNumber task) (originalMarkdown task)
                   (Some newLine)), v'))
  /\ (exists v',
        remove_task v (Spec.byId task)
        = (Done (mkChange (filePath task) (lineNumber task) (originalMarkdown task)
                   None), v')).
Proof.
  intros v task.
  assert (Hin : In task (getAllTasks v [lit "notes.md"] None)) by (left; reflexivity).
  split; [exact Hin|].
  exact (listed_task_accepts_every_tool v [lit "notes.md"] None task Spec.noOverrides Hin).
Defined.

Lemma tasksOfLines_lines path lines : forall index,
  map originalMarkdown (tasksOfLines path index lines) = filter Spec.isTaskLine lines.
Proof.
  induction lines as [|l lines IH]; intro index; [reflexivity|].
  cbn [tasksOfLines filter].
  rewrite <- (parseTaskLine_isTaskLine l path (Z.of_nat index + 1)).
  destruct (parseTaskLine l path (Z.of_nat index + 1)) as [t|] eqn:E; cbn [isSome].
  - cbn [map]. rewrite IH. f_equal. now destruct (parseTaskLine_id _ _ _ _ E) as (_ & _ & _ & ->).
  - apply IH.
Qed.

Lemma tasksOfLines_numbers path lines : forall index,
  Forall (fun n => (Z.of_nat index < n)%Z) (map lineNumber (tasksOfLines path index lines))
  /\ StronglySorted Z.lt (map lineNumber (tasksOfLines path index lines)).
Proof.
  induction lines as [|l lines IH]; intro index; [split; constructor|].
  cbn [tasksOfLines]. destruct (IH (S index)) as [Hlow Hsorted].
  assert (Hlow' : Forall (fun n => (Z.of_nat index + 1 < n)%Z)
                     (map lineNumber (tasksOfLines path (S index) lines))).
  { eapply Forall_impl; [|exact Hlow]. cbv beta. intros; lia. }
  destruct (parseTaskLine l path (Z.of_nat index + 1)) as [t|] eqn:E.
  - destruct (parseTaskLine_id _ _ _ _ E) as (_ & _ & Hn & _).
    cbn [map]. rewrite Hn. split.
    + constructor; [lia|]. eapply Forall_impl; [|exact Hlow]. cbv beta. intros; lia.
    + constructor; assumption.
  - split; [|exact Hsorted]. eapply Forall_impl; [|exact Hlow]. cbv beta. intros; lia.
Qed.

(** X8.  What [getAllTasks] reads from one file: the original texts of the
    tasks are the lines of the file that [taskRegex] recognizes, every one of
    them and in the order of the file; the line numbers grow strictly from
    one task to the next, each is at least 1, and every task carries the path
    of the file. *)
Theorem tasks_follow_the_lines_of_the_file : forall path content,
  map originalMarkdown (tasksOfFile path content)
  = filter Spec.isTaskLine (Spec.linesOf content)
  /\ StronglySorted Z.lt (map lineNumber (tasksOfFile path content))
  /\ Forall (fun task => (1 <= lineNumber task)%Z /\ filePath task = path)
       (tasksOfFile path content).
Proof.
  intros path content. unfold tasksOfFile. split; [apply tasksOfLines_lines|].
  split; [apply tasksOfLines_numbers|].
  apply Forall_forall. intros task Hin.
  apply tasksOfLines_In in Hin as (k & _ & Hparse).
  destruct (parseTaskLine_id _ _ _ _ Hparse) as (_ & Hpath & Hn & _).
  rewrite Hpath, Hn. split; [lia|reflexivity].
Qed.

(** ** Serialized lines, read and updated *)

Lemma canonical_line (args : BuildArgs) :
  Spec.canonical args = true ->
  let bs := map Filter.dropHash (Spec.tagsGiven args) in
  (forallb Spec.textChar (arg_description args) = true
   /\ Spec.startsPlain (arg_description args) = true
   /\ Spec.startsPlain (rev (arg_description args)) = true)
  /\ Spec.whenGiven (fun key => Filter.isSome (priorityEmojis key)) (arg_priority args)
     = true
  /\ (Spec.whenGiven (forallb Spec.wordChar) (arg_recurrence args) = true
      /\ Spec.whenGiven Spec.isDate (arg_startDate args) = true
      /\ Spec.whenGiven Spec.isDate (arg_scheduledDate args) = true
      /\ Spec.whenGiven Spec.isDate (arg_dueDate args) = true
      /\ forallb Spec.isTagWord bs = true)
  /\ buildTaskMarkdown args
     = lit "- [ ] " ++ arg_description args ++ Spec.priorityPiece (arg_priority args)
         ++ Spec.fieldPiece Glyph.repeat (arg_recurrence args)
         ++ Spec.fieldPiece Glyph.airplane (arg_startDate args)
         ++ Spec.fieldPiece Glyph.hourglass (arg_scheduledDate args)
         ++ Spec.fieldPiece Glyph.calendar (arg_dueDate args)
         ++ Spec.tagsOf bs
  /\ Spec.tagsText (Spec.tagsGiven args) = Spec.tagsOf bs
  /\ map formatTag (Spec.tagsGiven args) = map (cons (ch "#")) bs.
Proof.
  destruct args as [desc due sched start prio tagArgs rec]. intros Hcan bs.
  unfold Spec.canonical in Hcan. unfold Spec.tagsGiven in bs.
  cbn [arg_description arg_dueDate arg_scheduledDate arg_startDate arg_priority
       arg_tags arg_recurrence] in *.
  apply andb_true_iff in Hcan as [Hcan Htags].
  apply andb_true_iff in Hcan as [Hcan Hrec].
  apply andb_true_iff in Hcan as [Hcan Hstart].
  apply andb_true_iff in Hcan as [Hcan Hsched].
  apply andb_true_iff in Hcan as [Hcan Hdue].
  apply andb_true_iff in Hcan as [Hdesc Hprio].
  unfold Spec.isText in Hdesc.
  apply andb_true_iff in Hdesc as [Hdesc Hlast].
  apply andb_true_iff in Hdesc as [Htext Hhead].
  apply whenGiven_isWord in Hrec.
  assert (Hts : forallb Spec.isTagArg (match tagArgs with Some ts => ts | None => [] end)
                = true) by now destruct tagArgs.
  destruct (tags_as_words _ Hts) as (Htext_tags & Hformat & Hbs).
  repeat split; try assumption.
  unfold buildTaskMarkdown, Spec.tagsGiven.
  cbn [arg_description arg_dueDate arg_scheduledDate arg_startDate arg_priority
       arg_tags arg_recurrence].
  rewrite appendFields_pieces, Htext_tags. now rewrite <- app_assoc.
Qed.

Lemma priority_round_trip (priority : option str) :
  Spec.whenGiven (fun key => Filter.isSome (priorityEmojis key)) priority = true ->
  option_map Filter.priorityName (Spec.priorityOfArg priority) = truthy priority.
Proof.
  unfold Spec.whenGiven, Spec.priorityOfArg, Spec.emojiOf.
  destruct (truthy priority) as [key|]; [|reflexivity].
  unfold priorityEmojis.
  destruct (eqb_str key (lit "highest")) eqn:E1;
    [apply eqb_str_eq in E1; now subst|].
  destruct (eqb_str key (lit "high")) eqn:E2;
    [apply eqb_str_eq in E2; now subst|].
  destruct (eqb_str key (lit "medium")) eqn:E3;
    [apply eqb_str_eq in E3; now subst|].
  destruct (eqb_str key (lit "low")) eqn:E4;
    [apply eqb_str_eq in E4; now subst|].
  destruct (eqb_str key (lit "lowest")) eqn:E5;
    [apply eqb_str_eq in E5; now subst|].
  discriminate.
Qed.

Lemma built_line_facts : forall args path n,
  Spec.canonical args = true ->
  exists task,
    parseTaskLine (buildTaskMarkdown args) path n = Some task
    /\ status task = incomplete
    /\ dueDate task = truthy (arg_dueDate args)
    /\ scheduledDate task = truthy (arg_scheduledDate args)
    /\ startDate task = truthy (arg_startDate args)
    /\ createdDate task = None
    /\ recurrence task = truthy (arg_recurrence args)
    /\ option_map Filter.priorityName (priority task) = truthy (arg_priority args)
    /\ tags task = map formatTag (Spec.tagsGiven args)
    /\ stripMetadata (description task) = arg_description (Spec.stripped args).
Proof.
  intros args path n Hcan.
  destruct (canonical_line args Hcan)
    as ((Htext & Hhead & Hlast) & Hprio & (Hrec & Hstart & Hsched & Hdue & Hbs)
        & Hline & _ & Hformat).
  unfold parseTaskLine. rewrite Hline.
  rewrite content_taskRegex by assumption.
  rewrite content_description by assumption.
  eexists. split; [reflexivity|].
  cbn [status dueDate scheduledDate startDate createdDate recurrence priority tags
       description].
  rewrite content_stripped by assumption.
  rewrite content_dueDate by assumption.
  rewrite content_scheduledDate by assumption.
  rewrite content_startDate by assumption.
  rewrite content_createdDate by assumption.
  rewrite content_recurrence by assumption.
  rewrite content_priority by assumption.
  rewrite content_tags by assumption.
  repeat split; try reflexivity.
  - now apply priority_round_trip.
  - symmetry. exact Hformat.
Qed.

(** X9.  A canonical field set survives serialization: the line
    [buildTaskMarkdown] writes for it is a task line, not done, and
    [parseTaskLine] reads from it the due, scheduled and start date, the
    recurrence and the priority that were given (an empty string counting as
    not given), no created date, and the tags in their order, each with its
    [#].  Removing the metadata from the parsed description gives the
    description back when no due date was given; with a due date, the
    description is followed by what [Spec.remnant] says: a space for every
    field that was written and the due-date glyph but for its last
    character. *)
Theorem built_line_parses_to_its_fields : forall args path n,
  Spec.canonical args = true ->
  exists task,
    parseTaskLine (buildTaskMarkdown args) path n = Some task
    /\ status task = incomplete
    /\ dueDate task = truthy (arg_dueDate args)
    /\ scheduledDate task = truthy (arg_scheduledDate args)
    /\ startDate task = truthy (arg_startDate args)
    /\ createdDate task = None
    /\ recurrence task = truthy (arg_recurrence args)
    /\ option_map Filter.priorityName (priority task) = truthy (arg_priority args)
    /\ tags task = map formatTag (Spec.tagsGiven args)
    /\ stripMetadata (description task) = arg_description (Spec.stripped args)
    /\ (truthy (arg_dueDate args) = None ->
        stripMetadata (description task) = arg_description args).
Proof.
  intros args path n Hcan.
  destruct (built_line_facts args path n Hcan)
    as (task & H1 & H2 & H3 & H4 & H5 & H6 & H7 & H8 & H9 & H10).
  exists task. do 9 (split; [assumption|]). split; [exact H10|].
  intro Hdue. now rewrite H10, (stripped_without_due args Hdue).
Qed.

Lemma built_line_parses_to_its_fields_witness :
  let args :=
    mkBuildArgs (lit "Water the plants") (Some (lit "2025-05-01")) None
      (Some (lit "2025-04-20")) (Some (lit "high"))
      (Some [lit "home"; lit "#garden"]) (Some (lit "weekly")) in
  Spec.canonical args = true
  /\ exists task,
       parseTaskLine (buildTaskMarkdown args) (lit "notes.md") 3 = Some task
       /\ status task = incomplete
       /\ dueDate task = truthy (arg_dueDate args)
       /\ scheduledDate task = truthy (arg_scheduledDate args)
       /\ startDate task = truthy (arg_startDate args)
       /\ createdDate task = None
       /\ recurrence task = truthy (arg_recurrence args)
       /\ option_map Filter.priorityName (priority task) = truthy (arg_priority args)
       /\ tags task = map formatTag (Spec.tagsGiven args)
       /\ stripMetadata (description task) = arg_description (Spec.stripped args)
       /\ (truthy (arg_dueDate args) = None ->
           stripMetadata (description task) = arg_description args).
Proof.
  intro args. split; [reflexivity|].
  apply built_line_parses_to_its_fields. reflexivity.
Defined.

Lemma fieldPiece_override (g : str) (arg current : option str) :
  Spec.fieldPiece g (override arg (truthy current))
  = Spec.fieldPiece g (override arg current).
Proof. destruct arg as [[|]|]; try reflexivity. apply fieldPiece_again. Qed.

Lemma merged_with_description (args : BuildArgs) (fields : UpdateArgs) :
  truthy (arg_dueDate args) = None \/ upd_description fields <> None ->
  Spec.merged (Spec.stripped args) fields = Spec.merged args fields.
Proof.
  intros [Hdue|Hdesc]; [now rewrite (stripped_without_due args Hdue)|].
  unfold Spec.merged, Spec.stripped.
  cbn [arg_description arg_dueDate arg_scheduledDate arg_startDate arg_priority
       arg_tags arg_recurrence].
  destruct (upd_description fields); [reflexivity|congruence].
Qed.

(** X10.  [update_task] on the line of a canonical field set, with no
    status passed, writes the line of the merged field set: a field that is
    passed replaces the one of the line, the empty string and the priority
    [none] clear it, a field that is not passed stays, and the tags passed
    replace all the tags.  A priority that is passed is empty, [none] or one
    of the five names; nothing is asked of the other values.  The
    description that stays when none is passed is the one the removal of the
    metadata leaves ([Spec.stripped]): the description of the field set when
    it gave no due date. *)
Theorem update_of_built_line : forall args fields path n task,
  Spec.canonical args = true ->
  upd_status fields = None ->
  Spec.knownPriority (upd_priority fields) = true ->
  parseTaskLine (buildTaskMarkdown args) path n = Some task ->
  rebuildTaskLine fields (buildTaskMarkdown args) task
  = buildTaskMarkdown (Spec.merged (Spec.stripped args) fields)
  /\ (truthy (arg_dueDate args) = None \/ upd_description fields <> None ->
      rebuildTaskLine fields (buildTaskMarkdown args) task
      = buildTaskMarkdown (Spec.merged args fields)).
Proof.
  intros args fields path n task Hcan Hstatus _ Hparse.
  assert (Hgen : rebuildTaskLine fields (buildTaskMarkdown args) task
                 = buildTaskMarkdown (Spec.merged (Spec.stripped args) fields)).
  { destruct (canonical_line args Hcan)
      as ((Htext & Hhead & Hlast) & Hprio & (Hrec & Hstart & Hsched & Hdue & Hbs)
          & Hline & Htags & Hformat).
    unfold parseTaskLine in Hparse. rewrite Hline in Hparse.
    rewrite content_taskRegex in Hparse by assumption.
    rewrite content_description in Hparse by assumption.
    injection Hparse as <-.
    unfold rebuildTaskLine. rewrite Hstatus.
    cbn [description statusSymbol dueDate scheduledDate startDate createdDate
         priority tags recurrence].
    rewrite content_stripped by assumption.
    rewrite content_dueDate by assumption.
    rewrite content_scheduledDate by assumption.
    rewrite content_startDate by assumption.
    rewrite content_recurrence by assumption.
    rewrite content_priority by assumption.
    rewrite content_tags by assumption.
    rewrite Hline.
    match goal with
    | |- context [indentRegex ?l] =>
        change (indentRegex l) with (Some (@nil char, lit "-"))
    end.
    cbv beta iota.
    unfold buildTaskMarkdown, Spec.merged, Spec.stripped.
    cbn [arg_description arg_dueDate arg_scheduledDate arg_startDate arg_priority
         arg_tags arg_recurrence].
    rewrite !appendFields_pieces.
    rewrite !fieldPiece_override.
    replace (Spec.priorityPiece
               match upd_priority fields with
               | Some p => if eqb_str p (lit "none") then None else Some p
               | None => option_map Filter.priorityName
                           (Spec.priorityOfArg (arg_priority args))
               end)
      with (Spec.priorityPiece
              match upd_priority fields with
              | Some p => if eqb_str p (lit "none") then None else Some p
              | None => arg_priority args
              end)
      by (destruct (upd_priority fields); [reflexivity|symmetry; apply priority_again]).
    replace (Spec.tagsText
               match upd_tags fields with
               | Some ts => ts
               | None => map (cons (ch "#")) (map Filter.dropHash (Spec.tagsGiven args))
               end)
      with (Spec.tagsText
              match
                match upd_tags fields with
                | Some ts => Some ts
                | None => arg_tags args
                end
              with
              | Some ts => ts
              | None => []
              end)
      by (destruct (upd_tags fields); [reflexivity|rewrite tagsText_again; exact Htags]).
    destruct (upd_description fields); reflexivity. }
  split; [exact Hgen|].
  intro H. now rewrite Hgen, (merged_with_description args fields H).
Qed.

Lemma update_of_built_line_witness :
  let args :=
    mkBuildArgs (lit "Water the plants") (Some (lit "2025-05-01")) None None
      (Some (lit "high")) (Some [lit "home"]) None in
  let fields :=
    mkUpdateArgs None (Some []) None None (Some (lit "low"))
      (Some [lit "garden"; lit "#yard"]) (Some (lit "weekly")) None in
  exists task,
    (Spec.canonical args = true
     /\ upd_status fields = None
     /\ Spec.knownPriority (upd_priority fields) = true
     /\ parseTaskLine (buildTaskMarkdown args) (lit "notes.md") 1 = Some task)
    /\ rebuildTaskLine fields (buildTaskMarkdown args) task
       = buildTaskMarkdown (Spec.merged (Spec.stripped args) fields)
    /\ rebuildTaskLine fields (buildTaskMarkdown args) task
       = lit "- [ ] Water the plants  " ++ removelast Glyph.calendar ++ lit " "
           ++ Glyph.down ++ lit " " ++ Glyph.repeat ++ lit " weekly #garden #yard".
Proof.
  intros args fields. eexists. split.
  - split; [reflexivity|]. split; [reflexivity|]. split; reflexivity.
  - split; [|reflexivity].
    apply (update_of_built_line args fields (lit "notes.md") 1); reflexivity.
Defined.

(** ** The shape of a task line *)

Lemma span_spec (p : char -> bool) (s : str) :
  s = fst (span p s) ++ snd (span p s)
  /\ forallb p (fst (span p s)) = true
  /\ match snd (span p s) with
     | x :: _ => p x = false
     | [] => True
     end.
Proof.
  induction s as [|c r IH]; [now repeat split|].
  cbn [span]. destruct (p c) eqn:E.
  - destruct (span p r) as [a b]. cbn [fst snd] in *.
    destruct IH as (H1 & H2 & H3). repeat split.
    + cbn [app]. now rewrite <- H1.
    + cbn [forallb]. now rewrite E.
    + exact H3.
  - now repeat split.
Qed.

Lemma span_intro (p : char -> bool) (a b : str) :
  forallb p a = true ->
  match b with
  | x :: _ => p x = false
  | [] => True
  end ->
  span p (a ++ b) = (a, b).
Proof.
  intros Ha Hb. induction a as [|c a IH].
  - cbn [app]. destruct b as [|x b]; [reflexivity|]. cbn [span]. now rewrite Hb.
  - cbn [forallb] in Ha. apply andb_true_iff in Ha as [Hc Ha].
    cbn [app span]. rewrite Hc, (IH Ha). reflexivity.
Qed.

Lemma span_eq (p : char -> bool) (s a b : str) :
  span p s = (a, b) ->
  s = a ++ b /\ forallb p a = true
  /\ match b with
     | x :: _ => p x = false
     | [] => True
     end.
Proof. intro E. pose proof (span_spec p s) as H. now rewrite E in H. Qed.

Lemma isBullet_facts (c : char) :
  Spec.isBullet c = true ->
  isDigit c = false /\ isIndent c = false /\ (c =? ch "[") = false.
Proof.
  unfold Spec.isBullet. intro H.
  apply orb_true_iff in H as [H|H]; [apply orb_true_iff in H as [H|H]|];
    apply N.eqb_eq in H; subst; now repeat split.
Qed.

Lemma isDigit_facts (c : char) :
  isDigit c = true ->
  Spec.isBullet c = false /\ isIndent c = false /\ (c =? ch "[") = false.
Proof.
  intro H. pose proof (isDigit_not_ws c H) as Hws. apply isDigit_range in H.
  unfold Spec.isBullet, isIndent. rewrite Hws.
  change (ch "-") with 45. change (ch "*") with 42. change (ch "+") with 43.
  change (ch ">") with 62. change (ch "[") with 91.
  repeat split; repeat rewrite orb_false_iff; repeat split; apply N.eqb_neq; lia.
Qed.

Lemma listMarker_spec (s1 marker s2 : str) :
  listMarker s1 = Some (marker, s2) <->
  s1 = marker ++ s2 /\ Spec.isListMarker marker = true.
Proof.
  split.
  - destruct s1 as [|c r]; [discriminate|]. unfold listMarker.
    fold (Spec.isBullet c). destruct (Spec.isBullet c) eqn:Eb.
    + intros [= <- <-]. split; [reflexivity|].
      unfold Spec.isListMarker. cbn [span].
      destruct (isBullet_facts c Eb) as (-> & _). exact Eb.
    + destruct (span isDigit (c :: r)) as [ds tl] eqn:Es.
      destruct ds as [|d0 ds]; [discriminate|]. destruct tl as [|d r']; [discriminate|].
      destruct ((d =? ch ".") || (d =? ch ")")) eqn:Ed; [|discriminate].
      intros [= <- <-]. apply span_eq in Es as (Hs & Hds & Hd).
      split; [rewrite Hs; cbn [app]; rewrite <- app_assoc; reflexivity|].
      unfold Spec.isListMarker.
      pose proof (span_intro isDigit (d0 :: ds) [d] Hds Hd) as Hx.
      cbn [app] in Hx. cbn [app]. rewrite Hx. exact Ed.
  - intros [-> Hm]. unfold Spec.isListMarker in Hm.
    destruct (span isDigit marker) as [ds tl] eqn:Es.
    apply span_eq in Es as (Hs & Hds & Hd).
    destruct ds as [|d0 ds].
    + destruct tl as [|c [|? ?]]; try discriminate. subst marker.
      cbn [app]. unfold listMarker. fold (Spec.isBullet c). now rewrite Hm.
    + destruct tl as [|d [|? ?]]; try discriminate. subst marker.
      cbn [forallb] in Hds. apply andb_true_iff in Hds as [Hd0 Hds].
      destruct (isDigit_facts d0 Hd0) as (Hb & _).
      cbn [app]. unfold listMarker. fold (Spec.isBullet d0). rewrite Hb.
      replace (d0 :: (ds ++ [d]) ++ s2) with ((d0 :: ds) ++ d :: s2)
        by (cbn [app]; now rewrite <- app_assoc).
      rewrite (span_intro isDigit (d0 :: ds) (d :: s2));
        [|cbn [forallb]; now rewrite Hd0|exact Hd].
      rewrite Hm. reflexivity.
Qed.

Lemma isListMarker_facts (marker : str) :
  Spec.isListMarker marker = true ->
  (exists c r, marker = c :: r /\ isIndent c = false)
  /\ forallb (fun c => negb (c =? ch "[")) marker = true.
Proof.
  unfold Spec.isListMarker. intro Hm.
  destruct (span isDigit marker) as [ds tl] eqn:Es.
  apply span_eq in Es as (Hs & Hds & Hd).
  destruct ds as [|d0 ds].
  - destruct tl as [|c [|? ?]]; try discriminate. subst marker. cbn [app].
    destruct (isBullet_facts c Hm) as (_ & Hi & Hb). split; [now exists c, []|].
    cbn [forallb]. now rewrite Hb.
  - destruct tl as [|d [|? ?]]; try discriminate. subst marker.
    cbn [forallb] in Hds. apply andb_true_iff in Hds as [Hd0 Hds].
    destruct (isDigit_facts d0 Hd0) as (_ & Hi & Hb0).
    split; [now exists d0, (ds ++ [d])|].
    rewrite forallb_app. cbn [forallb]. rewrite Hb0. cbn [negb andb].
    apply andb_true_intro. split.
    + apply forallb_forall. intros x Hx. rewrite forallb_forall in Hds.
      now destruct (isDigit_facts x (Hds x Hx)) as (_ & _ & ->).
    + apply orb_true_iff in Hm as [H|H]; apply N.eqb_eq in H; now subst.
Qed.

Lemma taskRegex_intro (indent marker spaces : str) (c : char) (text : str) :
  forallb isIndent indent = true ->
  Spec.isListMarker marker = true ->
  spaces <> [] -> forallb isSpace spaces = true ->
  isLineTerminator c = false ->
  taskRegex (indent ++ marker ++ spaces ++ [ch "["; c; ch "]"] ++ text)
  = Some (indent, marker, [c],
          takeWhile (fun x => negb (isLineTerminator x)) (dropWhile isSpace text)).
Proof.
  intros Hindent Hmarker Hne Hspaces Hc.
  destruct (isListMarker_facts marker Hmarker) as ((m0 & mr & Hm & Hm0) & _).
  unfold taskRegex.
  rewrite (span_intro isIndent indent); [|exact Hindent|rewrite Hm; exact Hm0].
  rewrite (proj2 (listMarker_spec _ marker _) (conj eq_refl Hmarker)).
  rewrite (span_intro isSpace spaces); [|exact Hspaces|reflexivity].
  destruct spaces as [|s0 spaces]; [congruence|].
  cbn [app]. rewrite !N.eqb_refl, Hc. reflexivity.
Qed.

Lemma taskRegex_elim (line indent marker statusChar rest : str) :
  taskRegex line = Some (indent, marker, statusChar, rest) ->
  exists spaces c text,
    statusChar = [c]
    /\ line = indent ++ marker ++ spaces ++ [ch "["; c; ch "]"] ++ text
    /\ rest = takeWhile (fun x => negb (isLineTerminator x)) (dropWhile isSpace text)
    /\ forallb isIndent indent = true
    /\ Spec.isListMarker marker = true
    /\ spaces <> [] /\ forallb isSpace spaces = true
    /\ isLineTerminator c = false.
Proof.
  unfold taskRegex.
  destruct (span isIndent line) as [ind s1] eqn:E1.
  destruct (listMarker s1) as [[m s2]|] eqn:E2; [|discriminate].
  destruct (span isSpace s2) as [sp tl] eqn:E3.
  destruct sp as [|s0 sp]; [discriminate|].
  destruct tl as [|o [|c [|e s3]]]; try discriminate.
  destruct ((o =? ch "[") && negb (isLineTerminator c) && (e =? ch "]")) eqn:Ec;
    [|discriminate].
  intros [= <- <- <- <-].
  apply andb_true_iff in Ec as [Ec He]. apply andb_true_iff in Ec as [Ho Hc].
  apply N.eqb_eq in Ho, He. subst o e. apply negb_true_iff in Hc.
  apply span_eq in E1 as (H1 & Hind & _).
  apply listMarker_spec in E2 as (H2 & Hm).
  apply span_eq in E3 as (H3 & Hsp & _).
  exists (s0 :: sp), c, s3. repeat split; try assumption; [|discriminate].
  rewrite H1, H2, H3. reflexivity.
Qed.

Lemma break_not_space (x : char) : isLineTerminator x = true -> isSpace x = false.
Proof.
  unfold isLineTerminator, isSpace. intro H.
  repeat (apply orb_true_iff in H as [H|H]); apply N.eqb_eq in H; now subst.
Qed.

Lemma parseTaskLine_taskRegex line path n task :
  parseTaskLine line path n = Some task ->
  exists indent marker rest,
    taskRegex line = Some (indent, marker, statusSymbol task, rest)
    /\ description task = trim rest
    /\ status task = statusOfChar (statusSymbol task).
Proof.
  unfold parseTaskLine.
  destruct (taskRegex line) as [[[[indent marker] statusChar] rest]|]; [|discriminate].
  intros [= <-]. now exists indent, marker, rest.
Qed.

(** X11.  Every line [parseTaskLine] accepts has the shape of [taskRegex]:
    indentation of white space and [>], a list marker (a bullet [-], [*] or
    [+], or digits and then [.] or a parenthesis), one or more spaces, the
    status character between brackets, any spaces and the text up to the
    first line break.  The status symbol of the task is that character and
    its description is the text, trimmed. *)
Theorem parsed_line_has_task_shape : forall line path n task,
  parseTaskLine line path n = Some task ->
  exists indent marker spaces c gap text tail,
    line = Spec.taskLine indent marker spaces c gap text tail
    /\ Spec.wellShaped indent marker spaces c gap text tail = true
    /\ statusSymbol task = [c]
    /\ description task = trim text.
Proof.
  intros line path n task Hparse.
  destruct (parseTaskLine_taskRegex _ _ _ _ Hparse) as (indent & marker & rest & Hre & Hdesc & _).
  destruct (taskRegex_elim _ _ _ _ _ Hre)
    as (spaces & c & text & Hc & Hline & Hrest & Hindent & Hmarker & Hne & Hspaces & Hbreak).
  destruct (span_spec isSpace text) as (Hg1 & Hg2 & Hg3).
  destruct (span_spec (fun x => negb (isLineTerminator x)) (snd (span isSpace text)))
    as (Ht1 & Ht2 & Ht3).
  fold (dropWhile isSpace text) in *. fold (takeWhile isSpace text) in *.
  fold (takeWhile (fun x => negb (isLineTerminator x)) (dropWhile isSpace text)) in *.
  fold (dropWhile (fun x => negb (isLineTerminator x)) (dropWhile isSpace text)) in *.
  rewrite <- Hrest in *.
  set (tail := dropWhile (fun x => negb (isLineTerminator x)) (dropWhile isSpace text)) in *.
  exists indent, marker, spaces, c, (takeWhile isSpace text), rest, tail.
  repeat split.
  - unfold Spec.taskLine. rewrite Hline. do 4 f_equal. rewrite <- Ht1. exact Hg1.
  - unfold Spec.wellShaped, Spec.noBreak.
    rewrite Hindent, Hmarker, Hspaces, Hbreak, Hg2, Ht2.
    destruct spaces as [|s0 spaces]; [congruence|]. cbn [length Nat.eqb negb andb].
    assert (H1 : match rest with x :: _ => negb (isSpace x) | [] => true end = true).
    { destruct rest as [|x rest']; [reflexivity|].
      rewrite Ht1 in Hg3. cbn [app] in Hg3. now rewrite Hg3. }
    assert (H2 : match tail with x :: _ => isLineTerminator x | [] => true end = true).
    { destruct tail as [|x tail']; [reflexivity|]. now apply negb_false_iff in Ht3. }
    now rewrite H1, H2.
  - exact Hc.
  - exact Hdesc.
Qed.

Lemma parsed_line_has_task_shape_witness :
  exists task,
    parseTaskLine (lit "  > 12) [/]  Call Ann " ++ [0x0D]) (lit "notes.md") 4 = Some task
    /\ exists indent marker spaces c gap text tail,
         lit "  > 12) [/]  Call Ann " ++ [0x0D]
         = Spec.taskLine indent marker spaces c gap text tail
         /\ Spec.wellShaped indent marker spaces c gap text tail = true
         /\ statusSymbol task = [c]
         /\ description task = trim text.
Proof.
  eexists. split; [reflexivity|].
  apply (parsed_line_has_task_shape (lit "  > 12) [/]  Call Ann " ++ [0x0D])
           (lit "notes.md") 4).
  reflexivity.
Defined.

(** X12.  Every line of that shape is accepted: [parseTaskLine] returns a
    task whose status symbol is the character in the box, whose status is the
    one the character stands for and whose description is the text,
    trimmed; the indentation and the marker of the line are the ones
    [update_task] will keep. *)
Theorem shaped_line_is_parsed : forall indent marker spaces c gap text tail path n,
  Spec.wellShaped indent marker spaces c gap text tail = true ->
  exists task,
    parseTaskLine (Spec.taskLine indent marker spaces c gap text tail) path n = Some task
    /\ statusSymbol task = [c]
    /\ status task = statusOfChar [c]
    /\ description task = trim text
    /\ indentRegex (Spec.taskLine indent marker spaces c gap text tail)
       = Some (indent, marker).
Proof.
  intros indent marker spaces c gap text tail path n Hshape.
  unfold Spec.wellShaped in Hshape.
  apply andb_true_iff in Hshape as [Hshape Htail].
  apply andb_true_iff in Hshape as [Hshape Hhead].
  apply andb_true_iff in Hshape as [Hshape Htext].
  apply andb_true_iff in Hshape as [Hshape Hgap].
  apply andb_true_iff in Hshape as [Hshape Hc].
  apply andb_true_iff in Hshape as [Hshape Hspaces].
  apply andb_true_iff in Hshape as [Hshape Hne].
  apply andb_true_iff in Hshape as [Hindent Hmarker].
  apply negb_true_iff in Hc.
  assert (Hne' : spaces <> []) by (destruct spaces; [discriminate|discriminate]).
  assert (Htail' : match tail with
                   | x :: _ => negb (isLineTerminator x) = false
                   | [] => True
                   end)
    by (destruct tail; [exact I|now rewrite Htail]).
  assert (Hdrop : dropWhile isSpace (gap ++ text ++ tail) = text ++ tail).
  { unfold dropWhile. rewrite (span_intro isSpace gap); [reflexivity|exact Hgap|].
    destruct text as [|x text'].
    - destruct tail as [|x tail']; [exact I|]. now apply break_not_space.
    - now apply negb_true_iff in Hhead. }
  assert (Htake : takeWhile (fun x => negb (isLineTerminator x)) (text ++ tail) = text).
  { unfold takeWhile. now rewrite (span_intro _ text tail Htext Htail'). }
  destruct (isListMarker_facts marker Hmarker) as ((m0 & mr & Hm & Hm0) & _).
  unfold parseTaskLine, Spec.taskLine.
  rewrite taskRegex_intro by assumption. rewrite Hdrop, Htake.
  eexists. split; [reflexivity|]. repeat split.
  unfold indentRegex.
  rewrite (span_intro isIndent indent); [|exact Hindent|rewrite Hm; exact Hm0].
  now rewrite (proj2 (listMarker_spec _ marker _) (conj eq_refl Hmarker)).
Qed.

Lemma shaped_line_is_parsed_witness :
  Spec.wellShaped (lit "  ") (lit "*") (lit " ") (ch "x") (lit " ") (lit "Buy milk") [] = true
  /\ exists task,
       parseTaskLine
         (Spec.taskLine (lit "  ") (lit "*") (lit " ") (ch "x") (lit " ") (lit "Buy milk") [])
         (lit "notes.md") 7 = Some task
       /\ statusSymbol task = [ch "x"]
       /\ status task = statusOfChar [ch "x"]
       /\ description task = trim (lit "Buy milk")
       /\ indentRegex
            (Spec.taskLine (lit "  ") (lit "*") (lit " ") (ch "x") (lit " ")
               (lit "Buy milk") [])
          = Some (lit "  ", lit "*").
Proof.
  split; [reflexivity|].
  apply shaped_line_is_parsed. reflexivity.
Defined.

(** ** Updating and toggling a task line *)

Lemma indentRegex_taskRegex (line indent marker statusChar rest : str) :
  taskRegex line = Some (indent, marker, statusChar, rest) ->
  indentRegex line = Some (indent, marker).
Proof.
  unfold taskRegex, indentRegex.
  destruct (span isIndent line) as [ind s1].
  destruct (listMarker s1) as [[m s2]|]; [|discriminate].
  destruct (span isSpace s2) as [[|? ?] [|o [|c [|e s3]]]]; try discriminate.
  destruct ((o =? ch "[") && negb (isLineTerminator c) && (e =? ch "]")); [|discriminate].
  now intros [= <- <- _ _].
Qed.

Lemma statusMap_named (name : str) :
  match Spec.statusNamed name with
  | Some st => exists c, statusMap name = Some [c] /\ isLineTerminator c = false
                         /\ statusOfChar [c] = st
  | None => statusMap name = None
  end.
Proof.
  unfold Spec.statusNamed, statusMap.
  destruct (eqb_str name (lit "incomplete")); [now exists (ch " ")|].
  destruct (eqb_str name (lit "complete")); [now exists (ch "x")|].
  destruct (eqb_str name (lit "cancelled")); [now exists (ch "-")|].
  destruct (eqb_str name (lit "in_progress")); [now exists (ch "/")|].
  reflexivity.
Qed.

Lemma updated_line_facts : forall line path n task fields,
  parseTaskLine line path n = Some task ->
  exists task',
    parseTaskLine (rebuildTaskLine fields line task) path n = Some task'
    /\ status task' = Spec.statusAsked fields (status task)
    /\ indentRegex (rebuildTaskLine fields line task) = indentRegex line.
Proof.
  intros line path n task fields Hparse.
  destruct (parseTaskLine_taskRegex _ _ _ _ Hparse)
    as (indent & marker & rest & Hre & _ & Hstatus).
  destruct (taskRegex_elim _ _ _ _ _ Hre)
    as (spaces & c & text & Hc & _ & _ & Hindent & Hmarker & _ & _ & Hbreak).
  assert (Hbox : exists c',
            match upd_status fields with
            | Some s => match truthy (statusMap s) with
                        | Some x => x
                        | None => statusSymbol task
                        end
            | None => statusSymbol task
            end = [c']
            /\ isLineTerminator c' = false
            /\ statusOfChar [c'] = Spec.statusAsked fields (status task)).
  { unfold Spec.statusAsked.
    destruct (upd_status fields) as [name|];
      [|exists c; rewrite Hstatus, Hc; now repeat split].
    pose proof (statusMap_named name) as Hname.
    destruct (Spec.statusNamed name) as [st|].
    - destruct Hname as (c' & -> & Hc' & Hst). now exists c'.
    - rewrite Hname. exists c. rewrite Hstatus, Hc. now repeat split. }
  destruct Hbox as (c' & Hbox & Hc' & Hst).
  unfold rebuildTaskLine. rewrite Hbox, (indentRegex_taskRegex _ _ _ _ _ Hre).
  cbv beta iota. rewrite appendFields_pieces.
  match goal with
  | |- context [(indent ++ marker ++ lit " [" ++ [c'] ++ lit "] " ++ ?d) ++ ?pieces] =>
      replace ((indent ++ marker ++ lit " [" ++ [c'] ++ lit "] " ++ d) ++ pieces)
        with (indent ++ marker ++ lit " " ++ [ch "["; c'; ch "]"] ++ lit " " ++ d ++ pieces)
        by (rewrite <- !app_assoc; reflexivity)
  end.
  assert (Hblank : lit " " <> []) by discriminate.
  unfold parseTaskLine. rewrite taskRegex_intro by (assumption || reflexivity).
  eexists. split; [reflexivity|]. split; [exact Hst|].
  unfold indentRegex.
  destruct (isListMarker_facts marker Hmarker) as ((m0 & mr & Hm & Hm0) & _).
  rewrite (span_intro isIndent indent); [|exact Hindent|rewrite Hm; exact Hm0].
  now rewrite (proj2 (listMarker_spec _ marker _) (conj eq_refl Hmarker)).
Qed.

(** X13.  [update_task] turns a task line into a task line: whatever
    description, dates, recurrence and tags are passed, with a status that is
    absent or one of [incomplete], [complete], [cancelled] and [in_progress]
    and a priority that is absent, empty, [none] or one of the five names,
    the line it writes is accepted by [parseTaskLine] again, with the
    indentation and the list marker of the line it replaces; its status is
    the one named by [status], and the status of the task when none is
    passed. *)
Theorem updated_line_is_a_task : forall line path n task fields,
  Spec.knownStatus fields = true ->
  Spec.knownPriority (upd_priority fields) = true ->
  parseTaskLine line path n = Some task ->
  exists task',
    parseTaskLine (rebuildTaskLine fields line task) path n = Some task'
    /\ status task' = Spec.statusAsked fields (status task)
    /\ indentRegex (rebuildTaskLine fields line task) = indentRegex line.
Proof. intros line path n task fields _ _. apply updated_line_facts. Qed.

Lemma updated_line_is_a_task_witness :
  let line := lit "   3. [ ] Call Ann #phone" in
  let fields :=
    mkUpdateArgs (Some (lit "Call Bob")) None None None None None None
      (Some (lit "cancelled")) in
  exists task,
    (Spec.knownStatus fields = true
     /\ Spec.knownPriority (upd_priority fields) = true
     /\ parseTaskLine line (lit "notes.md") 2 = Some task)
    /\ exists task',
         parseTaskLine (rebuildTaskLine fields line task) (lit "notes.md") 2 = Some task'
         /\ status task' = Spec.statusAsked fields (status task)
         /\ indentRegex (rebuildTaskLine fields line task) = indentRegex line.
Proof.
  intros line fields. eexists. split.
  - split; [reflexivity|]. split; reflexivity.
  - apply (updated_line_is_a_task line (lit "notes.md") 2); reflexivity.
Defined.

Lemma replaceStatusBox_step (r : str) (x : char) (t : str) :
  (x =? ch "[") = false -> (2 <= length t)%nat ->
  replaceStatusBox r (x :: t) = x :: replaceStatusBox r t.
Proof.
  intros Hx Ht. destruct t as [|y [|z t]]; cbn [length] in Ht; try lia.
  cbn [replaceStatusBox]. now rewrite Hx.
Qed.

Lemma replaceStatusBox_skip (r a : str) (o c e : char) (rest : str) :
  forallb (fun x => negb (x =? ch "[")) a = true ->
  replaceStatusBox r (a ++ o :: c :: e :: rest)
  = a ++ replaceStatusBox r (o :: c :: e :: rest).
Proof.
  induction a as [|x a IH]; intro Ha; [reflexivity|].
  cbn [forallb] in Ha. apply andb_true_iff in Ha as [Hx Ha].
  apply negb_true_iff in Hx. cbn [app].
  rewrite replaceStatusBox_step; [now rewrite (IH Ha)|exact Hx|].
  rewrite length_app. cbn [length]. lia.
Qed.

Lemma isIndent_not_bracket (x : char) : isIndent x = true -> (x =? ch "[") = false.
Proof.
  intro H. destruct (N.eqb_spec x (ch "[")) as [->|]; [discriminate|reflexivity].
Qed.

Lemma forallb_impl {A : Type} (p q : A -> bool) (l : list A) :
  (forall x, p x = true -> q x = true) -> forallb p l = true -> forallb q l = true.
Proof.
  intros Hpq H. rewrite forallb_forall in *. auto.
Qed.

Lemma toggled_line (line path : str) (n : Z) (task : Task) (x : char) :
  parseTaskLine line path n = Some task ->
  Spec.plainStatusSymbol task = true ->
  isLineTerminator x = false ->
  exists task',
    parseTaskLine (replaceStatusBox (lit "[" ++ [x] ++ lit "]") line) path n = Some task'
    /\ status task' = statusOfChar [x]
    /\ description task' = description task
    /\ length (replaceStatusBox (lit "[" ++ [x] ++ lit "]") line) = length line.
Proof.
  intros Hparse Hplain Hx.
  destruct (parseTaskLine_taskRegex _ _ _ _ Hparse)
    as (indent & marker & rest & Hre & Hdesc & _).
  destruct (taskRegex_elim _ _ _ _ _ Hre)
    as (spaces & c & text & Hc & Hline & Hrest & Hindent & Hmarker & Hne & Hspaces & Hbreak).
  unfold Spec.plainStatusSymbol in Hplain. rewrite Hc in Hplain.
  cbn [forallb] in Hplain. rewrite andb_true_r in Hplain.
  destruct (isListMarker_facts marker Hmarker) as (_ & Hmarker').
  assert (Hnew : replaceStatusBox (lit "[" ++ [x] ++ lit "]") line
                 = indent ++ marker ++ spaces ++ [ch "["; x; ch "]"] ++ text).
  { rewrite Hline.
    replace (indent ++ marker ++ spaces ++ [ch "["; c; ch "]"] ++ text)
      with ((indent ++ marker ++ spaces) ++ ch "[" :: c :: ch "]" :: text)
      by (rewrite <- !app_assoc; reflexivity).
    rewrite replaceStatusBox_skip.
    - cbn [replaceStatusBox]. rewrite !N.eqb_refl, Hbreak, Hplain.
      cbn [negb andb]. rewrite <- !app_assoc. reflexivity.
    - rewrite !forallb_app. repeat (apply andb_true_intro; split).
      + eapply forallb_impl; [|exact Hindent]. cbv beta. intros y Hy.
        now rewrite (isIndent_not_bracket y Hy).
      + exact Hmarker'.
      + eapply forallb_impl; [|exact Hspaces]. cbv beta. intros y Hy.
        apply N.eqb_eq in Hy. now subst. }
  rewrite Hnew. unfold parseTaskLine. rewrite taskRegex_intro by assumption.
  rewrite <- Hrest. eexists. split; [reflexivity|]. repeat split.
  - cbn [description]. now rewrite Hdesc.
  - rewrite Hline, !length_app. reflexivity.
Qed.

(** X14.  [toggle_task] with no Tasks plugin at hand, on a task whose status
    character is one UTF-16 code unit: the line it writes is a task again,
    with the same description and the same length, done when the task was
    not complete and not done when it was; the line goes to the place of the
    old one and no other line changes. *)
Theorem toggle_flips_completion : forall v args path n content task,
  resolveAddress args = Done (path, n) ->
  v path = Some content ->
  outOfRange n (Spec.linesOf content) = false ->
  parseTaskLine (lineAt n (Spec.linesOf content)) path n = Some task ->
  Spec.plainStatusSymbol task = true ->
  exists newLine task',
    toggle_task None v args
    = (Done (mkChange path n (lineAt n (Spec.linesOf content)) (Some newLine)),
       modify v path
         (join [Spec.newline] (setLine (Z.to_nat (n - 1)) newLine (Spec.linesOf content))))
    /\ parseTaskLine newLine path n = Some task'
    /\ status task' = Spec.toggled (status task)
    /\ description task' = description task
    /\ length newLine = length (lineAt n (Spec.linesOf content)).
Proof.
  intros v args path n content task Haddr Hfile Hrange Hparse Hplain.
  set (x := if status_eqb (status task) complete then ch " " else ch "x").
  assert (Hx : isLineTerminator x = false) by (subst x; now destruct (status_eqb _ _)).
  destruct (toggled_line _ _ _ _ x Hparse Hplain Hx) as (task' & Hparse' & Hst & Hdesc & Hlen).
  exists (replaceStatusBox (lit "[" ++ [x] ++ lit "]") (lineAt n (Spec.linesOf content))), task'.
  split; [|split; [exact Hparse'|split; [|split; [exact Hdesc|exact Hlen]]]].
  - unfold toggle_task. rewrite Haddr. cbv beta iota. rewrite Hfile. cbv beta iota zeta.
    change (split content [0x0A]) with (Spec.linesOf content).
    rewrite Hrange, Hparse. subst x. now destruct (status_eqb (status task) complete).
  - rewrite Hst. subst x. now destruct (status task).
Qed.

Lemma toggle_flips_completion_witness :
  let content := lit "# Today" ++ [0x0A] ++ lit "- [/] Call Ann" in
  let v := Spec.oneFile (lit "notes.md") content in
  let args := mkAddress None (Some (lit "notes.md")) (Some 2%Z) in
  exists task,
    (resolveAddress args = Done (lit "notes.md", 2%Z)
     /\ v (lit "notes.md") = Some content
     /\ outOfRange 2 (Spec.linesOf content) = false
     /\ parseTaskLine (lineAt 2 (Spec.linesOf content)) (lit "notes.md") 2 = Some task
     /\ Spec.plainStatusSymbol task = true)
    /\ exists newLine task',
         toggle_task None v args
         = (Done (mkChange (lit "notes.md") 2 (lineAt 2 (Spec.linesOf content))
                    (Some newLine)),
            modify v (lit "notes.md")
              (join [Spec.newline]
                 (setLine (Z.to_nat (2 - 1)) newLine (Spec.linesOf content))))
         /\ parseTaskLine newLine (lit "notes.md") 2 = Some task'
         /\ status task' = Spec.toggled (status task)
         /\ description task' = description task
         /\ length newLine = length (lineAt 2 (Spec.linesOf content)).
Proof.
  intros content v args. eexists. split.
  - split; [reflexivity|]. split; [reflexivity|]. split; [reflexivity|].
    split; reflexivity.
  - apply (toggle_flips_completion v args (lit "notes.md") 2 content); reflexivity.
Defined.

(** ** The fields of a parsed task *)

Lemma isoDate_isDate (s d : str) : isoDate s = Some d -> Spec.isDate d = true.
Proof.
  unfold isoDate.
  destruct s as [|y1 [|y2 [|y3 [|y4 [|h1 [|m1 [|m2 [|h2 [|d1 [|d2 tl]]]]]]]]]];
    try discriminate.
  destruct (isDigit y1 && isDigit y2 && isDigit y3 && isDigit y4 && (h1 =? ch "-")
            && isDigit m1 && isDigit m2 && (h2 =? ch "-") && isDigit d1 && isDigit d2)
    eqn:E; [|discriminate].
  intros [= <-]. unfold Spec.isDate, isoDate. cbn [firstn]. rewrite E.
  apply eqb_str_refl.
Qed.

Lemma glyphDate_isDate (glyphs : list char) (text d : str) :
  search (fun s => option_map fst (glyphDate glyphs s)) text = Some d ->
  Spec.isDate d = true.
Proof.
  intro H. apply search_found in H as (before & s' & _ & H).
  unfold glyphDate in H. destruct s' as [|g r]; [discriminate|].
  destruct (existsb (N.eqb g) glyphs); [|discriminate].
  destruct r as [|w r']; [discriminate|].
  destruct (isWs w).
  - destruct (isoDate r') as [d'|] eqn:E; [|discriminate].
    injection H as <-. now apply isoDate_isDate in E.
  - destruct (isoDate (w :: r')) as [d'|] eqn:E; [|discriminate].
    injection H as <-. now apply isoDate_isDate in E.
Qed.

Lemma markDate_isDate (glyph text d : str) :
  search (fun s => option_map fst (markDate glyph s)) text = Some d ->
  Spec.isDate d = true.
Proof.
  intro H. apply search_found in H as (before & s' & _ & H).
  unfold markDate in H. destruct (startsWith s' glyph); [|discriminate].
  destruct (skipn (length glyph) s') as [|w r']; [discriminate|].
  destruct (isWs w).
  - destruct (isoDate r') as [d'|] eqn:E; [|discriminate].
    injection H as <-. now apply isoDate_isDate in E.
  - destruct (isoDate (w :: r')) as [d'|] eqn:E; [|discriminate].
    injection H as <-. now apply isoDate_isDate in E.
Qed.

Lemma takeWhile_forallb (p : char -> bool) (s : str) : forallb p (takeWhile p s) = true.
Proof. apply span_spec. Qed.

Lemma recurrence_noBlank (text r : str) :
  search recurrenceRegex text = Some r -> Spec.noBlank r = true.
Proof.
  intro H. apply search_found in H as (before & s' & _ & H).
  unfold recurrenceRegex in H.
  destruct (startsWith s' Glyph.repeat); [|discriminate].
  injection H as <-. apply takeWhile_forallb.
Qed.

Lemma dropWhile_In (p : char -> bool) (s : str) (x : char) :
  In x (dropWhile p s) -> In x s.
Proof.
  intro H. rewrite <- (span_app p s). apply in_or_app. now right.
Qed.

Lemma trim_In (s : str) (x : char) : In x (trim s) -> In x s.
Proof.
  unfold trim, trimEnd, trimStart. intro H.
  apply in_rev in H. apply dropWhile_In in H. apply in_rev in H.
  now apply dropWhile_In in H.
Qed.

Lemma trim_forallb (q : char -> bool) (s : str) :
  forallb q s = true -> forallb q (trim s) = true.
Proof.
  rewrite !forallb_forall. intros H x Hx. apply H. now apply trim_In.
Qed.

Lemma dropWhile_head (p : char -> bool) (s : str) :
  match dropWhile p s with
  | x :: _ => p x = false
  | [] => True
  end.
Proof. apply span_spec. Qed.

Lemma trim_ends (s : str) :
  trim s = [] \/ (Spec.startsPlain (trim s) = true /\ Spec.startsPlain (rev (trim s)) = true).
Proof.
  unfold trim, trimEnd, trimStart.
  set (t := dropWhile isWs s).
  pose proof (dropWhile_head isWs s) as Ht. fold t in Ht.
  pose proof (dropWhile_head isWs (rev t)) as Hu.
  pose proof (span_app isWs (rev t)) as Happ.
  fold (dropWhile isWs (rev t)) in Happ. fold (takeWhile isWs (rev t)) in Happ.
  set (u := dropWhile isWs (rev t)) in *.
  destruct u as [|x u'] eqn:Eu; [now left|]. right.
  rewrite rev_involutive. split.
  - apply (f_equal (@rev char)) in Happ. rewrite rev_app_distr, rev_involutive in Happ.
    destruct (rev (x :: u')) as [|y ru] eqn:Er.
    + apply (f_equal (@length char)) in Er. rewrite length_rev in Er. discriminate.
    + rewrite <- Happ in Ht. cbn [app] in Ht. cbn [Spec.startsPlain]. now rewrite Ht.
  - cbn [Spec.startsPlain]. now rewrite Hu.
Qed.

Lemma trim_trim (s : str) : trim (trim s) = trim s.
Proof.
  destruct (trim_ends s) as [->|[H1 H2]]; [reflexivity|]. now apply trim_plain.
Qed.

Lemma trim_hash_body (body : str) :
  exists body', trim (ch "#" :: body) = ch "#" :: body'
                /\ forall x, In x body' -> In x body.
Proof.
  unfold trim, trimStart, trimEnd.
  assert (Hs : dropWhile isWs (ch "#" :: body) = ch "#" :: body) by reflexivity.
  rewrite Hs. cbn [rev].
  pose proof (span_spec isWs (rev body)) as (Happ & Hall & Hhead).
  fold (dropWhile isWs (rev body)) in *. fold (takeWhile isWs (rev body)) in *.
  assert (Hd : dropWhile isWs (rev body ++ [ch "#"])
               = dropWhile isWs (rev body) ++ [ch "#"]).
  { rewrite Happ at 1. rewrite <- app_assoc.
    rewrite dropWhile_all_app by exact Hall.
    destruct (dropWhile isWs (rev body)) as [|y tl]; [reflexivity|].
    unfold dropWhile. cbn [app span]. now rewrite Hhead. }
  rewrite Hd, rev_app_distr. cbn [rev app].
  eexists. split; [reflexivity|].
  intros x Hx. apply in_rev in Hx. apply dropWhile_In in Hx. now apply in_rev in Hx.
Qed.

Lemma matchAll_go_In (m : matcher) (s : str) : forall start skip x,
  In x (matchAll_go m start skip s) ->
  exists b s' len, m b s' = Some len /\ x = firstn len s'.
Proof.
  induction s as [|c r IH]; intros start skip x Hin; [destruct Hin|].
  cbn [matchAll_go] in Hin. destruct skip as [|k]; [|now apply IH in Hin].
  destruct (m start (c :: r)) as [len|] eqn:E; [|now apply IH in Hin].
  destruct Hin as [<-|Hin]; [now exists start, (c :: r), len|now apply IH in Hin].
Qed.

Lemma firstn_length_app {A : Type} (a b : list A) : firstn (length a) (a ++ b) = a.
Proof. induction a; cbn; [reflexivity|now f_equal]. Qed.

Lemma tagBody_match (s : str) (n : nat) :
  tagBody tagStop s = Some n ->
  exists body, firstn n s = ch "#" :: body
               /\ forallb (fun x => negb (tagStop x)) body = true.
Proof.
  unfold tagBody. destruct s as [|c r]; [discriminate|].
  destruct (N.eqb_spec c (ch "#")) as [->|]; [|discriminate].
  destruct (span_spec (fun x => negb (tagStop x)) r) as (Happ & Hall & _).
  fold (takeWhile (fun x => negb (tagStop x)) r) in *.
  destruct (length (takeWhile (fun x => negb (tagStop x)) r)) as [|k] eqn:El; [discriminate|].
  intros [= <-]. exists (takeWhile (fun x => negb (tagStop x)) r).
  split; [|exact Hall].
  change (firstn (S (S k)) (ch "#" :: r)) with (ch "#" :: firstn (S k) r).
  f_equal. rewrite <- El.
  rewrite Happ at 2. apply firstn_length_app.
Qed.

Lemma parsed_tag (text tag : str) :
  In tag (filter (fun tag => negb (length tag =? 0)%nat)
            (map trim (matchAll hashTagsRegex text))) ->
  Spec.isTag tag = true.
Proof.
  intro Hin. apply filter_In in Hin as [Hin _].
  apply in_map_iff in Hin as (m & <- & Hin).
  apply matchAll_go_In in Hin as (b & s' & len & Hm & ->).
  assert (Hcase : (exists n, tagBody tagStop s' = Some n /\ len = n)
                  \/ (exists w r n, s' = w :: r /\ isWs w = true
                                    /\ tagBody tagStop r = Some n /\ len = S n)).
  { unfold hashTagsRegex, tagAt in Hm.
    destruct (if b then tagBody tagStop s' else None) as [n|] eqn:E.
    - left. exists n. destruct b; [|discriminate]. injection Hm as <-. now split.
    - right. destruct s' as [|w r]; [discriminate|].
      destruct (isWs w) eqn:Ew; [|discriminate].
      destruct (tagBody tagStop r) as [n|] eqn:En; [|discriminate].
      injection Hm as <-. now exists w, r, n. }
  assert (Hgoal : forall body, forallb (fun x => negb (tagStop x)) body = true ->
            Spec.isTag (trim (ch "#" :: body)) = true).
  { intros body Hbody. destruct (trim_hash_body body) as (body' & -> & Hsub).
    unfold Spec.isTag. rewrite N.eqb_refl. cbn [andb].
    rewrite forallb_forall in *. auto. }
  destruct Hcase as [(n & Hn & ->)|(w & r & n & -> & Hw & Hn & ->)].
  - apply tagBody_match in Hn as (body & -> & Hbody). now apply Hgoal.
  - apply tagBody_match in Hn as (body & Hf & Hbody). cbn [firstn]. rewrite Hf.
    replace (trim (w :: ch "#" :: body)) with (trim (ch "#" :: body)); [now apply Hgoal|].
    unfold trim, trimStart, dropWhile. cbn [span]. now rewrite Hw.
Qed.

(** X15.  The fields [parseTaskLine] fills are well formed, whatever the
    line: every date it returns is four, two and two digits joined by
    hyphens; a recurrence holds no white space; every tag starts with [#] and
    goes on with characters outside the stop list of [hashTagsRegex], the
    space among them; and the description is trimmed and holds no line
    break. *)
Theorem parsed_fields_are_well_formed : forall line path n task,
  parseTaskLine line path n = Some task ->
  Spec.whenSome Spec.isDate (dueDate task) = true
  /\ Spec.whenSome Spec.isDate (scheduledDate task) = true
  /\ Spec.whenSome Spec.isDate (startDate task) = true
  /\ Spec.whenSome Spec.isDate (createdDate task) = true
  /\ Spec.whenSome Spec.noBlank (recurrence task) = true
  /\ forallb Spec.isTag (tags task) = true
  /\ trim (description task) = description task
  /\ Spec.noBreak (description task) = true.
Proof.
  intros line path n task Hparse.
  destruct (parseTaskLine_Some _ _ _ _ Hparse)
    as (indent & marker & statusChar & rest & Hre & Hdesc & _ & _ & Htags & Hdue
        & Hsched & Hstart & Hcreated & Hrec & _).
  assert (Hdate : forall glyphs,
            Spec.whenSome Spec.isDate
              (search (fun s => option_map fst (glyphDate glyphs s)) (description task))
            = true).
  { intro glyphs.
    destruct (search (fun s => option_map fst (glyphDate glyphs s)) (description task))
      as [d|] eqn:E; [|reflexivity].
    cbn [Spec.whenSome]. now apply glyphDate_isDate in E. }
  assert (Hmark : forall glyph,
            Spec.whenSome Spec.isDate
              (search (fun s => option_map fst (markDate glyph s)) (description task))
            = true).
  { intro glyph.
    destruct (search (fun s => option_map fst (markDate glyph s)) (description task))
      as [d|] eqn:E; [|reflexivity].
    cbn [Spec.whenSome]. now apply markDate_isDate in E. }
  rewrite Hdue, Hsched, Hstart, Hcreated, Hrec, Htags.
  repeat split; try apply Hdate; try apply Hmark.
  - destruct (search recurrenceRegex (description task)) as [r|] eqn:E; [|reflexivity].
    cbn [Spec.whenSome]. now apply recurrence_noBlank in E.
  - apply forallb_forall. intros tag Hin. now apply parsed_tag in Hin.
  - rewrite Hdesc. apply trim_trim.
  - rewrite Hdesc. apply trim_forallb.
    destruct (taskRegex_elim _ _ _ _ _ Hre) as (_ & _ & text & _ & _ & -> & _).
    apply takeWhile_forallb.
Qed.

Lemma parsed_fields_are_well_formed_witness :
  exists task,
    parseTaskLine
      (lit "- [ ] Pay rent  " ++ Glyph.repeat ++ lit " monthly "
       ++ Glyph.calendar ++ lit "2025-05-01x #home/bills, #a")
      (lit "notes.md") 1 = Some task
    /\ Spec.whenSome Spec.isDate (dueDate task) = true
    /\ Spec.whenSome Spec.isDate (scheduledDate task) = true
    /\ Spec.whenSome Spec.isDate (startDate task) = true
    /\ Spec.whenSome Spec.isDate (createdDate task) = true
    /\ Spec.whenSome Spec.noBlank (recurrence task) = true
    /\ forallb Spec.isTag (tags task) = true
    /\ trim (description task) = description task
    /\ Spec.noBreak (description task) = true.
Proof.
  eexists. split; [reflexivity|].
  apply (parsed_fields_are_well_formed
           (lit "- [ ] Pay rent  " ++ Glyph.repeat ++ lit " monthly "
            ++ Glyph.calendar ++ lit "2025-05-01x #home/bills, #a")
           (lit "notes.md") 1).
  reflexivity.
Defined.

(** ** Queries *)

Lemma queryFilters_app (q1 q2 : str) :
  queryFilters (q1 ++ [Spec.newline] ++ q2) = queryFilters q1 ++ queryFilters q2.
Proof.
  unfold queryFilters. cbn [app].
  change [0x0A] with [Spec.newline].
  now rewrite split_app_sep, map_app, filter_app.
Qed.

Lemma passesAll_app lowerExt today task (f1 f2 : list str) :
  passesAll lowerExt today task (f1 ++ f2)
  = passesAll lowerExt today task f1 && passesAll lowerExt today task f2.
Proof. rewrite !passesAll_forallb. apply forallb_app. Qed.

Lemma filter_filter {A : Type} (p q : A -> bool) (l : list A) :
  filter q (filter p l) = filter (fun x => p x && q x) l.
Proof.
  induction l as [|x l IH]; [reflexivity|]. cbn [filter].
  destruct (p x); cbn [filter andb]; [destruct (q x)|]; now rewrite IH.
Qed.

Lemma filter_agree {A : Type} (p q : A -> bool) (l : list A) :
  (forall x, p x = q x) -> filter p l = filter q l.
Proof. intro H. induction l as [|x l IH]; [reflexivity|]. cbn [filter]. now rewrite H, IH. Qed.

(** X16.  Queries compose: the tasks a query keeps from the result of
    another query are the tasks that the two texts, joined by a line feed,
    keep from the start; so the order of the two texts does not matter, and
    asking the same query of its own result changes nothing. *)
Theorem queryTasks_composes : forall lowerExt today tasks q1 q2,
  queryTasks lowerExt today (queryTasks lowerExt today tasks q1) q2
  = queryTasks lowerExt today tasks (q1 ++ [Spec.newline] ++ q2)
  /\ queryTasks lowerExt today tasks (q1 ++ [Spec.newline] ++ q2)
     = queryTasks lowerExt today tasks (q2 ++ [Spec.newline] ++ q1)
  /\ queryTasks lowerExt today (queryTasks lowerExt today tasks q1) q1
     = queryTasks lowerExt today tasks q1.
Proof.
  intros lowerExt today tasks q1 q2.
  assert (Hcomp : forall a b,
            queryTasks lowerExt today (queryTasks lowerExt today tasks a) b
            = filter (fun task => passesAll lowerExt today task (queryFilters a)
                                  && passesAll lowerExt today task (queryFilters b)) tasks)
    by (intros a b; unfold queryTasks; apply filter_filter).
  assert (Hjoin : forall a b,
            queryTasks lowerExt today tasks (a ++ [Spec.newline] ++ b)
            = filter (fun task => passesAll lowerExt today task (queryFilters a)
                                  && passesAll lowerExt today task (queryFilters b)) tasks).
  { intros a b. unfold queryTasks. rewrite queryFilters_app.
    apply filter_agree. intro task. apply passesAll_app. }
  split; [now rewrite Hcomp, Hjoin|]. split.
  - rewrite !Hjoin. apply filter_agree. intro task. apply andb_comm.
  - rewrite Hcomp. unfold queryTasks. apply filter_agree. intro task.
    now destruct (passesAll lowerExt today task (queryFilters q1)).
Qed.

(** ** Tasks by date *)

Lemma isDate_digits (d : str) :
  Spec.isDate d = true ->
  exists y1 y2 y3 y4 m1 m2 d1 d2,
    d = [y1; y2; y3; y4; ch "-"; m1; m2; ch "-"; d1; d2]
    /\ isDigit y1 = true /\ isDigit y2 = true /\ isDigit y3 = true /\ isDigit y4 = true
    /\ isDigit m1 = true /\ isDigit m2 = true /\ isDigit d1 = true /\ isDigit d2 = true.
Proof.
  intro H. pose proof (isDate_iso d H) as Hiso.
  destruct (isoDate_whole d Hiso) as (Hlen & _ & _).
  destruct d as [|y1 [|y2 [|y3 [|y4 [|h1 [|m1 [|m2 [|h2 [|d1 [|d2 [|x tl]]]]]]]]]]];
    try discriminate.
  unfold isoDate in Hiso.
  destruct (isDigit y1 && isDigit y2 && isDigit y3 && isDigit y4 && (h1 =? ch "-")
            && isDigit m1 && isDigit m2 && (h2 =? ch "-") && isDigit d1 && isDigit d2)
    eqn:E; [|discriminate].
  apply andb_true_iff in E as [E Hd2]. apply andb_true_iff in E as [E Hd1].
  apply andb_true_iff in E as [E Hh2]. apply andb_true_iff in E as [E Hm2].
  apply andb_true_iff in E as [E Hm1]. apply andb_true_iff in E as [E Hh1].
  apply andb_true_iff in E as [E Hy4]. apply andb_true_iff in E as [E Hy3].
  apply andb_true_iff in E as [Hy1 Hy2].
  apply N.eqb_eq in Hh1, Hh2. subst h1 h2.
  exists y1, y2, y3, y4, m1, m2, d1, d2. now repeat split.
Qed.

Lemma digit_neq (y k : char) :
  isDigit y = true -> (k <? 0x30) || (0x39 <? k) = true -> (y =? k) = false.
Proof.
  intros Hy Hk. apply isDigit_range in Hy. apply N.eqb_neq.
  apply orb_true_iff in Hk as [Hk|Hk]; apply N.ltb_lt in Hk; lia.
Qed.

Lemma digit_lower lowerExt (y : char) : isDigit y = true -> lowerChar lowerExt y = y.
Proof.
  intro Hy. apply isDigit_range in Hy. unfold lowerChar.
  destruct (N.leb_spec 0x41 y); [lia|]. cbn [andb].
  destruct (N.ltb_spec y 0x80); [reflexivity|lia].
Qed.

(** Evaluates a goal on a text with digits that are only known as such. *)
Ltac digits :=
  repeat (cbn;
          repeat match goal with
                 | H : isDigit ?y = true |- context [isWs ?y] =>
                     rewrite (isDigit_not_ws y H)
                 | H : isDigit ?y = true |- context [isDigit ?y] => rewrite H
                 | H : isDigit ?y = true |- context [lowerChar ?l ?y] =>
                     rewrite (digit_lower l y H)
                 | H : isDigit ?y = true |- context [?y =? ?k] =>
                     rewrite (digit_neq y k H eq_refl)
                 end).

Section ByDate.

Variable lowerExt : char -> char.
Variable today : str.
Variable task : Task.
Variable date : str.
Hypothesis Hdate : Spec.isDate date = true.

Lemma applyFilter_due_on :
  applyFilter lowerExt today task (lit "due " ++ date) = dateIs (dueDate task) date.
Proof.
  destruct (isDate_digits date Hdate)
    as (y1 & y2 & y3 & y4 & m1 & m2 & d1 & d2 & -> & H1 & H2 & H3 & H4 & H5 & H6 & H7 & H8).
  set (f := lit "due " ++ [y1; y2; y3; y4; ch "-"; m1; m2; ch "-"; d1; d2]).
  assert (Hn : normalized lowerExt f = f)
    by (subst f; unfold normalized, toLowerCase, trim, trimStart, trimEnd, dropWhile;
        digits; reflexivity).
  assert (Hand : includes f (lit " and ") = false) by (subst f; digits; reflexivity).
  assert (Hor : includes f (lit " or ") = false) by (subst f; digits; reflexivity).
  assert (Hnot : startsWith f (lit "not ") = false) by reflexivity.
  assert (Hleaf : leafFilter lowerExt today task f
                  = dateIs (dueDate task) [y1; y2; y3; y4; ch "-"; m1; m2; ch "-"; d1; d2]).
  { subst f. unfold leafFilter, dueOnRegex, bind, word, ws1, dateEnd, isoDate.
    digits. reflexivity. }
  rewrite applyFilter_eq, Hn, Hand, Hor, Hnot. exact Hleaf.
Qed.

Lemma applyFilter_due_before :
  applyFilter lowerExt today task (lit "due before " ++ date)
  = dateBefore (dueDate task) date.
Proof.
  destruct (isDate_digits date Hdate)
    as (y1 & y2 & y3 & y4 & m1 & m2 & d1 & d2 & -> & H1 & H2 & H3 & H4 & H5 & H6 & H7 & H8).
  set (f := lit "due before " ++ [y1; y2; y3; y4; ch "-"; m1; m2; ch "-"; d1; d2]).
  assert (Hn : normalized lowerExt f = f)
    by (subst f; unfold normalized, toLowerCase, trim, trimStart, trimEnd, dropWhile;
        digits; reflexivity).
  assert (Hand : includes f (lit " and ") = false) by (subst f; digits; reflexivity).
  assert (Hor : includes f (lit " or ") = false) by (subst f; digits; reflexivity).
  assert (Hnot : startsWith f (lit "not ") = false) by reflexivity.
  assert (Hleaf : leafFilter lowerExt today task f
                  = dateBefore (dueDate task)
                      [y1; y2; y3; y4; ch "-"; m1; m2; ch "-"; d1; d2]).
  { subst f. unfold leafFilter, dueOnRegex, dueRelRegex, bind, word, ws1, dateEnd, isoDate.
    digits. reflexivity. }
  rewrite applyFilter_eq, Hn, Hand, Hor, Hnot. exact Hleaf.
Qed.

Lemma applyFilter_due_by :
  applyFilter lowerExt today task (lit "due before " ++ date ++ lit " or due " ++ date)
  = dateBefore (dueDate task) date || dateIs (dueDate task) date.
Proof.
  rewrite <- applyFilter_due_before, <- applyFilter_due_on.
  destruct (isDate_digits date Hdate)
    as (y1 & y2 & y3 & y4 & m1 & m2 & d1 & d2 & Hd & H1 & H2 & H3 & H4 & H5 & H6 & H7 & H8).
  set (f := lit "due before " ++ date ++ lit " or due " ++ date).
  assert (Hn : normalized lowerExt f = f)
    by (subst f; rewrite Hd;
        unfold normalized, toLowerCase, trim, trimStart, trimEnd, dropWhile;
        digits; reflexivity).
  assert (Hand : includes f (lit " and ") = false)
    by (subst f; rewrite Hd; digits; reflexivity).
  assert (Hor : includes f (lit " or ") = true)
    by (subst f; apply (includes_app (lit "due before " ++ date) (lit " or ")
                          (lit "due " ++ date))
        || (rewrite Hd; digits; reflexivity)).
  assert (Hsplit : split f (lit " or ") = [lit "due before " ++ date; lit "due " ++ date])
    by (subst f; rewrite Hd; unfold split; digits; reflexivity).
  assert (Ht1 : trim (lit "due before " ++ date) = lit "due before " ++ date)
    by (rewrite Hd; unfold trim, trimStart, trimEnd, dropWhile; digits; reflexivity).
  assert (Ht2 : trim (lit "due " ++ date) = lit "due " ++ date)
    by (rewrite Hd; unfold trim, trimStart, trimEnd, dropWhile; digits; reflexivity).
  rewrite (applyFilter_eq lowerExt today task f), Hn, Hand, Hor, Hsplit.
  cbn [existsb]. rewrite Ht1, Ht2. now rewrite orb_false_r.
Qed.

End ByDate.

Lemma applyFilter_has_due_date lowerExt today task :
  applyFilter lowerExt today task (lit "has due date") = isSome (dueDate task).
Proof. rewrite applyFilter_eq. reflexivity. Qed.

Lemma queryFilters_one (s : str) :
  Spec.oneLine s = true -> trim s = s ->
  negb (length s =? 0)%nat && negb (startsWith s (lit "#")) = true ->
  queryFilters s = [s].
Proof.
  intros Hline Htrim Hkeep. unfold queryFilters.
  change [0x0A] with [Spec.newline].
  rewrite split_plain by now apply oneLine_In.
  cbn [map filter]. now rewrite Htrim, Hkeep.
Qed.

Lemma queryFilters_due_on (date : str) :
  Spec.isDate date = true -> queryFilters (lit "due " ++ date) = [lit "due " ++ date].
Proof.
  intro Hdate.
  destruct (isDate_digits date Hdate)
    as (y1 & y2 & y3 & y4 & m1 & m2 & d1 & d2 & -> & H1 & H2 & H3 & H4 & H5 & H6 & H7 & H8).
  apply queryFilters_one; [| |reflexivity].
  - unfold Spec.oneLine, Spec.newline. digits. reflexivity.
  - unfold trim, trimStart, trimEnd, dropWhile. digits. reflexivity.
Qed.

Lemma queryFilters_due_by (date : str) :
  Spec.isDate date = true ->
  queryFilters (lit "has due date" ++ [0x0A] ++ lit "due before " ++ date
                ++ lit " or due " ++ date ++ [0x0A] ++ lit "not done")
  = [lit "has due date"; lit "due before " ++ date ++ lit " or due " ++ date;
     lit "not done"].
Proof.
  intro Hdate.
  assert (Hmid : queryFilters (lit "due before " ++ date ++ lit " or due " ++ date)
                 = [lit "due before " ++ date ++ lit " or due " ++ date]).
  { destruct (isDate_digits date Hdate)
      as (y1 & y2 & y3 & y4 & m1 & m2 & d1 & d2 & -> & H1 & H2 & H3 & H4 & H5 & H6 & H7 & H8).
    apply queryFilters_one; [| |reflexivity].
    - unfold Spec.oneLine, Spec.newline. digits. reflexivity.
    - unfold trim, trimStart, trimEnd, dropWhile. digits. reflexivity. }
  replace (lit "has due date" ++ [0x0A] ++ lit "due before " ++ date
           ++ lit " or due " ++ date ++ [0x0A] ++ lit "not done")
    with (lit "has due date" ++ [Spec.newline]
          ++ (lit "due before " ++ date ++ lit " or due " ++ date)
          ++ [Spec.newline] ++ lit "not done")
    by (rewrite <- !app_assoc; reflexivity).
  rewrite !queryFilters_app, Hmid. reflexivity.
Qed.

(** X17.  [get_tasks_by_date] for a date of four, two and two digits joined
    by hyphens, without [includeOverdue] or with it false: the result is the
    tasks of the vault whose due date is that date, in the order
    [getAllTasks] lists them -- whatever their status. *)
Theorem tasks_by_date_are_those_due_that_day :
  forall lowerExt today v markdownFiles date,
    Spec.isDate date = true ->
    get_tasks_by_date lowerExt today v markdownFiles date None
    = filter (fun task => dateIs (dueDate task) date) (getAllTasks v markdownFiles None)
    /\ get_tasks_by_date lowerExt today v markdownFiles date (Some false)
       = filter (fun task => dateIs (dueDate task) date)
           (getAllTasks v markdownFiles None).
Proof.
  intros lowerExt today v markdownFiles date Hdate.
  assert (Hquery : queryTasks lowerExt today (getAllTasks v markdownFiles None)
                     (lit "due " ++ date)
                   = filter (fun task => dateIs (dueDate task) date)
                       (getAllTasks v markdownFiles None)).
  { unfold queryTasks. rewrite queryFilters_due_on by exact Hdate.
    apply filter_agree. intro task. cbn [passesAll].
    rewrite applyFilter_due_on by exact Hdate.
    now destruct (dateIs (dueDate task) date). }
  split; exact Hquery.
Qed.

Lemma tasks_by_date_are_those_due_that_day_witness :
  let content :=
    lit "- [x] A " ++ Glyph.calendar ++ lit " 2025-04-15" ++ [0x0A]
    ++ lit "- [ ] B " ++ Glyph.calendar ++ lit " 2025-04-16" in
  let v := Spec.oneFile (lit "notes.md") content in
  Spec.isDate (lit "2025-04-15") = true
  /\ get_tasks_by_date Spec.asciiOnly Spec.someDay v [lit "notes.md"] (lit "2025-04-15") None
     = filter (fun task => dateIs (dueDate task) (lit "2025-04-15"))
         (getAllTasks v [lit "notes.md"] None)
  /\ get_tasks_by_date Spec.asciiOnly Spec.someDay v [lit "notes.md"] (lit "2025-04-15")
       (Some false)
     = filter (fun task => dateIs (dueDate task) (lit "2025-04-15"))
         (getAllTasks v [lit "notes.md"] None).
Proof.
  intros content v. split; [reflexivity|].
  apply tasks_by_date_are_those_due_that_day. reflexivity.
Defined.

(** X18.  [get_tasks_by_date] with [includeOverdue] for such a date: the
    result is the tasks of the vault that are not done -- incomplete or in
    progress -- and whose due date is that date or sorts before it, in the
    order [getAllTasks] lists them. *)
Theorem tasks_by_date_with_overdue :
  forall lowerExt today v markdownFiles date,
    Spec.isDate date = true ->
    get_tasks_by_date lowerExt today v markdownFiles date (Some true)
    = filter (fun task =>
                (dateBefore (dueDate task) date || dateIs (dueDate task) date)
                && (status_eqb (status task) incomplete
                    || status_eqb (status task) in_progress))
        (getAllTasks v markdownFiles None).
Proof.
  intros lowerExt today v markdownFiles date Hdate.
  unfold get_tasks_by_date, queryTasks. rewrite queryFilters_due_by by exact Hdate.
  apply filter_agree. intro task. cbn [passesAll].
  rewrite applyFilter_has_due_date, applyFilter_due_by by exact Hdate.
  rewrite (applyFilter_not_done lowerExt today task (lit "not done") eq_refl).
  unfold dateBefore, dateIs. destruct (dueDate task) as [d|]; [|reflexivity].
  cbn [isSome negb].
  destruct (str_lt d date || eqb_str d date); [|reflexivity].
  cbn [negb andb].
  now destruct (status_eqb (status task) incomplete || status_eqb (status task) in_progress).
Qed.

Lemma tasks_by_date_with_overdue_witness :
  let content :=
    lit "- [x] A " ++ Glyph.calendar ++ lit " 2025-04-15" ++ [0x0A]
    ++ lit "- [ ] B " ++ Glyph.calendar ++ lit " 2025-04-14" in
  let v := Spec.oneFile (lit "notes.md") content in
  Spec.isDate (lit "2025-04-15") = true
  /\ get_tasks_by_date Spec.asciiOnly Spec.someDay v [lit "notes.md"] (lit "2025-04-15")
       (Some true)
     = filter (fun task =>
                 (dateBefore (dueDate task) (lit "2025-04-15")
                  || dateIs (dueDate task) (lit "2025-04-15"))
                 && (status_eqb (status task) incomplete
                     || status_eqb (status task) in_progress))
         (getAllTasks v [lit "notes.md"] None).
Proof.
  intros content v. split; [reflexivity|].
  apply tasks_by_date_with_overdue. reflexivity.
Defined.

(** ** Adding a task *)

Lemma endsWith_newline (content : str) :
  endsWith content [Spec.newline] = true -> exists c0, content = c0 ++ [Spec.newline].
Proof.
  unfold endsWith. cbn [rev app]. intro H.
  destruct (rev content) as [|x r] eqn:E; [discriminate|].
  cbn [startsWith] in H. rewrite startsWith_nil, andb_true_r in H.
  apply N.eqb_eq in H. subst x. exists (rev r).
  apply (f_equal (@rev char)) in E. rewrite rev_involutive in E. exact E.
Qed.

Lemma linesOf_app (a b : str) :
  Spec.linesOf (a ++ Spec.newline :: b) = Spec.linesOf a ++ Spec.linesOf b.
Proof. apply split_app_sep. Qed.

Lemma linesKept_final (c0 : str) :
  Spec.linesKept (c0 ++ [Spec.newline]) = Spec.linesOf c0.
Proof.
  unfold Spec.linesKept, endsWith. rewrite rev_app_distr. cbn [rev app startsWith].
  rewrite N.eqb_refl. cbn [andb]. rewrite startsWith_nil.
  rewrite linesOf_app. change (Spec.linesOf []) with [@nil char].
  apply removelast_last.
Qed.

Lemma tasksOfLines_app path (a b : list str) : forall index,
  tasksOfLines path index (a ++ b)
  = tasksOfLines path index a ++ tasksOfLines path (index + length a) b.
Proof.
  induction a as [|l a IH]; intro index.
  - cbn [app tasksOfLines length]. now rewrite Nat.add_0_r.
  - cbn [app tasksOfLines length].
    replace (index + S (length a))%nat with (S index + length a)%nat by lia.
    destruct (parseTaskLine l path (Z.of_nat index + 1)); cbn [app]; now rewrite IH.
Qed.

Lemma tasksOfLines_blank path index : tasksOfLines path index [[]] = [].
Proof. reflexivity. Qed.

Lemma tasks_of_kept path content :
  tasksOfFile path content = tasksOfLines path 0 (Spec.linesKept content).
Proof.
  unfold tasksOfFile. change (split content [0x0A]) with (Spec.linesOf content).
  destruct (endsWith content [Spec.newline]) eqn:E.
  - apply endsWith_newline in E as (c0 & ->).
    rewrite linesKept_final, linesOf_app, tasksOfLines_app.
    change (Spec.linesOf []) with [@nil char].
    now rewrite tasksOfLines_blank, app_nil_r.
  - unfold Spec.linesKept. now rewrite E.
Qed.

Lemma linesOf_line (taskMarkdown : str) :
  Spec.oneLine taskMarkdown = true ->
  Spec.linesOf (taskMarkdown ++ [Spec.newline]) = [taskMarkdown; []].
Proof.
  intro H. rewrite linesOf_app. change (Spec.linesOf []) with [@nil char].
  unfold Spec.linesOf. rewrite split_plain by now apply oneLine_In. reflexivity.
Qed.

Lemma added_task_facts : forall s filePath content taskMarkdown,
  files s filePath = Some content ->
  Spec.oneLine taskMarkdown = true ->
  exists content',
    addTaskToFile s filePath taskMarkdown
    = (AddDone (mkAdded filePath taskMarkdown),
       mkStore (modify (files s) filePath content') (folders s))
    /\ Spec.linesOf content' = Spec.linesKept content ++ [taskMarkdown; []]
    /\ tasksOfFile filePath content'
       = tasksOfFile filePath content
         ++ tasksOfLines filePath (length (Spec.linesKept content)) [taskMarkdown].
Proof.
  intros s filePath content taskMarkdown Hfile Hline.
  unfold addTaskToFile. rewrite Hfile. cbv zeta.
  eexists. split; [reflexivity|].
  match goal with
  | |- Spec.linesOf ?c = _ /\ _ => set (content' := c)
  end.
  assert (Hlines : Spec.linesOf content' = Spec.linesKept content ++ [taskMarkdown; []]).
  { subst content'.
    destruct (endsWith content [Spec.newline]) eqn:E.
    - change (endsWith content [0x0A]) with (endsWith content [Spec.newline]).
      rewrite E. apply endsWith_newline in E as (c0 & ->).
      rewrite linesKept_final, <- app_assoc. cbn [app].
      now rewrite linesOf_app, linesOf_line.
    - change (endsWith content [0x0A]) with (endsWith content [Spec.newline]).
      rewrite E. unfold Spec.linesKept. rewrite E. cbn [app].
      now rewrite linesOf_app, linesOf_line. }
  split; [exact Hlines|].
  rewrite (tasks_of_kept filePath content).
  unfold tasksOfFile. change (split content' [0x0A]) with (Spec.linesOf content').
  rewrite Hlines, tasksOfLines_app. cbn [Nat.add]. f_equal.
Qed.

(** X19.  [addTaskToFile] on a file of the vault, with a text that holds no
    line feed: the file keeps its lines -- but for the empty one a final line
    feed leaves at the end --, the text becomes the line after them and the
    file ends with a line feed; so the tasks of the file are the ones it had,
    with their line numbers, followed by the task of the new line when it is
    one.  No other file changes. *)
Theorem added_task_is_the_last_line : forall s filePath content taskMarkdown,
  files s filePath = Some content ->
  Spec.oneLine taskMarkdown = true ->
  exists content',
    addTaskToFile s filePath taskMarkdown
    = (AddDone (mkAdded filePath taskMarkdown),
       mkStore (modify (files s) filePath content') (folders s))
    /\ Spec.linesOf content' = Spec.linesKept content ++ [taskMarkdown; []]
    /\ tasksOfFile filePath content'
       = tasksOfFile filePath content
         ++ tasksOfLines filePath (length (Spec.linesKept content)) [taskMarkdown].
Proof. exact added_task_facts. Qed.

Lemma added_task_is_the_last_line_witness :
  let content := lit "# Today" ++ [0x0A] ++ lit "- [x] A" ++ [0x0A] in
  let s := mkStore (Spec.oneFile (lit "notes.md") content) (fun _ => false) in
  (files s (lit "notes.md") = Some content
   /\ Spec.oneLine (lit "- [ ] B") = true)
  /\ exists content',
       addTaskToFile s (lit "notes.md") (lit "- [ ] B")
       = (AddDone (mkAdded (lit "notes.md") (lit "- [ ] B")),
          mkStore (modify (files s) (lit "notes.md") content') (folders s))
       /\ Spec.linesOf content' = Spec.linesKept content ++ [lit "- [ ] B"; []]
       /\ tasksOfFile (lit "notes.md") content'
          = tasksOfFile (lit "notes.md") content
            ++ tasksOfLines (lit "notes.md") (length (Spec.linesKept content))
                 [lit "- [ ] B"].
Proof.
  intros content s. split; [split; reflexivity|].
  apply added_task_is_the_last_line; reflexivity.
Defined.

Lemma canonical_oneLine (args : BuildArgs) :
  Spec.canonical args = true -> Spec.oneLine (buildTaskMarkdown args) = true.
Proof.
  intro Hcan.
  destruct (canonical_line args Hcan)
    as ((Htext & Hhead & Hlast) & Hprio & (Hrec & Hstart & Hsched & Hdue & Hbs)
        & Hline & _ & _).
  pose proof (whenGiven_words _ _ isDate_words Hstart).
  pose proof (whenGiven_words _ _ isDate_words Hsched).
  pose proof (whenGiven_words _ _ isDate_words Hdue).
  assert (Hno : Spec.avoids isLineTerminator
                  (arg_description args ++ Spec.priorityPiece (arg_priority args)
                   ++ Spec.fieldPiece Glyph.repeat (arg_recurrence args)
                   ++ Spec.fieldPiece Glyph.airplane (arg_startDate args)
                   ++ Spec.fieldPiece Glyph.hourglass (arg_scheduledDate args)
                   ++ Spec.fieldPiece Glyph.calendar (arg_dueDate args)
                   ++ Spec.tagsOf (map Filter.dropHash (Spec.tagsGiven args))) = true)
    by avoid.
  rewrite Hline. unfold Spec.oneLine. rewrite forallb_app.
  apply andb_true_intro. split; [reflexivity|].
  eapply forallb_impl; [|exact Hno]. cbv beta. intros x Hx.
  apply negb_true_iff in Hx. apply negb_true_iff.
  destruct (N.eqb_spec x Spec.newline) as [->|]; [discriminate|reflexivity].
Qed.

(** X20.  [add_task] with a canonical field set, on a file of the vault,
    then [getAllTasks] on that file: the tasks are the ones the file had,
    followed by one new task, not done, on the line after the lines the file
    keeps; its original text is the line [buildTaskMarkdown] wrote and its
    dates, recurrence, priority and tags are the ones passed. *)
Theorem added_task_is_listed : forall dailyNotePath s args description content,
  add_description args = Some description ->
  Spec.canonical (Spec.fieldsOf description args) = true ->
  files s (Spec.target dailyNotePath args) = Some content ->
  exists content' task,
    add_task dailyNotePath s args
    = (AddDone (mkAdded (Spec.target dailyNotePath args)
                  (buildTaskMarkdown (Spec.fieldsOf description args))),
       mkStore (modify (files s) (Spec.target dailyNotePath args) content') (folders s))
    /\ tasksOfFile (Spec.target dailyNotePath args) content'
       = tasksOfFile (Spec.target dailyNotePath args) content ++ [task]
    /\ lineNumber task = (Z.of_nat (length (Spec.linesKept content)) + 1)%Z
    /\ originalMarkdown task = buildTaskMarkdown (Spec.fieldsOf description args)
    /\ status task = incomplete
    /\ dueDate task = truthy (add_dueDate args)
    /\ scheduledDate task = truthy (add_scheduledDate args)
    /\ startDate task = truthy (add_startDate args)
    /\ recurrence task = truthy (add_recurrence args)
    /\ option_map Filter.priorityName (priority task) = truthy (add_priority args)
    /\ tags task = map formatTag (Spec.tagsGiven (Spec.fieldsOf description args)).
Proof.
  intros dailyNotePath s args description content Hdesc Hcan Hfile.
  set (path := Spec.target dailyNotePath args) in *.
  set (fields := Spec.fieldsOf description args) in *.
  pose proof (canonical_oneLine fields Hcan) as Hone.
  destruct (added_task_facts s path content (buildTaskMarkdown fields) Hfile Hone)
    as (content' & Hadd & _ & Htasks).
  destruct (built_line_facts fields path
              (Z.of_nat (length (Spec.linesKept content)) + 1) Hcan)
    as (task & Hparse & Hst & Hdue & Hsched & Hstart & _ & Hrec & Hprio & Htags & _).
  destruct (parseTaskLine_id _ _ _ _ Hparse) as (_ & _ & Hn & Hline).
  exists content', task.
  assert (Htruthy : truthy (add_description args) = Some description).
  { rewrite Hdesc. destruct (canonical_line fields Hcan) as ((_ & Hhead & _) & _).
    subst fields. cbn [Spec.fieldsOf arg_description] in Hhead.
    destruct description; [discriminate|reflexivity]. }
  repeat split; try assumption.
  - unfold add_task. rewrite Htruthy. exact Hadd.
  - rewrite Htasks. cbn [tasksOfLines]. now rewrite Hparse.
Qed.

Lemma added_task_is_listed_witness :
  let content := lit "# Today" ++ [0x0A] ++ lit "- [x] A" ++ [0x0A] in
  let s := mkStore (Spec.oneFile (lit "notes.md") content) (fun _ => false) in
  let args :=
    mkAddArgs (Some (lit "Buy milk")) (Some (lit "notes.md")) (Some (lit "2025-05-01"))
      None None (Some (lit "high")) (Some [lit "home"]) None in
  let path := Spec.target (lit "Daily Notes/2025-04-15.md") args in
  let fields := Spec.fieldsOf (lit "Buy milk") args in
  (add_description args = Some (lit "Buy milk")
   /\ Spec.canonical fields = true
   /\ files s path = Some content)
  /\ exists content' task,
       add_task (lit "Daily Notes/2025-04-15.md") s args
       = (AddDone (mkAdded path (buildTaskMarkdown fields)),
          mkStore (modify (files s) path content') (folders s))
       /\ tasksOfFile path content' = tasksOfFile path content ++ [task]
       /\ lineNumber task = (Z.of_nat (length (Spec.linesKept content)) + 1)%Z
       /\ originalMarkdown task = buildTaskMarkdown fields
       /\ status task = incomplete
       /\ dueDate task = truthy (add_dueDate args)
       /\ scheduledDate task = truthy (add_scheduledDate args)
       /\ startDate task = truthy (add_startDate args)
       /\ recurrence task = truthy (add_recurrence args)
       /\ option_map Filter.priorityName (priority task) = truthy (add_priority args)
       /\ tags task = map formatTag (Spec.tagsGiven fields).
Proof.
  intros content s args path fields. split; [repeat split; reflexivity|].
  apply (added_task_is_listed (lit "Daily Notes/2025-04-15.md") s args (lit "Buy milk")
           content); reflexivity.
Defined.

(** X21.  What [add_task] refuses and what it touches.  With no
    description, or an empty one, the call is refused with [description is
    required] and the store stays as it was.  With a description, the call is
    refused when the path names a folder, and the store stays as it was.  In
    every other case the call succeeds: it reports the path and a line that
    starts with an empty status box and the description -- the line
    [buildTaskMarkdown] gives, for a priority among the names of the table --;
    the file then ends with that line and a line feed, behind the content it
    had, and no other file changes. *)
Theorem add_task_writes_one_file : forall dailyNotePath s args,
  match truthy (add_description args) with
  | None => add_task dailyNotePath s args = (AddRejected DescriptionRequired, s)
  | Some description =>
      let path := Spec.target dailyNotePath args in
      match files s path, folders s path with
      | None, true => add_task dailyNotePath s args = (AddRejected (NotAFile path), s)
      | before, _ =>
          exists line s' content',
            add_task dailyNotePath s args = (AddDone (mkAdded path line), s')
            /\ startsWith line (lit "- [ ] " ++ description) = true
            /\ (Spec.knownPriority (add_priority args) = true ->
                line = buildTaskMarkdown (Spec.fieldsOf description args))
            /\ files s' path = Some content'
            /\ endsWith content' (line ++ [Spec.newline]) = true
            /\ match before with
               | Some content => startsWith content' content = true
               | None => content' = line ++ [Spec.newline]
               end
            /\ forall p, eqb_str p path = false -> files s' p = files s p
      end
  end.
Proof.
  intros dailyNotePath s args. unfold add_task.
  destruct (truthy (add_description args)) as [description|] eqn:Hdesc; [|reflexivity].
  fold (Spec.target dailyNotePath args). fold (Spec.fieldsOf description args).
  cbv zeta.
  set (path := Spec.target dailyNotePath args).
  set (line := buildTaskMarkdown (Spec.fieldsOf description args)).
  assert (Hstart : startsWith line (lit "- [ ] " ++ description) = true).
  { subst line. unfold buildTaskMarkdown. rewrite appendFields_pieces.
    cbn [Spec.fieldsOf arg_description]. apply startsWith_app. }
  assert (Hends : forall front, endsWith (front ++ line ++ [0x0A]) (line ++ [Spec.newline])
                                = true).
  { intro front. unfold endsWith. rewrite rev_app_distr. apply startsWith_app. }
  unfold addTaskToFile.
  destruct (files s path) as [content|] eqn:Hfile.
  - assert (Hgoal : exists line' s' content',
              (AddDone (mkAdded path line),
               mkStore
                 (modify (files s) path
                    (if endsWith content [0x0A]
                     then content ++ line ++ [0x0A]
                     else content ++ [0x0A] ++ line ++ [0x0A]))
                 (folders s))
              = (AddDone (mkAdded path line'), s')
              /\ startsWith line' (lit "- [ ] " ++ description) = true
              /\ (Spec.knownPriority (add_priority args) = true -> line' = line)
              /\ files s' path = Some content'
              /\ endsWith content' (line' ++ [Spec.newline]) = true
              /\ startsWith content' content = true
              /\ forall p, eqb_str p path = false -> files s' p = files s p).
    { exists line. eexists. eexists. split; [reflexivity|]. split; [exact Hstart|].
      split; [reflexivity|].
      cbn [files]. split; [apply modify_same|]. split; [|split].
      - destruct (endsWith content [0x0A]); [apply Hends|].
        rewrite (app_assoc content [0x0A]). apply Hends.
      - destruct (endsWith content [0x0A]); apply startsWith_app.
      - intros p Hp. unfold modify. now rewrite Hp. }
    destruct (folders s path); exact Hgoal.
  - destruct (folders s path) eqn:Hfolder; [reflexivity|].
    exists line. eexists. eexists. split; [reflexivity|]. split; [exact Hstart|].
    split; [reflexivity|].
    split; [|split; [|split]].
    + unfold create. cbn [files]. apply modify_same.
    + apply (Hends []).
    + reflexivity.
    + intros p Hp. unfold create. cbn [files]. unfold modify. rewrite Hp.
      match goal with
      | |- files (if ?c then _ else _) p = _ => destruct c
      end; reflexivity.
Qed.

(** [add_task] on a store where [Projects] is a folder: no description, a
    folder for a path, and a new file in the folder. *)
Lemma add_task_cases :
  let s := mkStore (fun _ => None) (fun p => eqb_str p (lit "Projects")) in
  let none := mkAddArgs None (Some (lit "Projects")) None None None None None None in
  let folder :=
    mkAddArgs (Some (lit "Buy milk")) (Some (lit "Projects")) None None None None None
      None in
  let fresh :=
    mkAddArgs (Some (lit "Buy milk")) (Some (lit "Projects/list.md")) None None None None
      None None in
  add_task (lit "daily.md") s none = (AddRejected DescriptionRequired, s)
  /\ add_task (lit "daily.md") s folder = (AddRejected (NotAFile (lit "Projects")), s)
  /\ fst (add_task (lit "daily.md") s fresh)
     = AddDone (mkAdded (lit "Projects/list.md") (lit "- [ ] Buy milk"))
  /\ files (snd (add_task (lit "daily.md") s fresh)) (lit "Projects/list.md")
     = Some (lit "- [ ] Buy milk" ++ [Spec.newline]).
Proof. repeat split; reflexivity. Qed.

(** ** The daily note *)

Lemma startsWith_weaken (a b pat : str) :
  startsWith a pat = true -> startsWith (a ++ b) pat = true.
Proof.
  revert a. induction pat as [|p pat IH]; intros a H; [apply startsWith_nil|].
  destruct a as [|c a]; [discriminate|]. cbn [app startsWith] in *.
  apply andb_true_iff in H as [-> H]. now rewrite IH.
Qed.

Lemma endsWith_app (a b suffix : str) :
  endsWith b suffix = true -> endsWith (a ++ b) suffix = true.
Proof. unfold endsWith. rewrite rev_app_distr. apply startsWith_weaken. Qed.

Lemma endsWith_here (a suffix : str) : endsWith (a ++ suffix) suffix = true.
Proof. unfold endsWith. rewrite rev_app_distr. apply startsWith_app. Qed.

(** X22.  [getDailyNotePath] always returns a path that ends in [.md],
    whatever the clock reads and whatever folder and format the Daily Notes
    plugin is set to. *)
Theorem daily_note_path_ends_in_md : forall year monthIndex day folderOption formatOption,
  endsWith (getDailyNotePath year monthIndex day folderOption formatOption) (lit ".md")
  = true.
Proof.
  intros. unfold getDailyNotePath. cbv zeta. apply endsWith_app.
  match goal with
  | |- endsWith (if negb (endsWith ?f _) then _ else _) _ = _ =>
      destruct (endsWith f (lit ".md")) eqn:E
  end; cbn [negb]; [exact E|apply endsWith_here].
Qed.

Lemma replaceFirst_skip (pat replacement a s : str) (p : char) (pat' : str) :
  pat = p :: pat' ->
  forallb (fun c => negb (c =? p)) a = true ->
  replaceFirst pat replacement (a ++ s) = a ++ replaceFirst pat replacement s.
Proof.
  intros -> Ha. induction a as [|c a IH]; [reflexivity|].
  cbn [forallb] in Ha. apply andb_true_iff in Ha as [Hc Ha]. apply negb_true_iff in Hc.
  cbn [app replaceFirst startsWith]. rewrite Hc. cbn [andb]. now rewrite (IH Ha).
Qed.

Lemma numberToString_chars (z : Z) :
  forallb (fun c => isDigit c || (c =? ch "-")) (numberToString z) = true
  /\ exists front c, numberToString z = front ++ [c] /\ isDigit c = true.
Proof.
  assert (Hd : forall d, forallb (fun c => isDigit c || (c =? ch "-")) (digits_of_uint d)
                         = true).
  { intro d. eapply forallb_impl; [|apply digits_of_uint_digits].
    cbv beta. now intros x ->. }
  assert (Hlast : forall p, exists front c,
             digits_of_uint (Pos.to_uint p) = front ++ [c] /\ isDigit c = true).
  { intro p. destruct (to_uint_value p) as (Hall & Hne & _).
    destruct (exists_last Hne) as (front & c & E). exists front, c. split; [exact E|].
    rewrite E, forallb_app in Hall. apply andb_true_iff in Hall as [_ Hc].
    cbn [forallb] in Hc. now rewrite andb_true_r in Hc. }
  destruct z as [|p|p]; cbn [numberToString].
  - split; [reflexivity|]. now exists [], (ch "0").
  - split; [apply Hd|apply Hlast].
  - split; [cbn [forallb]; now rewrite Hd|].
    destruct (Hlast p) as (front & c & -> & Hc). now exists (ch "-" :: front), c.
Qed.

Lemma padStart2_chars (s : str) :
  forallb (fun c => isDigit c || (c =? ch "-")) s = true ->
  (exists front c, s = front ++ [c] /\ isDigit c = true) ->
  forallb (fun c => isDigit c || (c =? ch "-")) (padStart2 s) = true
  /\ exists front c, padStart2 s = front ++ [c] /\ isDigit c = true.
Proof.
  intros Hall (front & c & E & Hc). unfold padStart2. split.
  - rewrite forallb_app, Hall, andb_true_r.
    apply forallb_forall. intros x Hx. apply repeat_spec in Hx. now subst.
  - exists (List.repeat (ch "0") (2 - length s) ++ front), c.
    split; [now rewrite E, app_assoc|exact Hc].
Qed.

Lemma dateChars_avoid (s : str) (p : char) :
  forallb (fun c => isDigit c || (c =? ch "-")) s = true ->
  isDigit p = false -> (p =? ch "-") = false ->
  forallb (fun c => negb (c =? p)) s = true.
Proof.
  intros Hs Hp Hh. eapply forallb_impl; [|exact Hs]. cbv beta. intros x Hx.
  destruct (N.eqb_spec x p) as [->|]; [|reflexivity].
  now rewrite Hp, Hh in Hx.
Qed.

(** X23.  With no settings of the Daily Notes plugin -- or with an empty
    folder and an empty format --, [getDailyNotePath] is, for every date the
    clock can read, the folder [Daily Notes], a slash, the year, the month
    and the day joined by hyphens, month and day padded to two characters,
    and [.md]. *)
Theorem daily_note_default_path : forall year monthIndex day folderOption formatOption,
  Spec.calendarDate year monthIndex day = true ->
  truthy folderOption = None -> truthy formatOption = None ->
  getDailyNotePath year monthIndex day folderOption formatOption
  = lit "Daily Notes/" ++ numberToString year ++ lit "-"
    ++ padStart2 (numberToString (monthIndex + 1)) ++ lit "-"
    ++ padStart2 (numberToString day) ++ lit ".md".
Proof.
  intros year monthIndex day folderOption formatOption _ Hfolder Hformat.
  unfold getDailyNotePath. rewrite Hfolder, Hformat. cbv zeta.
  destruct (numberToString_chars year) as (Hy & _).
  destruct (numberToString_chars (monthIndex + 1)%Z) as (Hm0 & Hm1).
  destruct (padStart2_chars _ Hm0 Hm1) as (Hm & _).
  destruct (numberToString_chars day) as (Hd0 & Hd1).
  destruct (padStart2_chars _ Hd0 Hd1) as (Hd & front & c & Hlast & Hc).
  set (Y := numberToString year) in *.
  set (M := padStart2 (numberToString (monthIndex + 1))) in *.
  set (D := padStart2 (numberToString day)) in *.
  assert (H1 : replaceFirst (lit "YYYY") Y (lit "YYYY-MM-DD") = Y ++ lit "-MM-DD")
    by reflexivity.
  assert (H2 : replaceFirst (lit "MM") M (Y ++ lit "-MM-DD") = Y ++ lit "-" ++ M ++ lit "-DD").
  { rewrite (replaceFirst_skip _ _ Y _ (ch "M") (lit "M") eq_refl)
      by (apply dateChars_avoid; [exact Hy|reflexivity|reflexivity]).
    reflexivity. }
  assert (H3 : replaceFirst (lit "DD") D (Y ++ lit "-" ++ M ++ lit "-DD")
               = Y ++ lit "-" ++ M ++ lit "-" ++ D).
  { replace (Y ++ lit "-" ++ M ++ lit "-DD") with ((Y ++ lit "-" ++ M ++ lit "-") ++ lit "DD")
      by (rewrite <- !app_assoc; reflexivity).
    rewrite (replaceFirst_skip _ _ (Y ++ lit "-" ++ M ++ lit "-") _ (ch "D") (lit "D") eq_refl).
    - cbn [replaceFirst startsWith lit map list_ascii_of_string].
      change (N_of_ascii "D") with (ch "D"). rewrite N.eqb_refl. cbn [andb length skipn].
      rewrite <- !app_assoc. now rewrite app_nil_r.
    - rewrite !forallb_app. repeat (apply andb_true_intro; split); try reflexivity;
        apply dateChars_avoid; assumption || reflexivity. }
  rewrite H1, H2, H3.
  assert (Hext : endsWith (Y ++ lit "-" ++ M ++ lit "-" ++ D) (lit ".md") = false).
  { unfold endsWith. rewrite Hlast, !app_assoc, rev_app_distr.
    change (rev (lit ".md")) with [ch "d"; ch "m"; ch "."].
    cbn [rev app startsWith]. apply isDigit_range in Hc.
    destruct (N.eqb_spec c (ch "d")) as [E|]; [|reflexivity].
    rewrite E in Hc. change (ch "d") with 100 in Hc. lia. }
  rewrite Hext. cbn [negb].
  match goal with
  | |- (if ?c then _ else _) ++ _ = _ => change c with true
  end.
  cbv iota. rewrite <- !app_assoc. reflexivity.
Qed.

Lemma daily_note_default_path_witness :
  (Spec.calendarDate 2025 3 5 = true
   /\ truthy None = None /\ truthy (Some []) = None)
  /\ getDailyNotePath 2025 3 5 None (Some [])
     = lit "Daily Notes/" ++ numberToString 2025 ++ lit "-"
       ++ padStart2 (numberToString (3 + 1)) ++ lit "-"
       ++ padStart2 (numberToString 5) ++ lit ".md".
Proof.
  split; [repeat split; reflexivity|].
  apply daily_note_default_path; reflexivity.
Defined.

(** ** Identifiers with more than a number *)

Lemma readDigits_app (ds tail : str) : forall seen acc,
  forallb isDigit ds = true ->
  match tail with
  | c :: _ => isDigit c = false
  | [] => True
  end ->
  readDigits 10 seen acc (ds ++ tail)
  = if seen || negb (length ds =? 0)%nat
    then Some (fold_left (fun a c => a * 10 + (c - 0x30)) ds acc)
    else None.
Proof.
  induction ds as [|d ds IH]; intros seen acc Hds Htail.
  - cbn [app length Nat.eqb negb fold_left]. rewrite orb_false_r.
    destruct tail as [|c tail]; [reflexivity|].
    cbn [readDigits]. unfold digitValue. rewrite Htail. reflexivity.
  - cbn [forallb] in Hds. apply andb_true_iff in Hds as [Hd Hds].
    cbn [app readDigits fold_left length Nat.eqb negb]. unfold digitValue. rewrite Hd.
    rewrite (IH true _ Hds Htail). now rewrite orb_true_r.
Qed.

(** X24.  [parseTaskId] reads the digits after the last colon and ignores
    what follows them: an identifier made of a path, a colon, digits and a
    tail is accepted with the number the digits denote -- a number below
    2^53 --, provided the tail holds no colon, does not start with a digit
    and does not turn a lone 0 into the prefix of a hexadecimal number. *)
Theorem parseTaskId_ignores_the_tail : forall path digits tail,
  negb (length digits =? 0)%nat && forallb isDigit digits = true ->
  Spec.safeInteger (Z.of_N (Spec.decimalValue digits)) = true ->
  forallb (fun c => negb (c =? Spec.separator)) tail = true ->
  Spec.plainTail digits tail = true ->
  parseTaskId (path ++ [Spec.separator] ++ digits ++ tail)
  = Done (path, Z.of_N (Spec.decimalValue digits)).
Proof.
  intros path digits tail Hdigits _ Hsep Htail.
  apply andb_true_iff in Hdigits as [Hne Hdigits].
  destruct digits as [|d0 ds]; [discriminate|]. clear Hne.
  pose proof Hdigits as Hall. cbn [forallb] in Hdigits.
  apply andb_true_iff in Hdigits as [Hd0 Hds].
  assert (Hhead : match tail with
                  | c :: _ => isDigit c = false
                  | [] => True
                  end).
  { destruct tail as [|c tail]; [exact I|]. cbn [Spec.plainTail] in Htail.
    apply andb_true_iff in Htail as [Hc _]. now apply negb_true_iff in Hc. }
  cbn [app]. rewrite parseTaskId_split.
  - assert (Hint : parseInt (d0 :: ds ++ tail)
                   = Some (Z.of_N (Spec.decimalValue (d0 :: ds)))).
    { unfold parseInt, trimStart, dropWhile. cbn [span].
      rewrite (isDigit_not_ws _ Hd0). cbn [snd].
      assert (Hsign : splitSign (d0 :: ds ++ tail) = (false, d0 :: ds ++ tail)).
      { pose proof Hd0 as Hr. apply isDigit_range in Hr. unfold splitSign.
        change (ch "-") with 45. change (ch "+") with 43.
        destruct (N.eqb_spec d0 45); [lia|]. destruct (N.eqb_spec d0 43); [lia|].
        reflexivity. }
      assert (Hradix : splitRadix (d0 :: ds ++ tail) = (10, d0 :: ds ++ tail)).
      { unfold splitRadix. destruct ds as [|d1 ds].
        - destruct tail as [|c tail]; [reflexivity|]. cbn [app].
          cbn [Spec.plainTail] in Htail. apply andb_true_iff in Htail as [_ Hx].
          apply negb_true_iff in Hx. cbn [eqb_str lit map list_ascii_of_string] in Hx.
          change (N_of_ascii "0") with (ch "0") in Hx. rewrite andb_true_r in Hx.
          now rewrite Hx.
        - cbn [forallb] in Hds. apply andb_true_iff in Hds as [Hd1 _].
          apply isDigit_range in Hd1. cbn [app].
          change (ch "x") with 120. change (ch "X") with 88.
          destruct (N.eqb_spec d1 120); [lia|]. destruct (N.eqb_spec d1 88); [lia|].
          now rewrite andb_false_r. }
      rewrite Hsign, Hradix.
      change (d0 :: ds ++ tail) with ((d0 :: ds) ++ tail).
      rewrite (readDigits_app (d0 :: ds) tail false 0 Hall Hhead). reflexivity. }
    now rewrite Hint.
  - change (d0 :: ds ++ tail) with ((d0 :: ds) ++ tail).
    intro Hin. apply in_app_or in Hin as [Hin|Hin].
    + rewrite forallb_forall in Hall. apply Hall in Hin. discriminate.
    + rewrite forallb_forall in Hsep. apply Hsep in Hin.
      now rewrite N.eqb_refl in Hin.
Qed.

Lemma parseTaskId_ignores_the_tail_witness :
  (negb (length (lit "12") =? 0)%nat && forallb isDigit (lit "12") = true
   /\ Spec.safeInteger (Z.of_N (Spec.decimalValue (lit "12"))) = true
   /\ forallb (fun c => negb (c =? Spec.separator)) (lit ".5 (draft)") = true
   /\ Spec.plainTail (lit "12") (lit ".5 (draft)") = true)
  /\ parseTaskId (lit "notes.md" ++ [Spec.separator] ++ lit "12" ++ lit ".5 (draft)")
     = Done (lit "notes.md", Z.of_N (Spec.decimalValue (lit "12"))).
Proof.
  split; [repeat split; reflexivity|].
  apply parseTaskId_ignores_the_tail; reflexivity.
Defined.

(** ** Round trips through the vault *)

Lemma linesOf_setLine (content : str) (i : nat) (x : str) :
  (i < length (Spec.linesOf content))%nat -> Spec.oneLine x = true ->
  Spec.linesOf (join [Spec.newline] (setLine i x (Spec.linesOf content)))
  = setLine i x (Spec.linesOf content).
Proof.
  intros Hi Hx. apply split_join.
  - intro H. apply (f_equal (@length str)) in H. rewrite setLine_length in H.
    cbn [length] in H. lia.
  - apply setLine_Forall; [now apply oneLine_In|apply split_no_sep].
Qed.

Lemma setLine_twice (i : nat) (x y : str) (lines : list str) :
  setLine i x (setLine i y lines) = setLine i x lines.
Proof.
  revert i. induction lines as [|l lines IH]; intros [|i]; cbn [setLine];
    try reflexivity. now rewrite IH.
Qed.

Lemma setLine_same (i : nat) (lines : list str) :
  (i < length lines)%nat -> setLine i (nth i lines []) lines = lines.
Proof.
  revert i. induction lines as [|l lines IH]; intros i Hi; [cbn in Hi; lia|].
  destruct i as [|i]; cbn [setLine nth]; [reflexivity|].
  rewrite IH; [reflexivity|]. cbn [length] in Hi. lia.
Qed.

Lemma line_of_file (content : str) (n : Z) :
  outOfRange n (Spec.linesOf content) = false ->
  Spec.oneLine (lineAt n (Spec.linesOf content)) = true.
Proof.
  intro Hrange. destruct (inRange _ _ Hrange) as [_ Hn].
  apply oneLine_In. pose proof (split_no_sep Spec.newline content) as Hall.
  rewrite Forall_forall in Hall. apply Hall. unfold lineAt. now apply nth_In.
Qed.

Lemma replaceStatusBox_at (r front : str) (c : char) (text : str) :
  forallb (fun x => negb (x =? ch "[")) front = true ->
  isLineTerminator c = false -> (c <? 0x10000) = true ->
  replaceStatusBox r (front ++ [ch "["; c; ch "]"] ++ text) = front ++ r ++ text.
Proof.
  intros Hfront Hbreak Hplain.
  change (front ++ [ch "["; c; ch "]"] ++ text)
    with (front ++ ch "[" :: c :: ch "]" :: text).
  rewrite replaceStatusBox_skip by exact Hfront.
  cbn [replaceStatusBox]. now rewrite !N.eqb_refl, Hbreak, Hplain.
Qed.

Lemma task_line_box (line path : str) (n : Z) (task : Task) :
  parseTaskLine line path n = Some task ->
  exists front c text,
    statusSymbol task = [c]
    /\ line = front ++ [ch "["; c; ch "]"] ++ text
    /\ forallb (fun x => negb (x =? ch "[")) front = true
    /\ isLineTerminator c = false
    /\ forall x, isLineTerminator x = false ->
         exists task',
           parseTaskLine (front ++ [ch "["; x; ch "]"] ++ text) path n = Some task'
           /\ statusSymbol task' = [x]
           /\ status task' = statusOfChar [x]
           /\ description task' = description task.
Proof.
  intros Hparse.
  destruct (parseTaskLine_taskRegex _ _ _ _ Hparse)
    as (indent & marker & rest & Hre & Hdesc & _).
  destruct (taskRegex_elim _ _ _ _ _ Hre)
    as (spaces & c & text & Hc & Hline & Hrest & Hindent & Hmarker & Hne & Hspaces & Hbreak).
  destruct (isListMarker_facts marker Hmarker) as (_ & Hmarker').
  exists (indent ++ marker ++ spaces), c, text.
  split; [exact Hc|]. split; [rewrite Hline, <- !app_assoc; reflexivity|].
  split; [|split; [exact Hbreak|]].
  - rewrite !forallb_app. repeat (apply andb_true_intro; split).
    + eapply forallb_impl; [|exact Hindent]. cbv beta. intros y Hy.
      now rewrite (isIndent_not_bracket y Hy).
    + exact Hmarker'.
    + eapply forallb_impl; [|exact Hspaces]. cbv beta. intros y Hy.
      apply N.eqb_eq in Hy. now subst.
  - intros x Hx. unfold parseTaskLine. rewrite <- !app_assoc.
    rewrite taskRegex_intro by assumption. rewrite <- Hrest.
    eexists. split; [reflexivity|]. repeat split. cbn [description]. now rewrite Hdesc.
Qed.

Lemma toggle_task_step v args path n content task :
  resolveAddress args = Done (path, n) ->
  v path = Some content ->
  outOfRange n (Spec.linesOf content) = false ->
  parseTaskLine (lineAt n (Spec.linesOf content)) path n = Some task ->
  toggle_task None v args
  = (Done (mkChange path n (lineAt n (Spec.linesOf content))
             (Some (replaceStatusBox
                      (lit "[" ++ [if status_eqb (status task) complete
                                   then ch " " else ch "x"] ++ lit "]")
                      (lineAt n (Spec.linesOf content))))),
     modify v path
       (join [Spec.newline]
          (setLine (Z.to_nat (n - 1))
             (replaceStatusBox
                (lit "[" ++ [if status_eqb (status task) complete
                             then ch " " else ch "x"] ++ lit "]")
                (lineAt n (Spec.linesOf content)))
             (Spec.linesOf content)))).
Proof.
  intros Haddr Hfile Hrange Hparse.
  unfold toggle_task. rewrite Haddr. cbv beta iota. rewrite Hfile. cbv beta iota zeta.
  change (split content [0x0A]) with (Spec.linesOf content).
  rewrite Hrange, Hparse. now destruct (status_eqb (status task) complete).
Qed.

(** X25.  Toggling twice restores the file: with no Tasks plugin at hand, on
    a task whose status box holds a space or a lower-case [x], two
    [toggle_task] calls at the same address are both accepted, the second
    writes back the line the first replaced, and the vault ends as it began,
    byte for byte. *)
Theorem toggle_twice_restores_the_file : forall v args path n content task,
  resolveAddress args = Done (path, n) ->
  v path = Some content ->
  outOfRange n (Spec.linesOf content) = false ->
  parseTaskLine (lineAt n (Spec.linesOf content)) path n = Some task ->
  Spec.toggleWritten task = true ->
  exists change1 v1 change2 v2,
    toggle_task None v args = (Done change1, v1)
    /\ toggle_task None v1 args = (Done change2, v2)
    /\ newTask change2 = Some (oldTask change1)
    /\ forall p, v2 p = v p.
Proof.
  intros v args path n content task Haddr Hfile Hrange Hparse Hbox.
  set (lines := Spec.linesOf content) in *.
  set (line := lineAt n lines) in *.
  set (i := Z.to_nat (n - 1)).
  destruct (inRange _ _ Hrange) as [_ Hi]. fold i in Hi.
  destruct (task_line_box _ _ _ _ Hparse)
    as (front & c & text & Hc & Hline & Hfront & Hbreak & Hform).
  destruct (parseTaskLine_taskRegex _ _ _ _ Hparse) as (_ & _ & _ & _ & _ & Hstatus).
  assert (Hcases : c = ch " " \/ c = ch "x").
  { unfold Spec.toggleWritten in Hbox. rewrite Hc in Hbox.
    apply orb_true_iff in Hbox as [H|H]; apply eqb_str_eq in H; injection H as ->;
      [now left|now right]. }
  assert (Hplain : (c <? 0x10000) = true) by (destruct Hcases as [-> | ->]; reflexivity).
  set (x1 := if status_eqb (status task) complete then ch " " else ch "x").
  assert (Hx1 : isLineTerminator x1 = false /\ (x1 <? 0x10000) = true)
    by (subst x1; now destruct (status_eqb _ _)).
  destruct Hx1 as [Hx1 Hplain1].
  destruct (Hform x1 Hx1) as (task1 & Hparse1 & Hsym1 & Hst1 & _).
  set (line1 := front ++ [ch "["; x1; ch "]"] ++ text) in *.
  assert (Hline1 : replaceStatusBox (lit "[" ++ [x1] ++ lit "]") line = line1)
    by (rewrite Hline; now apply replaceStatusBox_at).
  pose proof (toggle_task_step v args path n content task Haddr Hfile Hrange Hparse)
    as Hstep1.
  fold lines line x1 i in Hstep1. rewrite Hline1 in Hstep1.
  set (content1 := join [Spec.newline] (setLine i line1 lines)) in *.
  set (v1 := modify v path content1) in *.
  assert (Hone0 : Spec.oneLine line = true) by (apply line_of_file; exact Hrange).
  assert (Hone1 : Spec.oneLine line1 = true).
  { unfold Spec.oneLine in *. subst line1. rewrite Hline in Hone0.
    rewrite !forallb_app in *. cbn [forallb] in *.
    apply andb_true_iff in Hone0 as [Hf Ht]. rewrite Hf. cbn [andb].
    rewrite !andb_true_r in *. apply andb_true_iff in Ht as [_ Ht].
    rewrite Ht. subst x1. now destruct (status_eqb _ _). }
  assert (Hlines1 : Spec.linesOf content1 = setLine i line1 lines)
    by (apply linesOf_setLine; assumption).
  assert (Hfile1 : v1 path = Some content1) by apply modify_same.
  assert (Hrange1 : outOfRange n (Spec.linesOf content1) = false)
    by (rewrite Hlines1; unfold outOfRange in *; now rewrite setLine_length).
  assert (Hat1 : lineAt n (Spec.linesOf content1) = line1).
  { rewrite Hlines1. unfold lineAt. fold i. rewrite setLine_nth by exact Hi.
    now rewrite Nat.eqb_refl. }
  assert (Hparse1' : parseTaskLine (lineAt n (Spec.linesOf content1)) path n = Some task1)
    by (rewrite Hat1; exact Hparse1).
  pose proof (toggle_task_step v1 args path n content1 task1 Haddr Hfile1 Hrange1 Hparse1')
    as Hstep2.
  rewrite Hat1, Hlines1, setLine_twice in Hstep2. fold i in Hstep2.
  assert (Hx2 : (if status_eqb (status task1) complete then ch " " else ch "x") = c).
  { rewrite Hst1. subst x1. rewrite Hstatus, Hc.
    destruct Hcases as [-> | ->]; reflexivity. }
  rewrite Hx2 in Hstep2.
  assert (Hback : replaceStatusBox (lit "[" ++ [c] ++ lit "]") line1 = line)
    by (subst line1; rewrite Hline; now apply replaceStatusBox_at).
  rewrite Hback in Hstep2.
  assert (Hsame : setLine i line lines = lines) by (apply setLine_same; exact Hi).
  rewrite Hsame in Hstep2. unfold lines in Hstep2 at 1.
  unfold Spec.linesOf in Hstep2. rewrite join_split in Hstep2.
  do 4 eexists. split; [exact Hstep1|]. split; [exact Hstep2|].
  split; [reflexivity|].
  intro p. unfold v1, modify. destruct (eqb_str p path) eqn:E; [|reflexivity].
  apply eqb_str_eq in E. now subst p.
Qed.


Lemma toggle_twice_restores_the_file_witness :
  let content := lit "# Today" ++ [0x0A] ++ lit "  * [x] Call Ann" ++ [0x0A] in
  let v := Spec.oneFile (lit "notes.md") content in
  let args := mkAddress (Some (lit "notes.md:2")) None None in
  exists task,
    (resolveAddress args = Done (lit "notes.md", 2%Z)
     /\ v (lit "notes.md") = Some content
     /\ outOfRange 2 (Spec.linesOf content) = false
     /\ parseTaskLine (lineAt 2 (Spec.linesOf content)) (lit "notes.md") 2 = Some task
     /\ Spec.toggleWritten task = true)
    /\ exists change1 v1 change2 v2,
         toggle_task None v args = (Done change1, v1)
         /\ toggle_task None v1 args = (Done change2, v2)
         /\ newTask change2 = Some (oldTask change1)
         /\ forall p, v2 p = v p.
Proof.
  intros content v args. eexists. split.
  - split; [reflexivity|]. split; [reflexivity|]. split; [reflexivity|].
    split; reflexivity.
  - eapply (toggle_twice_restores_the_file v args (lit "notes.md") 2 content);
      reflexivity.
Defined.

(** X26.  [update_task] followed by listing, for a status that is absent or
    one of the four names and a priority that is absent, empty, [none] or one
    of the five names: when the line it writes holds no line feed, the file
    lists afterwards a task on the updated line, with the status the update
    asked for, and away from that line it lists the tasks it listed before,
    no more and no fewer. *)
Theorem updated_task_is_listed : forall v args fields path n content task,
  Spec.knownStatus fields = true ->
  Spec.knownPriority (upd_priority fields) = true ->
  resolveAddress args = Done (path, n) ->
  v path = Some content ->
  outOfRange n (Spec.linesOf content) = false ->
  parseTaskLine (lineAt n (Spec.linesOf content)) path n = Some task ->
  Spec.oneLine (rebuildTaskLine fields (lineAt n (Spec.linesOf content)) task) = true ->
  exists content' task',
    update_task v args fields
    = (Done (mkChange path n (lineAt n (Spec.linesOf content))
               (Some (rebuildTaskLine fields (lineAt n (Spec.linesOf content)) task))),
       modify v path content')
    /\ In task' (tasksOfFile path content')
    /\ lineNumber task' = n
    /\ originalMarkdown task'
       = rebuildTaskLine fields (lineAt n (Spec.linesOf content)) task
    /\ status task' = Spec.statusAsked fields (status task)
    /\ forall other,
         lineNumber other <> n ->
         (In other (tasksOfFile path content') <-> In other (tasksOfFile path content)).
Proof.
  intros v args fields path n content task _ _ Haddr Hfile Hrange Hparse Hone.
  set (lines := Spec.linesOf content) in *.
  set (line := lineAt n lines) in *.
  set (new := rebuildTaskLine fields line task) in *.
  set (i := Z.to_nat (n - 1)).
  destruct (inRange _ _ Hrange) as [Hz Hi]. fold i in Hi.
  destruct (updated_line_facts line path n task fields Hparse)
    as (task' & Hparse' & Hst & _).
  fold new in Hparse'.
  destruct (parseTaskLine_id _ _ _ _ Hparse') as (_ & _ & Hn' & Hline').
  assert (Hlines : Spec.linesOf (join [Spec.newline] (setLine i new lines))
                   = setLine i new lines)
    by (apply linesOf_setLine; assumption).
  exists (join [Spec.newline] (setLine i new lines)), task'.
  split; [|split; [|split; [exact Hn'|split; [exact Hline'|split; [exact Hst|]]]]].
  - unfold update_task. rewrite Haddr. cbv beta iota. rewrite Hfile. cbv beta iota zeta.
    change (split content [0x0A]) with lines. rewrite Hrange. fold line. rewrite Hparse.
    unfold updateTaskInFile. rewrite Hfile. cbv beta iota zeta.
    change (split content [0x0A]) with lines. rewrite Hrange. reflexivity.
  - unfold tasksOfFile.
    change (split (join [Spec.newline] (setLine i new lines)) [0x0A])
      with (Spec.linesOf (join [Spec.newline] (setLine i new lines))).
    rewrite Hlines. apply tasksOfLines_In. exists i.
    rewrite setLine_length, setLine_nth, Nat.eqb_refl by exact Hi.
    split; [exact Hi|]. cbn [Nat.add]. replace (Z.of_nat i + 1)%Z with n by (subst i; lia).
    exact Hparse'.
  - intros other Hother. unfold tasksOfFile.
    change (split (join [Spec.newline] (setLine i new lines)) [0x0A])
      with (Spec.linesOf (join [Spec.newline] (setLine i new lines))).
    change (split content [0x0A]) with lines.
    rewrite Hlines, !tasksOfLines_In. cbn [Nat.add].
    split; intros (k & Hk & Hp); exists k;
      destruct (parseTaskLine_id _ _ _ _ Hp) as (_ & _ & Hnum & _);
      assert (Hki : k <> i) by (intros ->; apply Hother; rewrite Hnum; subst i; lia);
      rewrite setLine_length in *; rewrite setLine_nth in * by exact Hi;
      apply Nat.eqb_neq in Hki; rewrite Hki in *; now split.
Qed.

Lemma updated_task_is_listed_witness :
  let content := lit "- [ ] A" ++ [0x0A] ++ lit "  2) [ ] Call Ann #phone" in
  let v := Spec.oneFile (lit "notes.md") content in
  let args := mkAddress None (Some (lit "notes.md")) (Some 2%Z) in
  let fields :=
    mkUpdateArgs None (Some (lit "2025-05-01")) None None None None None
      (Some (lit "in_progress")) in
  exists task,
    (Spec.knownStatus fields = true
     /\ Spec.knownPriority (upd_priority fields) = true
     /\ resolveAddress args = Done (lit "notes.md", 2%Z)
     /\ v (lit "notes.md") = Some content
     /\ outOfRange 2 (Spec.linesOf content) = false
     /\ parseTaskLine (lineAt 2 (Spec.linesOf content)) (lit "notes.md") 2 = Some task
     /\ Spec.oneLine (rebuildTaskLine fields (lineAt 2 (Spec.linesOf content)) task)
        = true)
    /\ exists content' task',
         update_task v args fields
         = (Done (mkChange (lit "notes.md") 2 (lineAt 2 (Spec.linesOf content))
                    (Some (rebuildTaskLine fields (lineAt 2 (Spec.linesOf content)) task))),
            modify v (lit "notes.md") content')
         /\ In task' (tasksOfFile (lit "notes.md") content')
         /\ lineNumber task' = 2%Z
         /\ originalMarkdown task'
            = rebuildTaskLine fields (lineAt 2 (Spec.linesOf content)) task
         /\ status task' = Spec.statusAsked fields (status task)
         /\ forall other,
              lineNumber other <> 2%Z ->
              (In other (tasksOfFile (lit "notes.md") content')
               <-> In other (tasksOfFile (lit "notes.md") content)).
Proof.
  intros content v args fields. eexists. split.
  - split; [reflexivity|]. split; [reflexivity|].
    split; [reflexivity|]. split; [reflexivity|]. split; [reflexivity|].
    split; reflexivity.
  - apply (updated_task_is_listed v args fields (lit "notes.md") 2 content); reflexivity.
Defined.

(** ** Boolean combinations of filters *)

Lemma split_go_pass (sep y b : str) : forall cur,
  split_go sep (length y) cur (y ++ b) = split_go sep 0 cur b.
Proof. induction y as [|c y IH]; intro cur; [reflexivity|]. cbn [length app split_go]. apply IH. Qed.

Lemma split_go_none (sep s : str) : forall cur,
  includes s sep = false -> split_go sep 0 cur s = [rev cur ++ s].
Proof.
  induction s as [|c r IH]; intros cur Hno.
  - cbn [split_go]. now rewrite app_nil_r.
  - cbn [includes] in Hno. apply orb_false_iff in Hno as [Hhere Hlater].
    cbn [split_go]. rewrite Hhere, (IH _ Hlater). cbn [rev]. now rewrite <- app_assoc.
Qed.

Lemma split_go_first (sep a b : str) : forall cur,
  sep <> [] -> Spec.firstPart a sep = true ->
  split_go sep 0 cur (a ++ sep ++ b) = (rev cur ++ a) :: split_go sep 0 [] b.
Proof.
  intros cur Hsep Hfirst. unfold Spec.firstPart in Hfirst. apply negb_true_iff in Hfirst.
  revert cur. induction a as [|c a IH]; intro cur.
  - destruct sep as [|p sep']; [congruence|].
    cbn [app split_go]. change (p :: sep' ++ b) with ((p :: sep') ++ b).
    rewrite startsWith_app. cbn [length Nat.sub]. rewrite Nat.sub_0_r.
    now rewrite split_go_pass, app_nil_r.
  - cbn [app includes] in Hfirst. apply orb_false_iff in Hfirst as [Hhere Hlater].
    assert (Hnot : startsWith (c :: a ++ sep ++ b) sep = false).
    { rewrite (app_removelast_last 0 Hsep) at 1.
      rewrite <- app_assoc, app_assoc.
      change (c :: (a ++ removelast sep) ++ [last sep 0] ++ b)
        with ((c :: a ++ removelast sep) ++ [last sep 0] ++ b).
      rewrite startsWith_long; [exact Hhere|].
      cbn [length]. rewrite length_app.
      assert (length sep = S (length (removelast sep))).
      { rewrite (app_removelast_last 0 Hsep) at 1. rewrite length_app. cbn [length].
        now rewrite Nat.add_1_r. }
      lia. }
    cbn [app split_go]. rewrite Hnot, (IH Hlater). cbn [rev]. now rewrite <- app_assoc.
Qed.

Lemma split_two (sep a b : str) :
  sep <> [] -> Spec.firstPart a sep = true -> includes b sep = false ->
  split (a ++ sep ++ b) sep = [a; b].
Proof.
  intros Hsep Ha Hb. unfold split.
  rewrite (split_go_first sep a b [] Hsep Ha), (split_go_none sep b [] Hb). reflexivity.
Qed.

Lemma toLowerCase_app lowerExt (a b : str) :
  toLowerCase lowerExt (a ++ b) = toLowerCase lowerExt a ++ toLowerCase lowerExt b.
Proof. apply map_app. Qed.

Lemma plainFilter_facts lowerExt (f : str) :
  Spec.plainFilter lowerExt f = true ->
  toLowerCase lowerExt f = f /\ Spec.startsPlain f = true
  /\ Spec.startsPlain (rev f) = true /\ trim f = f /\ normalized lowerExt f = f.
Proof.
  unfold Spec.plainFilter. intro H.
  apply andb_true_iff in H as [H Hlast]. apply andb_true_iff in H as [Hlow Hhead].
  apply eqb_str_eq in Hlow.
  assert (Htrim : trim f = f) by now apply trim_plain.
  repeat split; try assumption. unfold normalized. now rewrite Hlow.
Qed.

Lemma normalized_joined lowerExt (a sep b : str) :
  Spec.plainFilter lowerExt a = true -> Spec.plainFilter lowerExt b = true ->
  toLowerCase lowerExt sep = sep ->
  normalized lowerExt (a ++ sep ++ b) = a ++ sep ++ b.
Proof.
  intros Ha Hb Hsep.
  destruct (plainFilter_facts _ _ Ha) as (Hla & Hha & _).
  destruct (plainFilter_facts _ _ Hb) as (Hlb & _ & Hlast & _).
  unfold normalized. rewrite !toLowerCase_app, Hla, Hlb, Hsep.
  apply trim_plain; [now apply startsPlain_app|].
  rewrite !rev_app_distr, <- app_assoc. now apply startsPlain_app.
Qed.

(** X27.  What [and] means between two filters: when [a] and [b] are in
    lower case with no white space at their ends, [a] is what comes before
    the first [ and ] of the text and [b] holds none, [a and b] holds of a
    task exactly when [a] and [b] both do. *)
Theorem and_of_two_filters : forall lowerExt today task a b,
  Spec.plainFilter lowerExt a = true ->
  Spec.plainFilter lowerExt b = true ->
  Spec.firstPart a (lit " and ") = true ->
  includes b (lit " and ") = false ->
  applyFilter lowerExt today task (a ++ lit " and " ++ b)
  = applyFilter lowerExt today task a && applyFilter lowerExt today task b.
Proof.
  intros lowerExt today task a b Ha Hb Hfirst Hnone.
  destruct (plainFilter_facts _ _ Ha) as (_ & _ & _ & Hta & _).
  destruct (plainFilter_facts _ _ Hb) as (_ & _ & _ & Htb & _).
  rewrite applyFilter_eq, (normalized_joined lowerExt a (lit " and ") b Ha Hb eq_refl).
  rewrite (includes_app a (lit " and ") b).
  rewrite split_two by (assumption || discriminate).
  cbn [forallb]. now rewrite Hta, Htb, andb_true_r.
Qed.

Lemma and_of_two_filters_witness :
  let task := Spec.plainTask in_progress in
  (Spec.plainFilter Spec.asciiOnly (lit "not done") = true
   /\ Spec.plainFilter Spec.asciiOnly (lit "no due date or has tags") = true
   /\ Spec.firstPart (lit "not done") (lit " and ") = true
   /\ includes (lit "no due date or has tags") (lit " and ") = false)
  /\ applyFilter Spec.asciiOnly Spec.someDay task
       (lit "not done" ++ lit " and " ++ lit "no due date or has tags")
     = applyFilter Spec.asciiOnly Spec.someDay task (lit "not done")
       && applyFilter Spec.asciiOnly Spec.someDay task (lit "no due date or has tags").
Proof.
  intro task. split; [repeat split; reflexivity|].
  apply and_of_two_filters; reflexivity.
Defined.

(** X28.  What [or] means between two filters: when the text holds no
    [ and ], [a] and [b] are in lower case with no white space at their
    ends, [a] is what comes before the first [ or ] and [b] holds none,
    [a or b] holds of a task exactly when [a] or [b] does. *)
Theorem or_of_two_filters : forall lowerExt today task a b,
  Spec.plainFilter lowerExt a = true ->
  Spec.plainFilter lowerExt b = true ->
  includes (a ++ lit " or " ++ b) (lit " and ") = false ->
  Spec.firstPart a (lit " or ") = true ->
  includes b (lit " or ") = false ->
  applyFilter lowerExt today task (a ++ lit " or " ++ b)
  = applyFilter lowerExt today task a || applyFilter lowerExt today task b.
Proof.
  intros lowerExt today task a b Ha Hb Hand Hfirst Hnone.
  destruct (plainFilter_facts _ _ Ha) as (_ & _ & _ & Hta & _).
  destruct (plainFilter_facts _ _ Hb) as (_ & _ & _ & Htb & _).
  rewrite applyFilter_eq, (normalized_joined lowerExt a (lit " or ") b Ha Hb eq_refl).
  rewrite Hand, (includes_app a (lit " or ") b).
  rewrite split_two by (assumption || discriminate).
  cbn [existsb]. now rewrite Hta, Htb, orb_false_r.
Qed.

Lemma or_of_two_filters_witness :
  let task := Spec.plainTask cancelled in
  (Spec.plainFilter Spec.asciiOnly (lit "not done") = true
   /\ Spec.plainFilter Spec.asciiOnly (lit "cancelled") = true
   /\ includes (lit "not done" ++ lit " or " ++ lit "cancelled") (lit " and ") = false
   /\ Spec.firstPart (lit "not done") (lit " or ") = true
   /\ includes (lit "cancelled") (lit " or ") = false)
  /\ applyFilter Spec.asciiOnly Spec.someDay task
       (lit "not done" ++ lit " or " ++ lit "cancelled")
     = applyFilter Spec.asciiOnly Spec.someDay task (lit "not done")
       || applyFilter Spec.asciiOnly Spec.someDay task (lit "cancelled").
Proof.
  intro task. split; [repeat split; reflexivity|].
  apply or_of_two_filters; reflexivity.
Defined.

(** X29.  What [not] means in front of a filter: when the text holds no
    [ and ] and no [ or ], and [a] is in lower case with no white space at
    its ends and is not [done], [not a] holds of a task exactly when [a]
    does not.  ([not done] is a filter of its own: it leaves cancelled tasks
    out, which the negation of [done] would keep.) *)
Theorem not_of_a_filter : forall lowerExt today task a,
  Spec.plainFilter lowerExt a = true ->
  includes (lit "not " ++ a) (lit " and ") = false ->
  includes (lit "not " ++ a) (lit " or ") = false ->
  eqb_str a (lit "done") = false ->
  applyFilter lowerExt today task (lit "not " ++ a)
  = negb (applyFilter lowerExt today task a).
Proof.
  intros lowerExt today task a Ha Hand Hor Hdone.
  destruct (plainFilter_facts _ _ Ha) as (Hlow & _ & Hlast & _).
  assert (Hn : normalized lowerExt (lit "not " ++ a) = lit "not " ++ a).
  { unfold normalized. rewrite toLowerCase_app, Hlow.
    apply trim_plain; [reflexivity|].
    rewrite rev_app_distr. now apply startsPlain_app. }
  rewrite applyFilter_eq, Hn, Hand, Hor.
  rewrite (startsWith_app (lit "not ") a).
  assert (Hne : eqb_str (lit "not " ++ a) (lit "not done") = false).
  { destruct (eqb_str (lit "not " ++ a) (lit "not done")) eqn:E; [|reflexivity].
    apply eqb_str_eq in E. injection E as ->. discriminate. }
  rewrite Hne. reflexivity.
Qed.

Lemma not_of_a_filter_witness :
  let task := Spec.plainTask incomplete in
  (Spec.plainFilter Spec.asciiOnly (lit "has due date") = true
   /\ includes (lit "not " ++ lit "has due date") (lit " and ") = false
   /\ includes (lit "not " ++ lit "has due date") (lit " or ") = false
   /\ eqb_str (lit "has due date") (lit "done") = false)
  /\ applyFilter Spec.asciiOnly Spec.someDay task (lit "not " ++ lit "has due date")
     = negb (applyFilter Spec.asciiOnly Spec.someDay task (lit "has due date")).
Proof.
  intro task. split; [repeat split; reflexivity|].
  apply not_of_a_filter; reflexivity.
Defined.

(** ** The tag filter *)

Lemma includes_without_first (s pat : str) (p : char) (pat' : str) :
  pat = p :: pat' ->
  forallb (fun c => negb (c =? p)) s = true ->
  includes s pat = false.
Proof.
  intros -> Hs. induction s as [|c s IH]; [reflexivity|].
  cbn [forallb] in Hs. apply andb_true_iff in Hs as [Hc Hs]. apply negb_true_iff in Hc.
  cbn [includes startsWith]. now rewrite Hc, (IH Hs).
Qed.

Lemma startsWith_needs (s pat : str) (p : char) :
  In p pat -> forallb (fun c => negb (c =? p)) s = true -> startsWith s pat = false.
Proof.
  revert s. induction pat as [|q pat IH]; intros s Hin Hs; [destruct Hin|].
  destruct s as [|c s]; [reflexivity|].
  cbn [forallb] in Hs. apply andb_true_iff in Hs as [Hc Hs]. apply negb_true_iff in Hc.
  cbn [startsWith]. destruct Hin as [->|Hin]; [now rewrite Hc|].
  rewrite (IH s Hin Hs). apply andb_false_r.
Qed.

Section TagFilter.

Variable lowerExt : char -> char.
Variable today : str.
Variable task : Task.
Variable w : str.
Hypothesis Hplain : Spec.plainFilter lowerExt w = true.
Hypothesis Hword : forallb (fun c => negb (c =? ch " ")) w = true.

Lemma applyFilter_tag_includes :
  applyFilter lowerExt today task (lit "tag includes " ++ w)
  = existsb (fun tag => includes (toLowerCase lowerExt (dropHash tag)) (dropHash w))
      (tags task).
Proof.
  destruct (plainFilter_facts _ _ Hplain) as (Hlow & Hhead & Hlast & Htrim & _).
  assert (Hn : normalized lowerExt (lit "tag includes " ++ w) = lit "tag includes " ++ w)
    by (apply (normalized_joined lowerExt (lit "tag") (lit " includes ") w);
        (reflexivity || assumption)).
  assert (Hin : forall pat, In 32 pat -> startsWith w pat = false)
    by (intros pat Hpat; exact (startsWith_needs w pat (ch " ") Hpat Hword)).
  assert (Hno : forall pat', includes w (32 :: pat') = false)
    by (intro pat'; exact (includes_without_first w _ (ch " ") pat' eq_refl Hword)).
  assert (Hand : includes (lit "tag includes " ++ w) (lit " and ") = false).
  { cbn [lit map list_ascii_of_string app includes startsWith].
    cbn -[includes startsWith].
    rewrite (Hno [97; 110; 100; 32]), Hin; [reflexivity|]. cbn. tauto. }
  assert (Hor : includes (lit "tag includes " ++ w) (lit " or ") = false).
  { cbn [lit map list_ascii_of_string app includes startsWith].
    cbn -[includes startsWith].
    rewrite (Hno [111; 114; 32]), Hin; [reflexivity|]. cbn. tauto. }
  rewrite applyFilter_eq, Hn, Hand, Hor.
  change (startsWith (lit "tag includes " ++ w) (lit "not ")) with false.
  cbn [andb].
  unfold leafFilter, dueOnRegex, dueRelRegex, bind, dropTagIncludes, word.
  cbn -[includes toLowerCase trim dropHash existsb].
  rewrite startsWith_nil. cbn -[includes toLowerCase trim dropHash existsb].
  now rewrite Htrim.
Qed.

End TagFilter.

(** X30.  The tag filter looks for a word inside the tags, whatever their
    case and with or without the [#]: for a word in lower case that holds no
    space and does not start with [#], [tag includes] followed by the word,
    or by [#] and the word, holds of a task exactly when the word occurs in
    the lower-case form of one of its tags, the leading [#] of the tag left
    out. *)
Theorem tag_filter_ignores_hash_and_case : forall lowerExt today task w,
  Spec.plainFilter lowerExt w = true ->
  forallb (fun c => negb (c =? ch " ")) w = true ->
  startsWith w (lit "#") = false ->
  applyFilter lowerExt today task (lit "tag includes " ++ w)
  = existsb (fun tag => includes (toLowerCase lowerExt (dropHash tag)) w) (tags task)
  /\ applyFilter lowerExt today task (lit "tag includes #" ++ w)
     = existsb (fun tag => includes (toLowerCase lowerExt (dropHash tag)) w) (tags task).
Proof.
  intros lowerExt today task w Hplain Hword Hhash.
  destruct (plainFilter_facts _ _ Hplain) as (Hlow & Hhead & Hlast & _).
  assert (Hdrop : dropHash w = w).
  { destruct w as [|c r]; [reflexivity|]. cbn [startsWith lit map list_ascii_of_string] in Hhash.
    rewrite startsWith_nil, andb_true_r in Hhash. unfold dropHash.
    change (N_of_ascii "#") with (ch "#") in Hhash. now rewrite Hhash. }
  split.
  - rewrite (applyFilter_tag_includes lowerExt today task w Hplain Hword).
    now rewrite Hdrop.
  - assert (Hplain' : Spec.plainFilter lowerExt (ch "#" :: w) = true).
    { unfold Spec.plainFilter. cbn [toLowerCase map rev].
      fold (toLowerCase lowerExt w). rewrite Hlow.
      change (lowerChar lowerExt (ch "#")) with (ch "#").
      rewrite eqb_str_refl. cbn [andb Spec.startsPlain].
      change (negb (isWs (ch "#"))) with true. cbn [andb].
      now apply startsPlain_app. }
    assert (Hword' : forallb (fun c => negb (c =? ch " ")) (ch "#" :: w) = true)
      by (cbn [forallb]; now rewrite Hword).
    change (lit "tag includes #" ++ w) with (lit "tag includes " ++ ch "#" :: w).
    rewrite (applyFilter_tag_includes lowerExt today task _ Hplain' Hword').
    reflexivity.
Qed.

Lemma tag_filter_ignores_hash_and_case_witness :
  exists task,
    parseTaskLine (lit "- [ ] Call Ann #Work/Phone") (lit "notes.md") 1 = Some task
    /\ (Spec.plainFilter Spec.asciiOnly (lit "work") = true
        /\ forallb (fun c => negb (c =? ch " ")) (lit "work") = true
        /\ startsWith (lit "work") (lit "#") = false)
    /\ applyFilter Spec.asciiOnly Spec.someDay task (lit "tag includes " ++ lit "work")
       = existsb (fun tag => includes (toLowerCase Spec.asciiOnly (dropHash tag))
                               (lit "work")) (tags task)
    /\ applyFilter Spec.asciiOnly Spec.someDay task (lit "tag includes #" ++ lit "work")
       = existsb (fun tag => includes (toLowerCase Spec.asciiOnly (dropHash tag))
                               (lit "work")) (tags task).
Proof.
  eexists. split; [reflexivity|]. split; [repeat split; reflexivity|].
  apply tag_filter_ignores_hash_and_case; reflexivity.
Defined.
